(* ===== verification/_CoqProject ===== *)
-Q . S2P
Prelude.v
GoStrings.v
GoStrconv.v
GoTime.v
GoFlag.v
GoJson.v
Metadata.v
OptConfig.v
FeatureGate.v
ClassData.v
K8s.v
Sidecar.v
Injector.v
TelegrafConfig.v
PodController.v
Retry.v
Labels.v
Watches.v
Operator.v
CommandLine.v
Startup.v
Protocol.v
System.v
Queue.v
Delivery.v
UnitTests.v
ControllerTests.v
E2eUtils.v
