(* ===== verification/Prelude.v ===== *)
(** * Telegraf sidecar operator: a model and its proofs

    The operator injects a telegraf container into Kubernetes pods and creates,
    for each injected pod, the secret that holds its telegraf configuration.  Two
    independent handlers share the work, and the pod carries what one has to tell
    the other:

    - the mutating webhook ([internal/injectorwebhook]) sees a pod when it is
      created or updated.  If an annotation concerns telegraf it appends the
      container, a volume that mounts a secret, and two labels, one of which
      announces the name of that secret;
    - the reconciler ([internal/controller]) sees pods with these labels, builds
      the configuration from the annotations and from the data of a class
      ([internal/classdata]), and creates the announced secret, owned by the pod.

    [cmd/main.go] parses and checks the flags and wires the two;
    [internal/featuregate] holds three gates that both consult.

    ** Files

    - [Prelude]: results of Go calls (value, error, panic), Go maps with nil and
      with an unspecified iteration order ([MapRange]), shared lemmas, hints.
    - [GoStrings], [GoStrconv], [GoTime], [GoJson]: what the source uses of Go's
      [strings], [strconv], [time] and [encoding/json], over byte strings and [Z].
    - [Metadata]: [internal/metadata] (annotations.go, labels.go, common.go, util.go).
    - [OptConfig]: [internal/config/types.go].
    - [FeatureGate]: [internal/featuregate] (gate.go, flag.go, gates.go).  Gate
      objects live on a heap that the registry and the package variables share.
    - [ClassData]: [internal/classdata/classdata.go].  The file system is an
      argument of each operation; the two critical sections of [Update] are two
      steps, so that overlapping calls can be interleaved.
    - [K8s]: the API objects, and [resource.Quantity] as an interface with laws.
    - [Sidecar]: [internal/injectorwebhook/sidecar.go], one definition per block
      of [applyAnnotationOverrides] and [buildContainerSpec].
    - [Injector]: [internal/injectorwebhook/injector.go].  [Default] returns the
      object and the result of the call, since the pod is changed in place.
    - [TelegrafConfig]: [internal/controller/telegraf.go], one definition per
      block of [applyAnnotationOverrides] and [buildConfigData].
    - [PodController]: [internal/controller/pod_controller.go].  [lookup_pod] and
      [reconcile] make up [Reconcile]; [prepare] and [commit] make up [reconcile],
      and are the two steps of a worker in [worker_step].
    - [Watches]: [SetupWithManager] of the same file.  [requests_of] says for which
      pods an event calls [Reconcile]: a pod's own, if the predicates let it pass,
      or a secret's, through its controller.
    - [Retry]: the work queue's repeated calls of [Reconcile], in a world that
      changes between them.
    - [Labels]: the labels of the secret against Kubernetes' syntax for their values.
    - [Operator]: [cmd/main.go] after the flags are parsed, and the theorem that
      joins the two handlers.
    - [GoFlag]: what the source uses of Go's [flag], with a grammar of command
      lines next to the parser.
    - [CommandLine]: the flags that [cmd/main.go] and featuregate/flag.go declare,
      and [program], from the arguments to the operator; [flags_of] says what each
      variable holds after a list of settings.
    - [Startup]: the theorems on [program].
    - [Protocol]: the abstract specification, a state machine of announced places
      and the configurations provided for them.
    - [System]: the transition system of the webhook, the workers, the users and
      the other clients of a cluster, and its refinement of [Protocol].
    - [Queue]: the same cluster with the controller's work queue: events, waiting
      pods, restarts, and as many workers as cmd/main.go asks for.  Infinite runs
      of it carry the liveness theorems.
    - [Delivery]: from the stored secret to the file that the injected container
      reads, and the theorem on the whole operator.
    - [UnitTests], [ControllerTests]: the repository's own unit tests
      (featuregate/gate_test.go, injectorwebhook/injector_test.go,
      controller/pod_controller_test.go), run on the definitions above.
    - [E2eUtils]: test/utils/utils.go and the check of test/e2e/e2e_test.go, as
      interaction trees over the system calls that they make.

    ** What is assumed of other code

    Libraries that are not in the repository appear as type classes, whose
    operations the definitions take and whose laws state documented behaviour:
    [QuantityOps]/[QuantityLaws] (resource.ParseQuantity),
    [NameGenerator]/[NameGeneratorLaws] (SimpleNameGenerator), [Multierr],
    [Toml]/[TomlLaws] (BurntSushi/toml), the argument [toml_Parse] (influxdata/toml),
    [ApiClient]/[ApiServer] (the client and the API server behind it: a creation
    adds an object or finds its name taken, and after any other error the object
    may be stored or not),
    [OwnerReferences]/[OwnerReferencesLaws] (SetOwnerReference),
    [Predicates]/[PredicatesLaws] (event filters),
    [OwnerHandler]/[OwnerHandlerLaws] (the mapping of an owned object to its
    controller), [Selectors] (label selectors),
    [Kubelet]/[KubeletLaws] (the files of a container that mounts a secret),
    [LabelValidation] (an object with an invalid label is refused before it is
    stored),
    [ForeignFlags]/[ForeignFlagsLaws] (the flags that controller-runtime declares),
    [PodCache] (creating a secret changes no pod).  The steps of [System] and of
    [Queue] and the fields of [Attended], [Kept] and [Undisturbed] state what users,
    other clients, caches and controller-runtime's queue may do: users leave the
    operator's labels alone, a pod's containers and volumes are immutable, other
    clients do not write secrets with the operator's label, caches show what is or
    was there, a pod is worked on by one worker at a time.  [Fair] says that what
    waits is taken and what is begun goes on; it is a hypothesis of the liveness
    theorems alone.  Where a theorem supposes that a call succeeds ([healthy],
    [unhindered], and the theorems on the creation of a secret), it speaks of the
    one secret that is prepared for the pod at hand ([prepared]), never of all: the
    API server refuses invalid labels, and SetOwnerReference owners of another
    namespace, and so do the instances that the witnesses use.
    [Handler] is the repository's own interface [classdata.Handler], against which
    the configuration and the reconciler are proved; [directory_handler] and
    [directory_handler_ptr] are its implementations, the second one with the nil
    pointer that a failed start-up leaves.  Each class has a concrete instance next
    to the witnesses, so that every hypothesis is shown to hold somewhere.

    ** What the theorems show

    - The pair: an injected pod gets exactly the secret that its volume mounts
      ([injected_pod_gets_its_secret], proved from the lemmas of both handlers).
    - The whole system: every interleaving of requests, workers, restarts, users
      and other clients is a run of the protocol ([system_refines_protocol], by a
      forward simulation), so that every secret of the operator is owned and
      mounted by an injected pod alone ([secrets_are_mounted]); and the work on a
      pod ends by the first attempt that nothing hinders, only with its secret in
      place ([retry_serves]).  With the work queue the cluster is still a run of
      this system ([queue_simulation], a lemma); an announced pod is never forgotten
      and is served in the end ([queue_serves]).
    - The purpose: telegraf is started on a file that holds a configuration for the
      pod's own annotations ([telegraf_reads_its_configuration]), and every
      undisturbed injected pod gets to that point ([pods_get_configured]).
    - The start: the program runs exactly on the command lines of a grammar, with
      the last value of each flag ([command_line_spec]); it always ends without a
      panic ([program_terminates]), each flag exit has its cause ([flag_exits]),
      values and arguments correspond ([command_line_roundtrip]), and what the
      operator gets is typed ([program_typed]).
    - The webhook: its complete effect, with the container in every field
      ([Default_injects]), when it does nothing, idempotence, absence of panics, when
      the names stay unique, the container's settings, variables and mounts one by
      one, and the bounds and validity of the secret's name.
    - The configuration: settings, ports, the precedence of class, generated and
      raw parts, the complete list of failures, independence of map order, round
      trips of ports and intervals.
    - The reconciler: what it creates and when it does nothing, that it never
      overwrites a secret under any interleaving of workers, and what each failure
      records and may have stored.
    - Gates, flags and classes: the effect ([flagSet_spec]) and round trip of the
      gate flag, shared gate state, all-or-nothing refresh of the classes, also under
      concurrency.
    - The tests: the model passes the repository's unit tests, row by row and in
      every order of maps, or in two concrete ones where the rows build containers
      and configurations ([TestFlagValue_Set], [webhook_specs_pass],
      [controller_specs_pass], the last against the texts of the fixtures).
    - The helpers of the end-to-end test: each ends on every host; which commands
      it runs, where, and what it answers ([InstallCertManager_spec],
      [commands_run_in_project], [verifyControllerUp_spec]).
    - Where the code does not do what it means to, a theorem says what it does:
      [port_range], [class_failure_panics], [startup_settings],
      [watch_config_verbatim], [gate_flip_injects_twice], [injected_names_unique],
      [taken_name_succeeds], [overlapping_updates_lose],
      [deleted_secrets_stay_deleted], [secret_labels_bound],
      [env_order_unspecified], and the exception in [secret_name_valid].
      [boolean_flag_arguments] says where the flags' own rules surprise.

    ** Numbers and fuel

    Machine integers are in [Z] with their ranges as theorems: ports wrap at 16
    bits, metric versions at 8, durations are int64, and the parsers keep Go's
    64-bit accumulator with its overflow tests.  Recursion that is not structural
    takes fuel: trimming and lower-casing, with the length of the text, since each
    round consumes a byte ([strip_loop_done], [ToLower_fuel]); decimal formatting,
    with the logarithm of the number ([FormatUint_fuel]); [ParseDuration], with the
    length of the text ([ParseDuration_loop_fuel]); the JSON parser, with twice the
    length ([parse_json_fuel]); the loop of [flag.Parse], with the number of
    arguments, since each round consumes one ([Parse_loop_total],
    [Parse_loop_fuel]).  The named lemmas show that more fuel changes nothing.
    The attempts of [retry] are as many as the caller asks for, and its theorem
    says how many are needed.  The runs of [Queue] are infinite: functions from
    the step's number to the state.

    ** Not modelled

    Logging and the wording of messages (errors, warnings and events keep the data
    that their text renders); the code of controller-runtime, of which [Queue] states
    the documented behaviour that the operator relies on (the delays before a new
    attempt, being times, are not counted); effects of a request after the answer to
    it (in [System] another worker may hold the same secret and create it later, which
    comes to the same; in [Queue] there are none); the registration of types, handlers and
    probes; the usage text of package [flag]; [internal/version], two variables that
    the linker sets and that are only logged; of the tests, the set-up of the
    clusters they run on, the steps of the end-to-end test before its check (they
    are calls of [Run]), and the test of data races. *)
From Stdlib Require Export Ascii.
From stdpp Require Export prelude strings gmap sorting.

(** * Results of Go calls

    A Go function returning [(T, error)] is a value of [result E T]; a run-time
    panic (a write to a nil map, a nil dereference, an explicit [panic]) is the
    third constructor, so that "does not panic" is a theorem and not a
    convention. *)
Inductive result (E A : Type) : Type :=
| Ok (a : A)
| Err (e : E)
| Panic (why : string).
Arguments Ok {E A} a.
Arguments Err {E A} e.
Arguments Panic {E A} why.

Definition result_bind {E A B} (f : A → result E B) (r : result E A) : result E B :=
  match r with
  | Ok a => f a
  | Err e => Err e
  | Panic w => Panic w
  end.

#[export] Instance result_ret E : MRet (result E) := λ A a, Ok a.
#[export] Instance result_mbind E : MBind (result E) := λ A B f r, result_bind f r.

Definition panics {E A} (r : result E A) : bool :=
  match r with Panic _ => true | _ => false end.

Definition is_ok {E A} (r : result E A) : bool :=
  match r with Ok _ => true | _ => false end.

Section result_lemmas.
Context {E A B : Type}.
Implicit Types (r : result E A) (f : A → result E B).

Lemma bind_Ok_inv f r b : r ≫= f = Ok b → ∃ a, r = Ok a ∧ f a = Ok b.
Proof. destruct r; [eauto|discriminate..]. Qed.

Lemma panics_bind f r :
  panics r = false → (∀ a, r = Ok a → panics (f a) = false) → panics (r ≫= f) = false.
Proof. destruct r; simpl; eauto. Qed.

Lemma not_panics_cases r : panics r = false ↔ (∃ a, r = Ok a) ∨ (∃ e, r = Err e).
Proof. 
  destruct r; simpl; split; intros Hr; try done; eauto.
  by destruct Hr as [[? ?]|[? ?]].
Qed.
End result_lemmas.

(** * Go maps

    A Go map value may be nil: reading it finds nothing, ranging over it does
    nothing, and assigning to it panics. *)
Section go_maps.
Context {V : Type}.

Definition map_entries (m : option (gmap string V)) : gmap string V := default ∅ m.

Definition map_assign {E} (m : option (gmap string V)) (k : string) (v : V)
    : result E (option (gmap string V)) :=
  match m with
  | Some m => Ok (Some (<[k := v]> m))
  | None => Panic "assignment to entry in nil map"
  end.
End go_maps.

(** The iteration order of [for k, v := range m] is unspecified and may differ
    from one loop to the next.  The model takes the order as an instance of this
    class: [map_range site m] is the sequence of entries that the loop named
    [site] visits.  All that is known of it is that each entry is visited
    exactly once, so a theorem proved for every instance holds for every order
    the run-time may choose. *)
Class MapRange := {
  map_range : ∀ {V : Type}, string → gmap string V → list (string * V);
  map_range_perm : ∀ {V : Type} (site : string) (m : gmap string V),
    map_range site m ≡ₚ map_to_list m
}.

(** Two concrete orders, for evaluation. *)
Definition range_forward : MapRange.
Proof.
  refine {| map_range := λ V _ m, map_to_list m |}. reflexivity.
Defined.

Definition range_backward : MapRange.
Proof.
  refine {| map_range := λ V _ m, reverse (map_to_list m) |}.
  intros. apply reverse_Permutation.
Defined.

(** [for k, v := range src { dst[k] = v }] *)
Definition range_copy `{MapRange} {V} (site : string) (src dst : gmap string V)
    : gmap string V :=
  foldl (λ acc '(k, v), <[k := v]> acc) dst (map_range site src).

(** The same loop when [dst] may be nil. *)
Definition range_assign `{MapRange} {V E} (site : string) (src : gmap string V)
    (dst : option (gmap string V)) : result E (option (gmap string V)) :=
  foldl (λ acc '(k, v), dst ← acc; map_assign dst k v) (Ok dst) (map_range site src).

Section range_lemmas.
Context `{MapRange} {V : Type}.
Implicit Types (m src dst : gmap string V).

Lemma map_range_NoDup site m : NoDup (map_range site m).*1.
Proof. rewrite map_range_perm. apply NoDup_fst_map_to_list. Qed.

Lemma elem_of_map_range site m k v : (k, v) ∈ map_range site m ↔ m !! k = Some v.
Proof. rewrite map_range_perm. apply elem_of_map_to_list. Qed.

Lemma map_range_length site m : length (map_range site m) = size m.
Proof. rewrite map_range_perm. apply length_map_to_list. Qed.

Lemma map_range_empty site : map_range site (∅ : gmap string V) = [].
Proof. apply Permutation_nil_r. rewrite map_range_perm. by rewrite map_to_list_empty. Qed.

Lemma foldl_insert_lookup (l : list (string * V)) dst i :
  NoDup l.*1 →
  foldl (λ acc '(k, v), <[k := v]> acc) dst l !! i =
  match (list_to_map l : gmap string V) !! i with Some v => Some v | None => dst !! i end.
Proof.
  revert dst. induction l as [|[k v] l IH]; intros dst; csimpl; intros Hnd.
  { by rewrite lookup_empty. }
  apply NoDup_cons in Hnd as [Hk Hnd]. rewrite IH by done.
  rewrite !lookup_insert. case_decide as Hki; [subst|done].
  by rewrite (proj1 (not_elem_of_list_to_map l i) Hk).
Qed.

(** Copying a map entry by entry is the union in which the source wins. *)
Lemma range_copy_union site src dst : range_copy site src dst = src ∪ dst.
Proof.
  apply map_eq. intros i. unfold range_copy.
  rewrite foldl_insert_lookup by apply map_range_NoDup.
  rewrite (list_to_map_proper _ _ (map_range_NoDup site src) (map_range_perm site src)),
    list_to_map_to_list, lookup_union.
  by destruct (src !! i), (dst !! i).
Qed.

Lemma range_assign_Some {E} site src dst :
  range_assign (E:=E) site src (Some dst) = Ok (Some (src ∪ dst)).
Proof.
  rewrite <- (range_copy_union site). unfold range_assign, range_copy.
  generalize (map_range site src). intros l. revert dst.
  induction l as [|[k v] l IH]; intros dst; [done|]. apply IH.
Qed.

(** [for k, v := range m { if p(k, v) { return true } }; return false] *)
Lemma existsb_map_range site m (p : string * V → bool) :
  existsb p (map_range site m) = true ↔ ∃ k v, m !! k = Some v ∧ p (k, v) = true.
Proof.
  rewrite existsb_exists. split.
  - intros ([k v] & Hin & Hp). exists k, v. split; [|done].
    apply elem_of_map_range with site. by apply list_elem_of_In.
  - intros (k & v & Hm & Hp). exists (k, v). split; [|done].
    apply list_elem_of_In. by apply elem_of_map_range.
Qed.
End range_lemmas.

(** * Automation *)

(** Case analysis on the tests of the code followed by clean-up. *)
Ltac go_cases := repeat (case_match; simplify_eq/=).

Create Rewrite HintDb gostr.
Create HintDb gomap.
Create Rewrite HintDb gomap.
#[export] Hint Rewrite @range_copy_union @range_assign_Some : gomap.
#[export] Hint Resolve map_range_NoDup : gomap.
