(* ===== verification/GoStrings.v ===== *)
(** The functions of Go's package [strings] that the operator calls, on byte
    strings.  A Go [string] is a sequence of bytes, here Rocq's [string] of
    8-bit characters; nothing assumes valid UTF-8.  Separators and cut sets are
    single ASCII bytes, the only ones the operator passes. *)
From S2P Require Import Prelude.

(** ** Byte-string basics *)

Lemma string_app_nil_l s : "" +:+ s = s.
Proof. reflexivity. Qed.

Lemma string_app_cons c s t : String c s +:+ t = String c (s +:+ t).
Proof. reflexivity. Qed.

Lemma string_app_nil_r s : s +:+ "" = s.
Proof. induction s as [|c s IH]; [done|]. by rewrite string_app_cons, IH. Qed.

Lemma string_app_assoc s t u : (s +:+ t) +:+ u = s +:+ (t +:+ u).
Proof. induction s as [|c s IH]; [done|]. by rewrite !string_app_cons, IH. Qed.

Lemma string_length_app s t : String.length (s +:+ t) = String.length s + String.length t.
Proof. induction s as [|c s IH]; [done|]. rewrite string_app_cons; simpl. by rewrite IH. Qed.

#[export] Hint Rewrite string_app_nil_l string_app_cons string_app_nil_r
  string_app_assoc string_length_app : gostr.

(** [s[n:]] and [s[:n]]; past the end they give the empty string and [s], where
    Go panics: the callers below only slice inside the string. *)
Fixpoint str_drop (n : nat) (s : string) : string :=
  match n, s with
  | 0, _ => s
  | S n, String _ s => str_drop n s
  | S _, "" => ""
  end.

Fixpoint str_take (n : nat) (s : string) : string :=
  match n, s with
  | 0, _ => ""
  | S n, String c s => String c (str_take n s)
  | S _, "" => ""
  end.

Lemma str_drop_app s t : str_drop (String.length s) (s +:+ t) = t.
Proof. induction s as [|c s IH]; [done|]. apply IH. Qed.

Lemma str_take_drop n s : str_take n s +:+ str_drop n s = s.
Proof.
  revert s. induction n as [|n IH]; intros [|c s]; try done; simpl.
  by rewrite string_app_cons, IH.
Qed.

Lemma str_take_length n s : String.length (str_take n s) = n `min` String.length s.
Proof. revert s. induction n as [|n IH]; intros [|c s]; simpl; by rewrite ?IH. Qed.

Lemma str_take_all n s : String.length s ≤ n → str_take n s = s.
Proof.
  revert s. induction n as [|n IH]; intros [|c s]; simpl; intros; try done; [lia|].
  by rewrite IH by lia.
Qed.

Lemma str_take_take n m s : str_take n (str_take m s) = str_take (n `min` m) s.
Proof. revert m s. induction n as [|n IH]; intros [|m] [|c s]; simpl; by rewrite ?IH. Qed.

(** All bytes of a string satisfy a test. *)
Fixpoint str_forallb (p : ascii → bool) (s : string) : bool :=
  match s with "" => true | String c s => p c && str_forallb p s end.

Lemma str_forallb_app p s t : str_forallb p (s +:+ t) = str_forallb p s && str_forallb p t.
Proof.
  induction s as [|c s IH]; [done|]. rewrite string_app_cons; simpl. rewrite IH.
  by destruct (p c).
Qed.

Lemma str_forallb_impl (p q : ascii → bool) s :
  (∀ c, p c = true → q c = true) → str_forallb p s = true → str_forallb q s = true.
Proof.
  intros Hpq. induction s as [|c s IH]; [done|]; simpl.
  intros [Hc Hs]%andb_true_iff. by rewrite (Hpq c), IH.
Qed.

(** Byte reversal (used to state the suffix operations as prefix ones). *)
Lemma string_rev_app_spec s t : String.rev_app s t = String.rev s +:+ t.
Proof.
  unfold String.rev. revert t. induction s as [|c s IH]; intros t; [done|]; simpl.
  rewrite IH, (IH (String c "")). by rewrite string_app_assoc.
Qed.

Lemma string_rev_cons c s : String.rev (String c s) = String.rev s +:+ String c "".
Proof. unfold String.rev at 1; simpl. apply string_rev_app_spec. Qed.

Lemma string_rev_app s t : String.rev (s +:+ t) = String.rev t +:+ String.rev s.
Proof.
  induction s as [|c s IH]; [by rewrite string_app_nil_l, string_app_nil_r|].
  by rewrite string_app_cons, !string_rev_cons, IH, string_app_assoc.
Qed.

Lemma string_rev_involutive s : String.rev (String.rev s) = s.
Proof. induction s as [|c s IH]; [done|]. by rewrite string_rev_cons, string_rev_app, IH. Qed.

Lemma string_rev_length s : String.length (String.rev s) = String.length s.
Proof.
  induction s as [|c s IH]; [done|].
  rewrite string_rev_cons, string_length_app, IH; simpl. lia.
Qed.

(** ** HasPrefix, TrimPrefix, TrimSuffix, Contains *)

Fixpoint HasPrefix (s prefix : string) {struct prefix} : bool :=
  match prefix, s with
  | "", _ => true
  | String p prefix, String c s => bool_decide (p = c) && HasPrefix s prefix
  | String _ _, "" => false
  end.

Definition TrimPrefix (s prefix : string) : string :=
  if HasPrefix s prefix then str_drop (String.length prefix) s else s.

Definition TrimSuffix (s suffix : string) : string :=
  String.rev (TrimPrefix (String.rev s) (String.rev suffix)).

Fixpoint Contains (s sub : string) : bool :=
  HasPrefix s sub || match s with "" => false | String _ s => Contains s sub end.

Lemma HasPrefix_spec s p : HasPrefix s p = true ↔ ∃ t, s = p +:+ t.
Proof.
  revert s. induction p as [|c p IH]; intros s.
  { split; [by exists s|by destruct s]. }
  destruct s as [|d s]; simpl.
  { split; [done|]. intros [t Ht]. by rewrite string_app_cons in Ht. }
  rewrite andb_true_iff, bool_decide_eq_true, IH. split.
  - intros [-> [t ->]]. exists t. by rewrite string_app_cons.
  - intros [t Ht]. rewrite string_app_cons in Ht. simplify_eq. eauto.
Qed.

Lemma HasPrefix_app p t : HasPrefix (p +:+ t) p = true.
Proof. apply HasPrefix_spec. eauto. Qed.

Lemma TrimPrefix_app p t : TrimPrefix (p +:+ t) p = t.
Proof. unfold TrimPrefix. rewrite HasPrefix_app. apply str_drop_app. Qed.

Lemma TrimPrefix_length s p : String.length (TrimPrefix s p) ≤ String.length s.
Proof.
  unfold TrimPrefix. destruct (HasPrefix s p) eqn:E; [|done].
  apply HasPrefix_spec in E as [t ->]. rewrite str_drop_app, string_length_app. lia.
Qed.

Lemma Contains_spec s sub : Contains s sub = true ↔ ∃ u v, s = u +:+ sub +:+ v.
Proof.
  induction s as [|c s IH]; simpl; rewrite orb_true_iff, HasPrefix_spec.
  - split; [|by intros ([|] & v & H); [left; exists v|]].
    intros [[t Ht]|?]; [by exists "", t|done].
  - rewrite IH. split.
    + intros [[t Ht]|(u & v & ->)]; [by exists "", t|].
      by exists (String c u), v.
    + intros ([|d u] & v & Huv); [left; by exists v|].
      rewrite string_app_cons in Huv. simplify_eq. right. eauto.
Qed.

(** ** Split, SplitN and Join *)

(** [strings.Split(s, sep)] *)
Fixpoint Split (s : string) (sep : ascii) : list string :=
  match s with
  | "" => [""]
  | String c s =>
      if bool_decide (c = sep) then "" :: Split s sep
      else match Split s sep with
           | h :: t => String c h :: t
           | [] => [String c ""]
           end
  end.

(** [strings.SplitN(s, sep, 2)] *)
Fixpoint SplitN2 (s : string) (sep : ascii) : list string :=
  match s with
  | "" => [""]
  | String c s =>
      if bool_decide (c = sep) then [""; s]
      else match SplitN2 s sep with
           | h :: t => String c h :: t
           | [] => [String c ""]
           end
  end.

(** [strings.Join(elems, sep)] *)
Fixpoint Join (elems : list string) (sep : string) : string :=
  match elems with
  | [] => ""
  | [e] => e
  | e :: elems => e +:+ sep +:+ Join elems sep
  end.

(** The byte [sep] does not occur in [s]. *)
Definition free_of (sep : ascii) (s : string) : bool :=
  str_forallb (λ c, bool_decide (c ≠ sep)) s.

Lemma Split_cons s sep : ∃ h t, Split s sep = h :: t.
Proof. destruct s as [|c s]; simpl; [eauto|]. repeat case_match; eauto. Qed.

Lemma Split_free s sep : Forall (λ p, free_of sep p = true) (Split s sep).
Proof.
  induction s as [|c s IH]; simpl; [by repeat constructor|].
  case_bool_decide as Hc; [by constructor|].
  destruct (Split_cons s sep) as (h & t & E). rewrite E in *.
  apply Forall_cons in IH as [Hh Ht]. constructor; [|done].
  unfold free_of in *; simpl. by rewrite bool_decide_eq_true_2.
Qed.

Lemma Join_Split s sep : Join (Split s sep) (String sep "") = s.
Proof.
  induction s as [|c s IH]; [done|]; simpl.
  destruct (Split_cons s sep) as (h & t & E). rewrite E in *.
  case_bool_decide as Hc.
  - subst. simpl. rewrite string_app_nil_l, string_app_cons, string_app_nil_l.
    by f_equal.
  - destruct t as [|h' t]; simpl in *; [by rewrite IH|].
    by rewrite string_app_cons, IH.
Qed.

Lemma Split_free_app p sep s :
  free_of sep p = true → Split (p +:+ String sep s) sep = p :: Split s sep.
Proof.
  unfold free_of. induction p as [|c p IH]; rewrite ?string_app_nil_l, ?string_app_cons; simpl.
  { by rewrite bool_decide_eq_true_2. }
  intros [Hc Hp]%andb_true_iff. apply bool_decide_eq_true in Hc.
  rewrite bool_decide_eq_false_2, IH; done.
Qed.

Lemma Split_free_self p sep : free_of sep p = true → Split p sep = [p].
Proof.
  unfold free_of. induction p as [|c p IH]; simpl; [done|].
  intros [Hc Hp]%andb_true_iff. apply bool_decide_eq_true in Hc.
  by rewrite bool_decide_eq_false_2, IH.
Qed.

(** Splitting what [Join] produced gives the pieces back. *)
Lemma Split_Join l sep :
  l ≠ [] → Forall (λ p, free_of sep p = true) l → Split (Join l (String sep "")) sep = l.
Proof.
  intros Hne Hl. induction Hl as [|p l Hp Hl IH]; [done|].
  destruct l as [|q l]; [by apply Split_free_self|].
  change (Join (p :: q :: l) (String sep ""))
    with (p +:+ String sep "" +:+ Join (q :: l) (String sep "")).
  rewrite string_app_cons, string_app_nil_l, Split_free_app by done.
  by rewrite IH.
Qed.

(** [SplitN(s, sep, 2)] cuts at the first separator, and only there. *)
Lemma SplitN2_app p sep s :
  free_of sep p = true → SplitN2 (p +:+ String sep s) sep = [p; s].
Proof.
  unfold free_of. induction p as [|c p IH]; rewrite ?string_app_nil_l, ?string_app_cons; simpl.
  { by rewrite bool_decide_eq_true_2. }
  intros [Hc Hp]%andb_true_iff. apply bool_decide_eq_true in Hc.
  rewrite bool_decide_eq_false_2, IH; done.
Qed.

Lemma SplitN2_self p sep : free_of sep p = true → SplitN2 p sep = [p].
Proof.
  unfold free_of. induction p as [|c p IH]; simpl; [done|].
  intros [Hc Hp]%andb_true_iff. apply bool_decide_eq_true in Hc.
  by rewrite bool_decide_eq_false_2, IH.
Qed.

Lemma split_at_first s sep :
  free_of sep s = true ∨ ∃ p t, s = p +:+ String sep t ∧ free_of sep p = true.
Proof.
  unfold free_of. induction s as [|c s IH]; [by left|].
  destruct (decide (c = sep)) as [->|Hc]; [right; by exists "", s|].
  destruct IH as [IH|(p & t & -> & Hp)]; simpl; [left|right].
  - by rewrite bool_decide_eq_true_2.
  - exists (String c p), t. rewrite string_app_cons; simpl.
    by rewrite bool_decide_eq_true_2.
Qed.

(** ** TrimSpace

    [strings.TrimSpace] removes from both ends the runes of Unicode's White_Space
    property ([unicode.IsSpace]).  On bytes: it removes, as long as there is one,
    a leading or trailing UTF-8 encoding of such a rune.  UTF-8 being prefix-free
    and self-synchronising, the string starts (ends) with the encoding of a space
    exactly when the first (last) decoded rune is that space; an invalid sequence
    decodes to U+FFFD, which is not a space, and stops the loop as here. *)
Definition byte (n : nat) : ascii := ascii_of_nat n.

Definition str_of_bytes (l : list nat) : string :=
  foldr (λ n s, String (byte n) s) "" l.

Definition space_encodings : list string :=
  str_of_bytes <$>
    ([[9]; [10]; [11]; [12]; [13]; [32]                 (* \t \n \v \f \r ' ' *)
     ; [194; 133]; [194; 160]                           (* U+0085, U+00A0 *)
     ; [225; 154; 128]]                                 (* U+1680 *)
     ++ ((λ n, [226; 128; n]) <$> seq 128 11)           (* U+2000 .. U+200A *)
     ++ [[226; 128; 168]; [226; 128; 169]               (* U+2028, U+2029 *)
        ; [226; 128; 175]; [226; 129; 159]              (* U+202F, U+205F *)
        ; [227; 128; 128]]).                            (* U+3000 *)

Definition space_encodings_rev : list string := String.rev <$> space_encodings.

(** Remove one leading member of [encs], if there is one. *)
Definition strip_one (encs : list string) (s : string) : option string :=
  match List.find (HasPrefix s) encs with
  | Some e => Some (str_drop (String.length e) s)
  | None => None
  end.

(** Each round removes at least one byte, so the length of the string is fuel
    enough for the loop to end by itself ([strip_all_done]). *)
Fixpoint strip_loop (fuel : nat) (encs : list string) (s : string) : string :=
  match fuel with
  | 0 => s
  | S fuel =>
      match strip_one encs s with
      | Some s => strip_loop fuel encs s
      | None => s
      end
  end.

Definition strip_all (encs : list string) (s : string) : string :=
  strip_loop (String.length s) encs s.

Definition TrimSpace (s : string) : string :=
  String.rev (strip_all space_encodings_rev (String.rev (strip_all space_encodings s))).

Lemma strip_one_shorter encs s s' :
  Forall (λ e, 0 < String.length e) encs →
  strip_one encs s = Some s' → String.length s' < String.length s.
Proof.
  unfold strip_one. intros He H. case_match eqn:Hf; simplify_eq.
  apply List.find_some in Hf as [Hin [t ->]%HasPrefix_spec].
  rewrite Forall_forall in He.
  match type of Hin with In ?e _ => specialize (He e) end.
  rewrite list_elem_of_In in He. specialize (He Hin).
  rewrite str_drop_app, string_length_app. lia.
Qed.

Lemma strip_loop_done fuel encs s :
  Forall (λ e, 0 < String.length e) encs → String.length s ≤ fuel →
  strip_one encs (strip_loop fuel encs s) = None.
Proof.
  intros He. revert s. induction fuel as [|fuel IH]; intros s Hs; simpl.
  - destruct (strip_one encs s) as [s'|] eqn:E; [|done].
    apply strip_one_shorter in E; [lia|done].
  - destruct (strip_one encs s) as [s'|] eqn:E; [|done].
    apply IH. apply strip_one_shorter in E; [lia|done].
Qed.

Lemma space_encodings_pos : Forall (λ e, 0 < String.length e) space_encodings.
Proof. apply Forall_forall. intros e He. repeat (apply elem_of_cons in He as [->|He]; [simpl; lia|]). by apply elem_of_nil in He. Qed.

Lemma strip_loop_id fuel encs s : strip_one encs s = None → strip_loop fuel encs s = s.
Proof. intros H. destruct fuel; simpl; by rewrite ?H. Qed.

(** A string that neither starts nor ends with a space is left alone. *)
Definition trimmed (s : string) : bool :=
  bool_decide (strip_one space_encodings s = None) &&
  bool_decide (strip_one space_encodings_rev (String.rev s) = None).

Lemma TrimSpace_trimmed s : trimmed s = true → TrimSpace s = s.
Proof.
  unfold trimmed, TrimSpace, strip_all. intros [H1 H2]%andb_true_iff.
  apply bool_decide_eq_true in H1, H2.
  rewrite (strip_loop_id _ _ s) by done. rewrite strip_loop_id by done.
  apply string_rev_involutive.
Qed.

Lemma str_forallb_rev p s : str_forallb p (String.rev s) = str_forallb p s.
Proof.
  induction s as [|c s IH]; [done|]. rewrite string_rev_cons, str_forallb_app, IH; simpl.
  by destruct (p c), (str_forallb p s).
Qed.

(** No encoding of [encs] starts with a byte in [p]. *)
Definition heads_avoid (p : ascii → bool) (encs : list string) : bool :=
  forallb (λ e, match e with String c _ => negb (p c) | "" => false end) encs.

Lemma strip_one_avoid p encs s :
  heads_avoid p encs = true → str_forallb p s = true → strip_one encs s = None.
Proof.
  intros He Hs. unfold strip_one. destruct (List.find _ encs) as [e|] eqn:E; [|done].
  apply List.find_some in E as [Hin Hp%HasPrefix_spec].
  unfold heads_avoid in He. rewrite forallb_forall in He. specialize (He e Hin).
  destruct e as [|c e]; [done|]. destruct Hp as [t ->].
  rewrite str_forallb_app in Hs; simpl in Hs. by destruct (p c).
Qed.

Lemma trimmed_avoid p s :
  heads_avoid p space_encodings = true → heads_avoid p space_encodings_rev = true →
  str_forallb p s = true → trimmed s = true.
Proof.
  intros H1 H2 Hs. unfold trimmed.
  rewrite !bool_decide_eq_true_2; [done| |]; eapply strip_one_avoid; eauto.
  by rewrite str_forallb_rev.
Qed.

(** ** Trim, ReplaceAll, ToLower *)

Definition in_cutset (cutset : list ascii) (c : ascii) : bool := bool_decide (c ∈ cutset).

Fixpoint TrimLeft (s : string) (cutset : list ascii) : string :=
  match s with
  | "" => ""
  | String c s' => if in_cutset cutset c then TrimLeft s' cutset else s
  end.

(** [strings.Trim(s, cutset)] for an ASCII cut set *)
Definition Trim (s : string) (cutset : list ascii) : string :=
  String.rev (TrimLeft (String.rev (TrimLeft s cutset)) cutset).

(** [strings.ReplaceAll(s, c, "")] for a one-byte [c] *)
Fixpoint RemoveAll (s : string) (c : ascii) : string :=
  match s with
  | "" => ""
  | String d s => if bool_decide (d = c) then RemoveAll s c else String d (RemoveAll s c)
  end.

Lemma RemoveAll_free s c : free_of c (RemoveAll s c) = true.
Proof.
  unfold free_of. induction s as [|d s IH]; [done|]; simpl.
  case_bool_decide as Hd; [done|]; simpl. by rewrite bool_decide_eq_true_2.
Qed.

Definition lower_byte (c : ascii) : ascii :=
  let n := nat_of_ascii c in
  if (65 <=? n) && (n <=? 90) then byte (n + 32) else c.

(** [strings.ToLower], as far as a comparison with an ASCII string can see:
    ASCII letters are lowered, and so are the only two other runes whose
    lower-case form is ASCII, U+0130 (to [i]) and U+212A (to [k]).  Every other
    non-ASCII rune stays non-ASCII in Go as it does here. *)
Definition lower_specials : list (string * string) :=
  [(str_of_bytes [196; 176], "i"); (str_of_bytes [226; 132; 170], "k")].

Fixpoint ToLower_go (fuel : nat) (s : string) : string :=
  match fuel, s with
  | 0, _ | _, "" => ""
  | S fuel, String c s' =>
      match List.find (λ e, HasPrefix s e.1) lower_specials with
      | Some (e, l) => l +:+ ToLower_go fuel (str_drop (String.length e) s)
      | None => String (lower_byte c) (ToLower_go fuel s')
      end
  end.

Definition ToLower (s : string) : string := ToLower_go (String.length s) s.

(** Every round consumes a byte: the length is fuel enough. *)
Lemma ToLower_fuel fuel1 fuel2 s :
  String.length s ≤ fuel1 → String.length s ≤ fuel2 → ToLower_go fuel1 s = ToLower_go fuel2 s.
Proof.
  revert fuel2 s. induction fuel1 as [|fuel1 IH]; intros [|fuel2] [|c s] H1 H2;
    try (simpl in *; lia); try done.
  cbn [ToLower_go]. destruct (List.find _ lower_specials) as [[e l]|] eqn:E.
  - apply List.find_some in E as [Hin [t Ht]%HasPrefix_spec]. cbn [fst] in Ht. rewrite Ht in *.
    rewrite str_drop_app, string_length_app in *.
    assert (0 < String.length e) by (destruct Hin as [[= <- _]|[[= <- _]|[]]]; simpl; lia).
    by rewrite (IH fuel2) by lia.
  - simpl in H1, H2. by rewrite (IH fuel2) by lia.
Qed.

Example trim_ex : TrimSpace "  8080	" = "8080". Proof. vm_compute. reflexivity. Qed.
Example lower_ex : ToLower "INotify" = "inotify". Proof. vm_compute. reflexivity. Qed.
