(* ===== verification/GoStrconv.v ===== *)
(** The functions of Go's package [strconv] that the operator calls: [ParseUint]
    and [ParseInt] in base 10 at a given bit size, [ParseBool], and decimal
    formatting.  Machine integers are in [Z]; the 64-bit accumulator of
    [ParseUint] is kept inside its width by the same two tests as in Go. *)
From S2P Require Import Prelude GoStrings.
Local Open Scope Z_scope.

Inductive NumError := ErrSyntax | ErrRange.

#[export] Instance NumError_eq_dec : EqDecision NumError.
Proof. solve_decision. Defined.

(** ** Bytes and digits *)

Definition byte_val (c : ascii) : Z := Z.of_nat (nat_of_ascii c).

Definition digit_val (c : ascii) : option Z :=
  let n := byte_val c in
  if (48 <=? n) && (n <=? 57) then Some (n - 48) else None.

Definition digit_char (d : Z) : ascii := byte (Z.to_nat (48 + d)).

Lemma digit_val_char d : 0 <= d < 10 → digit_val (digit_char d) = Some d.
Proof.
  intros Hd.
  assert (d = 0 ∨ d = 1 ∨ d = 2 ∨ d = 3 ∨ d = 4 ∨ d = 5 ∨ d = 6 ∨ d = 7 ∨ d = 8 ∨ d = 9) as Hc
    by lia.
  by repeat (destruct Hc as [->|Hc]; [reflexivity|]); subst.
Qed.

Lemma digit_val_range c d : digit_val c = Some d → 0 <= d < 10.
Proof. unfold digit_val. intros H. case_match eqn:E; [|done]. simplify_eq. lia. Qed.

(** ** Parsing *)

Definition max_uint (bitSize : Z) : Z := 2 ^ bitSize - 1.

(** The loop of [ParseUint(s, 10, bitSize)]: [cutoff] is [maxUint64/10 + 1], the
    smallest accumulator whose product by ten overflows 64 bits. *)
Definition uint64_cutoff : Z := max_uint 64 `div` 10 + 1.

Fixpoint ParseUint_loop (bitSize n : Z) (s : string) : result NumError Z :=
  match s with
  | "" => Ok n
  | String c s =>
      match digit_val c with
      | None => Err ErrSyntax
      | Some d =>
          if uint64_cutoff <=? n then Err ErrRange
          else
            let n1 := (n * 10 + d) `mod` 2 ^ 64 in
            if (n1 <? n * 10) || (max_uint bitSize <? n1) then Err ErrRange
            else ParseUint_loop bitSize n1 s
      end
  end.

Definition ParseUint (s : string) (bitSize : Z) : result NumError Z :=
  match s with
  | "" => Err ErrSyntax
  | _ => ParseUint_loop bitSize 0 s
  end.

(** Sign, magnitude and the signed range test of [ParseInt(s, 10, bitSize)].
    A range error of the magnitude stays a range error: Go's [un] is then the
    largest unsigned value, beyond both cut-offs. *)
Definition cutSign (s : string) : bool * string :=
  match s with
  | String c s' =>
      if bool_decide (c = "+"%char) then (false, s')
      else if bool_decide (c = "-"%char) then (true, s')
      else (false, s)
  | "" => (false, s)
  end.

Definition ParseInt (s : string) (bitSize : Z) : result NumError Z :=
  match s with
  | "" => Err ErrSyntax
  | _ =>
      let '(neg, s) := cutSign s in
      match ParseUint s bitSize with
      | Ok un =>
          let cutoff := 2 ^ (bitSize - 1) in
          if negb neg && (cutoff <=? un) then Err ErrRange
          else if neg && (cutoff <? un) then Err ErrRange
          else Ok (if neg then - un else un)
      | Err e => Err e
      | Panic w => Panic w
      end
  end.

Definition ParseBool (s : string) : result NumError bool :=
  if bool_decide (s ∈ ["1"; "t"; "T"; "true"; "TRUE"; "True"]) then Ok true
  else if bool_decide (s ∈ ["0"; "f"; "F"; "false"; "FALSE"; "False"]) then Ok false
  else Err ErrSyntax.

(** ** Formatting *)

(** [fmt.Sprintf("%d", n)] for [n >= 0], digits produced from the least
    significant one.  Fuel: one unit per digit; [2 + log2 n] is enough
    ([fmt_uint_parse]). *)
Fixpoint fmt_digits (fuel : nat) (n : Z) (acc : string) : string :=
  match fuel with
  | O => acc
  | S fuel =>
      let acc := String (digit_char (n `mod` 10)) acc in
      if n <? 10 then acc else fmt_digits fuel (n `div` 10) acc
  end.

Definition FormatUint (n : Z) : string := fmt_digits (S (S (Z.to_nat (Z.log2 n)))) n "".

Definition FormatInt (n : Z) : string :=
  if n <? 0 then String "-" (FormatUint (- n)) else FormatUint n.

Definition FormatBool (b : bool) : string := if b then "true" else "false".

Example fmt_ex1 : FormatInt (-9223372036854775808) = "-9223372036854775808".
Proof. vm_compute. reflexivity. Qed.
Example parse_ex1 : ParseInt "40000" 16 = Err ErrRange.
Proof. vm_compute. reflexivity. Qed.
Example parse_ex2 : ParseInt "-1" 16 = Ok (-1).
Proof. vm_compute. reflexivity. Qed.
Example parse_ex3 : ParseUint "18446744073709551616" 64 = Err ErrRange.
Proof. vm_compute. reflexivity. Qed.
Example parse_ex4 : ParseInt " 1" 16 = Err ErrSyntax.
Proof. vm_compute. reflexivity. Qed.

(** ** Bounds *)

Lemma ParseUint_loop_bounds bitSize n s r :
  0 <= bitSize <= 64 → 0 <= n <= max_uint bitSize →
  ParseUint_loop bitSize n s = Ok r → n <= r ∧ 0 <= r <= max_uint bitSize.
Proof.
  intros Hb. revert n. induction s as [|c s IH]; intros n Hn H; simpl in H.
  { simplify_eq. lia. }
  destruct (digit_val c) as [d|] eqn:Hd; [|done].
  apply digit_val_range in Hd.
  case_match eqn:Hcut; [done|]. case_match eqn:Hov; [done|].
  apply Z.leb_gt in Hcut. apply orb_false_iff in Hov as [H1 H2].
  apply Z.ltb_ge in H1, H2.
  assert (0 <= (n * 10 + d) `mod` 2 ^ 64) by (apply Z.mod_pos_bound; lia).
  apply IH in H; [|lia]. lia.
Qed.

Lemma ParseUint_bounds s bitSize n :
  0 <= bitSize <= 64 → ParseUint s bitSize = Ok n → 0 <= n < 2 ^ bitSize.
Proof.
  intros Hb H. destruct s as [|c s]; [done|]. unfold ParseUint in H.
  apply ParseUint_loop_bounds in H; [unfold max_uint in H; lia|done|].
  unfold max_uint. assert (0 < 2 ^ bitSize) by (apply Z.pow_pos_nonneg; lia). lia.
Qed.

Lemma ParseInt_bounds s bitSize n :
  0 < bitSize <= 64 → ParseInt s bitSize = Ok n → - 2 ^ (bitSize - 1) <= n < 2 ^ (bitSize - 1).
Proof.
  intros Hb H. destruct s as [|c s]; [done|]. unfold ParseInt in H.
  destruct (cutSign (String c s)) as [neg s'].
  destruct (ParseUint s' bitSize) as [un| |] eqn:E; [|done..].
  apply ParseUint_bounds in E; [|lia].
  assert (0 < 2 ^ (bitSize - 1)) by (apply Z.pow_pos_nonneg; lia).
  destruct neg; simpl in H; repeat case_match; simplify_eq; lia.
Qed.

(** No parser panics. *)
Lemma ParseUint_no_panic s bitSize : panics (ParseUint s bitSize) = false.
Proof.
  destruct s as [|c s]; [done|]. unfold ParseUint.
  generalize 0. generalize (String c s). clear c s.
  induction s as [|c s IH]; intros n; simpl; [done|].
  by repeat case_match.
Qed.

Lemma ParseInt_no_panic s bitSize : panics (ParseInt s bitSize) = false.
Proof.
  destruct s as [|c s]; [done|]. unfold ParseInt.
  destruct (cutSign (String c s)) as [neg s'].
  pose proof (ParseUint_no_panic s' bitSize).
  destruct (ParseUint s' bitSize); repeat case_match; done.
Qed.

(** ** Round trips *)

(** Parsing the digits of [n] after an accumulator [k] appends them to [k]. *)
Lemma fmt_digits_app fuel n acc :
  fmt_digits fuel n acc = fmt_digits fuel n "" +:+ acc.
Proof.
  revert n acc. induction fuel as [|fuel IH]; intros n acc; [done|].
  simpl. case_match; [done|].
  rewrite IH, (IH _ (String _ "")), string_app_assoc. done.
Qed.

Lemma fmt_digits_cons fuel n acc : ∃ c s, fmt_digits (S fuel) n acc = String c s.
Proof.
  revert n acc. induction fuel as [|fuel IH]; intros n acc; simpl; [case_match; eauto|].
  case_match; [eauto|]. apply (IH (n `div` 10)).
Qed.

Lemma ParseUint_step bitSize n d s :
  0 <= bitSize <= 64 → 0 <= d < 10 → 0 <= n → n * 10 + d <= max_uint bitSize →
  ParseUint_loop bitSize n (String (digit_char d) s) = ParseUint_loop bitSize (n * 10 + d) s.
Proof.
  intros Hb Hd Hn Hmax. cbn [ParseUint_loop]. rewrite digit_val_char by done.
  assert (max_uint bitSize <= max_uint 64) as Hmono.
  { unfold max_uint. assert (2 ^ bitSize <= 2 ^ 64) by (apply Z.pow_le_mono_r; lia). lia. }
  assert (n * 10 + d <= 18446744073709551615) as H64 by (etrans; [exact Hmax|exact Hmono]).
  rewrite (proj2 (Z.leb_gt _ _)).
  2:{ change uint64_cutoff with 1844674407370955162. lia. }
  change (2 ^ 64) with 18446744073709551616.
  rewrite Z.mod_small by lia.
  rewrite (proj2 (Z.ltb_ge (n * 10 + d) (n * 10))) by lia.
  by rewrite (proj2 (Z.ltb_ge (max_uint bitSize) _)).
Qed.

(** Any left-to-right scanner that accumulates digits below a bound [M] reads
    [n] back from its decimal digits, whatever follows them. *)
Lemma fmt_digits_scan {R} (P : Z → string → R) (M : Z) fuel n s :
  (∀ m d t, 0 <= d < 10 → 0 <= m → m * 10 + d <= M →
     P m (String (digit_char d) t) = P (m * 10 + d) t) →
  0 <= n <= M → n < 10 ^ Z.of_nat fuel →
  P 0 (fmt_digits fuel n "" +:+ s) = P n s.
Proof.
  intros Hstep. revert n s. induction fuel as [|fuel IH]; intros n s Hn Hf.
  { simpl in *. replace n with 0 by lia. done. }
  simpl. rewrite fmt_digits_app. case_match eqn:Hlt.
  - apply Z.ltb_lt in Hlt. rewrite Z.mod_small, string_app_cons by lia.
    rewrite Hstep by lia. done.
  - apply Z.ltb_ge in Hlt. rewrite string_app_assoc, string_app_cons.
    pose proof (Z.div_mod n 10 ltac:(lia)) as Hdm.
    pose proof (Z.mod_pos_bound n 10 ltac:(lia)) as Hm.
    rewrite IH.
    + rewrite Hstep by lia. rewrite string_app_nil_l. f_equal. lia.
    + lia.
    + rewrite Nat2Z.inj_succ, Z.pow_succ_r in Hf by lia.
      apply Z.div_lt_upper_bound; lia.
Qed.

Lemma FormatUint_fuel n : 0 <= n → n < 10 ^ Z.of_nat (S (S (Z.to_nat (Z.log2 n)))).
Proof.
  intros Hn. pose proof (Z.log2_nonneg n).
  rewrite !Nat2Z.inj_succ, Z2Nat.id by done.
  destruct (Z.eq_dec n 0) as [->|]; [done|].
  pose proof (Z.log2_spec n ltac:(lia)) as [_ Hlog].
  eapply Z.lt_le_trans; [exact Hlog|].
  etrans; [apply (Z.pow_le_mono_l _ 10); lia|].
  apply Z.pow_le_mono_r; lia.
Qed.

Lemma FormatUint_scan {R} (P : Z → string → R) (M n : Z) s :
  (∀ m d t, 0 <= d < 10 → 0 <= m → m * 10 + d <= M →
     P m (String (digit_char d) t) = P (m * 10 + d) t) →
  0 <= n <= M → P 0 (FormatUint n +:+ s) = P n s.
Proof.
  intros Hstep Hn. apply (fmt_digits_scan P M); [done..|]. apply FormatUint_fuel; lia.
Qed.

Lemma FormatUint_parse bitSize n s :
  0 <= bitSize <= 64 → 0 <= n <= max_uint bitSize →
  ParseUint_loop bitSize 0 (FormatUint n +:+ s) = ParseUint_loop bitSize n s.
Proof.
  intros Hb. apply FormatUint_scan. intros. by apply ParseUint_step.
Qed.

Lemma FormatUint_cons n : ∃ c s, FormatUint n = String c s.
Proof. apply fmt_digits_cons. Qed.

Lemma ParseUint_FormatUint bitSize n :
  0 <= bitSize <= 64 → 0 <= n < 2 ^ bitSize → ParseUint (FormatUint n) bitSize = Ok n.
Proof.
  intros Hb Hn.
  transitivity (ParseUint_loop bitSize 0 (FormatUint n)).
  { by destruct (FormatUint_cons n) as (c & s & ->). }
  rewrite <- (string_app_nil_r (FormatUint n)), FormatUint_parse by (unfold max_uint; lia).
  done.
Qed.

(** The first byte of a formatted number is a digit, so it is no sign. *)
Lemma fmt_digits_head fuel n acc c s :
  fmt_digits (S fuel) n acc = String c s → ∃ d, 0 <= d < 10 ∧ c = digit_char d.
Proof.
  revert n acc. induction fuel as [|fuel IH]; intros n acc; cbn [fmt_digits].
  - intros H. exists (n `mod` 10). split; [apply Z.mod_pos_bound; lia|].
    case_match; by simplify_eq.
  - intros H. case_match; [|by eapply IH].
    exists (n `mod` 10). split; [apply Z.mod_pos_bound; lia|]. by simplify_eq.
Qed.

Lemma digit_char_not c d : 0 <= d < 10 → digit_val c = None → digit_char d ≠ c.
Proof. intros Hd Hc <-. by rewrite digit_val_char in Hc. Qed.

Lemma cutSign_FormatUint n : cutSign (FormatUint n) = (false, FormatUint n).
Proof.
  destruct (FormatUint_cons n) as (c & s & E). rewrite E.
  apply fmt_digits_head in E as (d & Hd & ->). unfold cutSign.
  rewrite !bool_decide_eq_false_2; [done| |]; by apply digit_char_not.
Qed.

Lemma ParseInt_FormatInt bitSize n :
  0 < bitSize <= 64 → - 2 ^ (bitSize - 1) <= n < 2 ^ (bitSize - 1) →
  ParseInt (FormatInt n) bitSize = Ok n.
Proof.
  intros Hb Hn.
  assert (2 ^ bitSize = 2 * 2 ^ (bitSize - 1)) as Hpow.
  { rewrite <- Z.pow_succ_r by lia. f_equal. lia. }
  unfold FormatInt. case_match eqn:Hneg.
  - apply Z.ltb_lt in Hneg. unfold ParseInt.
    change (cutSign (String "-" (FormatUint (- n)))) with (true, FormatUint (- n)).
    cbv iota zeta beta.
    rewrite ParseUint_FormatUint by lia. simpl.
    rewrite (proj2 (Z.ltb_ge _ _)) by lia. f_equal. lia.
  - apply Z.ltb_ge in Hneg.
    transitivity (match ParseUint (FormatUint n) bitSize with
      | Ok un => if 2 ^ (bitSize - 1) <=? un then Err ErrRange else Ok un
      | Err e => Err e | Panic w => Panic w end).
    { unfold ParseInt. destruct (FormatUint_cons n) as (c & s & E). rewrite E, <- E.
      rewrite cutSign_FormatUint. by case_match. }
    rewrite ParseUint_FormatUint by lia.
    by rewrite (proj2 (Z.leb_gt _ _)) by lia.
Qed.

(** The digits of a formatted number. *)
Definition decimal (c : ascii) : bool := bool_decide (digit_val c ≠ None).

Lemma fmt_digits_decimal fuel n acc :
  str_forallb decimal acc = true → str_forallb decimal (fmt_digits fuel n acc) = true.
Proof.
  revert n acc. induction fuel as [|fuel IH]; intros n acc Hacc; [done|]; cbn [fmt_digits].
  assert (str_forallb decimal (String (digit_char (n `mod` 10)) acc) = true).
  { simpl. rewrite Hacc, andb_true_r. apply bool_decide_eq_true.
    rewrite digit_val_char; [done|]. apply Z.mod_pos_bound. lia. }
  case_match; auto.
Qed.

Lemma FormatUint_decimal n : str_forallb decimal (FormatUint n) = true.
Proof. by apply fmt_digits_decimal. Qed.

Lemma FormatUint_trimmed n : trimmed (FormatUint n) = true.
Proof.
  apply (trimmed_avoid decimal); [vm_compute; reflexivity..|apply FormatUint_decimal].
Qed.

Lemma FormatUint_free n c : digit_val c = None → free_of c (FormatUint n) = true.
Proof.
  intros Hc. apply (str_forallb_impl decimal); [|apply FormatUint_decimal].
  intros d Hd%bool_decide_eq_true. apply bool_decide_eq_true. congruence.
Qed.

Lemma FormatInt_nonneg n : 0 <= n → FormatInt n = FormatUint n.
Proof. intros Hn. unfold FormatInt. by rewrite (proj2 (Z.ltb_ge _ _)). Qed.

Definition signed_decimal (c : ascii) : bool := bool_decide (c = "-"%char) || decimal c.

Lemma FormatInt_bytes n : str_forallb signed_decimal (FormatInt n) = true.
Proof.
  assert (∀ m, str_forallb signed_decimal (FormatUint m) = true) as Hu.
  { intros m. apply (str_forallb_impl decimal); [|apply FormatUint_decimal].
    unfold signed_decimal. intros c ->. apply orb_true_r. }
  unfold FormatInt. case_match; [|apply Hu]. simpl. apply Hu.
Qed.

Lemma FormatInt_trimmed n : trimmed (FormatInt n) = true.
Proof.
  apply (trimmed_avoid signed_decimal); [vm_compute; reflexivity..|apply FormatInt_bytes].
Qed.

Lemma FormatInt_free n c : signed_decimal c = false → free_of c (FormatInt n) = true.
Proof.
  intros Hc. apply (str_forallb_impl signed_decimal); [|apply FormatInt_bytes].
  intros d Hd. apply bool_decide_eq_true. congruence.
Qed.

(** A positive number that fits the width unsigned but not signed. *)
Lemma ParseInt_FormatInt_range bitSize n :
  0 < bitSize <= 64 → 2 ^ (bitSize - 1) <= n < 2 ^ bitSize →
  ParseInt (FormatInt n) bitSize = Err ErrRange.
Proof.
  intros Hb Hn. assert (0 < 2 ^ (bitSize - 1)) by (apply Z.pow_pos_nonneg; lia).
  rewrite FormatInt_nonneg by lia. unfold ParseInt.
  destruct (FormatUint_cons n) as (c & s & E). rewrite E, <- E.
  rewrite cutSign_FormatUint, ParseUint_FormatUint by lia.
  by rewrite (proj2 (Z.leb_le _ _)) by lia.
Qed.

Lemma ParseBool_FormatBool b : ParseBool (FormatBool b) = Ok b.
Proof. by destruct b. Qed.
