(* ===== verification/GoTime.v ===== *)
(** [time.ParseDuration] and [Duration.String] of Go's package [time].

    A [Duration] is a signed 64-bit count of nanoseconds, here a [Z] with the
    wrap-arounds of Go's [uint64] arithmetic written out ([u64], [i64]).  The
    fraction of a component goes through [float64] in Go; the model computes it
    with the same IEEE 754 binary64 operations ([SpecFloat], 53 bits of
    precision, round to nearest even). *)
From Stdlib Require Import SpecFloat.
From S2P Require Import Prelude GoStrings GoStrconv.
Local Open Scope Z_scope.

Definition u64 (z : Z) : Z := z `mod` 2 ^ 64.
Definition i64 (z : Z) : Z := (z + 2 ^ 63) `mod` 2 ^ 64 - 2 ^ 63.

Definition Nanosecond : Z := 1.
Definition Microsecond : Z := 1000 * Nanosecond.
Definition Millisecond : Z := 1000 * Microsecond.
Definition Second : Z := 1000 * Millisecond.
Definition Minute : Z := 60 * Second.
Definition Hour : Z := 60 * Minute.

Ltac unfold_units :=
  unfold Hour, Minute, Second, Millisecond, Microsecond, Nanosecond in *.

(** ** binary64 *)

Definition float64 := spec_float.
Definition f64_of_uint (z : Z) : float64 := binary_normalize 53 1024 z 0 false.
Definition f64_mul : float64 → float64 → float64 := SFmul 53 1024.
Definition f64_div : float64 → float64 → float64 := SFdiv 53 1024.

(** [uint64(f)] for a non-negative finite [f]: truncation. *)
Definition f64_to_uint (f : float64) : Z :=
  match f with
  | S754_finite false m e =>
      if 0 <=? e then Z.pos m * 2 ^ e else Z.pos m `div` 2 ^ (- e)
  | _ => 0
  end.

(** ** ParseDuration *)

Inductive DurationError :=
| ErrInvalidDuration
| ErrMissingUnit
| ErrUnknownUnit (u : string).

Definition is_digit (c : ascii) : bool :=
  match digit_val c with Some _ => true | None => false end.

(** [leadingInt]: the leading [0-9]* of [s]; [None] on overflow. *)
Fixpoint leadingInt (x : Z) (s : string) : option (Z * string) :=
  match s with
  | "" => Some (x, "")
  | String c s' =>
      match digit_val c with
      | None => Some (x, s)
      | Some d =>
          if 2 ^ 63 `div` 10 <? x then None
          else
            let x := u64 (x * 10 + d) in
            if 2 ^ 63 <? x then None else leadingInt x s'
      end
  end.

(** [leadingFraction]: the digits after the period, dropping those that would
    overflow. *)
Fixpoint leadingFraction (x : Z) (scale : float64) (overflow : bool) (s : string)
    : Z * float64 * string :=
  match s with
  | "" => (x, scale, "")
  | String c s' =>
      match digit_val c with
      | None => (x, scale, s)
      | Some d =>
          if overflow then leadingFraction x scale overflow s'
          else if (2 ^ 63 - 1) `div` 10 <? x then leadingFraction x scale true s'
          else
            let y := u64 (x * 10 + d) in
            if 2 ^ 63 <? y then leadingFraction x scale true s'
            else leadingFraction y (f64_mul scale (f64_of_uint 10)) overflow s'
      end
  end.

(** The unit: everything up to the next period or digit. *)
Fixpoint takeUnit (s : string) : string * string :=
  match s with
  | "" => ("", "")
  | String c s' =>
      if bool_decide (c = "."%char) || is_digit c then ("", s)
      else let '(u, r) := takeUnit s' in (String c u, r)
  end.

Definition unitMap (u : string) : option Z :=
  if bool_decide (u = "ns") then Some Nanosecond
  else if bool_decide (u = "us") then Some Microsecond
  else if bool_decide (u = str_of_bytes [194; 181; 115]%nat) then Some Microsecond  (* U+00B5 s *)
  else if bool_decide (u = str_of_bytes [206; 188; 115]%nat) then Some Microsecond  (* U+03BC s *)
  else if bool_decide (u = "ms") then Some Millisecond
  else if bool_decide (u = "s") then Some Second
  else if bool_decide (u = "m") then Some Minute
  else if bool_decide (u = "h") then Some Hour
  else None.

(** The optional fraction after the integer part: value, scale, whether a digit
    was read, rest. *)
Definition fractionPart (s : string) : Z * float64 * bool * string :=
  match s with
  | String c s' =>
      if bool_decide (c = "."%char) then
        let '(f, scale, r) := leadingFraction 0 (f64_of_uint 1) false s' in
        (f, scale, negb (Nat.eqb (String.length s') (String.length r)), r)
      else (0, f64_of_uint 1, false, s)
  | "" => (0, f64_of_uint 1, false, s)
  end.

(** [v] units plus the fraction [f/scale] of a unit, in nanoseconds. *)
Definition componentValue (v f : Z) (scale : float64) (unit : Z) : result DurationError Z :=
  if 2 ^ 63 `div` unit <? v then Err ErrInvalidDuration
  else
    let v := u64 (v * unit) in
    if 0 <? f then
      let v := u64 (v + f64_to_uint (f64_mul (f64_of_uint f) (f64_div (f64_of_uint unit) scale))) in
      if 2 ^ 63 <? v then Err ErrInvalidDuration else Ok v
    else Ok v.

(** One component, an integer, an optional fraction and a unit: its value and the
    rest of the text. *)
Definition parseComponent (s : string) : result DurationError (Z * string) :=
  match s with
  | "" => Err ErrInvalidDuration
  | String c _ =>
      if negb (bool_decide (c = "."%char) || is_digit c) then Err ErrInvalidDuration
      else
        match leadingInt 0 s with
        | None => Err ErrInvalidDuration
        | Some (v, s1) =>
            let pre := negb (Nat.eqb (String.length s) (String.length s1)) in
            let '(f, scale, post, s2) := fractionPart s1 in
            if negb pre && negb post then Err ErrInvalidDuration
            else
              let '(u, s3) := takeUnit s2 in
              if bool_decide (u = "") then Err ErrMissingUnit
              else
                match unitMap u with
                | None => Err (ErrUnknownUnit u)
                | Some unit => v ← componentValue v f scale unit; Ok (v, s3)
                end
        end
  end.

(** The component loop.  Each component consumes a byte, so the length of the
    text is fuel enough ([ParseDuration_loop_fuel]). *)
Fixpoint ParseDuration_loop (fuel : nat) (d : Z) (s : string) : result DurationError Z :=
  match s, fuel with
  | "", _ => Ok d
  | _, O => Err ErrInvalidDuration
  | _, S fuel =>
      '(v, s) ← parseComponent s;
      let d := u64 (d + v) in
      if 2 ^ 63 <? d then Err ErrInvalidDuration else ParseDuration_loop fuel d s
  end.

Definition ParseDuration (s : string) : result DurationError Z :=
  let '(neg, s) := cutSign s in
  if bool_decide (s = "0") then Ok 0
  else if bool_decide (s = "") then Err ErrInvalidDuration
  else
    d ← ParseDuration_loop (String.length s) 0 s;
    if neg : bool then Ok (i64 (- d))
    else if 2 ^ 63 - 1 <? d then Err ErrInvalidDuration
    else Ok d.

(** ** Duration.String *)

(** [fmtFrac]: the last [prec] digits of [v] as a fraction without trailing
    zeros, written before [acc]; also the remaining integer part. *)
Fixpoint fmtFrac_loop (prec : nat) (v : Z) (print : bool) (acc : string) : Z * bool * string :=
  match prec with
  | O => (v, print, acc)
  | S prec =>
      let digit := v `mod` 10 in
      let print := print || negb (digit =? 0) in
      fmtFrac_loop prec (v `div` 10) print
        (if print then String (digit_char digit) acc else acc)
  end.

Definition fmtFrac (v : Z) (prec : nat) (acc : string) : Z * string :=
  let '(v, print, acc) := fmtFrac_loop prec v false acc in
  (v, if print : bool then String "." acc else acc).

Definition fmtInt (v : Z) (acc : string) : string := FormatUint v +:+ acc.

Definition subSecond (u : Z) : string :=
  if u =? 0 then "0s"
  else
    let '(prec, unit) :=
      if u <? Microsecond then (0%nat, "ns")
      else if u <? Millisecond then (3%nat, str_of_bytes [194; 181; 115]%nat)
      else (6%nat, "ms") in
    let '(v, acc) := fmtFrac u prec unit in fmtInt v acc.

Definition fromSeconds (u : Z) : string :=
  let '(u, acc) := fmtFrac u 9 "s" in
  let acc := fmtInt (u `mod` 60) acc in
  let u := u `div` 60 in
  if 0 <? u then
    let acc := fmtInt (u `mod` 60) (String "m" acc) in
    let u := u `div` 60 in
    if 0 <? u then fmtInt u (String "h" acc) else acc
  else acc.

Definition DurationString (d : Z) : string :=
  let u := if d <? 0 then u64 (- d) else d in
  let s := if u <? Second then subSecond u else fromSeconds u in
  if d <? 0 then String "-" s else s.

Example dur_ex1 : ParseDuration "1.5h" = Ok (5400 * Second). Proof. vm_compute. reflexivity. Qed.
Example dur_ex2 : ParseDuration "1m30s" = Ok (90 * Second). Proof. vm_compute. reflexivity. Qed.
Example dur_ex3 : ParseDuration "10" = Err ErrMissingUnit. Proof. vm_compute. reflexivity. Qed.
Example dur_ex4 : DurationString 1500000000 = "1.5s". Proof. vm_compute. reflexivity. Qed.
Example dur_ex5 : DurationString (3661 * Second) = "1h1m1s". Proof. vm_compute. reflexivity. Qed.
Example dur_ex6 : ParseDuration "-1.1s" = Ok (-1100000000). Proof. vm_compute. reflexivity. Qed.

(** ** No panic, bounds and fuel *)

Lemma u64_bounds z : 0 <= u64 z < 2 ^ 64.
Proof. apply Z.mod_pos_bound. lia. Qed.

Lemma u64_small z : 0 <= z < 2 ^ 64 → u64 z = z.
Proof. intros. by apply Z.mod_small. Qed.

Lemma i64_bounds z : - 2 ^ 63 <= i64 z < 2 ^ 63.
Proof. unfold i64. pose proof (Z.mod_pos_bound (z + 2 ^ 63) (2 ^ 64)). lia. Qed.

Lemma componentValue_no_panic v f scale unit :
  panics (componentValue v f scale unit) = false.
Proof. unfold componentValue. by repeat case_match. Qed.

Lemma parseComponent_no_panic s : panics (parseComponent s) = false.
Proof.
  unfold parseComponent. repeat case_match; try done.
  apply panics_bind; [apply componentValue_no_panic|done].
Qed.

Lemma ParseDuration_loop_no_panic fuel d s : panics (ParseDuration_loop fuel d s) = false.
Proof.
  revert d s. induction fuel as [|fuel IH]; intros d s; destruct s as [|c s]; try done.
  change (panics ('(v, r) ← parseComponent (String c s);
    if 2 ^ 63 <? u64 (d + v) then Err ErrInvalidDuration
    else ParseDuration_loop fuel (u64 (d + v)) r) = false).
  apply panics_bind; [apply parseComponent_no_panic|].
  intros [v r] _. by case_match.
Qed.

Lemma ParseDuration_no_panic s : panics (ParseDuration s) = false.
Proof.
  unfold ParseDuration. destruct (cutSign s) as [neg s'].
  case_bool_decide; [done|]. case_bool_decide; [done|].
  apply panics_bind; [apply ParseDuration_loop_no_panic|].
  intros d _. by repeat case_match.
Qed.

Lemma ParseDuration_loop_bounds fuel d s r :
  0 <= d <= 2 ^ 63 → ParseDuration_loop fuel d s = Ok r → 0 <= r <= 2 ^ 63.
Proof.
  revert d s. induction fuel as [|fuel IH]; intros d s Hd H; destruct s as [|c s];
    simplify_eq/=; try done.
  apply bind_Ok_inv in H as ([v t] & _ & H).
  case_match eqn:Hov; [done|]. apply Z.ltb_ge in Hov.
  pose proof (u64_bounds (d + v)). by apply IH in H; [|lia].
Qed.

(** Every accepted duration is a 64-bit signed integer. *)
Lemma ParseDuration_bounds s d : ParseDuration s = Ok d → - 2 ^ 63 <= d < 2 ^ 63.
Proof.
  unfold ParseDuration. destruct (cutSign s) as [neg s'].
  case_bool_decide; [intros; simplify_eq; lia|]. case_bool_decide; [done|].
  intros (x & Hx & Hd)%bind_Ok_inv. apply ParseDuration_loop_bounds in Hx; [|lia].
  destruct neg; simplify_eq; [apply i64_bounds|].
  case_match eqn:Hge; simplify_eq. apply Z.ltb_ge in Hge. lia.
Qed.

Lemma leadingInt_length x s v r :
  leadingInt x s = Some (v, r) → (String.length r <= String.length s)%nat.
Proof.
  revert x. induction s as [|c s IH]; intros x H; simpl in H; [by simplify_eq|].
  repeat case_match; simplify_eq; simpl; try lia. apply IH in H. lia.
Qed.

Lemma leadingFraction_length x sc o s f sc' r :
  leadingFraction x sc o s = (f, sc', r) → (String.length r <= String.length s)%nat.
Proof.
  revert x sc o. induction s as [|c s IH]; intros x sc o H; simpl in H; [by simplify_eq|].
  repeat case_match; simplify_eq; simpl; try lia; apply IH in H; lia.
Qed.

Lemma fractionPart_length s f sc post r :
  fractionPart s = (f, sc, post, r) → (String.length r <= String.length s)%nat.
Proof.
  unfold fractionPart. repeat case_match; intros; simplify_eq; simpl; try lia.
  match goal with H : leadingFraction _ _ _ _ = _ |- _ => apply leadingFraction_length in H end.
  lia.
Qed.

Lemma takeUnit_length s u r :
  takeUnit s = (u, r) → String.length s = (String.length u + String.length r)%nat.
Proof.
  revert u. induction s as [|c s IH]; intros u H; simpl in H; [by simplify_eq|].
  repeat case_match; simplify_eq; [done|]. simpl. by rewrite (IH _ eq_refl).
Qed.

Lemma parseComponent_shorter s v r :
  parseComponent s = Ok (v, r) → (String.length r < String.length s)%nat.
Proof.
  unfold parseComponent. intros H. repeat (case_match; try done).
  apply bind_Ok_inv in H as (w & _ & H). simplify_eq.
  repeat match goal with
  | H : leadingInt _ _ = _ |- _ => apply leadingInt_length in H
  | H : fractionPart _ = _ |- _ => apply fractionPart_length in H
  | H : takeUnit _ = (?u, _) |- _ =>
      apply takeUnit_length in H; assert (String.length u ≠ 0%nat) by (by destruct u)
  end. lia.
Qed.

(** Fuel beyond the length of the text changes nothing: the loop always ends by
    consuming the text or by an error of the code. *)
Lemma ParseDuration_loop_fuel fuel1 fuel2 d s :
  (String.length s <= fuel1)%nat → (String.length s <= fuel2)%nat →
  ParseDuration_loop fuel1 d s = ParseDuration_loop fuel2 d s.
Proof.
  revert fuel2 d s. induction fuel1 as [|fuel1 IH]; intros [|fuel2] d [|c s] H1 H2;
    try done; try (simpl in *; lia).
  cbn [ParseDuration_loop].
  destruct (parseComponent (String c s)) as [[v r]| |] eqn:E; simpl; try done.
  apply parseComponent_shorter in E.
  case_match; [done|]. apply IH; lia.
Qed.

(** ** Round trip on whole seconds *)

Lemma fmtFrac_loop_zeros prec v acc :
  fmtFrac_loop prec (v * 10 ^ Z.of_nat prec) false acc = (v, false, acc).
Proof.
  induction prec as [|prec IH]; [by rewrite Z.mul_1_r|].
  rewrite Nat2Z.inj_succ, Z.pow_succ_r by lia. cbn [fmtFrac_loop].
  replace (v * (10 * 10 ^ Z.of_nat prec)) with (v * 10 ^ Z.of_nat prec * 10) by lia.
  rewrite Z.mod_mul, Z.div_mul by lia. exact IH.
Qed.

Lemma leadingInt_FormatUint n s :
  0 <= n <= 2 ^ 63 → leadingInt 0 (FormatUint n +:+ s) = leadingInt n s.
Proof.
  apply FormatUint_scan. intros m d t Hd Hm Hmax. cbn [leadingInt].
  rewrite digit_val_char by done.
  rewrite u64_small by lia.
  rewrite (proj2 (Z.ltb_ge (2 ^ 63) (m * 10 + d))) by lia.
  rewrite (proj2 (Z.ltb_ge _ _)); [done|].
  apply Z.div_le_lower_bound; lia.
Qed.

(** A number followed by a one-letter unit is one component. *)
Lemma parseComponent_int n c unit s :
  0 <= n <= 2 ^ 63 `div` unit → 1 <= unit →
  digit_val c = None → c ≠ "."%char → unitMap (String c "") = Some unit →
  (∀ d s', s = String d s' → is_digit d = true) →
  parseComponent (FormatUint n +:+ String c s) = Ok (n * unit, s).
Proof.
  intros Hn Hunit Hc Hdot Hmap Hs.
  assert (2 ^ 63 `div` unit <= 2 ^ 63) as Hle by (apply Z.div_le_upper_bound; nia).
  assert (0 <= n * unit) by nia.
  assert (n * unit <= 2 ^ 63) as Hov.
  { pose proof (Z.mul_div_le (2 ^ 63) unit ltac:(lia)). nia. }
  pose proof (leadingInt_FormatUint n (String c s) ltac:(lia)) as Hlead.
  assert (String.length (FormatUint n +:+ String c s) ≠ String.length (String c s)) as Hlen.
  { rewrite string_length_app. destruct (FormatUint_cons n) as (? & ? & ->). simpl. lia. }
  destruct (FormatUint_cons n) as (h & t & E).
  pose proof E as E'. apply fmt_digits_head in E' as (d & Hd & ->).
  rewrite E in *. rewrite string_app_cons in *. unfold parseComponent.
  assert (is_digit (digit_char d) = true) as ->
    by (unfold is_digit; by rewrite digit_val_char).
  rewrite orb_true_r. cbn [negb]. rewrite Hlead.
  assert (leadingInt n (String c s) = Some (n, String c s)) as -> by (simpl; by rewrite Hc).
  rewrite (proj2 (Nat.eqb_neq _ _)) by done.
  assert (fractionPart (String c s) = (0, f64_of_uint 1, false, String c s)) as ->
    by (unfold fractionPart; by rewrite bool_decide_eq_false_2).
  assert (takeUnit (String c s) = (String c "", s)) as ->.
  { simpl. rewrite bool_decide_eq_false_2 by done.
    assert (is_digit c = false) as -> by (unfold is_digit; by rewrite Hc). simpl.
    destruct s as [|e s']; [done|]. simpl.
    rewrite (Hs e s') by done. by rewrite orb_true_r. }
  rewrite Hmap. unfold componentValue.
  rewrite (proj2 (Z.ltb_ge _ _)) by lia. change (0 <? 0) with false. cbv iota zeta.
  by rewrite u64_small by lia.
Qed.

Lemma is_digit_FormatUint n s d t :
  FormatUint n +:+ s = String d t → is_digit d = true.
Proof.
  destruct (FormatUint_cons n) as (c & r & E). rewrite E, string_app_cons. intros H. simplify_eq.
  apply fmt_digits_head in E as (e & He & ->). unfold is_digit. by rewrite digit_val_char.
Qed.

Lemma ParseDuration_digits n s :
  cutSign (FormatUint n +:+ s) = (false, FormatUint n +:+ s).
Proof.
  destruct (FormatUint_cons n) as (c & r & E). rewrite E, string_app_cons.
  apply fmt_digits_head in E as (d & Hd & ->). unfold cutSign.
  rewrite !bool_decide_eq_false_2; [done| |]; by apply digit_char_not.
Qed.

(** One more component whose value keeps the sum in range. *)
Lemma ParseDuration_loop_int fuel d n c unit s :
  0 <= n → 1 <= unit → 0 <= d → d + n * unit <= 2 ^ 63 →
  digit_val c = None → c ≠ "."%char → unitMap (String c "") = Some unit →
  (∀ e s', s = String e s' → is_digit e = true) →
  ParseDuration_loop (S fuel) d (fmtInt n (String c s)) =
  ParseDuration_loop fuel (d + n * unit) s.
Proof.
  intros Hn Hunit Hd Hov Hc Hdot Hmap Hs. unfold fmtInt.
  assert (0 <= n * unit) by nia.
  assert (0 <= n <= 2 ^ 63 `div` unit) as Hn'.
  { split; [done|]. apply Z.div_le_lower_bound; lia. }
  pose proof (parseComponent_int n c unit s Hn' Hunit Hc Hdot Hmap Hs) as Hp.
  destruct (FormatUint_cons n) as (h & t & E). rewrite E, string_app_cons in *.
  cbn [ParseDuration_loop]. rewrite Hp. cbn.
  rewrite u64_small by lia.
  by rewrite (proj2 (Z.ltb_ge _ _)) by lia.
Qed.

Lemma loop_seconds fuel d n :
  0 <= n → 0 <= d → d + n * Second <= 2 ^ 63 →
  ParseDuration_loop (S fuel) d (fmtInt n "s") = Ok (d + n * Second).
Proof. intros. rewrite (ParseDuration_loop_int _ _ _ _ Second); try done. by destruct fuel. Qed.

Lemma loop_minutes fuel d m n :
  0 <= m → 0 <= n → 0 <= d → d + m * Minute + n * Second <= 2 ^ 63 →
  ParseDuration_loop (S (S fuel)) d (fmtInt m (String "m" (fmtInt n "s"))) =
  Ok (d + m * Minute + n * Second).
Proof.
  intros. assert (0 <= n * Second ∧ 0 <= m * Minute) as [??] by (unfold_units; lia).
  rewrite (ParseDuration_loop_int _ _ _ _ Minute); try done; [|lia|].
  - apply loop_seconds; lia.
  - intros ??. apply is_digit_FormatUint.
Qed.

Lemma loop_hours fuel h m n :
  0 <= h → 0 <= m → 0 <= n → h * Hour + m * Minute + n * Second <= 2 ^ 63 →
  ParseDuration_loop (S (S (S fuel))) 0
    (fmtInt h (String "h" (fmtInt m (String "m" (fmtInt n "s"))))) =
  Ok (h * Hour + m * Minute + n * Second).
Proof.
  intros. assert (0 <= n * Second ∧ 0 <= m * Minute ∧ 0 <= h * Hour) as (?&?&?)
    by (unfold_units; lia).
  rewrite (ParseDuration_loop_int _ _ _ _ Hour); try done; [|lia|].
  - rewrite loop_minutes by lia. done.
  - intros ??. apply is_digit_FormatUint.
Qed.

(** An unsigned text is parsed by the loop alone. *)
Lemma ParseDuration_unsigned n c s d :
  ParseDuration_loop (3 + String.length (fmtInt n (String c s))) 0 (fmtInt n (String c s)) = Ok d →
  d < 2 ^ 63 → ParseDuration (fmtInt n (String c s)) = Ok d.
Proof.
  intros Hl Hd. unfold ParseDuration, fmtInt in *. rewrite ParseDuration_digits.
  rewrite (ParseDuration_loop_fuel _ (String.length (FormatUint n +:+ String c s))) in Hl by lia.
  assert (FormatUint n +:+ String c s ≠ "0" ∧ FormatUint n +:+ String c s ≠ "") as [??].
  { destruct (FormatUint_cons n) as (h & t & ->). rewrite string_app_cons. split; [|done].
    intros ?. simplify_eq. by destruct t. }
  rewrite !bool_decide_eq_false_2 by done. rewrite Hl. cbn.
  by rewrite (proj2 (Z.ltb_ge _ _)) by lia.
Qed.

Lemma fromSeconds_whole k :
  fromSeconds (k * Second) =
    let s := fmtInt (k `mod` 60) "s" in
    let k := k `div` 60 in
    if 0 <? k then
      let s := fmtInt (k `mod` 60) (String "m" s) in
      let k := k `div` 60 in
      if 0 <? k then fmtInt k (String "h" s) else s
    else s.
Proof.
  unfold fromSeconds, fmtFrac. change (k * Second) with (k * 10 ^ Z.of_nat 9).
  by rewrite fmtFrac_loop_zeros.
Qed.

(** A whole number of seconds survives [String] and [ParseDuration]. *)
Lemma ParseDuration_whole k :
  0 <= k → k * Second < 2 ^ 63 → ParseDuration (DurationString (k * Second)) = Ok (k * Second).
Proof.
  intros Hk Hmax. unfold DurationString.
  rewrite (proj2 (Z.ltb_ge (k * Second) 0)) by (unfold_units; lia).
  case_match eqn:Hsec.
  { apply Z.ltb_lt in Hsec. assert (k = 0) as -> by (unfold_units; lia). done. }
  clear Hsec. rewrite fromSeconds_whole. cbv zeta.
  pose proof (Z.div_mod k 60 ltac:(lia)). pose proof (Z.mod_pos_bound k 60 ltac:(lia)).
  pose proof (Z.div_mod (k `div` 60) 60 ltac:(lia)).
  pose proof (Z.mod_pos_bound (k `div` 60) 60 ltac:(lia)).
  set (n := k `mod` 60) in *. set (m := k `div` 60) in *.
  set (m1 := m `mod` 60) in *. set (h := m `div` 60) in *.
  assert (k * Second = h * Hour + m1 * Minute + n * Second) as Hsum
    by (unfold_units; lia).
  assert (0 <= m ∧ 0 <= h) as [??] by (split; apply Z.div_pos; lia).
  clearbody h m1 n m.
  case_match eqn:Hm; [apply Z.ltb_lt in Hm; case_match eqn:Hh|apply Z.ltb_ge in Hm].
  - rewrite Hsum in *. apply ParseDuration_unsigned; [apply loop_hours; lia|lia].
  - apply Z.ltb_ge in Hh. assert (h = 0) as Hh0 by lia. rewrite Hh0 in Hsum.
    apply ParseDuration_unsigned; [|lia]. rewrite Hsum. apply (loop_minutes _ 0); lia.
  - assert (m = 0) by lia. assert (h = 0 ∧ m1 = 0) as [Hh0 Hm0] by lia.
    rewrite Hh0, Hm0 in Hsum.
    apply ParseDuration_unsigned; [|lia]. rewrite Hsum. apply (loop_seconds _ 0); lia.
Qed.
