(* ===== verification/GoFlag.v ===== *)
(** What [cmd/main.go] uses of Go's package [flag]: a [FlagSet], the
    declaration of flags, and [Parse] with its loop [parseOne].  A grammar of
    command lines stands next to the loop: [Parse] accepts exactly the command
    lines of the grammar whose values are accepted, and assigns their settings
    in order. *)
From S2P Require Import Prelude GoStrings GoStrconv GoTime.

(** ** Flags

    A [flag.Value] is a pointer to a variable of the program, or to an object
    that refers to one: its [Set] is a function on the state [S] that holds all
    the variables.  [E] is the type of the errors of [Set]. *)
Record Value (S E : Type) := mkValue {
  Set_ : string → S → S * option E;
  IsBoolFlag : bool
}.
Arguments mkValue {S E} Set_ IsBoolFlag.
Arguments Set_ {S E} v _ _.
Arguments IsBoolFlag {S E} v.

Inductive ParseError (E : Type) :=
| ErrHelp
| ErrBadSyntax (s : string)
| ErrNotDefined (name : string)
| ErrBoolValue (value name : string) (e : E)
| ErrBoolFlag (name : string) (e : E)
| ErrNeedsArgument (name : string)
| ErrValue (value name : string) (e : E).
Arguments ErrHelp {E}.
Arguments ErrBadSyntax {E} s.
Arguments ErrNotDefined {E} name.
Arguments ErrBoolValue {E} value name e.
Arguments ErrBoolFlag {E} name e.
Arguments ErrNeedsArgument {E} name.
Arguments ErrValue {E} value name e.

Section flag.
Context {S E : Type}.
Implicit Types (formal : gmap string (Value S E)) (s : S) (args rest : list string).

(** [FlagSet.Var]: a name that cannot be parsed, or is taken, is a panic. *)
Definition Var formal (name : string) (v : Value S E) : result Empty_set (gmap string (Value S E)) :=
  if HasPrefix name "-" then Panic ("flag " +:+ name +:+ " begins with -")
  else if Contains name "=" then Panic ("flag " +:+ name +:+ " contains =")
  else match formal !! name with
       | Some _ => Panic ("flag redefined: " +:+ name)
       | None => Ok (<[name := v]> formal)
       end.

(** [stringValue], [boolValue] and [durationValue], for the variable that [set]
    assigns.  A failed parse still assigns the zero value. *)
Definition stringValue (set : string → S → S) : Value S E :=
  mkValue (λ text s, (set text s, None)) false.

Definition boolValue (errParse : E) (set : bool → S → S) : Value S E :=
  mkValue (λ text s, match ParseBool text with
                     | Ok v => (set v s, None)
                     | _ => (set false s, Some errParse)
                     end) true.

Definition durationValue (errParse : E) (set : Z → S → S) : Value S E :=
  mkValue (λ text s, match ParseDuration text with
                     | Ok d => (set d s, None)
                     | _ => (set 0%Z s, Some errParse)
                     end) false.

(** The loop of [parseOne] over the bytes of a name, from the second on. *)
Definition splitFlag (name : string) : string * option string :=
  match name with
  | "" => ("", None)
  | String c tail =>
      match SplitN2 tail "=" with
      | [n; value] => (String c n, Some value)
      | _ => (name, None)
      end
  end.

Definition setFlag (v : Value S E) (value : string) (mkError : E → ParseError E) rest s
    : list string * S * result (ParseError E) bool :=
  match Set_ v value s with
  | (s, Some e) => (rest, s, Err (mkError e))
  | (s, None) => (rest, s, Ok true)
  end.

(** [FlagSet.parseOne] from the name on, its dashes removed. *)
Definition parseFlag formal (name : string) rest s
    : list string * S * result (ParseError E) bool :=
  let '(name, value) := splitFlag name in
  match formal !! name with
  | None =>
      (rest, s, Err (if bool_decide (name = "help") || bool_decide (name = "h")
                     then ErrHelp else ErrNotDefined name))
  | Some v =>
      if IsBoolFlag v then
        match value with
        | Some value => setFlag v value (ErrBoolValue value name) rest s
        | None => setFlag v "true" (ErrBoolFlag name) rest s
        end
      else
        match value, rest with
        | Some value, _ => setFlag v value (ErrValue value name) rest s
        | None, value :: rest => setFlag v value (ErrValue value name) rest s
        | None, [] => ([], s, Err (ErrNeedsArgument name))
        end
  end.

(** [FlagSet.parseOne]: the remaining arguments, the variables, and whether a
    flag was seen. *)
Definition parseOne formal args s : list string * S * result (ParseError E) bool :=
  match args with
  | [] => ([], s, Ok false)
  | arg :: rest =>
      if (String.length arg <? 2)%nat || negb (HasPrefix arg "-") then (args, s, Ok false)
      else if bool_decide (arg = "--") then (rest, s, Ok false)
      else
        let name := str_drop (if HasPrefix arg "--" then 2 else 1) arg in
        if bool_decide (name = "") || HasPrefix name "-" || HasPrefix name "="
        then (args, s, Err (ErrBadSyntax arg))
        else parseFlag formal name rest s
  end.

(** The [for] loop of [FlagSet.Parse], [None] when [fuel] rounds are not enough. *)
Fixpoint Parse_loop (fuel : nat) formal args s : option (list string * S * option (ParseError E)) :=
  match fuel with
  | O => None
  | Datatypes.S fuel =>
      match parseOne formal args s with
      | (args, s, Ok true) => Parse_loop fuel formal args s
      | (args, s, Ok false) => Some (args, s, None)
      | (args, s, Err e) => Some (args, s, Some e)
      | (_, _, Panic _) => None
      end
  end.

Definition Parse formal args s : option (list string * S * option (ParseError E)) :=
  Parse_loop (Datatypes.S (length args)) formal args s.

(** ** The grammar of command lines *)

Definition dashes : list string := ["-"; "--"].

(** [item formal args name value rest]: the arguments [args] start with a setting
    of [name] to [value], and go on with [rest]. *)
Inductive item formal : list string → string → string → list string → Prop :=
| item_equals d name value v rest :
    d ∈ dashes → name ≠ "" → formal !! name = Some v →
    item formal ((d +:+ name +:+ "=" +:+ value) :: rest) name value rest
| item_bool d name v rest :
    d ∈ dashes → name ≠ "" → formal !! name = Some v → IsBoolFlag v = true →
    item formal ((d +:+ name) :: rest) name "true" rest
| item_next d name value v rest :
    d ∈ dashes → name ≠ "" → formal !! name = Some v → IsBoolFlag v = false →
    item formal ((d +:+ name) :: value :: rest) name value rest.

(** [stops args rest]: no flag comes next, and [rest] is left to the program. *)
Inductive stops : list string → list string → Prop :=
| stops_end : stops [] []
| stops_dashes rest : stops ("--" :: rest) rest
| stops_argument arg rest :
    arg = "-" ∨ HasPrefix arg "-" = false → stops (arg :: rest) (arg :: rest).

Inductive cmdline formal : list string → list (string * string) → list string → Prop :=
| cmdline_stop args rest : stops args rest → cmdline formal args [] rest
| cmdline_item args name value args' l rest :
    item formal args name value args' → cmdline formal args' l rest →
    cmdline formal args ((name, value) :: l) rest.

(** Some settings at the front of the arguments. *)
Inductive items formal : list string → list (string * string) → list string → Prop :=
| items_nil args : items formal args [] args
| items_cons args name value args' l args'' :
    item formal args name value args' → items formal args' l args'' →
    items formal args ((name, value) :: l) args''.

(** The settings assigned in order, [None] when a value is refused. *)
Fixpoint assign formal (l : list (string * string)) s : option S :=
  match l with
  | [] => Some s
  | (name, value) :: l =>
      match formal !! name with
      | Some v =>
          match Set_ v value s with
          | (s, None) => assign formal l s
          | (_, Some _) => None
          end
      | None => None
      end
  end.

(** The faults at the front of the arguments, and their errors. *)
Inductive faulty formal : list string → S → ParseError E → Prop :=
| faulty_syntax d c tail rest s :
    d ∈ dashes → c = "="%char ∨ (d = "--" ∧ c = "-"%char) →
    faulty formal ((d +:+ String c tail) :: rest) s (ErrBadSyntax (d +:+ String c tail))
| faulty_undefined d name suffix rest s :
    d ∈ dashes → name ≠ "" → formal !! name = None → free_of "=" name = true →
    suffix = "" ∨ (∃ value, suffix = "=" +:+ value) →
    faulty formal ((d +:+ name +:+ suffix) :: rest) s
      (if bool_decide (name = "help") || bool_decide (name = "h") then ErrHelp else ErrNotDefined name)
| faulty_argument d name v s :
    d ∈ dashes → name ≠ "" → formal !! name = Some v → IsBoolFlag v = false →
    faulty formal [d +:+ name] s (ErrNeedsArgument name)
| faulty_value args name value rest v s e err :
    item formal args name value rest → formal !! name = Some v →
    (Set_ v value s).2 = Some e →
    err ∈ [ErrValue value name e; ErrBoolValue value name e; ErrBoolFlag name e] →
    faulty formal args s err.

(** What [Var] keeps of every name. *)
Definition formal_ok formal : Prop :=
  ∀ name, is_Some (formal !! name) → HasPrefix name "-" = false ∧ free_of "=" name = true.
End flag.

(** * Lemmas *)

Lemma free_of_Contains c s : Contains s (String c "") = false → free_of c s = true.
Proof.
  intros Hc. destruct (split_at_first s c) as [?|(p & t & -> & _)]; [done|].
  enough (Contains (p +:+ String c t) (String c "") = true) by congruence.
  apply Contains_spec. by exists p, t.
Qed.

Lemma HasPrefix_char s c : HasPrefix s (String c "") = true ↔ ∃ t, s = String c t.
Proof. rewrite HasPrefix_spec. done. Qed.

Lemma HasPrefix_head c d s : HasPrefix (String d s) (String c "") = bool_decide (c = d).
Proof.
  apply eq_bool_prop_intro. rewrite !Is_true_true, HasPrefix_char, bool_decide_eq_true.
  naive_solver.
Qed.

Section lemmas.
Context {S E : Type}.
Implicit Types (formal : gmap string (Value S E)) (s : S) (args rest : list string).

Lemma formal_ok_empty : formal_ok (∅ : gmap string (Value S E)).
Proof. intros name [v Hv]. by rewrite lookup_empty in Hv. Qed.

Lemma formal_ok_Var formal formal' name v :
  formal_ok formal → Var formal name v = Ok formal' → formal_ok formal'.
Proof.
  intros Hok HV n. unfold Var in HV. destruct (HasPrefix name "-") eqn:Hd; [done|].
  destruct (Contains name "=") eqn:Hc; [done|]. destruct (formal !! name); [done|].
  injection HV as <-. rewrite lookup_insert_is_Some'. intros [<-|Hn]; [|by apply Hok].
  split; [done|]. by apply free_of_Contains.
Qed.

(** A name without [=] is taken as it is, with or without a value. *)
Lemma splitFlag_name name : name ≠ "" → free_of "=" name = true → splitFlag name = (name, None).
Proof.
  destruct name as [|c t]; [done|]. intros _ [_ Ht]%andb_true_iff. simpl.
  by rewrite SplitN2_self.
Qed.

Lemma splitFlag_value name value :
  name ≠ "" → free_of "=" name = true →
  splitFlag (name +:+ "=" +:+ value) = (name, Some value).
Proof.
  destruct name as [|c t]; [done|]. intros _ [_ Ht]%andb_true_iff.
  rewrite string_app_cons. unfold splitFlag.
  change ("=" +:+ value) with (String "=" value). by rewrite SplitN2_app.
Qed.

Lemma splitFlag_inv name n value :
  name ≠ "" → HasPrefix name "=" = false → splitFlag name = (n, value) →
  n ≠ "" ∧ free_of "=" n = true ∧
  name = match value with Some v => n +:+ "=" +:+ v | None => n end.
Proof.
  destruct name as [|c t]; [done|]. rewrite HasPrefix_head, bool_decide_eq_false.
  intros _ Hc. simpl. destruct (split_at_first t "=") as [Ht|(p & u & -> & Hp)].
  - rewrite SplitN2_self by done. intros [= <- <-]. split_and!; [done| |done].
    unfold free_of in *; simpl. by rewrite Ht, bool_decide_eq_true_2 by congruence.
  - rewrite SplitN2_app by done. intros [= <- <-]. split_and!; [done| |done].
    unfold free_of in *; simpl. by rewrite Hp, bool_decide_eq_true_2 by congruence.
Qed.

(** One or two dashes and then a name: the name is looked up. *)
Lemma parseOne_dashes formal d name rest s :
  d ∈ dashes → name ≠ "" → HasPrefix name "-" = false → HasPrefix name "=" = false →
  parseOne formal ((d +:+ name) :: rest) s = parseFlag formal name rest s.
Proof.
  intros Hd Hne Hdash Heq. destruct name as [|c t]; [done|].
  apply list_elem_of_In in Hd as [<-|[<-|[]]].
  - unfold parseOne. rewrite string_app_cons, string_app_nil_l.
    rewrite HasPrefix_head in Hdash. apply bool_decide_eq_false in Hdash.
    cbn [String.length Nat.ltb Nat.leb orb]. rewrite HasPrefix_head, bool_decide_eq_true_2 by done.
    cbn [negb]. rewrite bool_decide_eq_false_2 by congruence.
    assert (HasPrefix (String "-" (String c t)) "--" = false) as ->.
    { simpl. by rewrite bool_decide_eq_false_2. }
    cbn [str_drop]. rewrite bool_decide_eq_false_2 by done.
    by rewrite HasPrefix_head, bool_decide_eq_false_2, Heq by done.
  - unfold parseOne. change ("--" +:+ String c t) with (String "-" (String "-" (String c t))).
    rewrite HasPrefix_head, bool_decide_eq_true_2 by done.
    cbn [String.length Nat.ltb Nat.leb orb negb].
    rewrite bool_decide_eq_false_2 by congruence.
    assert (HasPrefix (String "-" (String "-" (String c t))) "--" = true) as -> by done.
    cbn [str_drop]. by rewrite bool_decide_eq_false_2, Hdash, Heq by done.
Qed.

Lemma head_app c name t : name ≠ "" → HasPrefix (name +:+ t) (String c "") = HasPrefix name (String c "").
Proof. destruct name as [|d n]; [done|]. intros _. by rewrite string_app_cons, !HasPrefix_head. Qed.

Lemma head_free c name : name ≠ "" → free_of c name = true → HasPrefix name (String c "") = false.
Proof.
  destruct name as [|d n]; [done|]. intros _ [Hd _]%andb_true_iff. rewrite HasPrefix_head.
  apply bool_decide_eq_true in Hd. by apply bool_decide_eq_false.
Qed.

Lemma parseOne_item formal args name value rest :
  formal_ok formal → item formal args name value rest →
  ∃ v mk, formal !! name = Some v ∧ ∀ s, parseOne formal args s = setFlag v value mk rest s.
Proof.
  intros Hok Hi. destruct Hi as [d name value v rest Hd Hne Hv|d name v rest Hd Hne Hv Hb
    |d name value v rest Hd Hne Hv Hb];
    destruct (Hok name) as [Hdash Hfree]; try (by eexists);
    pose proof (head_free _ _ Hne Hfree) as Heq.
  - exists v, (if IsBoolFlag v then ErrBoolValue value name else ErrValue value name).
    split; [done|]. intros s. rewrite parseOne_dashes by (rewrite ?head_app; try done; by destruct name).
    unfold parseFlag. rewrite splitFlag_value, Hv by done. by destruct (IsBoolFlag v).
  - exists v, (ErrBoolFlag name). split; [done|]. intros s. rewrite parseOne_dashes by done.
    unfold parseFlag. by rewrite splitFlag_name, Hv, Hb by done.
  - exists v, (ErrValue value name). split; [done|]. intros s. rewrite parseOne_dashes by done.
    unfold parseFlag. by rewrite splitFlag_name, Hv, Hb by done.
Qed.

Lemma parseOne_stops formal args rest s :
  stops args rest → parseOne formal args s = (rest, s, Ok false).
Proof.
  destruct 1 as [|rest|arg rest Harg]; [done..|]. unfold parseOne.
  destruct Harg as [->|Harg]; [done|]. by rewrite Harg, orb_true_r.
Qed.

(** An argument that is a flag, taken apart. *)
Lemma flag_argument arg :
  (String.length arg <? 2)%nat || negb (HasPrefix arg "-") = false → arg ≠ "--" →
  ∃ d, d ∈ dashes ∧ arg = d +:+ str_drop (if HasPrefix arg "--" then 2 else 1) arg ∧
    str_drop (if HasPrefix arg "--" then 2 else 1) arg ≠ "".
Proof.
  intros [Hl Hp%negb_false_iff]%orb_false_iff Hne. apply Nat.ltb_ge in Hl.
  destruct (HasPrefix arg "--") eqn:Hd.
  - apply HasPrefix_spec in Hd as [t ->]. exists "--". change (str_drop 2 ("--" +:+ t)) with t.
    split_and!; [by right; left|done|]. by intros ->.
  - apply HasPrefix_spec in Hp as [t ->]. exists "-". change (str_drop 1 ("-" +:+ t)) with t.
    split_and!; [by left|done|]. intros ->. simpl in Hl. lia.
Qed.

Lemma setFlag_Ok (v : Value S E) value mk rest s rest' s' seen :
  setFlag v value mk rest s = (rest', s', Ok seen) →
  seen = true ∧ rest' = rest ∧ Set_ v value s = (s', None).
Proof. unfold setFlag. destruct (Set_ v value s) as [s1 [e|]]; naive_solver. Qed.

Lemma parseOne_Ok formal args s rest s' seen :
  parseOne formal args s = (rest, s', Ok seen) →
  if seen : bool
  then ∃ name value v, item formal args name value rest ∧ formal !! name = Some v ∧
         Set_ v value s = (s', None)
  else stops args rest ∧ s' = s.
Proof.
  unfold parseOne. destruct args as [|arg args].
  { intros [= <- <- <-]. split; [constructor|done]. }
  destruct (_ || negb _) eqn:Harg.
  { intros [= <- <- <-]. split; [constructor|done].
    apply orb_true_iff in Harg as [Hl|Hp%negb_true_iff]; [|by right].
    apply Nat.ltb_lt in Hl. destruct arg as [|c [|]]; [by right| |simpl in Hl; lia].
    destruct (decide (c = "-"%char)) as [->|]; [by left|right].
    rewrite HasPrefix_head. by apply bool_decide_eq_false. }
  case_bool_decide as Hdd. { intros [= <- <- <-]. subst. split; [constructor|done]. }
  destruct (flag_argument arg Harg Hdd) as (d & Hd & Harg' & Hne).
  set (name := str_drop _ arg) in *. rewrite bool_decide_eq_false_2 by done. cbn [orb].
  destruct (HasPrefix name "-") eqn:Hn1; [done|].
  destruct (HasPrefix name "=") eqn:Hn2; [done|]. cbn [orb]. clearbody name. subst arg.
  unfold parseFlag. destruct (splitFlag name) as [n value] eqn:Hs.
  apply splitFlag_inv in Hs as (Hnn & _ & ->); [|done..].
  destruct (formal !! n) as [v|] eqn:Hv; [|done].
  destruct (IsBoolFlag v) eqn:Hb, value as [value|].
  4: destruct args as [|value args]; [done|].
  all: intros (-> & -> & Hset)%setFlag_Ok; do 3 eexists; (split; [|done]).
  - by eapply item_equals.
  - by eapply item_bool.
  - by eapply item_equals.
  - by eapply item_next.
Qed.

Lemma parseOne_no_panic formal args s : panics (parseOne formal args s).2 = false.
Proof.
  assert (∀ v value mk rest s0, panics (@setFlag S E v value mk rest s0).2 = false) as Hset.
  { intros v value mk rest s0. unfold setFlag. by destruct (Set_ v value s0) as [? [?|]]. }
  unfold parseOne. destruct args as [|arg args]; [done|]. destruct (_ || negb _); [done|].
  case_bool_decide; [done|]. destruct (_ || HasPrefix _ _); [done|].
  unfold parseFlag. destruct (splitFlag _) as [n value]. destruct (formal !! n) as [v|]; [|done].
  destruct (IsBoolFlag v), value; [apply Hset..|]. destruct args; [done|]. apply Hset.
Qed.

Lemma item_shorter formal args name value rest :
  item formal args name value rest → (length rest < length args)%nat.
Proof. destruct 1; simpl; lia. Qed.

(** The loop ends within one round per argument, and one. *)
Lemma Parse_loop_total fuel formal args s :
  (length args < fuel)%nat → is_Some (Parse_loop fuel formal args s).
Proof.
  revert args s. induction fuel as [|fuel IH]; intros args s Hf; [lia|]. simpl.
  pose proof (parseOne_no_panic formal args s) as Hp.
  destruct (parseOne formal args s) as [[rest s'] [seen|e|]] eqn:Hone; [|by eexists|done].
  destruct seen; [|by eexists].
  apply parseOne_Ok in Hone as (n & v & x & Hi%item_shorter & _). apply IH. lia.
Qed.

Lemma Parse_loop_fuel fuel1 fuel2 formal args s :
  (length args < fuel1)%nat → (length args < fuel2)%nat →
  Parse_loop fuel1 formal args s = Parse_loop fuel2 formal args s.
Proof.
  revert fuel2 args s. induction fuel1 as [|fuel1 IH]; intros [|fuel2] args s H1 H2; try lia. simpl.
  destruct (parseOne formal args s) as [[rest s'] [[|]|e|]] eqn:Hone; [|done..].
  apply parseOne_Ok in Hone as (n & v & x & Hi%item_shorter & _). apply IH; lia.
Qed.

Lemma Parse_loop_S fuel formal args s :
  Parse_loop (Datatypes.S fuel) formal args s =
  match parseOne formal args s with
  | (args, s, Ok true) => Parse_loop fuel formal args s
  | (args, s, Ok false) => Some (args, s, None)
  | (args, s, Err e) => Some (args, s, Some e)
  | (_, _, Panic _) => None
  end.
Proof. reflexivity. Qed.

(** One round of [Parse], for an argument that starts with two dashes. *)
Lemma Parse_dashes formal name rest s :
  name ≠ "" → HasPrefix name "-" = false → HasPrefix name "=" = false →
  Parse formal (("--" +:+ name) :: rest) s =
  match parseFlag formal name rest s with
  | (args, s, Ok true) => Parse formal args s
  | (args, s, Ok false) => Some (args, s, None)
  | (args, s, Err e) => Some (args, s, Some e)
  | (_, _, Panic _) => None
  end.
Proof.
  intros Hn Hd He. assert ("--" ∈ dashes) as Hdash by (right; left).
  pose proof (parseOne_dashes formal "--" name rest s Hdash Hn Hd He) as Hp. rewrite <- Hp.
  unfold Parse at 1. rewrite Parse_loop_S.
  destruct (parseOne formal (("--" +:+ name) :: rest) s) as [[args s'] [[|]|e|]] eqn:Hone; [|done..].
  apply parseOne_Ok in Hone as (n & v & x & Hi%item_shorter & _).
  apply Parse_loop_fuel; simpl in *; lia.
Qed.

Lemma Parse_loop_cmdline fuel formal args s rest s' :
  formal_ok formal → (length args < fuel)%nat →
  Parse_loop fuel formal args s = Some (rest, s', None) ↔
  ∃ l, cmdline formal args l rest ∧ assign formal l s = Some s'.
Proof.
  intros Hok. revert args s. induction fuel as [|fuel IH]; intros args s Hf; [lia|]. simpl. split.
  - destruct (parseOne formal args s) as [[rest1 s1] [seen|e|]] eqn:Hone; [|done..].
    apply parseOne_Ok in Hone. destruct seen.
    + destruct Hone as (name & value & v & Hi & Hv & Hs).
      intros (l & Hl & Ha)%IH; [|apply item_shorter in Hi; lia].
      exists ((name, value) :: l). split; [by econstructor|]. simpl. by rewrite Hv, Hs.
    + destruct Hone as [Hst ->]. intros [= <- <-]. exists []. split; [by constructor|done].
  - intros (l & Hl & Ha). destruct Hl as [args rest Hst|args name value args' l rest Hi Hl].
    + rewrite (parseOne_stops _ _ _ _ Hst). simpl in Ha. by simplify_eq.
    + destruct (parseOne_item _ _ _ _ _ Hok Hi) as (v & mk & Hv & ->).
      simpl in Ha. rewrite Hv in Ha. unfold setFlag.
      destruct (Set_ v value s) as [s1 [e|]]; [done|].
      apply IH; [apply item_shorter in Hi; lia|]. by exists l.
Qed.

Lemma Parse_total formal args s : is_Some (Parse formal args s).
Proof. apply Parse_loop_total. lia. Qed.

Lemma Parse_cmdline formal args s rest s' :
  formal_ok formal →
  Parse formal args s = Some (rest, s', None) ↔
  ∃ l, cmdline formal args l rest ∧ assign formal l s = Some s'.
Proof. intros Hok. apply Parse_loop_cmdline; [done|lia]. Qed.

Lemma assign_app formal l1 l2 s :
  assign formal (l1 ++ l2) s = assign formal l1 s ≫= assign formal l2.
Proof.
  revert s. induction l1 as [|[name value] l1 IH]; intros s; [done|]; simpl.
  destruct (formal !! name) as [v|]; [|done]. destruct (Set_ v value s) as [s1 [e|]]; [done|]. apply IH.
Qed.

(** The arguments [--name=value], which suit every flag. *)
Definition render (l : list (string * string)) : list string :=
  (λ '(name, value), "--" +:+ name +:+ "=" +:+ value) <$> l.

Lemma cmdline_render formal l :
  Forall (λ nv, nv.1 ≠ "" ∧ is_Some (formal !! nv.1)) l → cmdline formal (render l) l [].
Proof.
  induction 1 as [|[name value] l [Hne [v Hv]] _ IH]; [apply cmdline_stop; constructor|].
  eapply cmdline_item; [|exact IH]. eapply item_equals; [by right; left|done|done].
Qed.

Lemma setFlag_Err (v : Value S E) value mk rest s rest' s' err :
  setFlag v value mk rest s = (rest', s', Err err) →
  ∃ e, err = mk e ∧ (Set_ v value s).2 = Some e.
Proof. unfold setFlag. destruct (Set_ v value s) as [s1 [e|]]; naive_solver. Qed.

Lemma parseOne_Err formal args s rest s' err :
  parseOne formal args s = (rest, s', Err err) → faulty formal args s err.
Proof.
  unfold parseOne. destruct args as [|arg args]; [done|].
  destruct (_ || negb _) eqn:Harg; [done|].
  case_bool_decide as Hdd; [done|].
  destruct (flag_argument arg Harg Hdd) as (d & Hd & Harg' & Hne).
  destruct (HasPrefix (str_drop _ arg) "-") eqn:Hn1; [|destruct (HasPrefix (str_drop _ arg) "=") eqn:Hn2].
  - rewrite orb_true_r. intros [= <- <- <-]. apply HasPrefix_char in Hn1 as [t Ht].
    rewrite Ht in Harg'. rewrite Harg'. apply faulty_syntax; [done|]. right. split; [|done].
    apply list_elem_of_In in Hd as [<-|[<-|[]]]; [|done].
    exfalso. rewrite Harg' in Ht. cbn in Ht. apply (f_equal String.length) in Ht. simpl in Ht. lia.
  - rewrite orb_true_r. intros [= <- <- <-]. apply HasPrefix_char in Hn2 as [t Ht].
    rewrite Ht in Harg'. rewrite Harg'. apply faulty_syntax; [done|by left].
  - rewrite bool_decide_eq_false_2 by done. cbn [orb].
    set (name := str_drop _ arg) in *. clearbody name. subst arg.
    unfold parseFlag. destruct (splitFlag name) as [n value] eqn:Hs.
    apply splitFlag_inv in Hs as (Hnn & Hfree & ->); [|done..].
    destruct (formal !! n) as [v|] eqn:Hv.
    + destruct (IsBoolFlag v) eqn:Hb, value as [value|].
      4: destruct args as [|value args]; [intros [= <- <- <-]; by eapply faulty_argument|].
      all: intros (e & -> & He)%setFlag_Err; eapply faulty_value; [|done|done|].
      all: try by (eapply item_equals + eapply item_bool + eapply item_next).
      all: rewrite !elem_of_cons; tauto.
    + intros [= <- <- <-]. destruct value as [value|].
      * apply faulty_undefined; eauto.
      * rewrite <- (string_app_nil_r n) at 1. apply faulty_undefined; auto.
Qed.

Lemma Parse_loop_Err fuel formal args s rest s' err :
  Parse_loop fuel formal args s = Some (rest, s', Some err) →
  ∃ l args' s1, items formal args l args' ∧ assign formal l s = Some s1 ∧ faulty formal args' s1 err.
Proof.
  revert args s. induction fuel as [|fuel IH]; intros args s; [done|]. simpl.
  destruct (parseOne formal args s) as [[rest1 s1] [seen|e|]] eqn:Hone; [| |done].
  - apply parseOne_Ok in Hone. destruct seen; [|done].
    destruct Hone as (name & value & v & Hi & Hv & Hs).
    intros (l & args' & s2 & Hl & Ha & Hf)%IH.
    exists ((name, value) :: l), args', s2. split_and!; [by econstructor| |done].
    simpl. by rewrite Hv, Hs.
  - intros [= <- <- <-]. exists [], args, s. split_and!; [constructor|done|].
    by eapply parseOne_Err.
Qed.

Lemma items_formal formal args l args' :
  items formal args l args' → Forall (λ nv, is_Some (formal !! nv.1)) l.
Proof. induction 1 as [|???? l args'' Hi _ IH]; constructor; try done. by destruct Hi; eexists. Qed.

Lemma cmdline_items formal args l rest :
  cmdline formal args l rest ↔ ∃ args', items formal args l args' ∧ stops args' rest.
Proof.
  split.
  - induction 1 as [args rest Hs|args name value args' l rest Hi _ (a & Ha & Hs)].
    + exists args. split; [constructor|done].
    + exists a. split; [by econstructor|done].
  - intros (a & Ha & Hs). induction Ha; [by apply cmdline_stop|]. eapply cmdline_item; eauto.
Qed.
End lemmas.
