(* ===== verification/GoJson.v ===== *)
(** [json.Unmarshal(text, &m)] of Go's [encoding/json] for a fresh
    [m : map[string]string].

    The text is parsed as one JSON value with white space around it; then a JSON
    object whose members are strings (or null, which leaves the zero value) fills
    the map, the last of duplicate keys winning, null gives the nil map, and any
    other shape is a type error.  Go's limit on the nesting depth needs no
    counterpart: a value nested at all is already a type error here. *)
From S2P Require Import Prelude GoStrings GoStrconv.
Local Open Scope Z_scope.
Set Warnings "-register-all".

Inductive json :=
| JNull
| JBool (b : bool)
| JNumber
| JString (s : string)
| JArray (l : list json)
| JObject (l : list (string * json)).

(** ** UTF-8 *)

Definition zbyte (n : Z) : ascii := byte (Z.to_nat n).

Definition in_range (lo hi : Z) (c : ascii) : bool :=
  (lo <=? byte_val c) && (byte_val c <=? hi).

Definition cont (c : ascii) : bool := in_range 128 191 c.

(** Bounds on the second byte of a sequence of three or four, by the first. *)
Definition second_ok (c d : ascii) : bool :=
  let n := byte_val c in
  if n =? 224 then in_range 160 191 d
  else if n =? 237 then in_range 128 159 d
  else if n =? 240 then in_range 144 191 d
  else if n =? 244 then in_range 128 143 d
  else cont d.

(** Length of the valid encoding that [s] starts with; 0 when there is none
    ([utf8.DecodeRune] then consumes one byte as U+FFFD). *)
Definition rune_len (s : string) : nat :=
  match s with
  | String c s =>
      if byte_val c <? 128 then 1%nat
      else match s with
        | String d s =>
            if in_range 194 223 c && cont d then 2%nat
            else match s with
              | String e s =>
                  if in_range 224 239 c && second_ok c d && cont e then 3%nat
                  else match s with
                    | String f _ =>
                        if in_range 240 244 c && second_ok c d && cont e && cont f
                        then 4%nat else 0%nat
                    | "" => 0%nat
                    end
              | "" => 0%nat
              end
        | "" => 0%nat
        end
  | "" => 0%nat
  end.

Definition encode_rune (r : Z) : string :=
  if r <? 128 then String (zbyte r) ""
  else if r <? 2048 then String (zbyte (192 + r `div` 64)) (String (zbyte (128 + r `mod` 64)) "")
  else if r <? 65536 then
    String (zbyte (224 + r `div` 4096)) (String (zbyte (128 + (r `div` 64) `mod` 64))
      (String (zbyte (128 + r `mod` 64)) ""))
  else
    String (zbyte (240 + r `div` 262144)) (String (zbyte (128 + (r `div` 4096) `mod` 64))
      (String (zbyte (128 + (r `div` 64) `mod` 64)) (String (zbyte (128 + r `mod` 64)) ""))).

Definition replacement : Z := 65533.

(** ** Tokens *)

Definition quote_char : ascii := byte 34.
Definition backslash : ascii := byte 92.

Definition is_json_space (c : ascii) : bool :=
  bool_decide (byte_val c ∈ [32; 9; 13; 10]).

Fixpoint skip_space (s : string) : string :=
  match s with
  | String c s' => if is_json_space c then skip_space s' else s
  | "" => ""
  end.

Definition hex_val (c : ascii) : option Z :=
  let n := byte_val c in
  if in_range 48 57 c then Some (n - 48)
  else if in_range 97 102 c then Some (n - 87)
  else if in_range 65 70 c then Some (n - 55)
  else None.

Definition hex4 (s : string) : option (Z * string) :=
  match s with
  | String a (String b (String c (String d s))) =>
      match hex_val a, hex_val b, hex_val c, hex_val d with
      | Some a, Some b, Some c, Some d => Some (a * 4096 + b * 256 + c * 16 + d, s)
      | _, _, _, _ => None
      end
  | _ => None
  end.

(** After [\u] and its four digits [r]: the rune and the rest, joining a
    surrogate pair. *)
Definition join_surrogates (r : Z) (s : string) : Z * string :=
  if (55296 <=? r) && (r <? 57344) then
    match s with
    | String b (String u s') =>
        if bool_decide (b = backslash) && bool_decide (u = "u"%char) then
          match hex4 s' with
          | Some (r2, s'') =>
              if (r <? 56320) && (56320 <=? r2) && (r2 <? 57344)
              then ((r - 55296) * 1024 + (r2 - 56320) + 65536, s'')
              else (replacement, s)
          | None => (replacement, s)
          end
        else (replacement, s)
    | _ => (replacement, s)
    end
  else (r, s).

Definition simple_escape (c : ascii) : option ascii :=
  if bool_decide (c = quote_char) then Some quote_char
  else if bool_decide (c = backslash) then Some backslash
  else if bool_decide (c = "/"%char) then Some "/"%char
  else if bool_decide (c = "b"%char) then Some (byte 8)
  else if bool_decide (c = "f"%char) then Some (byte 12)
  else if bool_decide (c = "n"%char) then Some (byte 10)
  else if bool_decide (c = "r"%char) then Some (byte 13)
  else if bool_decide (c = "t"%char) then Some (byte 9)
  else None.

(** The rest of a string literal after its opening quote.  Every round consumes
    a byte, so the length of the text is fuel enough. *)
Fixpoint string_body (fuel : nat) (s : string) : option (string * string) :=
  match fuel, s with
  | O, _ | _, "" => None
  | S fuel, String c s' =>
      if bool_decide (c = quote_char) then Some ("", s')
      else if bool_decide (c = backslash) then
        match s' with
        | String e s'' =>
            if bool_decide (e = "u"%char) then
              match hex4 s'' with
              | Some (r, s3) =>
                  let '(r, s3) := join_surrogates r s3 in
                  '(t, rest) ← string_body fuel s3; Some (encode_rune r +:+ t, rest)
              | None => None
              end
            else
              match simple_escape e with
              | Some d => '(t, rest) ← string_body fuel s''; Some (String d t, rest)
              | None => None
              end
        | "" => None
        end
      else if byte_val c <? 32 then None
      else
        match rune_len s with
        | O => '(t, rest) ← string_body fuel s'; Some (encode_rune replacement +:+ t, rest)
        | n => '(t, rest) ← string_body fuel (str_drop n s); Some (str_take n s +:+ t, rest)
        end
  end.

Fixpoint digits (s : string) : nat * string :=
  match s with
  | String c s' => if in_range 48 57 c then let '(n, r) := digits s' in (S n, r) else (O, s)
  | "" => (O, "")
  end.

(** A number: sign, integer part without leading zeros, fraction, exponent. *)
Definition number (s : string) : option string :=
  let s := match s with String c s' => if bool_decide (c = "-"%char) then s' else s | "" => s end in
  s ← match s with
      | String c s' =>
          if bool_decide (c = "0"%char) then Some s'
          else match digits s with (O, _) => None | (_, r) => Some r end
      | "" => None
      end;
  s ← match s with
      | String c s' =>
          if bool_decide (c = "."%char)
          then match digits s' with (O, _) => None | (_, r) => Some r end
          else Some s
      | "" => Some s
      end;
  match s with
  | String c s' =>
      if bool_decide (c = "e"%char) || bool_decide (c = "E"%char) then
        let s' := match s' with
          | String d s'' =>
              if bool_decide (d = "+"%char) || bool_decide (d = "-"%char) then s'' else s'
          | "" => s'
          end in
        match digits s' with (O, _) => None | (_, r) => Some r end
      else Some s
  | "" => Some s
  end.

Definition expect (c : ascii) (s : string) : option string :=
  match s with
  | String d s => if bool_decide (d = c) then Some s else None
  | "" => None
  end.

(** ** Values

    Fuel: every call consumes a byte or is the last one on a list, so twice the
    length of the text plus one is enough. *)
Fixpoint value (fuel : nat) (s : string) : option (json * string) :=
  match fuel with
  | O => None
  | S fuel =>
      match skip_space s with
      | "" => None
      | String c s' as t =>
          if bool_decide (c = quote_char) then
            '(x, r) ← string_body (String.length s') s'; Some (JString x, r)
          else if bool_decide (c = "{"%char) then
            match expect "}" (skip_space s') with
            | Some r => Some (JObject [], r)
            | None => '(l, r) ← members fuel s'; Some (JObject l, r)
            end
          else if bool_decide (c = "["%char) then
            match expect "]" (skip_space s') with
            | Some r => Some (JArray [], r)
            | None => '(l, r) ← elements fuel s'; Some (JArray l, r)
            end
          else if HasPrefix t "null" then Some (JNull, str_drop 4 t)
          else if HasPrefix t "true" then Some (JBool true, str_drop 4 t)
          else if HasPrefix t "false" then Some (JBool false, str_drop 5 t)
          else r ← number t; Some (JNumber, r)
      end
  end
with members (fuel : nat) (s : string) : option (list (string * json) * string) :=
  match fuel with
  | O => None
  | S fuel =>
      r ← expect quote_char (skip_space s);
      '(k, r) ← string_body (String.length r) r;
      r ← expect ":" (skip_space r);
      '(v, r) ← value fuel r;
      match expect "," (skip_space r) with
      | Some r => '(l, r) ← members fuel r; Some ((k, v) :: l, r)
      | None => r ← expect "}" (skip_space r); Some ([(k, v)], r)
      end
  end
with elements (fuel : nat) (s : string) : option (list json * string) :=
  match fuel with
  | O => None
  | S fuel =>
      '(v, r) ← value fuel s;
      match expect "," (skip_space r) with
      | Some r => '(l, r) ← elements fuel r; Some (v :: l, r)
      | None => r ← expect "]" (skip_space r); Some ([v], r)
      end
  end.

Definition parse_json (s : string) : option json :=
  '(v, r) ← value (S (2 * String.length s)) s;
  if bool_decide (skip_space r = "") then Some v else None.

(** ** Decoding into [map[string]string] *)

Definition member_string (j : json) : option string :=
  match j with JString s => Some s | JNull => Some "" | _ => None end.

Fixpoint decode_members (m : gmap string string) (l : list (string * json))
    : option (gmap string string) :=
  match l with
  | [] => Some m
  | (k, j) :: l => s ← member_string j; decode_members (<[k := s]> m) l
  end.

Definition UnmarshalStringMap (text : string) : option (gmap string string) :=
  j ← parse_json text;
  match j with
  | JNull => Some ∅
  | JObject l => decode_members ∅ l
  | _ => None
  end.

(** Text with every apostrophe turned into a double quote, for examples. *)
Fixpoint dq (s : string) : string :=
  match s with
  | "" => ""
  | String c s => String (if bool_decide (c = "'"%char) then quote_char else c) (dq s)
  end.

Example json_ex1 :
  UnmarshalStringMap (dq " { 'log-vol': '/var/log/app', 'x' : null }") =
  Some {["log-vol" := "/var/log/app"; "x" := ""]}.
Proof. vm_compute. reflexivity. Qed.
Example json_ex2 : UnmarshalStringMap (dq "{'a': 1.5e3}") = None.
Proof. vm_compute. reflexivity. Qed.
Example json_ex3 : UnmarshalStringMap (dq "{'a': 'b',}") = None.
Proof. vm_compute. reflexivity. Qed.
Example json_ex4 :
  parse_json (dq "[{'a': [true, -0.5E+3, null]}, '\u0041\ud83d\ude00\n']") =
  Some (JArray [JObject [("a", JArray [JBool true; JNumber; JNull])];
                JString (String "A" (str_of_bytes [240; 159; 152; 128; 10]%nat))]).
Proof. vm_compute. reflexivity. Qed.

(** ** A plain literal reads as itself *)

(** Printable ASCII without quote and backslash. *)
Definition plain (s : string) : bool :=
  str_forallb (λ c, in_range 32 126 c && bool_decide (c ≠ quote_char)
                    && bool_decide (c ≠ backslash)) s.

Lemma string_body_plain s rest fuel :
  plain s = true → (String.length s < fuel)%nat →
  string_body fuel (s +:+ String quote_char rest) = Some (s, rest).
Proof.
  unfold plain. revert fuel. induction s as [|c s IH]; intros [|fuel] Hp Hf; try (simpl in *; lia).
  - done.
  - cbn in Hp. apply andb_true_iff in Hp as [[[[H1 H2]%andb_true_iff Hq]%andb_true_iff Hb]%andb_true_iff Hs].
    apply bool_decide_eq_true in Hq, Hb. apply Z.leb_le in H1, H2.
    rewrite string_app_cons. cbn [string_body].
    rewrite !bool_decide_eq_false_2 by done.
    rewrite (proj2 (Z.ltb_ge _ _)) by lia. unfold rune_len.
    rewrite (proj2 (Z.ltb_lt _ _)) by lia. cbn [str_drop str_take].
    rewrite IH; [done|done|simpl in Hf; lia].
Qed.

(** An object with one plain member, in the layout of the annotation's
    documentation. *)
Definition quoted (s : string) : string := String quote_char (s +:+ String quote_char "").

Definition object_text (k v : string) : string :=
  "{ " +:+ quoted k +:+ ": " +:+ quoted v +:+ " }".

Lemma string_body_quoted s rest :
  plain s = true →
  string_body (String.length (s +:+ String quote_char rest)) (s +:+ String quote_char rest) =
  Some (s, rest).
Proof. intros Hs. apply string_body_plain; [done|]. rewrite string_length_app; simpl. lia. Qed.

Lemma quoted_app s rest : quoted s +:+ rest = String quote_char (s +:+ String quote_char rest).
Proof. unfold quoted. by rewrite string_app_cons, string_app_assoc, string_app_cons. Qed.

Lemma value_quoted fuel s rest :
  plain s = true →
  value (S fuel) (String " " (quoted s +:+ rest)) = Some (JString s, rest).
Proof.
  intros Hs. rewrite quoted_app. cbn [value].
  change (skip_space (String " " (String quote_char (s +:+ String quote_char rest))))
    with (String quote_char (s +:+ String quote_char rest)).
  cbv iota. rewrite bool_decide_eq_true_2 by done. by rewrite string_body_quoted.
Qed.

Lemma members_one fuel k v :
  plain k = true → plain v = true →
  members (S (S fuel)) (String " " (quoted k +:+ String ":" (String " " (quoted v +:+ " }")))) =
  Some ([(k, JString v)], "").
Proof.
  intros Hk Hv. rewrite (quoted_app k). cbn [members].
  change (expect quote_char (skip_space (String " " (String quote_char ?x)))) with (Some x).
  cbn [mbind option_bind]. rewrite string_body_quoted by done. cbn [mbind option_bind].
  change (expect ":" (skip_space (String ":" ?x))) with (Some x). cbn [mbind option_bind].
  rewrite value_quoted by done. reflexivity.
Qed.

Lemma UnmarshalStringMap_object k v :
  plain k = true → plain v = true → UnmarshalStringMap (object_text k v) = Some {[k := v]}.
Proof.
  intros Hk Hv. unfold UnmarshalStringMap, parse_json.
  assert (object_text k v =
    String "{" (String " " (quoted k +:+ String ":" (String " " (quoted v +:+ " }"))))) as Htext.
  { unfold object_text. by rewrite !string_app_cons, !string_app_nil_l. }
  rewrite Htext. set (body := String " " (quoted k +:+ _)).
  assert (∃ n, (2 * String.length (String "{" body) = S (S n))%nat) as [n ->]
    by (exists (2 * String.length body)%nat; simpl; lia).
  cbn [value]. change (skip_space (String "{" body)) with (String "{" body). cbv iota.
  rewrite (bool_decide_eq_false_2 ("{"%char = quote_char)) by done.
  rewrite (bool_decide_eq_true_2 ("{"%char = "{"%char)) by done.
  assert (expect "}" (skip_space body) = None) as ->.
  { unfold body. rewrite quoted_app. reflexivity. }
  unfold body. rewrite members_one by done. reflexivity.
Qed.

(** ** The fuel is enough *)

Local Open Scope nat_scope.

Lemma skip_space_length s : String.length (skip_space s) ≤ String.length s.
Proof. induction s as [|c s IH]; simpl; [done|]. destruct (is_json_space c); simpl; lia. Qed.

Lemma expect_length c s r : expect c s = Some r → String.length s = S (String.length r).
Proof. destruct s as [|d s]; [done|]; simpl. case_bool_decide; intros [= <-]. done. Qed.

Lemma expect_skip_length c s r :
  expect c (skip_space s) = Some r → String.length r < String.length s.
Proof. intros H%expect_length. pose proof (skip_space_length s). lia. Qed.

Lemma hex4_length s v r : hex4 s = Some (v, r) → String.length r < String.length s.
Proof.
  unfold hex4. repeat (case_match; try done). intros [= _ <-]. subst. simpl. lia.
Qed.

Lemma join_surrogates_length v s v' r :
  join_surrogates v s = (v', r) → String.length r ≤ String.length s.
Proof.
  unfold join_surrogates. repeat (case_match; simplify_eq; try (intros [= <- <-]); try done).
  match goal with H : hex4 _ = _ |- _ => apply hex4_length in H end. simpl. lia.
Qed.

Lemma str_drop_shorter n c s : String.length (str_drop (S n) (String c s)) ≤ String.length s.
Proof.
  cbn [str_drop]. revert s. induction n as [|n IH]; intros [|d s]; simpl; try lia.
  etrans; [apply IH|]. lia.
Qed.

Lemma string_body_length fuel s x r :
  string_body fuel s = Some (x, r) → String.length r < String.length s.
Proof.
  revert s x r. induction fuel as [|fuel IH]; intros [|c s] x r H; try done.
  cbn [string_body] in H. case_bool_decide; [simplify_eq; simpl; lia|].
  case_bool_decide.
  { destruct s as [|e s]; [done|]. case_bool_decide.
    - destruct (hex4 s) as [[v s3]|] eqn:E; [|done]. apply hex4_length in E.
      destruct (join_surrogates v s3) as [v' s4] eqn:Ej. apply join_surrogates_length in Ej.
      destruct (string_body fuel s4) as [[t rest]|] eqn:Es; [|done]. apply IH in Es.
      injection H as _ <-. simpl. lia.
    - destruct (simple_escape e); [|done].
      destruct (string_body fuel s) as [[t rest]|] eqn:Es; [|done]. apply IH in Es.
      injection H as _ <-. simpl. lia. }
  case_match; [done|].
  destruct (rune_len (String c s)) as [|n].
  - destruct (string_body fuel s) as [[t rest]|] eqn:Es; [|done]. apply IH in Es.
    injection H as _ <-. simpl. lia.
  - destruct (string_body fuel _) as [[t rest]|] eqn:Es in H; [|done]. apply IH in Es.
    pose proof (str_drop_shorter n c s). injection H as _ <-. simpl in *. lia.
Qed.

Lemma string_body_fuel fuel1 fuel2 s :
  String.length s ≤ fuel1 → String.length s ≤ fuel2 → string_body fuel1 s = string_body fuel2 s.
Proof.
  revert fuel2 s. induction fuel1 as [|fuel1 IH]; intros [|fuel2] [|c s] H1 H2;
    try (simpl in *; lia); try done.
  cbn [string_body]. simpl in H1, H2.
  case_bool_decide; [done|]. case_bool_decide.
  { destruct s as [|e s]; [done|]; simpl in H1, H2. case_bool_decide.
    - destruct (hex4 s) as [[v s3]|] eqn:E; [|done]. apply hex4_length in E.
      destruct (join_surrogates v s3) as [v' s4] eqn:Ej. apply join_surrogates_length in Ej.
      by rewrite (IH fuel2) by lia.
    - by rewrite (IH fuel2) by lia. }
  case_match; [done|]. destruct (rune_len (String c s)) as [|n].
  - by rewrite (IH fuel2) by lia.
  - pose proof (str_drop_shorter n c s). by rewrite (IH fuel2) by lia.
Qed.

Lemma digits_length s n r :
  digits s = (n, r) → String.length r + n = String.length s.
Proof.
  revert n r. induction s as [|c s IH]; intros n r; simpl; [by intros [= <- <-]|].
  case_match; [|by intros [= <- <-]]. destruct (digits s) as [m t]. specialize (IH _ _ eq_refl).
  intros [= <- <-]. lia.
Qed.

Lemma number_length s r : number s = Some r → String.length r < String.length s.
Proof.
  unfold number.
  set (s1 := match s with String c s' => _ | "" => s end).
  assert (String.length s1 ≤ String.length s) as H1.
  { unfold s1. destruct s as [|c s]; [done|]. case_bool_decide; simpl; lia. }
  clearbody s1. destruct s1 as [|c s1]; [done|]. simpl in H1.
  match goal with |- (?x ≫= _) = _ → _ => destruct x as [s2|] eqn:E2; [|done] end.
  assert (String.length s2 ≤ String.length s1) as H2.
  { case_bool_decide; [by simplify_eq|]. destruct (digits (String c s1)) as [[|n] t] eqn:Ed; [done|].
    apply digits_length in Ed. simplify_eq/=. lia. }
  cbn [mbind option_bind].
  match goal with |- (?x ≫= _) = _ → _ => destruct x as [s3|] eqn:E3; [|done] end.
  assert (String.length s3 ≤ String.length s2) as H3.
  { destruct s2 as [|d s2]; [by simplify_eq|]. case_bool_decide; [|by simplify_eq].
    destruct (digits s2) as [[|n] t] eqn:Ed; [done|]. apply digits_length in Ed. simplify_eq/=. lia. }
  cbn [mbind option_bind]. destruct s3 as [|d s3]; [intros Hr; simplify_eq; simpl; lia|].
  cbn [String.length] in H3.
  destruct (_ || _); [|intros Hr; simplify_eq; cbn [String.length]; lia].
  cbv zeta. match goal with |- context [digits ?x] =>
    assert (String.length x ≤ String.length s3) as H4;
    [destruct s3 as [|e s3]; [done|]; destruct (_ || _); cbn [String.length]; lia|];
    destruct (digits x) as [[|n] t] eqn:Ed; [done|] end.
  apply digits_length in Ed. intros Hr. simplify_eq. lia.
Qed.

(** Each of the three parsers leaves less than it was given. *)
Lemma parsers_length fuel :
  (∀ s v r, value fuel s = Some (v, r) → String.length r < String.length s) ∧
  (∀ s l r, members fuel s = Some (l, r) → String.length r < String.length s) ∧
  (∀ s l r, elements fuel s = Some (l, r) → String.length r < String.length s).
Proof.
  induction fuel as [|fuel (IHv & IHm & IHe)]; [done|]. split_and!; intros s v r H.
  - cbn [value] in H. pose proof (skip_space_length s) as Hs.
    destruct (skip_space s) as [|c s'] eqn:Es; [done|]. simpl in Hs.
    case_bool_decide.
    { destruct (string_body _ s') as [[x t]|] eqn:E; [|done]. apply string_body_length in E.
      injection H as _ <-. lia. }
    case_bool_decide.
    { destruct (expect _ _) as [t|] eqn:E.
      - apply expect_skip_length in E. injection H as _ <-. lia.
      - destruct (members fuel s') as [[l t]|] eqn:Em; [|done]. apply IHm in Em.
        injection H as _ <-. lia. }
    case_bool_decide.
    { destruct (expect _ _) as [t|] eqn:E.
      - apply expect_skip_length in E. injection H as _ <-. lia.
      - destruct (elements fuel s') as [[l t]|] eqn:Em; [|done]. apply IHe in Em.
        injection H as _ <-. lia. }
    case_match; [pose proof (str_drop_shorter 3 c s'); injection H as _ Hr; rewrite <- Hr; clear Hr; cbn [str_drop] in *; lia|].
    case_match; [pose proof (str_drop_shorter 3 c s'); injection H as _ Hr; rewrite <- Hr; clear Hr; cbn [str_drop] in *; lia|].
    case_match; [pose proof (str_drop_shorter 4 c s'); injection H as _ Hr; rewrite <- Hr; clear Hr; cbn [str_drop] in *; lia|].
    destruct (number _) as [t|] eqn:E; [|done]. apply number_length in E.
    injection H as _ <-. simpl in E. lia.
  - cbn [members] in H. destruct (expect quote_char _) as [r1|] eqn:E1; [|done].
    apply expect_skip_length in E1. cbn [mbind option_bind] in H.
    destruct (string_body _ r1) as [[k r2]|] eqn:E2; [|done]. apply string_body_length in E2.
    cbn [mbind option_bind] in H. destruct (expect ":" _) as [r3|] eqn:E3; [|done].
    apply expect_skip_length in E3. cbn [mbind option_bind] in H.
    destruct (value fuel r3) as [[x r4]|] eqn:E4; [|done]. apply IHv in E4.
    cbn [mbind option_bind] in H. destruct (expect "," _) as [r5|] eqn:E5.
    + apply expect_skip_length in E5. destruct (members fuel r5) as [[l t]|] eqn:E6; [|done].
      apply IHm in E6. injection H as _ <-. lia.
    + destruct (expect "}" _) as [r6|] eqn:E6; [|done]. apply expect_skip_length in E6.
      injection H as _ <-. lia.
  - cbn [elements] in H. destruct (value fuel s) as [[x r4]|] eqn:E4; [|done]. apply IHv in E4.
    cbn [mbind option_bind] in H. destruct (expect "," _) as [r5|] eqn:E5.
    + apply expect_skip_length in E5. destruct (elements fuel r5) as [[l t]|] eqn:E6; [|done].
      apply IHe in E6. injection H as _ <-. lia.
    + destruct (expect "]" _) as [r6|] eqn:E6; [|done]. apply expect_skip_length in E6.
      injection H as _ <-. lia.
Qed.

(** Any two amounts of fuel beyond twice the length give the same result, so
    [parse_json] never fails for want of fuel. *)
Lemma parsers_fuel fuel1 :
  (∀ fuel2 s, 2 * String.length s < fuel1 → 2 * String.length s < fuel2 →
     value fuel1 s = value fuel2 s) ∧
  (∀ fuel2 s, 2 * String.length s + 1 < fuel1 → 2 * String.length s + 1 < fuel2 →
     members fuel1 s = members fuel2 s) ∧
  (∀ fuel2 s, 2 * String.length s + 1 < fuel1 → 2 * String.length s + 1 < fuel2 →
     elements fuel1 s = elements fuel2 s).
Proof.
  induction fuel1 as [|fuel1 (IHv & IHm & IHe)]; [split_and!; intros; lia|].
  destruct (parsers_length fuel1) as (Lv & _ & _).
  split_and!; intros [|fuel2] s H1 H2; try lia.
  - cbn [value]. pose proof (skip_space_length s) as Hs.
    destruct (skip_space s) as [|c s'] eqn:Es; [done|]. simpl in Hs.
    case_bool_decide; [done|]. case_bool_decide.
    { destruct (expect _ _); [done|]. by rewrite (IHm fuel2) by lia. }
    case_bool_decide; [|done].
    destruct (expect _ _); [done|]. by rewrite (IHe fuel2) by lia.
  - cbn [members]. destruct (expect quote_char _) as [r1|] eqn:E1; [|done].
    apply expect_skip_length in E1. cbn [mbind option_bind].
    destruct (string_body _ r1) as [[k r2]|] eqn:E2; [|done]. apply string_body_length in E2.
    cbn [mbind option_bind]. destruct (expect ":" _) as [r3|] eqn:E3; [|done].
    apply expect_skip_length in E3. cbn [mbind option_bind].
    rewrite <- (IHv fuel2) by lia. destruct (value fuel1 r3) as [[x r4]|] eqn:E4; [|done].
    apply Lv in E4. cbn [mbind option_bind]. destruct (expect "," _) as [r5|] eqn:E5; [|done].
    apply expect_skip_length in E5. by rewrite (IHm fuel2) by lia.
  - cbn [elements]. rewrite <- (IHv fuel2) by lia.
    destruct (value fuel1 s) as [[x r4]|] eqn:E4; [|done]. apply Lv in E4.
    cbn [mbind option_bind]. destruct (expect "," _) as [r5|] eqn:E5; [|done].
    apply expect_skip_length in E5. by rewrite (IHe fuel2) by lia.
Qed.

Lemma parse_json_fuel fuel s :
  2 * String.length s < fuel →
  parse_json s = ('(v, r) ← value fuel s;
                  if bool_decide (skip_space r = "") then Some v else None).
Proof.
  intros Hf. unfold parse_json.
  by rewrite (proj1 (parsers_fuel fuel) (S (2 * String.length s)) s) by lia.
Qed.
