(* ===== verification/Metadata.v ===== *)
(** Package [internal/metadata]: the annotation and label keys, and
    [GetAnnotationsWithPrefix]. *)
From S2P Require Import Prelude GoStrings.

(** ** Keys (common.go, labels.go, annotations.go) *)

Definition Prefix : string := "telegraf.influxdata.com".

Definition ControllerName : string := "telegraf-sidecar-operator".
Definition SecretCreatedByLabelKey : string := "app.kubernetes.io/created-by".
Definition SecretManagedByLabelKey : string := "app.kubernetes.io/managed-by".
Definition SidecarInjectedLabel : string := Prefix +:+ "/injected".
Definition SidecarSecretNameLabel : string := Prefix +:+ "/secret-name".
Definition TelegrafSecretClassNameLabel : string := Prefix +:+ "/class".
Definition TelegrafSecretPodLabel : string := Prefix +:+ "/pod".

Definition SidecarCustomImageAnnotation : string := Prefix +:+ "/image".
Definition SidecarRequestsCPUAnnotation : string := Prefix +:+ "/requests-cpu".
Definition SidecarRequestsMemoryAnnotation : string := Prefix +:+ "/requests-memory".
Definition SidecarLimitsCPUAnnotation : string := Prefix +:+ "/limits-cpu".
Definition SidecarLimitsMemoryAnnotation : string := Prefix +:+ "/limits-memory".
Definition SidecarEnvSecretAnnotation : string := Prefix +:+ "/secret-env".
Definition SidecarEnvConfigMapAnnotation : string := Prefix +:+ "/configmap-env".
Definition SidecarVolumeMountsAnnotation : string := Prefix +:+ "/volume-mounts".
Definition SidecarEnvLiteralPrefixAnnotation : string := Prefix +:+ "/env-literal-".
Definition SidecarEnvFieldRefPrefixAnnoation : string := Prefix +:+ "/env-fieldref-".
Definition SidecarEnvSecretKeyRefPrefixAnnotation : string := Prefix +:+ "/env-secretkeyref-".
Definition SidecarEnvConfigMapKeyRefPrefixAnnotation : string :=
  Prefix +:+ "/env-configmapkeyref-".
Definition TelegrafConfigClassAnnotation : string := Prefix +:+ "/class".
Definition TelegrafConfigMetricsPortAnnotation : string := Prefix +:+ "/port".
Definition TelegrafConfigMetricsPortsAnnotation : string := Prefix +:+ "/ports".
Definition TelegrafConfigMetricsPathAnnotation : string := Prefix +:+ "/path".
Definition TelegrafConfigMetricsSchemeAnnotation : string := Prefix +:+ "/scheme".
Definition TelegrafConfigMetricVersionAnnotation : string := Prefix +:+ "/metric-version".
Definition TelegrafConfigMetricsNamepass : string := Prefix +:+ "/namepass".
Definition TelegrafConfigIntervalAnnotation : string := Prefix +:+ "/interval".
Definition TelegrafConfigRawInputAnnotation : string := Prefix +:+ "/inputs".
Definition TelegrafConfigRawAggregatorsAnnotation : string := Prefix +:+ "/aggregators".
Definition TelegrafConfigRawProcessorsAnnotation : string := Prefix +:+ "/processors".
Definition TelegrafConfigEnableInternalAnnotation : string := Prefix +:+ "/internal".
Definition TelegrafConfigDebugLogAnnotation : string := Prefix +:+ "/debug".
Definition TelegrafConfigGlobalTagLiteralPrefixAnnotation : string :=
  Prefix +:+ "/global-tag-literal-".

(** ** GetAnnotationsWithPrefix (util.go) *)

Section prefix.
Context `{MapRange}.

(** One round of the loop body, on the map being built. *)
Definition addWithPrefix (prefix : string) (values : gmap string string)
    (kv : string * string) : gmap string string :=
  let '(k, v) := kv in
  if HasPrefix k prefix then <[TrimPrefix k prefix := v]> values else values.

Definition GetAnnotationsWithPrefix (site : string) (annotations : gmap string string)
    (prefix : string) : gmap string string :=
  foldl (addWithPrefix prefix) ∅ (map_range site annotations).

Lemma addWithPrefix_fold_lookup prefix l values i :
  NoDup l.*1 →
  foldl (addWithPrefix prefix) values l !! i =
  match (list_to_map l : gmap string string) !! (prefix +:+ i) with
  | Some v => Some v
  | None => values !! i
  end.
Proof.
  revert values. induction l as [|[k v] l IH]; intros values; csimpl; intros Hnd.
  { by rewrite lookup_empty. }
  apply NoDup_cons in Hnd as [Hk Hnd]. rewrite IH by done. unfold addWithPrefix.
  destruct (HasPrefix k prefix) eqn:Hp.
  - apply HasPrefix_spec in Hp as [t ->]. rewrite TrimPrefix_app, !lookup_insert.
    destruct (decide (t = i)) as [->|Hti].
    + rewrite decide_True by done.
      by rewrite (proj1 (not_elem_of_list_to_map l (prefix +:+ i)) Hk).
    + rewrite decide_False; [done|]. by intros ?%(inj (String.append prefix)).
  - rewrite lookup_insert_ne; [done|]. intros ->. by rewrite HasPrefix_app in Hp.
Qed.

(** What the loop computes: the entries under the prefix, with the prefix cut
    off; the order of iteration does not matter. *)
Lemma GetAnnotationsWithPrefix_lookup site annotations prefix i :
  GetAnnotationsWithPrefix site annotations prefix !! i = annotations !! (prefix +:+ i).
Proof.
  unfold GetAnnotationsWithPrefix. rewrite addWithPrefix_fold_lookup by auto with gomap.
  rewrite (list_to_map_proper _ _ (map_range_NoDup site annotations)
             (map_range_perm site annotations)), list_to_map_to_list.
  rewrite lookup_empty. by destruct (annotations !! _).
Qed.
End prefix.

#[export] Hint Rewrite @GetAnnotationsWithPrefix_lookup : gomap.

Lemma GetAnnotationsWithPrefix_order (R1 R2 : MapRange) site1 site2 annotations prefix :
  @GetAnnotationsWithPrefix R1 site1 annotations prefix =
  @GetAnnotationsWithPrefix R2 site2 annotations prefix.
Proof. apply map_eq. intros i. by rewrite !GetAnnotationsWithPrefix_lookup. Qed.
