(* ===== verification/OptConfig.v ===== *)
(** Package [internal/config]: the optional flag values [OptionalInt64] and
    [OptionalBool].  The pointer field [value] is an option; [Set] replaces it
    only when the text parses. *)
From S2P Require Import Prelude GoStrings GoStrconv.
Local Open Scope Z_scope.

Record OptionalInt64 := { int64_value : option Z }.
Record OptionalBool := { bool_value : option bool }.

Module OptInt64.
Definition String (o : OptionalInt64) : string :=
  match int64_value o with None => "" | Some v => FormatInt v end.

Definition Set_ (o : OptionalInt64) (s : string) : OptionalInt64 * option NumError :=
  match ParseInt s 64 with
  | Ok v => ({| int64_value := Some v |}, None)
  | Err e => (o, Some e)
  | Panic _ => (o, None)
  end.

Definition Value (o : OptionalInt64) : option Z := int64_value o.
End OptInt64.

Module OptBool.
Definition String (o : OptionalBool) : string :=
  match bool_value o with None => "" | Some v => FormatBool v end.

Definition Set_ (o : OptionalBool) (s : string) : OptionalBool * option NumError :=
  match ParseBool s with
  | Ok v => ({| bool_value := Some v |}, None)
  | Err e => (o, Some e)
  | Panic _ => (o, None)
  end.

Definition Value (o : OptionalBool) : option bool := bool_value o.
End OptBool.

(** A value that [flag] can hold: unset, or in range. *)
Definition int64_ok (o : OptionalInt64) : Prop :=
  match int64_value o with None => True | Some v => - 2 ^ 63 <= v < 2 ^ 63 end.

Lemma set_int64_ok o s : int64_ok o → int64_ok (OptInt64.Set_ o s).1.
Proof.
  unfold OptInt64.Set_. intros Ho. destruct (ParseInt s 64) as [v| |] eqn:E; [|done..].
  apply ParseInt_bounds in E; [exact E|lia].
Qed.

(** Printing an integer option that is set and parsing the text back gives the
    same option without an error, whatever the option held before. *)
Theorem OptInt64_roundtrip o o' v :
  int64_ok o → OptInt64.Value o = Some v →
  OptInt64.Set_ o' (OptInt64.String o) = (o, None).
Proof.
  unfold int64_ok, OptInt64.Value, OptInt64.Set_, OptInt64.String.
  destruct o as [[w|]]; simpl; intros Hok Hv; [|done].
  rewrite ParseInt_FormatInt by lia. done.
Qed.

Lemma OptInt64_roundtrip_witness :
  OptInt64.Set_ {| int64_value := Some 7 |} "-9223372036854775808" =
  ({| int64_value := Some (- 2 ^ 63) |}, None).
Proof.
  exact (OptInt64_roundtrip {| int64_value := Some (- 2 ^ 63) |} {| int64_value := Some 7 |}
           (- 2 ^ 63) ltac:(vm_compute; split; congruence) eq_refl).
Defined.

(** Setting an integer option either stores a 64-bit value or reports an error
    and keeps the old value; a boolean option likewise, and its printed form
    sets it back. *)
Theorem OptConfig_set_spec oi ob s :
  (let '(oi', e) := OptInt64.Set_ oi s in
   match e with
   | None => ∃ v, OptInt64.Value oi' = Some v ∧ ParseInt s 64 = Ok v ∧ - 2 ^ 63 <= v < 2 ^ 63
   | Some err => oi' = oi ∧ ParseInt s 64 = Err err
   end) ∧
  (let '(ob', e) := OptBool.Set_ ob s in
   match e with
   | None => ∃ v, OptBool.Value ob' = Some v ∧ OptBool.Set_ ob (OptBool.String ob') = (ob', None)
   | Some _ => ob' = ob
   end).
Proof.
  split.
  - unfold OptInt64.Set_. pose proof (ParseInt_no_panic s 64).
    destruct (ParseInt s 64) as [v|e|w] eqn:E; [|done..].
    exists v. split_and!; [done|done|..]; apply ParseInt_bounds in E; lia.
  - unfold OptBool.Set_. destruct (ParseBool s) as [v|e|w] eqn:E; [|done|].
    + exists v. split; [done|]. unfold OptBool.String; simpl. by rewrite ParseBool_FormatBool.
    + unfold ParseBool in E. by repeat case_match.
Qed.
