(* ===== verification/FeatureGate.v ===== *)
(** Package [internal/featuregate]: gates, the registry and the command-line
    flag value.

    A [*Gate] is a pointer: the registry's map and the package variables
    ([NativeSidecars] and the others) share it, so a [Set] through the registry
    is seen by [IsEnabled] through the variable.  The model keeps the gate
    objects in a heap (a list, the address being the index) and pointers in the
    map.  The [*atomic.Bool] inside a gate is allocated with it and never shared,
    so it is a field of the object. *)
From S2P Require Import Prelude GoStrings.

(** ** Gates and the registry (gate.go) *)

Record Gate := mkGate { Name : string; Description : string; enabled : bool }.

Abbreviation ptr := nat (only parsing).

Record Registry := mkRegistry { heap : list Gate; gates : gmap string ptr }.

Definition NewRegistry : Registry := mkRegistry [] ∅.

Inductive GateError := UnknownGate (name : string) (validGates : list string).

(** The gate behind a pointer; the operator only holds pointers obtained from
    [Register] or [Get], which are never dangling ([registry_inv]). *)
Definition deref (r : Registry) (g : ptr) : Gate :=
  default (mkGate "" "" false) (heap r !! g).

Definition IsEnabled (r : Registry) (g : ptr) : bool := enabled (deref r g).

Definition setEnabled (r : Registry) (g : ptr) (b : bool) : Registry :=
  mkRegistry (alter (λ x, mkGate (Name x) (Description x) b) g (heap r)) (gates r).

(** [LoadOrStore] finds an existing entry: panic; the gate allocated for the
    call is then unreachable. *)
Definition Register {E} (r : Registry) (name description : string) (defaultEnabled : bool)
    : result E (Registry * ptr) :=
  let g := length (heap r) in
  let heap' := heap r ++ [mkGate name description defaultEnabled] in
  match gates r !! name with
  | Some _ => Panic ("feature gate " +:+ name +:+ " is already registered")
  | None => Ok (mkRegistry heap' (<[name := g]> (gates r)), g)
  end.

Definition Get (r : Registry) (name : string) : option ptr := gates r !! name.

Definition name_le (r : Registry) (p q : ptr) : Prop :=
  String.le (Name (deref r p)) (Name (deref r q)).

#[export] Instance name_le_dec r : RelDecision (name_le r).
Proof. intros p q. unfold name_le. apply _. Defined.

#[export] Instance name_le_trans r : Transitive (name_le r).
Proof. intros p q s. unfold name_le. apply transitivity. Qed.

Section registry.
Context `{MapRange}.

(** [VisitAll(fn)]: the gates in the order in which [fn] is called. *)
Definition VisitAll (r : Registry) : list ptr :=
  merge_sort (name_le r) (map_range "VisitAll" (gates r)).*2.

Definition gate_names (r : Registry) : list string :=
  (λ g, Name (deref r g)) <$> VisitAll r.

Definition SetGate (r : Registry) (name : string) (b : bool) : Registry * option GateError :=
  match Get r name with
  | None => (r, Some (UnknownGate name (gate_names r)))
  | Some g => (setEnabled r g b, None)
  end.
End registry.

(** ** The global registry (gate.go)

    The package-level functions are the methods on one registry, which is the
    state that their callers thread. *)
Definition globalRegistry : Registry := NewRegistry.

Definition globalRegister {E} (name description : string) (defaultEnabled : bool) (r : Registry)
    : result E (Registry * ptr) := Register r name description defaultEnabled.

Definition globalGet (name : string) (r : Registry) : option ptr := Get r name.

Definition globalSet `{MapRange} (name : string) (b : bool) (r : Registry)
    : Registry * option GateError := SetGate r name b.

Definition globalVisitAll `{MapRange} (r : Registry) : list ptr := VisitAll r.

(** ** The registered gates (gates.go) *)

Record OperatorGates := {
  NativeSidecars : ptr; AggregatorAnnotations : ptr; ProcessorAnnotations : ptr
}.

Definition initGates {E} : result E (Registry * OperatorGates) :=
  '(r, native) ← globalRegister "operator.nativesidecars"
    "Use Kubernetes 1.28+ native sidecar containers instead of regular containers" false globalRegistry;
  '(r, aggregators) ← globalRegister "telegraf.aggregators"
    "Enable telegraf aggregator plugin configuration via pod annotations" false r;
  '(r, processors) ← globalRegister "telegraf.processors"
    "Enable telegraf processor plugin configuration via pod annotations" false r;
  Ok (r, {| NativeSidecars := native; AggregatorAnnotations := aggregators;
            ProcessorAnnotations := processors |}).

(** The gates during one call: the registry and the package variables that
    point into it. *)
Record GateState := { registry : Registry; variables : OperatorGates }.

Definition native_sidecars (g : GateState) : bool :=
  IsEnabled (registry g) (NativeSidecars (variables g)).
Definition aggregator_annotations (g : GateState) : bool :=
  IsEnabled (registry g) (AggregatorAnnotations (variables g)).
Definition processor_annotations (g : GateState) : bool :=
  IsEnabled (registry g) (ProcessorAnnotations (variables g)).

(** ** The flag value (flag.go) *)

(** [go.uber.org/multierr], as far as the flag uses it: [Append] of two errors,
    either of which may be nil, is nil only when both are. *)
Class Multierr (E : Type) := {
  of_gate_error : GateError → E;
  Append : option E → option E → option E;
  Append_nil_l : ∀ e, Append None e = e;
  Append_nil_r : ∀ e, Append e None = e;
  Append_both : ∀ e1 e2, is_Some (Append (Some e1) (Some e2))
}.

(** The list of the collected errors, the simplest instance. *)
Definition append_errors (a b : option (list GateError)) : option (list GateError) :=
  match a, b with
  | None, _ => b
  | _, None => a
  | Some a, Some b => Some (a ++ b)
  end.

#[export] Instance multierr_list : Multierr (list GateError).
Proof.
  refine {| of_gate_error e := [e]; Append := append_errors |}.
  - done.
  - by intros [].
  - by eexists.
Defined.

Section flag.
Context `{MapRange} {E : Type} `{Multierr E}.

(** [reg] is nil when [flag] builds a zero value to print its default. *)
Definition flagString (reg : option Registry) : string :=
  match reg with
  | None => ""
  | Some r =>
      Join ((λ g, let id := Name (deref r g) in
                  if IsEnabled r g then id else String "-" id) <$> VisitAll r) ","
  end.

(** The [switch gateStr[0]] on a non-empty trimmed item: name and setting. *)
Definition gateSetting (gateStr : string) : string * bool :=
  match gateStr with
  | String c rest =>
      if bool_decide (c = "-"%char) then (rest, false)
      else if bool_decide (c = "+"%char) then (rest, true)
      else (gateStr, true)
  | "" => (gateStr, true)
  end.

Definition flagStep (acc : Registry * option E) (gateStr : string) : Registry * option E :=
  let '(r, errs) := acc in
  let gateStr := TrimSpace gateStr in
  if bool_decide (gateStr = "") then (r, errs)
  else
    let '(name, b) := gateSetting gateStr in
    match SetGate r name b with
    | (r, Some err) => (r, Append errs (Some (of_gate_error err)))
    | (r, None) => (r, errs)
    end.

Definition flagSet (r : Registry) (s : string) : Registry * option E :=
  if bool_decide (s = "") then (r, None)
  else foldl flagStep (r, None) (Split s ",").
End flag.

(** * Properties *)

(** The registry invariant: every name leads to a live gate of that name. *)
Definition registry_inv (r : Registry) : Prop :=
  ∀ name g, gates r !! name = Some g → ∃ x, heap r !! g = Some x ∧ Name x = name.

Lemma deref_setEnabled r g b h :
  deref (setEnabled r g b) h =
  if decide (g = h ∧ is_Some (heap r !! g))
  then mkGate (Name (deref r h)) (Description (deref r h)) b else deref r h.
Proof.
  unfold deref, setEnabled; cbn. destruct (decide (g = h)) as [->|Hne].
  - rewrite list_lookup_alter_eq. destruct (heap r !! h) as [x|]; cbn.
    + rewrite decide_True by (split; [done|by eexists]). done.
    + rewrite decide_False; [done|]. by intros [_ [? ?]].
  - rewrite list_lookup_alter_ne by done. rewrite decide_False; [done|]. by intros [].
Qed.

Lemma Name_setEnabled r g b h : Name (deref (setEnabled r g b) h) = Name (deref r h).
Proof. rewrite deref_setEnabled. by case_decide. Qed.

Lemma registry_inv_new : registry_inv NewRegistry.
Proof. intros name g H. cbn in H. by rewrite lookup_empty in H. Qed.

Lemma registry_inv_register {E} r name d b r' g :
  registry_inv r → Register (E:=E) r name d b = Ok (r', g) → registry_inv r'.
Proof.
  intros Hinv Hreg. unfold Register in Hreg. case_match; simplify_eq.
  intros n h; cbn. rewrite lookup_insert. case_decide as Hn; intros Hh; simplify_eq.
  - exists (mkGate n d b). split; [|done]. by rewrite list_lookup_middle.
  - apply Hinv in Hh as (x & Hx & ?). exists x. split; [|done]. by apply lookup_app_l_Some.
Qed.

Lemma registry_inv_setEnabled r g b : registry_inv r → registry_inv (setEnabled r g b).
Proof.
  intros Hinv n h Hh. apply Hinv in Hh as (x & Hx & Hn); cbn.
  destruct (decide (g = h)) as [->|].
  - rewrite list_lookup_alter_eq, Hx. eexists. split; [done|]. done.
  - rewrite list_lookup_alter_ne by done. eauto.
Qed.

Lemma registry_inv_deref r name g :
  registry_inv r → gates r !! name = Some g → Name (deref r g) = name ∧ is_Some (heap r !! g).
Proof. intros Hinv Hg. apply Hinv in Hg as (x & Hx & Hn). unfold deref. rewrite Hx. eauto. Qed.

Lemma registry_inv_inj r n1 n2 g :
  registry_inv r → gates r !! n1 = Some g → gates r !! n2 = Some g → n1 = n2.
Proof.
  intros Hinv H1 H2. apply registry_inv_deref in H1 as [<- _]; [|done].
  by apply registry_inv_deref in H2 as [-> _].
Qed.

#[export] Hint Resolve registry_inv_new registry_inv_setEnabled : gomap.

(** ** VisitAll *)

Section visit.
Context `{MapRange}.

Lemma VisitAll_perm r : VisitAll r ≡ₚ (map_to_list (gates r)).*2.
Proof. unfold VisitAll. by rewrite merge_sort_Permutation, map_range_perm. Qed.

Lemma elem_of_VisitAll r g : g ∈ VisitAll r ↔ ∃ name, gates r !! name = Some g.
Proof.
  rewrite VisitAll_perm, list_elem_of_fmap. split.
  - intros ([n h] & -> & Hin). apply elem_of_map_to_list in Hin. eauto.
  - intros [n Hn]. exists (n, g). split; [done|]. by apply elem_of_map_to_list.
Qed.

Lemma gate_names_perm r : registry_inv r → gate_names r ≡ₚ (map_to_list (gates r)).*1.
Proof.
  intros Hinv. unfold gate_names. rewrite VisitAll_perm, <- list_fmap_compose.
  match goal with |- ?a ≡ₚ ?b => cut (a = b); [by intros ->|] end.
  apply list_fmap_ext. intros i [n g] Hi; cbn.
  apply list_elem_of_lookup_2, elem_of_map_to_list in Hi.
  by apply registry_inv_deref in Hi as [-> _].
Qed.

Lemma gate_names_NoDup r : registry_inv r → NoDup (gate_names r).
Proof. intros Hinv. rewrite gate_names_perm by done. apply NoDup_fst_map_to_list. Qed.

Lemma elem_of_gate_names r name :
  registry_inv r → name ∈ gate_names r ↔ is_Some (gates r !! name).
Proof.
  intros Hinv. rewrite gate_names_perm, list_elem_of_fmap by done. split.
  - intros ([n g] & -> & Hin). apply elem_of_map_to_list in Hin. eauto.
  - intros [g Hg]. exists (name, g). split; [done|]. by apply elem_of_map_to_list.
Qed.

Lemma name_le_total r : Total (name_le r).
Proof. intros p q. apply (total String.le). Qed.

Lemma VisitAll_sorted r : Sorted (name_le r) (VisitAll r).
Proof. apply (@Sorted_merge_sort _ (name_le r) _ (name_le_total r)). Qed.

Lemma gate_names_sorted r : Sorted String.le (gate_names r).
Proof. apply (Sorted_fmap _ (name_le r)); [done|]. apply VisitAll_sorted. Qed.
End visit.

(** The order in which [sync.Map.Range] presents the gates cannot be observed. *)
Lemma VisitAll_order (R1 R2 : MapRange) r :
  registry_inv r → @VisitAll R1 r = @VisitAll R2 r.
Proof.
  intros Hinv. apply (Sorted_unique_strong (name_le r)).
  - intros p q [n1 Hp]%elem_of_VisitAll [n2 Hq]%elem_of_VisitAll Hpq Hqp.
    assert (n1 = n2) as ->; [|congruence].
    pose proof (registry_inv_deref _ _ _ Hinv Hp) as [<- _].
    pose proof (registry_inv_deref _ _ _ Hinv Hq) as [<- _].
    by apply (anti_symm String.le).
  - apply VisitAll_sorted.
  - apply VisitAll_sorted.
  - by rewrite !VisitAll_perm.
Qed.

(** ** SetGate *)

Section set_gate.
Context `{MapRange}.

Lemma IsEnabled_setEnabled r g b h :
  is_Some (heap r !! g) →
  IsEnabled (setEnabled r g b) h = if decide (g = h) then b else IsEnabled r h.
Proof.
  intros Hg. unfold IsEnabled. rewrite deref_setEnabled.
  case_decide as H1; case_decide as H2; try done; [by destruct H1|by destruct H1].
Qed.

Lemma SetGate_gates r name b : gates (SetGate r name b).1 = gates r.
Proof. unfold SetGate. by destruct (Get r name). Qed.

Lemma SetGate_inv r name b : registry_inv r → registry_inv (SetGate r name b).1.
Proof. unfold SetGate. destruct (Get r name); cbn; auto using registry_inv_setEnabled. Qed.

Lemma SetGate_enabled r name b n g :
  registry_inv r → gates r !! n = Some g →
  IsEnabled (SetGate r name b).1 g = if decide (name = n) then b else IsEnabled r g.
Proof.
  intros Hinv Hg. unfold SetGate, Get. destruct (gates r !! name) as [h|] eqn:Hh; cbn.
  - rewrite IsEnabled_setEnabled by (by apply registry_inv_deref in Hh as [_ ?]).
    repeat case_decide; subst; try done; simplify_eq.
    by pose proof (registry_inv_inj _ _ _ _ Hinv Hg Hh) as ->.
  - case_decide; congruence.
Qed.

Lemma SetGate_error r name b : (SetGate r name b).2 = None ↔ is_Some (gates r !! name).
Proof. unfold SetGate, Get. destruct (gates r !! name); cbn; split; try done; by intros [? ?]. Qed.
End set_gate.

(** ** The flag: what a setting string asks for *)

(** The settings of a flag text, in order: the trimmed non-empty items with
    their optional sign. *)
Definition gate_settings (s : string) : list (string * bool) :=
  omap (λ item, let item := TrimSpace item in
          if bool_decide (item = "") then None else Some (gateSetting item)) (Split s ",").

(** What an item asks for: -name, +name or name. *)
Definition item_setting (item : string) : option (string * bool) :=
  match item with
  | "" => None
  | String "-" name => Some (name, false)
  | String "+" name => Some (name, true)
  | name => Some (name, true)
  end.

Lemma gate_settings_eq s : gate_settings s = omap item_setting (TrimSpace <$> Split s ",").
Proof.
  unfold gate_settings. induction (Split s ",") as [|item l IH]; [done|]. cbn.
  assert ((if bool_decide (TrimSpace item = "") then None else Some (gateSetting (TrimSpace item))) =
    item_setting (TrimSpace item)) as ->; [|by destruct (item_setting _); rewrite IH].
  destruct (TrimSpace item) as [|c t]; [done|]. cbn -[bool_decide].
  rewrite bool_decide_eq_false_2 by done. repeat case_bool_decide; subst; try done.
  destruct c as [[] [] [] [] [] [] [] []]; done.
Qed.

(** The last setting of a name, [b] when there is none. *)
Definition last_setting (l : list (string * bool)) (name : string) (b : bool) : bool :=
  foldl (λ b '(n, v), if decide (n = name) then v else b) b l.

Section flag_lemmas.
Context `{MapRange} {E : Type} `{Multierr E}.

Definition apply_setting (acc : Registry * option E) (nb : string * bool) : Registry * option E :=
  let '(r, errs) := acc in
  let '(name, b) := nb in
  match SetGate r name b with
  | (r, Some err) => (r, Append errs (Some (of_gate_error err)))
  | (r, None) => (r, errs)
  end.

Lemma flagSet_settings r s : flagSet r s = foldl apply_setting (r, @None E) (gate_settings s).
Proof.
  unfold flagSet. case_bool_decide as Hs; [by subst|]. clear Hs. unfold gate_settings.
  generalize (r, @None E). induction (Split s ",") as [|item l IH]; intros acc; [done|].
  cbn [foldl omap list_omap]. rewrite IH. destruct acc as [r' errs]. unfold flagStep at 1.
  cbv zeta. destruct (bool_decide (TrimSpace item = "")); [done|]. cbn [foldl].
  unfold apply_setting at 2. by destruct (gateSetting (TrimSpace item)).
Qed.

Lemma apply_settings_spec l r errs r' errs' :
  registry_inv r → foldl apply_setting (r, errs) l = (r', errs') →
  registry_inv r' ∧ gates r' = gates r ∧
  (∀ n g, gates r !! n = Some g → IsEnabled r' g = last_setting l n (IsEnabled r g)) ∧
  (errs' = None ↔ errs = None ∧ ∀ n b, (n, b) ∈ l → is_Some (gates r !! n)).
Proof.
  revert r errs. induction l as [|[name b] l IH]; intros r errs Hinv Hf.
  { cbn in Hf. simplify_eq. split_and!; try done. split; [|by intros [? _]].
    intros ->. split; [done|]. by intros ?? ?%not_elem_of_nil. }
  cbn [foldl apply_setting] in Hf.
  pose proof (SetGate_gates r name b) as Hgates.
  pose proof (SetGate_inv r name b Hinv) as Hinv1.
  pose proof (SetGate_enabled r name b) as Hen.
  pose proof (SetGate_error r name b) as Herr.
  destruct (SetGate r name b) as [r1 err]; cbn in *.
  set (errs1 := match err with
    | Some e => Append errs (Some (of_gate_error e)) | None => errs end) in *.
  assert (errs1 = None ↔ errs = None ∧ is_Some (gates r !! name)) as Herrs1.
  { rewrite <- Herr. subst errs1. destruct err as [e|]; [|by split; [intros ->|intros [? _]]].
    split; [|by intros [_ ?]]. intros Hn. destruct errs as [e0|].
    - destruct (Append_both e0 (of_gate_error e)) as [? ?]. congruence.
    - by rewrite Append_nil_l in Hn. }
  assert (foldl apply_setting (r1, errs1) l = (r', errs')) as Hf'
    by (subst errs1; by destruct err).
  apply IH in Hf' as (Hinv' & Hg' & Hen' & Herr'); [|done].
  rewrite Hgates in *. split_and!; [done|done| |].
  - intros n g Hg. by rewrite (Hen' n), (Hen n).
  - rewrite Herr', Herrs1. split.
    + intros [[? ?] Hl]. split; [done|].
      intros n b' [[= -> ->]|?]%elem_of_cons; eauto.
    + intros [? Hl]. split; [split; [done|]|]; intros; eapply Hl; [by left|by right].
Qed.
End flag_lemmas.

(** ** Round trip of the flag *)

(** Names that survive the flag syntax: no comma, no surrounding space (also
    after a [-]), not empty, no leading sign. *)
Definition flag_safe (name : string) : bool :=
  free_of "," name && trimmed name && trimmed (String "-" name) &&
  bool_decide (gateSetting name = (name, true)) && bool_decide (name ≠ "").

Lemma last_setting_notin l name b :
  name ∉ l.*1 → last_setting l name b = b.
Proof.
  revert b. induction l as [|[n v] l IH]; intros b; [done|]; csimpl.
  intros [Hn Hl]%not_elem_of_cons. unfold last_setting; cbn.
  rewrite decide_False by congruence. by apply IH.
Qed.

Lemma last_setting_in l name b v :
  NoDup l.*1 → (name, v) ∈ l → last_setting l name b = v.
Proof.
  revert b. induction l as [|[n w] l IH]; intros b; csimpl; [by intros _ ?%not_elem_of_nil|].
  intros [Hn Hnd]%NoDup_cons [[= -> ->]|Hin]%elem_of_cons; unfold last_setting; cbn.
  - rewrite decide_True by done. by apply last_setting_notin.
  - apply IH; done.
Qed.

Section roundtrip.
Context `{MapRange} {E : Type} `{Multierr E}.

Definition gate_item (r : Registry) (g : nat) : string :=
  if IsEnabled r g then Name (deref r g) else String "-" (Name (deref r g)).

Definition gate_state (r : Registry) (g : nat) : string * bool :=
  (Name (deref r g), IsEnabled r g).

Lemma gate_item_setting r g :
  flag_safe (Name (deref r g)) = true →
  free_of "," (gate_item r g) = true ∧ TrimSpace (gate_item r g) = gate_item r g ∧
  gate_item r g ≠ "" ∧ gateSetting (gate_item r g) = gate_state r g.
Proof.
  unfold flag_safe, gate_item, gate_state. rewrite !andb_true_iff. intros [[[[? ?] ?] ?] ?].
  repeat match goal with Hb : bool_decide _ = true |- _ => apply bool_decide_eq_true in Hb end.
  destruct (IsEnabled r g); [split_and!; auto using TrimSpace_trimmed|].
  split_and!; [done|by apply TrimSpace_trimmed|done|done].
Qed.

Lemma gate_settings_items r l :
  Forall (λ g, flag_safe (Name (deref r g)) = true) l →
  gate_settings (Join (gate_item r <$> l) ",") = gate_state r <$> l.
Proof.
  intros Hl. destruct l as [|g0 l0]; [done|]. set (l := g0 :: l0) in *.
  unfold gate_settings. rewrite Split_Join; [|done|].
  - clearbody l. induction Hl as [|g l Hg Hl IH]; [done|].
    apply gate_item_setting in Hg as (_ & Ht & Hne & Hset). cbn.
    rewrite Ht, bool_decide_eq_false_2, Hset by done. by f_equal.
  - clearbody l. induction Hl as [|g l Hg Hl IH]; csimpl; constructor; [|done].
    by apply gate_item_setting in Hg as (? & _).
Qed.
End roundtrip.

(** * Theorems *)

(** Every registry the program can build: registrations, settings by name and
    flag texts in any order, each call with its own iteration order. *)
Inductive registry_reach : Registry → Prop :=
| reach_new : registry_reach NewRegistry
| reach_register r name d b r' g :
    registry_reach r → Register (E:=string) r name d b = Ok (r', g) → registry_reach r'
| reach_set (R : MapRange) r name b :
    registry_reach r → registry_reach (SetGate r name b).1
| reach_flag (R : MapRange) r s :
    registry_reach r → registry_reach (flagSet (E:=list GateError) r s).1.

Lemma registry_reach_inv r : registry_reach r → registry_inv r.
Proof.
  induction 1 as [|r n d b r' g _ IH Hr|R r n b _ IH|R r s _ IH].
  - apply registry_inv_new.
  - by eapply registry_inv_register.
  - by apply SetGate_inv.
  - rewrite flagSet_settings.
    destruct (foldl apply_setting (r, None) (gate_settings s)) as [r' errs] eqn:E.
    by apply apply_settings_spec in E as [? _].
Qed.

(** In every reachable registry, [VisitAll] calls back on each registered gate
    exactly once, in increasing order of names, whatever order [sync.Map.Range]
    chooses. *)
Theorem VisitAll_sorted_complete r (R : MapRange) :
  registry_reach r →
  Sorted String.le (gate_names r) ∧ NoDup (gate_names r) ∧
  (∀ name, name ∈ gate_names r ↔ is_Some (Get r name)) ∧
  (∀ R' : MapRange, @VisitAll R' r = VisitAll r).
Proof.
  intros Hr%registry_reach_inv. split_and!.
  - apply gate_names_sorted.
  - by apply gate_names_NoDup.
  - intros name. by apply elem_of_gate_names.
  - intros R'. by apply VisitAll_order.
Qed.

(** A setting by name reaches the gate through the pointer that [Register] or
    [Get] gave out, and no other gate; an unknown name changes nothing and is
    reported with the sorted list of the valid names. *)
Theorem SetGate_spec (R : MapRange) r name b :
  registry_reach r →
  match Get r name with
  | Some g =>
      ∃ r', SetGate r name b = (r', None) ∧ IsEnabled r' g = b ∧ Get r' name = Some g ∧
        ∀ n h, Get r n = Some h → n ≠ name → Get r' n = Some h ∧ IsEnabled r' h = IsEnabled r h
  | None => ∃ valid, SetGate r name b = (r, Some (UnknownGate name valid)) ∧
      Sorted String.le valid ∧ ∀ n, n ∈ valid ↔ is_Some (Get r n)
  end.
Proof.
  intros Hr%registry_reach_inv. destruct (Get r name) as [g|] eqn:Hg.
  - exists (SetGate r name b).1.
    pose proof (SetGate_enabled r name b) as Hen. pose proof (SetGate_gates r name b) as Hgt.
    split_and!.
    + unfold SetGate. by rewrite Hg.
    + rewrite (Hen name) by done. by rewrite decide_True.
    + unfold Get. by rewrite Hgt.
    + intros n h Hn Hne. unfold Get. rewrite Hgt. split; [done|].
      rewrite (Hen n) by done. by rewrite decide_False.
  - exists (gate_names r). split_and!.
    + unfold SetGate. by rewrite Hg.
    + apply gate_names_sorted.
    + intros n. by apply elem_of_gate_names.
Qed.

(** C4. The feature-gates flag: after [Set] on a text of comma-separated items, each
    trimmed and of the form -name, +name or name, each gate has the state of its
    last item (its old state when it has none), no gate is added or lost, and the
    error is nil exactly when every name is registered.  Empty items are skipped,
    and the items after an unknown name are still applied. *)
Theorem flagSet_spec (R : MapRange) {E} `{Multierr E} r s :
  registry_reach r →
  let '(r', errs) := flagSet r s in
  let settings := omap item_setting (TrimSpace <$> Split s ",") in
  (∀ name, Get r' name = Get r name) ∧
  (∀ name g, Get r name = Some g →
     IsEnabled r' g = last_setting settings name (IsEnabled r g)) ∧
  (errs = @None E ↔ ∀ name b, (name, b) ∈ settings → is_Some (Get r name)).
Proof.
  rewrite <- gate_settings_eq. intros Hr%registry_reach_inv. destruct (flagSet r s) as [r' errs] eqn:Hf.
  rewrite flagSet_settings in Hf.
  apply apply_settings_spec in Hf as (_ & Hg & Hen & Herr); [|done].
  unfold Get. split_and!; [by rewrite Hg|done|]. rewrite Herr. by split; [intros [_ ?]|].
Qed.

Lemma flagSet_flagString (R : MapRange) {E} `{Multierr E} r r' :
  registry_inv r → registry_inv r' →
  (∀ name, Get r' name = Get r name) →
  Forall (λ name, flag_safe name = true) (gate_names r) →
  ∃ r'', flagSet r' (flagString (Some r)) = (r'', @None E) ∧
    ∀ name g, Get r name = Some g → IsEnabled r'' g = IsEnabled r g.
Proof.
  intros Hr Hr' Hsame Hsafe.
  assert (gate_settings (flagString (Some r)) = gate_state r <$> VisitAll r) as Hset.
  { apply gate_settings_items. unfold gate_names in Hsafe. by rewrite Forall_fmap in Hsafe. }
  destruct (flagSet r' (flagString (Some r))) as [r'' errs] eqn:Hf. exists r''.
  rewrite flagSet_settings, Hset in Hf.
  apply apply_settings_spec in Hf as (_ & Hg & Hen & Herr); [|done].
  assert (∀ name g, Get r name = Some g → (name, IsEnabled r g) ∈ gate_state r <$> VisitAll r) as Hin.
  { intros name g Hn. apply list_elem_of_fmap. exists g. split.
    - unfold gate_state. by apply registry_inv_deref in Hn as [-> _].
    - apply elem_of_VisitAll. eauto. }
  assert (errs = None) as ->.
  { apply Herr. split; [done|]. intros n b Hnb.
    apply list_elem_of_fmap in Hnb as (g & [= -> ->] & Hv).
    apply elem_of_VisitAll in Hv as [m Hm]. pose proof Hm as Hm'.
    apply registry_inv_deref in Hm' as [-> _]; [|done].
    exists g. rewrite <- Hm. apply Hsame. }
  split; [done|]. intros name g Hn.
  rewrite (Hen name) by (rewrite <- Hn; apply Hsame).
  apply last_setting_in; [|by apply Hin].
  rewrite <- list_fmap_compose. by apply gate_names_NoDup.
Qed.

(** Printing the gates and setting the flag to the printed text restores every
    gate: [Set(String())] copies the state of one registry to any other with the
    same registrations, without an error. *)
Theorem flag_roundtrip (R : MapRange) {E} `{Multierr E} r r' :
  registry_reach r → registry_reach r' →
  (∀ name, Get r' name = Get r name) →
  Forall (λ name, flag_safe name = true) (gate_names r) →
  ∃ r'', flagSet r' (flagString (Some r)) = (r'', @None E) ∧
    ∀ name g, Get r name = Some g → IsEnabled r'' g = IsEnabled r g.
Proof. intros Hr%registry_reach_inv Hr'%registry_reach_inv. by apply flagSet_flagString. Qed.

(** ** The operator's own gates *)

Definition gates_init : Registry * OperatorGates :=
  match initGates (E:=string) with
  | Ok x => x
  | _ => (NewRegistry, {| NativeSidecars := 0; AggregatorAnnotations := 0; ProcessorAnnotations := 0 |})
  end.

Lemma gates_init_ok : initGates (E:=string) = Ok gates_init.
Proof. vm_compute. reflexivity. Qed.

Lemma initGates_reach x : initGates (E:=string) = Ok x → registry_reach x.1.
Proof.
  unfold initGates, globalRegister, globalRegistry.
  intros ([r1 g1] & H1 & ([r2 g2] & H2 & ([r3 g3] & H3 & E)%bind_Ok_inv)%bind_Ok_inv)%bind_Ok_inv.
  injection E as <-. cbn [fst]. eapply reach_register; [|exact H3].
  eapply reach_register; [|exact H2]. eapply reach_register; [|exact H1]. apply reach_new.
Qed.

Lemma gates_init_reach : registry_reach gates_init.1.
Proof. apply initGates_reach, gates_init_ok. Qed.

Definition gates_all_on : Registry :=
  (@flagSet range_forward _ multierr_list gates_init.1
     "operator.nativesidecars, +telegraf.aggregators,telegraf.processors").1.

Lemma gates_all_on_reach : registry_reach gates_all_on.
Proof. apply (reach_flag range_forward), gates_init_reach. Defined.

Lemma VisitAll_sorted_complete_witness :
  registry_reach gates_all_on ∧
  @gate_names range_backward gates_all_on =
    ["operator.nativesidecars"; "telegraf.aggregators"; "telegraf.processors"] ∧
  NoDup (@gate_names range_backward gates_all_on).
Proof.
  split_and!; [exact gates_all_on_reach|vm_compute; reflexivity|].
  apply (VisitAll_sorted_complete gates_all_on range_backward gates_all_on_reach).
Defined.

Lemma SetGate_spec_witness :
  ∃ r', @SetGate range_forward gates_init.1 "telegraf.aggregators" true = (r', None) ∧
    IsEnabled r' (AggregatorAnnotations gates_init.2) = true.
Proof.
  pose proof (SetGate_spec range_forward gates_init.1 "telegraf.aggregators" true
                gates_init_reach) as H.
  destruct (Get gates_init.1 "telegraf.aggregators") as [g|] eqn:E.
  - destruct H as (r' & H1 & H2 & _). exists r'. split; [exact H1|].
    assert (g = AggregatorAnnotations gates_init.2) as <-; [|exact H2].
    vm_compute in E. vm_compute. by injection E as <-.
  - vm_compute in E. discriminate.
Defined.

Lemma flagSet_spec_witness :
  let '(r', errs) := @flagSet range_forward _ multierr_list gates_init.1 "telegraf.aggregators,nope" in
  IsEnabled r' (AggregatorAnnotations gates_init.2) = true ∧ errs ≠ None.
Proof.
  pose proof (@flagSet_spec range_forward _ multierr_list gates_init.1
    "telegraf.aggregators,nope" gates_init_reach) as H.
  destruct (flagSet gates_init.1 "telegraf.aggregators,nope") as [r' errs].
  destruct H as (_ & Hen & Herr). split.
  - rewrite (Hen "telegraf.aggregators"); vm_compute; reflexivity.
  - intros Hn. destruct (proj1 Herr Hn "nope" true) as [g Hg].
    + vm_compute. right. left.
    + vm_compute in Hg. discriminate.
Defined.

Lemma flag_roundtrip_witness :
  ∃ r'', @flagSet range_forward _ multierr_list gates_init.1
      (@flagString range_forward (Some gates_all_on)) = (r'', None) ∧
    IsEnabled r'' (NativeSidecars gates_init.2) = true.
Proof.
  destruct (@flag_roundtrip range_forward _ multierr_list gates_all_on gates_init.1
    gates_all_on_reach gates_init_reach) as (r'' & H1 & H2).
  - intros name. assert (gates gates_init.1 = gates gates_all_on) as E
      by (apply (bool_decide_unpack _); vm_compute; exact I).
    unfold Get. by rewrite E.
  - replace (@gate_names range_forward gates_all_on) with
      ["operator.nativesidecars"; "telegraf.aggregators"; "telegraf.processors"]
      by (vm_compute; reflexivity).
    repeat constructor; vm_compute; reflexivity.
  - exists r''. split; [exact H1|].
    rewrite (H2 "operator.nativesidecars"); vm_compute; reflexivity.
Defined.

(** The gates as the program declares them, native sidecars on or off. *)
Definition sample_gates (native : bool) : GateState :=
  match @initGates unit with
  | Ok (r, vars) => {| registry := if native then setEnabled r (NativeSidecars vars) true else r;
                       variables := vars |}
  | _ => {| registry := NewRegistry;
            variables := {| NativeSidecars := 0; AggregatorAnnotations := 0;
                            ProcessorAnnotations := 0 |} |}
  end.
