(* ===== verification/ClassData.v ===== *)
(** Package [internal/classdata]: the telegraf classes read from a directory, and
    their concurrent refresh.

    The file system is an argument of every operation that reads it: it may give
    a different answer, or an error, at each call.  The path and the entry name
    are passed separately where the code joins them with [filepath.Join]. *)
From S2P Require Import Prelude GoStrings.

(** What [os.ReadDir], [os.Stat] (regular file or not) and [os.ReadFile] answer
    during one call. *)
Record FileSystem := {
  ReadDir : string → result string (list string);
  StatRegular : string → string → result string bool;
  ReadFile : string → string → result string string
}.

Inductive ClassError :=
| ErrReadDirectory (path : string)
| ErrStat (file : string)
| ErrReadFile (file : string)
| ErrNoData
| ErrInvalidClass (file : string).

Record DirectoryHandler := mkHandler { data : gmap string string; path : string }.

(** The interface [classdata.Handler], as its client uses it.  A method call
    through the interface may panic (a nil pointer inside it). *)
Class Handler (H : Type) := {
  GetDataForClass : H → string → result Empty_set (option string)
}.

#[export] Instance directory_handler : Handler DirectoryHandler := {|
  GetDataForClass h name := Ok (data h !! name)
|}.

(** An interface value holding a [*DirectoryHandler]: with a nil pointer,
    [h.mu.RLock()] dereferences nil. *)
#[export] Instance directory_handler_ptr : Handler (option DirectoryHandler) := {|
  GetDataForClass h name :=
    match h with
    | Some h => GetDataForClass h name
    | None => Panic "invalid memory address or nil pointer dereference"
    end
|}.

Section classdata.
Context `{MapRange}.
(** [toml.Parse] of github.com/influxdata/toml, as [validate] uses it: does it
    accept the text. *)
Variable toml_Parse : string → bool.

Definition validate (h : DirectoryHandler) : option ClassError :=
  if bool_decide (size (data h) = 0) then Some ErrNoData
  else
    match List.find (λ kv, negb (toml_Parse kv.2)) (map_range "validate" (data h)) with
    | Some (file, _) => Some (ErrInvalidClass file)
    | None => None
    end.

(** The loop of [readClassData]: the map is updated in place, so the entries
    read before an error stay in it. *)
Fixpoint readFiles (fs : FileSystem) (h : DirectoryHandler) (files : list string)
    : DirectoryHandler * option ClassError :=
  match files with
  | [] => (h, None)
  | file :: files =>
      match StatRegular fs (path h) file with
      | Ok true =>
          match ReadFile fs (path h) file with
          | Ok text => readFiles fs (mkHandler (<[file := text]> (data h)) (path h)) files
          | _ => (h, Some (ErrReadFile file))
          end
      | Ok false => readFiles fs h files
      | _ => (h, Some (ErrStat file))
      end
  end.

Definition readClassData (fs : FileSystem) (h : DirectoryHandler)
    : DirectoryHandler * option ClassError :=
  match ReadDir fs (path h) with
  | Ok files => readFiles fs h files
  | _ => (h, Some (ErrReadDirectory (path h)))
  end.

Definition NewDirectoryHandler (fs : FileSystem) (path : string)
    : result ClassError DirectoryHandler :=
  match readClassData fs (mkHandler ∅ path) with
  | (_, Some err) => Err err
  | (h, None) => match validate h with Some err => Err err | None => Ok h end
  end.

(** [Update], first critical section (read lock): copy the data. *)
Definition updateSnapshot (h : DirectoryHandler) : gmap string string :=
  range_copy "Update" (data h) ∅.

(** [Update], second critical section (write lock): read, validate, and put
    the copy back on an error. *)
Definition updateCommit (fs : FileSystem) (cp : gmap string string) (h : DirectoryHandler)
    : DirectoryHandler * option ClassError :=
  match readClassData fs h with
  | (h, Some err) => (mkHandler cp (path h), Some err)
  | (h, None) =>
      match validate h with
      | Some err => (mkHandler cp (path h), Some err)
      | None => (h, None)
      end
  end.

(** [Update] when nothing else runs between the two sections. *)
Definition Update (fs : FileSystem) (h : DirectoryHandler)
    : DirectoryHandler * option ClassError :=
  updateCommit fs (updateSnapshot h) h.

(** ** Concurrent updates

    The state shared by any number of goroutines calling [Update], with the
    copies they hold between their two critical sections. *)
Record UpdateState := mkUpdates { handler : DirectoryHandler; copies : gmap nat (gmap string string) }.

Inductive update_step : UpdateState → UpdateState → Prop :=
| step_snapshot i st :
    copies st !! i = None →
    update_step st (mkUpdates (handler st) (<[i := updateSnapshot (handler st)]> (copies st)))
| step_commit i fs cp st :
    copies st !! i = Some cp →
    update_step st (mkUpdates (updateCommit fs cp (handler st)).1 (delete i (copies st))).

(** * Lemmas *)

(** Data that [validate] accepts. *)
Definition valid_data (m : gmap string string) : Prop :=
  m ≠ ∅ ∧ ∀ file text, m !! file = Some text → toml_Parse text = true.

Lemma validate_spec h : validate h = None ↔ valid_data (data h).
Proof.
  unfold validate, valid_data. case_bool_decide as Hsz.
  { apply map_size_empty_inv in Hsz. rewrite Hsz. split; [done|]. by intros [? _]. }
  assert (data h ≠ ∅) as Hne by (intros E; by rewrite E, map_size_empty in Hsz).
  destruct (List.find _ _) as [[file text]|] eqn:Hf.
  - apply List.find_some in Hf as [Hin Hbad%negb_true_iff].
    apply list_elem_of_In, elem_of_map_range in Hin. split; [done|].
    intros [_ Hv]. cbn in Hbad. by rewrite (Hv _ _ Hin) in Hbad.
  - split; [|done]. intros _. split; [done|]. intros file text Hin.
    apply negb_false_iff, (List.find_none _ _ Hf (file, text)).
    by apply list_elem_of_In, elem_of_map_range.
Qed.

Lemma updateSnapshot_eq h : updateSnapshot h = data h.
Proof. unfold updateSnapshot. rewrite range_copy_union. apply map_union_empty. Qed.

Lemma readFiles_path fs h files : path (readFiles fs h files).1 = path h.
Proof.
  revert h. induction files as [|file files IH]; intros h; cbn; [done|].
  repeat case_match; try done; by rewrite IH.
Qed.

Lemma readClassData_path fs h : path (readClassData fs h).1 = path h.
Proof. unfold readClassData. case_match; [apply readFiles_path|done..]. Qed.

Lemma updateCommit_path fs cp h : path (updateCommit fs cp h).1 = path h.
Proof.
  unfold updateCommit. pose proof (readClassData_path fs h) as Hp.
  destruct (readClassData fs h) as [h' [err|]]; cbn in *; [done|].
  by destruct (validate h').
Qed.

(** The regular files of the directory and their contents, when everything
    can be read. *)
Fixpoint contents_of (fs : FileSystem) (path : string) (files : list string)
    : option (gmap string string) :=
  match files with
  | [] => Some ∅
  | file :: files =>
      rest ← contents_of fs path files;
      match StatRegular fs path file with
      | Ok true =>
          match ReadFile fs path file with
          | Ok text => Some (rest ∪ {[file := text]})
          | _ => None
          end
      | Ok false => Some rest
      | _ => None
      end
  end.

Definition directory (fs : FileSystem) (path : string) : option (gmap string string) :=
  match ReadDir fs path with Ok files => contents_of fs path files | _ => None end.

Lemma readFiles_spec fs h files :
  match contents_of fs (path h) files with
  | Some m => readFiles fs h files = (mkHandler (m ∪ data h) (path h), None)
  | None => ∃ err, (readFiles fs h files).2 = Some err
  end.
Proof.
  revert h. induction files as [|file files IH]; intros [d p]; cbn.
  { by rewrite map_empty_union. }
  destruct (StatRegular fs p file) as [[]| |]; cbn.
  - destruct (ReadFile fs p file) as [text| |]; cbn.
    + specialize (IH (mkHandler (<[file:=text]> d) p)); cbn in IH.
      destruct (contents_of fs p files) as [m|]; cbn; [|done].
      rewrite IH. f_equal. f_equal. by rewrite <- map_union_assoc, <- insert_union_singleton_l.
    + destruct (contents_of fs p files); cbn; eauto.
    + destruct (contents_of fs p files); cbn; eauto.
  - specialize (IH (mkHandler d p)); cbn in IH. by destruct (contents_of fs p files).
  - destruct (contents_of fs p files); cbn; eauto.
  - destruct (contents_of fs p files); cbn; eauto.
Qed.

Lemma readClassData_spec fs h :
  match directory fs (path h) with
  | Some m => readClassData fs h = (mkHandler (m ∪ data h) (path h), None)
  | None => ∃ err, (readClassData fs h).2 = Some err
  end.
Proof.
  unfold directory, readClassData. destruct (ReadDir fs (path h)); cbn; eauto.
  apply readFiles_spec.
Qed.

(** The commit section: success merges a readable directory into valid data,
    anything else puts the copy back. *)
Lemma updateCommit_spec fs cp h :
  match updateCommit fs cp h with
  | (h', None) => ∃ m, directory fs (path h) = Some m ∧ data h' = m ∪ data h ∧ valid_data (data h')
  | (h', Some _) => data h' = cp ∧
      (directory fs (path h) = None ∨
       ∃ m, directory fs (path h) = Some m ∧ ¬ valid_data (m ∪ data h))
  end.
Proof.
  unfold updateCommit. pose proof (readClassData_spec fs h) as Hs.
  destruct (directory fs (path h)) as [m|] eqn:Hd.
  - rewrite Hs. pose proof (validate_spec (mkHandler (m ∪ data h) (path h))) as Hv.
    destruct (validate _) as [err|]; cbn in *.
    + split; [done|]. right. exists m. split; [done|]. by intros ?%Hv.
    + exists m. split_and!; [done|done|]. by apply Hv.
  - destruct Hs as [err Herr]. destruct (readClassData fs h) as [h' ?]; cbn in *; subst.
    split; [done|]. by left.
Qed.
End classdata.

(** * Theorems *)

Section theorems.
Context `{MapRange} (toml_Parse : string → bool).

Lemma NewDirectoryHandler_cases fs p :
  match NewDirectoryHandler toml_Parse fs p with
  | Ok h => directory fs p = Some (data h) ∧ valid_data toml_Parse (data h) ∧ path h = p
  | Err _ => ∀ m, directory fs p = Some m → ¬ valid_data toml_Parse m
  | Panic _ => False
  end.
Proof.
  unfold NewDirectoryHandler. pose proof (readClassData_spec fs (mkHandler ∅ p)) as Hs; cbn in Hs.
  destruct (directory fs p) as [m|].
  - rewrite Hs, map_union_empty.
    pose proof (validate_spec toml_Parse (mkHandler m p)) as Hv; cbn in Hv.
    destruct (validate toml_Parse (mkHandler m p)); cbn.
    + intros ? [= <-] ?%Hv. done.
    + split_and!; [done|by apply Hv|done].
  - destruct Hs as [err Herr]. destruct (readClassData _ _) as [h ?]; cbn in *; by subst.
Qed.

Lemma NewDirectoryHandler_no_panic fs p : panics (NewDirectoryHandler toml_Parse fs p) = false.
Proof. pose proof (NewDirectoryHandler_cases fs p). by destruct (NewDirectoryHandler _ _ _). Qed.

(** C30. The handler is created exactly when the directory can be read completely
    and holds at least one regular file and only valid ones; it then serves
    exactly these files. *)
Theorem NewDirectoryHandler_spec fs p :
  match NewDirectoryHandler toml_Parse fs p with
  | Ok h => directory fs p = Some (data h) ∧ valid_data toml_Parse (data h) ∧ path h = p
  | Err _ => ∀ m, directory fs p = Some m → ¬ valid_data toml_Parse m
  | Panic _ => False
  end.
Proof. apply NewDirectoryHandler_cases. Qed.

(** C31. Undisturbed, [Update] is all or nothing: on success the files of the
    directory have been merged over the old data (classes whose file is gone
    stay) and the result is valid; on failure the handler is unchanged. *)
Theorem Update_atomic fs h :
  match Update toml_Parse fs h with
  | (h', None) => ∃ m, directory fs (path h) = Some m ∧ data h' = m ∪ data h ∧
      valid_data toml_Parse (data h') ∧ path h' = path h
  | (h', Some _) => h' = h ∧
      ∀ m, directory fs (path h) = Some m → ¬ valid_data toml_Parse (m ∪ data h)
  end.
Proof.
  unfold Update. rewrite updateSnapshot_eq.
  pose proof (updateCommit_spec toml_Parse fs (data h) h) as Hs.
  pose proof (updateCommit_path toml_Parse fs (data h) h) as Hp.
  destruct (updateCommit toml_Parse fs (data h) h) as [[d p] [err|]]; cbn in *; subst p.
  - destruct Hs as [-> Hs]. split; [by destruct h|]. intros m Hm.
    destruct Hs as [|(m' & ? & ?)]; congruence.
  - destruct Hs as (m & ? & ? & ?). eauto.
Qed.

(** What the lock protects: the shared data is valid, and so is every copy that
    an updater may put back. *)
Definition update_inv (p : string) (st : UpdateState) : Prop :=
  path (handler st) = p ∧ valid_data toml_Parse (data (handler st)) ∧
  ∀ i cp, copies st !! i = Some cp → valid_data toml_Parse cp.

Lemma update_inv_step p st st' :
  update_inv p st → update_step toml_Parse st st' → update_inv p st'.
Proof.
  intros (Hp & Hv & Hc) Hstep. destruct Hstep as [i st Hi|i fs cp st Hi]; split_and!; cbn.
  - done.
  - done.
  - intros j cp. rewrite lookup_insert. case_decide; [|eauto].
    intros [= <-]. by rewrite updateSnapshot_eq.
  - by rewrite updateCommit_path.
  - pose proof (updateCommit_spec toml_Parse fs cp (handler st)) as Hs.
    destruct (updateCommit toml_Parse fs cp (handler st)) as [h' [err|]]; cbn.
    + destruct Hs as [-> _]. eauto.
    + by destruct Hs as (? & ? & ? & ?).
  - intros j cp'. rewrite lookup_delete. case_decide; [done|eauto].
Qed.

(** C32. However many [Update] calls run at once, with the file system changing
    and failing under them, readers always see a non-empty set of classes
    whose texts all parsed, once the handler has been created. *)
Theorem concurrent_updates_valid fs p h st :
  NewDirectoryHandler toml_Parse fs p = Ok h →
  rtc (update_step toml_Parse) (mkUpdates h ∅) st →
  path (handler st) = p ∧ valid_data toml_Parse (data (handler st)) ∧
  ∃ name text, GetDataForClass (handler st) name = Ok (Some text) ∧ toml_Parse text = true.
Proof.
  intros Hnew Hsteps.
  assert (update_inv p st) as (Hp & [Hne Hv] & _).
  { assert (update_inv p (mkUpdates h ∅)) as Hinit.
    { pose proof (NewDirectoryHandler_cases fs p) as Hs. rewrite Hnew in Hs.
      destruct Hs as (_ & Hv & Hp). split_and!; [done..|]. intros i cp; cbn.
      by rewrite lookup_empty. }
    revert Hinit. clear Hnew. induction Hsteps; eauto using update_inv_step. }
  split; [done|]. split; [by split|].
  apply map_choose in Hne as (name & text & Hn).
  exists name, text. split; [|by eapply Hv]. cbn. by rewrite Hn.
Qed.

(** C40. The copy is taken in an earlier critical section than the one that puts
    it back, so when two [Update] calls overlap, one that fails undoes the
    successful work of the other. *)
Theorem overlapping_updates_lose fs1 fs2 h m :
  directory fs1 (path h) = Some m → valid_data toml_Parse (m ∪ data h) →
  directory fs2 (path h) = None →
  ∃ st1 st2,
    rtc (update_step toml_Parse) (mkUpdates h ∅) st1 ∧ data (handler st1) = m ∪ data h ∧
    update_step toml_Parse st1 st2 ∧ data (handler st2) = data h.
Proof.
  intros Hd1 Hv Hd2. set (cp := updateSnapshot h).
  set (s1 := mkUpdates h {[0 := cp]}). set (s2 := mkUpdates h {[0 := cp; 1 := cp]}).
  exists (mkUpdates (updateCommit toml_Parse fs1 cp h).1 (delete 0 (copies s2))).
  pose proof (updateCommit_spec toml_Parse fs1 cp h) as Hc1.
  pose proof (updateCommit_path toml_Parse fs1 cp h) as Hp1.
  destruct (updateCommit toml_Parse fs1 cp h) as [h1 [err|]] eqn:E1; cbn in *.
  { destruct Hc1 as [_ [?|(m' & ? & ?)]]; congruence. }
  destruct Hc1 as (m' & Hm' & Hdata & _). assert (m' = m) as -> by congruence.
  pose proof (updateCommit_spec toml_Parse fs2 cp h1) as Hc2.
  eexists. split_and!; [| exact Hdata | apply (step_commit toml_Parse 1 fs2 cp); reflexivity |].
  - apply (rtc_l _ _ s1); [by apply (step_snapshot toml_Parse 0 (mkUpdates h ∅))|].
    apply (rtc_l _ _ s2).
    { replace s2 with (mkUpdates h (<[1 := cp]> (copies s1)))
        by (unfold s2; f_equal; cbn; by rewrite insert_commute).
      by apply (step_snapshot toml_Parse 1 s1). }
    apply rtc_once. pose proof (step_commit toml_Parse 0 fs1 cp s2 eq_refl) as Hs.
    cbn in Hs. by rewrite E1 in Hs.
  - cbn. destruct (updateCommit toml_Parse fs2 cp h1) as [h2 [err|]]; cbn.
    + destruct Hc2 as [-> _]. apply updateSnapshot_eq.
    + destruct Hc2 as (m2 & Hm2 & _). rewrite Hp1 in Hm2. congruence.
Qed.
End theorems.

(** ** Witnesses *)

Definition sample_fs (files : list (string * string)) : FileSystem := {|
  ReadDir _ := Ok (files.*1 ++ ["..data"]);
  StatRegular _ f := Ok (bool_decide (f ∈ files.*1));
  ReadFile _ f := match (list_to_map files : gmap string string) !! f with
    | Some t => Ok t | None => Err "no such file" end
|}.

Definition broken_fs : FileSystem := {|
  ReadDir _ := Err "permission denied";
  StatRegular _ _ := Err "";
  ReadFile _ _ := Err ""
|}.

Definition sample_handler : DirectoryHandler :=
  mkHandler {["default" := "[agent]"]} "/etc/config/classes".

Lemma concurrent_updates_valid_witness :
  ∃ name text, @GetDataForClass _ directory_handler sample_handler name = Ok (Some text) ∧
    negb (bool_decide (text = "")) = true.
Proof.
  destruct (@concurrent_updates_valid range_forward (λ t, negb (bool_decide (t = "")))
    (sample_fs [("default", "[agent]")]) "/etc/config/classes" sample_handler
    (mkUpdates sample_handler ∅)) as (_ & _ & H).
  - vm_compute. reflexivity.
  - apply rtc_refl.
  - exact H.
Defined.

Lemma overlapping_updates_lose_witness :
  ∃ st1 st2,
    rtc (@update_step range_backward (λ t, negb (bool_decide (t = ""))))
      (mkUpdates sample_handler ∅) st1 ∧
    data (handler st1) = {["extra" := "[outputs]"]} ∪ data sample_handler ∧
    @update_step range_backward (λ t, negb (bool_decide (t = ""))) st1 st2 ∧
    data (handler st2) = data sample_handler.
Proof.
  apply (@overlapping_updates_lose range_backward (λ t, negb (bool_decide (t = "")))
    (sample_fs [("extra", "[outputs]")]) broken_fs sample_handler {["extra" := "[outputs]"]}).
  - vm_compute. reflexivity.
  - split; [vm_compute; discriminate|]. intros file text H.
    change (data sample_handler) with ({["default" := "[agent]"]} : gmap string string) in H.
    rewrite lookup_union_Some_raw in H. destruct H as [H|[_ H]];
      apply lookup_singleton_Some in H as [_ <-]; reflexivity.
  - reflexivity.
Defined.
