(* ===== verification/K8s.v ===== *)
(** The Kubernetes API objects the operator reads and writes, with the fields it
    touches, and the interfaces of the Kubernetes libraries it calls.

    A nil map is [None] ([map_assign] in the prelude); an optional pointer is an
    option; a slice is a list (nil and empty are not distinguished anywhere in
    the code). *)
From S2P Require Import Prelude GoStrings.

(** ** resource.Quantity (k8s.io/apimachinery/pkg/api/resource)

    The type and its parser are not in the repository.  [zeroQuantity] is the
    zero value [resource.Quantity{}]; the laws are the documented facts the
    operator relies on. *)
Class QuantityOps (Q : Type) := {
  ParseQuantity : string → option Q;
  IsZero : Q → bool;
  zeroQuantity : Q
}.

Class QuantityLaws (Q : Type) `{QuantityOps Q} := {
  IsZero_zero : IsZero zeroQuantity = true;
  ParseQuantity_empty : ParseQuantity "" = None
}.

(** ** Containers (k8s.io/api/core/v1) *)

Record ObjectFieldSelector := { FieldPath : string }.
Record KeySelector := { sel_Name : string; sel_Key : string }.

Record EnvVarSource := {
  FieldRef : option ObjectFieldSelector;
  SecretKeyRef : option KeySelector;
  ConfigMapKeyRef : option KeySelector
}.

Record EnvVar := { env_Name : string; env_Value : string; env_ValueFrom : option EnvVarSource }.

Record EnvSource := { src_Name : string; src_Optional : option bool }.
Record EnvFromSource := { SecretRef : option EnvSource; ConfigMapRef : option EnvSource }.

Record VolumeMount := { mount_Name : string; MountPath : string }.

Record Capabilities := { cap_Add : list string; cap_Drop : list string }.

Record SecurityContext := {
  RunAsUser : option Z;
  RunAsGroup : option Z;
  RunAsNonRoot : option bool;
  ReadOnlyRootFilesystem : option bool;
  AllowPrivilegeEscalation : option bool;
  sc_Capabilities : option Capabilities
}.

Record ResourceRequirements (Q : Type) := {
  Requests : gmap string Q;
  Limits : gmap string Q
}.
Arguments Requests {Q} _.
Arguments Limits {Q} _.

Definition ResourceCPU : string := "cpu".
Definition ResourceMemory : string := "memory".

Record Container (Q : Type) := {
  c_Name : string;
  c_Image : string;
  c_Command : list string;
  c_Resources : ResourceRequirements Q;
  c_Env : list EnvVar;
  c_EnvFrom : list EnvFromSource;
  c_SecurityContext : option SecurityContext;
  c_VolumeMounts : list VolumeMount;
  c_RestartPolicy : option string
}.
Arguments c_Name {Q} _.
Arguments c_Image {Q} _.
Arguments c_Command {Q} _.
Arguments c_Resources {Q} _.
Arguments c_Env {Q} _.
Arguments c_EnvFrom {Q} _.
Arguments c_SecurityContext {Q} _.
Arguments c_VolumeMounts {Q} _.
Arguments c_RestartPolicy {Q} _.

(** ** Pods and secrets *)

Inductive VolumeSource :=
| SecretVolume (SecretName : string)
| OtherVolume (description : string).

Record Volume := { vol_Name : string; vol_Source : VolumeSource }.

Record Pod (Q : Type) := mkPod {
  pod_Name : string;
  pod_GenerateName : string;
  pod_Namespace : string;
  pod_UID : string;
  pod_Labels : option (gmap string string);
  pod_Annotations : option (gmap string string);
  pod_Containers : list (Container Q);
  pod_InitContainers : list (Container Q);
  pod_Volumes : list Volume
}.
Arguments mkPod {Q} _ _ _ _ _ _ _ _ _.
Arguments pod_Name {Q} _.
Arguments pod_GenerateName {Q} _.
Arguments pod_Namespace {Q} _.
Arguments pod_UID {Q} _.
Arguments pod_Labels {Q} _.
Arguments pod_Annotations {Q} _.
Arguments pod_Containers {Q} _.
Arguments pod_InitContainers {Q} _.
Arguments pod_Volumes {Q} _.

(** The API object handed to the webhook: a pod, or some other type. *)
Inductive Object (Q : Type) :=
| ObjPod (p : Pod Q)
| ObjOther (type_name : string).
Arguments ObjPod {Q} p.
Arguments ObjOther {Q} type_name.

(** The [Controller] field is a pointer to a boolean. *)
Record OwnerReference := {
  owner_Kind : string;
  owner_Name : string;
  owner_UID : string;
  owner_Controller : option bool
}.

Record Secret := mkSecret {
  secret_Name : string;
  secret_Namespace : string;
  secret_Labels : gmap string string;
  secret_OwnerReferences : list OwnerReference;
  secret_Type : string;
  secret_StringData : gmap string string
}.

(** [obj.GetLabels()[key]]: the zero value when the key is absent. *)
Definition label_of {Q} (p : Pod Q) (key : string) : string :=
  default "" (map_entries (pod_Labels p) !! key).

(** ** The values of labels

    Documented: at most 63 bytes; empty, or letters, digits, hyphens, underscores
    and periods, beginning and ending with a letter or a digit. *)
Definition is_alnum (c : ascii) : bool :=
  let n := nat_of_ascii c in
  ((48 <=? n) && (n <=? 57)) || ((65 <=? n) && (n <=? 90)) || ((97 <=? n) && (n <=? 122)).

Definition label_byte (c : ascii) : bool :=
  is_alnum c || bool_decide (c = "-"%char) || bool_decide (c = "_"%char) || bool_decide (c = "."%char).

Definition starts_alnum (s : string) : bool :=
  match s with "" => true | String c _ => is_alnum c end.

Definition label_value (s : string) : bool :=
  (String.length s <=? 63) && str_forallb label_byte s && starts_alnum s && starts_alnum (String.rev s).

Definition labels_valid (labels : gmap string string) : Prop :=
  map_Forall (λ _ v, label_value v = true) labels.

#[export] Instance labels_valid_dec labels : Decision (labels_valid labels).
Proof. unfold labels_valid. apply _. Defined.

(** ** A concrete quantity for evaluation: a decimal number of units or, with
    the suffix [m], of thousandths. *)
Module SampleQuantity.
Definition digit (c : ascii) : option nat :=
  let n := nat_of_ascii c in
  if (48 <=? n) && (n <=? 57) then Some (n - 48) else None.

Fixpoint scan (acc : nat) (s : string) : option nat :=
  match s with
  | "" => Some (1000 * acc)
  | "m" => Some acc
  | String c s => match digit c with Some d => scan (10 * acc + d) s | None => None end
  end.

#[export] Instance ops : QuantityOps nat := {|
  ParseQuantity s := match s with "" => None | _ => scan 0 s end;
  IsZero q := Nat.eqb q 0;
  zeroQuantity := 0
|}.

#[export] Instance laws : QuantityLaws nat.
Proof. by split. Qed.
End SampleQuantity.
