(* ===== verification/Sidecar.v ===== *)
(** [internal/injectorwebhook/sidecar.go]: the configuration of the injected
    container, its overrides from the pod's annotations, and the container
    built from it. *)
From S2P Require Import Prelude GoStrings GoJson Metadata OptConfig K8s.

(** ** State *)

(** The webhook's settings (injector.go).  The optional values are pointers in
    Go, never nil in the operator. *)
Record SidecarInjector := {
  SecretNamePrefix : string;
  TelegrafImage : string;
  WatchConfig : string;
  RequestsCPU : string;
  RequestsMemory : string;
  LimitsCPU : string;
  LimitsMemory : string;
  SecurityRunAsUser : OptionalInt64;
  SecurityRunAsGroup : OptionalInt64;
  SecurityRunAsNonRoot : OptionalBool;
  SecurityReadOnlyRootFilesystem : OptionalBool;
  SecurityAllowPrivilegeEscalation : OptionalBool;
  SecurityCapabilitiesAdd : string;
  SecurityCapabilitiesDrop : string
}.

Definition containerName : string := "telegraf".

Record containerConfig (Q : Type) := mkConfig {
  image : string;
  debug : bool;
  watchConfig : string;
  requestsCPU : Q;
  requestsMemory : Q;
  limitsCPU : Q;
  limitsMemory : Q;
  env : list EnvVar;
  envFrom : list EnvFromSource;
  volumeMounts : list VolumeMount;
  securityContext : option SecurityContext
}.
Arguments mkConfig {Q} _ _ _ _ _ _ _ _ _ _ _.
Arguments image {Q} _.
Arguments debug {Q} _.
Arguments watchConfig {Q} _.
Arguments requestsCPU {Q} _.
Arguments requestsMemory {Q} _.
Arguments limitsCPU {Q} _.
Arguments limitsMemory {Q} _.
Arguments env {Q} _.
Arguments envFrom {Q} _.
Arguments volumeMounts {Q} _.
Arguments securityContext {Q} _.

Inductive ConfigError := ErrParseQuantity (what value : string).

(** ** Security context *)

(** [strings.Split(s, ",")] with every item trimmed. *)
Definition capabilityList (s : string) : list string := TrimSpace <$> Split s ",".

Definition buildSecurityContext (s : SidecarInjector) : option SecurityContext :=
  if bool_decide (OptInt64.Value (SecurityRunAsUser s) = None) &&
     bool_decide (OptInt64.Value (SecurityRunAsGroup s) = None) &&
     bool_decide (OptBool.Value (SecurityRunAsNonRoot s) = None) &&
     bool_decide (OptBool.Value (SecurityReadOnlyRootFilesystem s) = None) &&
     bool_decide (OptBool.Value (SecurityAllowPrivilegeEscalation s) = None) &&
     bool_decide (SecurityCapabilitiesAdd s = "") &&
     bool_decide (SecurityCapabilitiesDrop s = "")
  then None
  else
    Some {|
      RunAsUser := OptInt64.Value (SecurityRunAsUser s);
      RunAsGroup := OptInt64.Value (SecurityRunAsGroup s);
      RunAsNonRoot := OptBool.Value (SecurityRunAsNonRoot s);
      ReadOnlyRootFilesystem := OptBool.Value (SecurityReadOnlyRootFilesystem s);
      AllowPrivilegeEscalation := OptBool.Value (SecurityAllowPrivilegeEscalation s);
      sc_Capabilities :=
        if negb (bool_decide (SecurityCapabilitiesAdd s = "")) ||
           negb (bool_decide (SecurityCapabilitiesDrop s = ""))
        then Some {|
          cap_Add := if bool_decide (SecurityCapabilitiesAdd s = "") then []
                     else capabilityList (SecurityCapabilitiesAdd s);
          cap_Drop := if bool_decide (SecurityCapabilitiesDrop s = "") then []
                      else capabilityList (SecurityCapabilitiesDrop s) |}
        else None
    |}.

(** ** Environment variables *)

Definition envLiteral (name value : string) : EnvVar :=
  {| env_Name := name; env_Value := value; env_ValueFrom := None |}.

Definition envFieldRef (name path : string) : EnvVar :=
  {| env_Name := name; env_Value := "";
     env_ValueFrom := Some {| FieldRef := Some {| FieldPath := path |};
                              SecretKeyRef := None; ConfigMapKeyRef := None |} |}.

Definition envSecretKeyRef (name secret key : string) : EnvVar :=
  {| env_Name := name; env_Value := "";
     env_ValueFrom := Some {| FieldRef := None;
                              SecretKeyRef := Some {| sel_Name := secret; sel_Key := key |};
                              ConfigMapKeyRef := None |} |}.

Definition envConfigMapKeyRef (name configMap key : string) : EnvVar :=
  {| env_Name := name; env_Value := "";
     env_ValueFrom := Some {| FieldRef := None; SecretKeyRef := None;
                              ConfigMapKeyRef := Some {| sel_Name := configMap; sel_Key := key |} |} |}.

Definition defaultEnv : list EnvVar :=
  [ envFieldRef "PODNAME" "metadata.name";
    envFieldRef "NODENAME" "spec.nodeName";
    envFieldRef "NAMESPACE" "metadata.namespace" ].

(** The reference built from one [name: value] pair of a key-reference
    annotation; nothing (and a log line) when the value has no period. *)
Definition keyRef (mk : string → string → string → EnvVar) (kv : string * string) : list EnvVar :=
  let '(name, value) := kv in
  match SplitN2 value "." with
  | [selector0; selector1] => [mk name selector0 selector1]
  | _ => []
  end.

Section sidecar.
Context {Q : Type} `{QuantityOps Q} `{MapRange}.
Implicit Types (c : containerConfig Q) (annotations : gmap string string).

(** ** Construction from the settings *)

Definition parseSetting (what value : string) : result ConfigError Q :=
  match ParseQuantity value with
  | Some q => Ok q
  | None => Err (ErrParseQuantity what value)
  end.

Definition newContainerConfig (s : SidecarInjector) : result ConfigError (containerConfig Q) :=
  requestsCPU ← parseSetting "CPU requests" (RequestsCPU s);
  requestsMemory ← parseSetting "memory requests" (RequestsMemory s);
  limitsCPU ← (if negb (bool_decide (LimitsCPU s = "")) && negb (bool_decide (LimitsCPU s = "0"))
               then parseSetting "CPU limits" (LimitsCPU s)
               else Ok zeroQuantity);
  limitsMemory ← parseSetting "memory limits" (LimitsMemory s);
  Ok {| image := TelegrafImage s; debug := false; watchConfig := WatchConfig s;
        requestsCPU := requestsCPU; requestsMemory := requestsMemory;
        limitsCPU := limitsCPU; limitsMemory := limitsMemory;
        env := defaultEnv; envFrom := []; volumeMounts := [];
        securityContext := buildSecurityContext s |}.

(** ** Field updates *)

Definition set_image c x : containerConfig Q :=
  let '(mkConfig _ d w rc rm lc lm e ef vm sc) := c in mkConfig x d w rc rm lc lm e ef vm sc.
Definition set_debug c x : containerConfig Q :=
  let '(mkConfig i _ w rc rm lc lm e ef vm sc) := c in mkConfig i x w rc rm lc lm e ef vm sc.
Definition set_requestsCPU c x : containerConfig Q :=
  let '(mkConfig i d w _ rm lc lm e ef vm sc) := c in mkConfig i d w x rm lc lm e ef vm sc.
Definition set_requestsMemory c x : containerConfig Q :=
  let '(mkConfig i d w rc _ lc lm e ef vm sc) := c in mkConfig i d w rc x lc lm e ef vm sc.
Definition set_limitsCPU c x : containerConfig Q :=
  let '(mkConfig i d w rc rm _ lm e ef vm sc) := c in mkConfig i d w rc rm x lm e ef vm sc.
Definition set_limitsMemory c x : containerConfig Q :=
  let '(mkConfig i d w rc rm lc _ e ef vm sc) := c in mkConfig i d w rc rm lc x e ef vm sc.
Definition append_env c x : containerConfig Q :=
  let '(mkConfig i d w rc rm lc lm e ef vm sc) := c in mkConfig i d w rc rm lc lm (e ++ x) ef vm sc.
Definition append_envFrom c x : containerConfig Q :=
  let '(mkConfig i d w rc rm lc lm e ef vm sc) := c in mkConfig i d w rc rm lc lm e (ef ++ [x]) vm sc.
Definition append_volumeMount c x : containerConfig Q :=
  let '(mkConfig i d w rc rm lc lm e ef vm sc) := c in mkConfig i d w rc rm lc lm e ef (vm ++ [x]) sc.

(** ** Annotation overrides, one definition per block of
    [applyAnnotationOverrides], in its order.  Logging is left out. *)

Definition overrideImage annotations c : containerConfig Q :=
  match annotations !! SidecarCustomImageAnnotation with
  | Some override => set_image c override
  | None => c
  end.

(** Parse an override; a text that does not parse keeps the current value. *)
Definition overrideQuantity annotations (key : string)
    (set : containerConfig Q → Q → containerConfig Q) c : containerConfig Q :=
  match annotations !! key with
  | Some override =>
      match ParseQuantity override with Some q => set c q | None => c end
  | None => c
  end.

Definition overrideRequestsCPU annotations c : containerConfig Q :=
  overrideQuantity annotations SidecarRequestsCPUAnnotation set_requestsCPU c.

Definition overrideRequestsMemory annotations c : containerConfig Q :=
  overrideQuantity annotations SidecarRequestsMemoryAnnotation set_requestsMemory c.

Definition overrideLimitsCPU annotations c : containerConfig Q :=
  match annotations !! SidecarLimitsCPUAnnotation with
  | Some override =>
      if bool_decide (override = "") || bool_decide (override = "0")
      then set_limitsCPU c zeroQuantity
      else match ParseQuantity override with Some q => set_limitsCPU c q | None => c end
  | None => c
  end.

Definition overrideLimitsMemory annotations c : containerConfig Q :=
  overrideQuantity annotations SidecarLimitsMemoryAnnotation set_limitsMemory c.

Definition addSecretEnv annotations c : containerConfig Q :=
  match annotations !! SidecarEnvSecretAnnotation with
  | Some name => append_envFrom c
      {| SecretRef := Some {| src_Name := name; src_Optional := Some true |}; ConfigMapRef := None |}
  | None => c
  end.

Definition addConfigMapEnv annotations c : containerConfig Q :=
  match annotations !! SidecarEnvConfigMapAnnotation with
  | Some name => append_envFrom c
      {| SecretRef := None; ConfigMapRef := Some {| src_Name := name; src_Optional := Some true |} |}
  | None => c
  end.

Definition addVolumeMounts annotations c : containerConfig Q :=
  match annotations !! SidecarVolumeMountsAnnotation with
  | Some text =>
      match UnmarshalStringMap text with
      | Some mounts =>
          foldl (λ c '(name, path), append_volumeMount c {| mount_Name := name; MountPath := path |})
            c (map_range "volumeMounts" mounts)
      | None => c
      end
  | None => c
  end.

(** [for name, value := range GetAnnotationsWithPrefix(annotations, prefix)],
    appending what [mk] makes of each pair. *)
Definition addEnvVars (site prefix : string) (mk : string * string → list EnvVar)
    annotations c : containerConfig Q :=
  foldl (λ c kv, append_env c (mk kv)) c
    (map_range site (GetAnnotationsWithPrefix (site +:+ "/annotations") annotations prefix)).

Definition addEnvLiterals annotations c : containerConfig Q :=
  addEnvVars "envLiterals" SidecarEnvLiteralPrefixAnnotation
    (λ kv, [envLiteral kv.1 kv.2]) annotations c.

Definition addEnvFieldRefs annotations c : containerConfig Q :=
  addEnvVars "envFieldRefs" SidecarEnvFieldRefPrefixAnnoation
    (λ kv, [envFieldRef kv.1 kv.2]) annotations c.

Definition addEnvSecretKeyRefs annotations c : containerConfig Q :=
  addEnvVars "envSecretKeyRefs" SidecarEnvSecretKeyRefPrefixAnnotation
    (keyRef envSecretKeyRef) annotations c.

Definition addEnvConfigMapKeyRefs annotations c : containerConfig Q :=
  addEnvVars "envConfigMapKeyRefs" SidecarEnvConfigMapKeyRefPrefixAnnotation
    (keyRef envConfigMapKeyRef) annotations c.

Definition overrideDebug annotations c : containerConfig Q :=
  match annotations !! TelegrafConfigDebugLogAnnotation with
  | Some debugValue => if bool_decide (debugValue = "true") then set_debug c true else c
  | None => c
  end.

Definition applyAnnotationOverrides annotations c : containerConfig Q :=
  let c := overrideImage annotations c in
  let c := overrideRequestsCPU annotations c in
  let c := overrideRequestsMemory annotations c in
  let c := overrideLimitsCPU annotations c in
  let c := overrideLimitsMemory annotations c in
  let c := addSecretEnv annotations c in
  let c := addConfigMapEnv annotations c in
  let c := addVolumeMounts annotations c in
  let c := addEnvLiterals annotations c in
  let c := addEnvFieldRefs annotations c in
  let c := addEnvSecretKeyRefs annotations c in
  let c := addEnvConfigMapKeyRefs annotations c in
  overrideDebug annotations c.

(** ** The container *)

Definition buildCommand c : list string :=
  ["telegraf"; "--config"; "/etc/telegraf/telegraf.conf"]
  ++ (if debug c then ["--debug"] else [])
  ++ (if bool_decide (watchConfig c = "") then [] else ["--watch-config"; watchConfig c]).

Definition buildResources c : ResourceRequirements Q :=
  let limits := {[ResourceMemory := limitsMemory c]} in
  {| Requests := {[ResourceCPU := requestsCPU c; ResourceMemory := requestsMemory c]};
     Limits := if IsZero (limitsCPU c) then limits else <[ResourceCPU := limitsCPU c]> limits |}.

Definition buildContainerSpec c : Container Q := {|
  c_Name := containerName;
  c_Image := image c;
  c_Command := buildCommand c;
  c_Resources := buildResources c;
  c_Env := env c;
  c_EnvFrom := envFrom c;
  c_SecurityContext := securityContext c;
  c_VolumeMounts := volumeMounts c ++
    [{| mount_Name := containerName +:+ "-config"; MountPath := "/etc/telegraf" |}];
  c_RestartPolicy := None
|}.
End sidecar.

(** * The override pipeline as one record *)

(** The value a setting has after an override that may not parse. *)
Definition parsed_or {A} (parse : string → option A) (current : A) (override : option string) : A :=
  match override with Some s => default current (parse s) | None => current end.

Section pipeline.
Context {Q : Type} `{QuantityOps Q} `{MapRange}.
Implicit Types (c : containerConfig Q) (annotations : gmap string string).

(** What the prefix loops append. *)
Definition envVarsOf (site prefix : string) (mk : string * string → list EnvVar)
    (annotations : gmap string string) : list EnvVar :=
  map_range site (GetAnnotationsWithPrefix (site +:+ "/annotations") annotations prefix) ≫= mk.

Definition addedEnv (annotations : gmap string string) : list EnvVar :=
  envVarsOf "envLiterals" SidecarEnvLiteralPrefixAnnotation
    (λ kv, [envLiteral kv.1 kv.2]) annotations ++
  envVarsOf "envFieldRefs" SidecarEnvFieldRefPrefixAnnoation
    (λ kv, [envFieldRef kv.1 kv.2]) annotations ++
  envVarsOf "envSecretKeyRefs" SidecarEnvSecretKeyRefPrefixAnnotation
    (keyRef envSecretKeyRef) annotations ++
  envVarsOf "envConfigMapKeyRefs" SidecarEnvConfigMapKeyRefPrefixAnnotation
    (keyRef envConfigMapKeyRef) annotations.

Definition addedEnvFrom (annotations : gmap string string) : list EnvFromSource :=
  match annotations !! SidecarEnvSecretAnnotation with
  | Some name => [{| SecretRef := Some {| src_Name := name; src_Optional := Some true |};
                     ConfigMapRef := None |}]
  | None => []
  end ++
  match annotations !! SidecarEnvConfigMapAnnotation with
  | Some name => [{| SecretRef := None;
                     ConfigMapRef := Some {| src_Name := name; src_Optional := Some true |} |}]
  | None => []
  end.

Definition addedMounts (annotations : gmap string string) : list VolumeMount :=
  match (text ← annotations !! SidecarVolumeMountsAnnotation; UnmarshalStringMap text) with
  | Some mounts => (λ kv, {| mount_Name := kv.1; MountPath := kv.2 |}) <$>
      map_range "volumeMounts" mounts
  | None => []
  end.

Definition limitsCPU_override (current : Q) (override : option string) : Q :=
  match override with
  | Some s => if bool_decide (s = "") || bool_decide (s = "0") then zeroQuantity
              else default current (ParseQuantity s)
  | None => current
  end.

Lemma append_env_nil c : append_env c [] = c.
Proof. destruct c; cbn. by rewrite app_nil_r. Qed.

Lemma append_env_app c l1 l2 : append_env (append_env c l1) l2 = append_env c (l1 ++ l2).
Proof. destruct c; cbn. by rewrite app_assoc. Qed.

Lemma addEnvVars_eq site prefix mk annotations c :
  addEnvVars site prefix mk annotations c = append_env c (envVarsOf site prefix mk annotations).
Proof.
  unfold addEnvVars, envVarsOf. generalize (map_range site
    (GetAnnotationsWithPrefix (site +:+ "/annotations") annotations prefix)).
  intros l. revert c. induction l as [|kv l IH]; intros c; cbn; [by rewrite append_env_nil|].
  by rewrite IH, append_env_app.
Qed.

Lemma addVolumeMounts_eq annotations i d w rc rm lc lm e ef vm sc :
  addVolumeMounts annotations (@mkConfig Q i d w rc rm lc lm e ef vm sc) =
  mkConfig i d w rc rm lc lm e ef (vm ++ addedMounts annotations) sc.
Proof.
  unfold addVolumeMounts, addedMounts.
  destruct (annotations !! _) as [text|]; simpl; [|by rewrite app_nil_r].
  destruct (UnmarshalStringMap text) as [mounts|]; [|by rewrite app_nil_r].
  generalize (map_range "volumeMounts" mounts). intros l. revert vm.
  induction l as [|[n p] l IH]; intros vm; cbn; [by rewrite app_nil_r|].
  rewrite IH. by rewrite <- app_assoc.
Qed.

Lemma overrideQuantity_eq annotations key set c (get : containerConfig Q → Q) :
  set c (get c) = c →
  overrideQuantity annotations key set c =
  set c (parsed_or ParseQuantity (get c) (annotations !! key)).
Proof.
  intros Hid. unfold overrideQuantity, parsed_or.
  destruct (annotations !! key) as [s|]; [|done]. by destruct (ParseQuantity s).
Qed.

(** Every field of the result of [applyAnnotationOverrides]. *)
Lemma applyAnnotationOverrides_eq annotations c :
  applyAnnotationOverrides annotations c = {|
    image := default (image c) (annotations !! SidecarCustomImageAnnotation);
    debug := debug c || bool_decide (annotations !! TelegrafConfigDebugLogAnnotation = Some "true");
    watchConfig := watchConfig c;
    requestsCPU := parsed_or ParseQuantity (requestsCPU c)
      (annotations !! SidecarRequestsCPUAnnotation);
    requestsMemory := parsed_or ParseQuantity (requestsMemory c)
      (annotations !! SidecarRequestsMemoryAnnotation);
    limitsCPU := limitsCPU_override (limitsCPU c) (annotations !! SidecarLimitsCPUAnnotation);
    limitsMemory := parsed_or ParseQuantity (limitsMemory c)
      (annotations !! SidecarLimitsMemoryAnnotation);
    env := env c ++ addedEnv annotations;
    envFrom := envFrom c ++ addedEnvFrom annotations;
    volumeMounts := volumeMounts c ++ addedMounts annotations;
    securityContext := securityContext c |}.
Proof.
  unfold applyAnnotationOverrides, addEnvLiterals, addEnvFieldRefs, addEnvSecretKeyRefs,
    addEnvConfigMapKeyRefs. rewrite !addEnvVars_eq, !append_env_app.
  assert (overrideImage annotations c =
    set_image c (default (image c) (annotations !! SidecarCustomImageAnnotation))) as ->.
  { unfold overrideImage. destruct c, (annotations !! _); done. }
  destruct c as [i d w rc rm lc lm e ef vm sc]; cbn [set_image image].
  unfold overrideRequestsCPU, overrideRequestsMemory, overrideLimitsMemory.
  rewrite (overrideQuantity_eq _ _ set_requestsCPU _ requestsCPU) by done. cbn.
  rewrite (overrideQuantity_eq _ _ set_requestsMemory _ requestsMemory) by done. cbn.
  assert (∀ i d w rc rm lc lm e ef vm sc, overrideLimitsCPU annotations
     (@mkConfig Q i d w rc rm lc lm e ef vm sc) =
     mkConfig i d w rc rm (limitsCPU_override lc (annotations !! SidecarLimitsCPUAnnotation))
       lm e ef vm sc) as ->.
  { intros. unfold overrideLimitsCPU, limitsCPU_override. destruct (annotations !! _); [|done].
    case_match; [done|]. by destruct (ParseQuantity _). }
  rewrite (overrideQuantity_eq _ _ set_limitsMemory _ limitsMemory) by done. cbn.
  assert (∀ c, addConfigMapEnv annotations (addSecretEnv annotations c) =
    let '(mkConfig i d w rc rm lc lm e ef vm sc) := c in
    mkConfig i d w rc rm lc lm e (ef ++ addedEnvFrom annotations) vm sc) as ->.
  { intros []. unfold addConfigMapEnv, addSecretEnv, addedEnvFrom.
    destruct (annotations !! SidecarEnvSecretAnnotation),
      (annotations !! SidecarEnvConfigMapAnnotation); cbn; by rewrite ?app_nil_r, <- ?app_assoc. }
  rewrite addVolumeMounts_eq. cbn. unfold overrideDebug.
  destruct (annotations !! TelegrafConfigDebugLogAnnotation) as [v|]; [|by rewrite orb_false_r].
  case_bool_decide as Hv; [subst|].
  - by rewrite bool_decide_eq_true_2, orb_true_r.
  - rewrite bool_decide_eq_false_2 by congruence. by rewrite orb_false_r.
Qed.
End pipeline.

(** ** Which environment variables are added *)

Lemma elem_of_keyRef mk name value e :
  e ∈ keyRef mk (name, value) ↔
  ∃ s k, value = s +:+ String "." k ∧ free_of "." s = true ∧ e = mk name s k.
Proof.
  unfold keyRef. destruct (split_at_first value ".") as [Hf|(s & k & -> & Hf)].
  - rewrite SplitN2_self by done. split; [by intros ?%not_elem_of_nil|].
    intros (s & k & -> & _ & _). unfold free_of in Hf. rewrite str_forallb_app in Hf.
    by apply andb_true_iff in Hf as [_ ?].
  - rewrite SplitN2_app by done. rewrite list_elem_of_singleton. split; [eauto|].
    intros (s' & k' & Heq & Hf' & ->).
    assert ([s; k] = [s'; k']) as [= -> ->]; [|done].
    rewrite <- (SplitN2_app s "." k), <- (SplitN2_app s' "." k') by done. by rewrite Heq.
Qed.

Section env_members.
Context `{MapRange}.

Lemma elem_of_envVarsOf site prefix mk annotations e :
  e ∈ envVarsOf site prefix mk annotations ↔
  ∃ name value, annotations !! (prefix +:+ name) = Some value ∧ e ∈ mk (name, value).
Proof.
  unfold envVarsOf. rewrite list_elem_of_bind. split.
  - intros ([n v] & He & Hin%elem_of_map_range).
    rewrite GetAnnotationsWithPrefix_lookup in Hin. eauto.
  - intros (n & v & Hin & He). exists (n, v). split; [done|].
    apply elem_of_map_range. by rewrite GetAnnotationsWithPrefix_lookup.
Qed.

Lemma elem_of_plainVars site prefix (mk : string → string → EnvVar) annotations e :
  e ∈ envVarsOf site prefix (λ kv, [mk kv.1 kv.2]) annotations ↔
  ∃ n v, annotations !! (prefix +:+ n) = Some v ∧ e = mk n v.
Proof.
  rewrite elem_of_envVarsOf. by setoid_rewrite list_elem_of_singleton.
Qed.

Lemma elem_of_keyVars site prefix mk annotations e :
  e ∈ envVarsOf site prefix (keyRef mk) annotations ↔
  ∃ n s k, annotations !! (prefix +:+ n) = Some (s +:+ String "." k) ∧
    free_of "." s = true ∧ e = mk n s k.
Proof.
  rewrite elem_of_envVarsOf. setoid_rewrite elem_of_keyRef. split.
  - intros (n & v & Hv & s & k & -> & Hs & ->). by exists n, s, k.
  - intros (n & s & k & Hv & Hs & ->). eexists n, _. split; [exact Hv|]. by exists s, k.
Qed.
End env_members.

Lemma envVarsOf_order (R1 R2 : MapRange) site prefix mk annotations :
  @envVarsOf R1 site prefix mk annotations ≡ₚ @envVarsOf R2 site prefix mk annotations.
Proof.
  unfold envVarsOf.
  by rewrite (GetAnnotationsWithPrefix_order R1 R2 _ (site +:+ "/annotations")), !map_range_perm.
Qed.

Lemma addedMounts_order (R1 R2 : MapRange) annotations :
  @addedMounts R1 annotations ≡ₚ @addedMounts R2 annotations.
Proof.
  unfold addedMounts. case_match; [|done]. by rewrite !map_range_perm.
Qed.

(** ** Containers up to the order of their variables and mounts *)

Record config_equiv {Q} (c1 c2 : containerConfig Q) : Prop := {
  equiv_image : image c1 = image c2;
  equiv_debug : debug c1 = debug c2;
  equiv_watch : watchConfig c1 = watchConfig c2;
  equiv_requestsCPU : requestsCPU c1 = requestsCPU c2;
  equiv_requestsMemory : requestsMemory c1 = requestsMemory c2;
  equiv_limitsCPU : limitsCPU c1 = limitsCPU c2;
  equiv_limitsMemory : limitsMemory c1 = limitsMemory c2;
  equiv_env : env c1 ≡ₚ env c2;
  equiv_envFrom : envFrom c1 = envFrom c2;
  equiv_mounts : volumeMounts c1 ≡ₚ volumeMounts c2;
  equiv_security : securityContext c1 = securityContext c2
}.

Record container_equiv {Q} (c1 c2 : Container Q) : Prop := {
  cequiv_name : c_Name c1 = c_Name c2;
  cequiv_image : c_Image c1 = c_Image c2;
  cequiv_command : c_Command c1 = c_Command c2;
  cequiv_resources : c_Resources c1 = c_Resources c2;
  cequiv_env : c_Env c1 ≡ₚ c_Env c2;
  cequiv_envFrom : c_EnvFrom c1 = c_EnvFrom c2;
  cequiv_security : c_SecurityContext c1 = c_SecurityContext c2;
  cequiv_mounts : c_VolumeMounts c1 ≡ₚ c_VolumeMounts c2;
  cequiv_restart : c_RestartPolicy c1 = c_RestartPolicy c2
}.

#[export] Instance config_equiv_equivalence Q : Equivalence (@config_equiv Q).
Proof.
  split.
  - intros c. by split.
  - intros c1 c2 []. by split.
  - intros c1 c2 c3 [] []. split; etrans; eauto.
Qed.

#[export] Instance container_equiv_equivalence Q : Equivalence (@container_equiv Q).
Proof.
  split.
  - intros c. by split.
  - intros c1 c2 []. by split.
  - intros c1 c2 c3 [] []. split; etrans; eauto.
Qed.

#[export] Instance buildContainerSpec_proper Q `{QuantityOps Q} :
  Proper (@config_equiv Q ==> @container_equiv Q) buildContainerSpec.
Proof.
  intros c1 c2 [Hi Hd Hw Hrc Hrm Hlc Hlm He Hf Hm Hs]. split; cbn; try done.
  - unfold buildCommand. by rewrite Hd, Hw.
  - unfold buildResources. by rewrite Hrc, Hrm, Hlc, Hlm.
  - by rewrite Hm.
Qed.

Lemma applyAnnotationOverrides_order {Q} `{QuantityOps Q} (R1 R2 : MapRange) annotations
    (c : containerConfig Q) :
  config_equiv (@applyAnnotationOverrides Q _ R1 annotations c)
               (@applyAnnotationOverrides Q _ R2 annotations c).
Proof.
  rewrite !applyAnnotationOverrides_eq. split; cbn; try done.
  - f_equiv. unfold addedEnv. repeat (apply Permutation_app; [apply envVarsOf_order|]).
    apply envVarsOf_order.
  - f_equiv. apply addedMounts_order.
Qed.

(** * Theorems *)

Section theorems.
Context {Q : Type} `{QuantityOps Q}.
Implicit Types (c : containerConfig Q) (annotations : gmap string string).

(** C17. Scalar settings: an override annotation replaces its own setting when it
    is usable and is ignored when it is not; [limits-cpu] accepts the empty
    text and 0 as "no limit"; no annotation touches [watch-config] or the
    security context; each of the two env-from annotations adds one optional
    source after the existing ones, the secret before the config map. *)
Theorem applyAnnotationOverrides_settings (R : MapRange) annotations c :
  let c' := applyAnnotationOverrides annotations c in
  image c' = default (image c) (annotations !! SidecarCustomImageAnnotation) ∧
  requestsCPU c' = parsed_or ParseQuantity (requestsCPU c)
    (annotations !! SidecarRequestsCPUAnnotation) ∧
  requestsMemory c' = parsed_or ParseQuantity (requestsMemory c)
    (annotations !! SidecarRequestsMemoryAnnotation) ∧
  limitsCPU c' = limitsCPU_override (limitsCPU c) (annotations !! SidecarLimitsCPUAnnotation) ∧
  limitsMemory c' = parsed_or ParseQuantity (limitsMemory c)
    (annotations !! SidecarLimitsMemoryAnnotation) ∧
  (debug c' = true ↔
     debug c = true ∨ annotations !! TelegrafConfigDebugLogAnnotation = Some "true") ∧
  watchConfig c' = watchConfig c ∧ securityContext c' = securityContext c ∧
  envFrom c' = envFrom c ++ addedEnvFrom annotations.
Proof.
  rewrite applyAnnotationOverrides_eq; cbn. split_and!; try done.
  by rewrite orb_true_iff, bool_decide_eq_true.
Qed.

(** C18. Environment: the variables present stay first, and the ones added are
    exactly those that the four prefix annotations describe; a key reference
    needs a period in its value and is cut at the first one. *)
Theorem applyAnnotationOverrides_env (R : MapRange) annotations c :
  ∃ added, env (applyAnnotationOverrides annotations c) = env c ++ added ∧
  ∀ e, e ∈ added ↔
    (∃ n v, annotations !! (SidecarEnvLiteralPrefixAnnotation +:+ n) = Some v ∧
       e = envLiteral n v) ∨
    (∃ n v, annotations !! (SidecarEnvFieldRefPrefixAnnoation +:+ n) = Some v ∧
       e = envFieldRef n v) ∨
    (∃ n s k, annotations !! (SidecarEnvSecretKeyRefPrefixAnnotation +:+ n) =
         Some (s +:+ String "." k) ∧ free_of "." s = true ∧ e = envSecretKeyRef n s k) ∨
    (∃ n s k, annotations !! (SidecarEnvConfigMapKeyRefPrefixAnnotation +:+ n) =
         Some (s +:+ String "." k) ∧ free_of "." s = true ∧ e = envConfigMapKeyRef n s k).
Proof.
  exists (addedEnv annotations). rewrite applyAnnotationOverrides_eq. split; [done|].
  intros e. unfold addedEnv.
  by rewrite !elem_of_app, !elem_of_plainVars, !elem_of_keyVars.
Qed.

(** C28. Map iteration order: the containers built under any two orders agree in
    every field, their variables and mounts up to a permutation. *)
Theorem container_order_independent (R1 R2 : MapRange) annotations c :
  container_equiv (buildContainerSpec (@applyAnnotationOverrides Q _ R1 annotations c))
                  (buildContainerSpec (@applyAnnotationOverrides Q _ R2 annotations c)).
Proof. by rewrite (applyAnnotationOverrides_order R1 R2). Qed.

(** The CPU limit can be overridden in both directions: the empty text or 0
    leaves the container without a CPU limit whatever the operator's setting,
    a non-zero quantity sets it even when the operator disables it, and a text
    that does not parse leaves the decision to the operator's setting. *)
Theorem cpu_limit_override `{!QuantityLaws Q} (R : MapRange) annotations c s :
  annotations !! SidecarLimitsCPUAnnotation = Some s →
  Limits (c_Resources (buildContainerSpec (applyAnnotationOverrides annotations c))) !! ResourceCPU =
  if bool_decide (s = "" ∨ s = "0") then None
  else match ParseQuantity s with
    | Some q => if IsZero q then None else Some q
    | None => if IsZero (limitsCPU c) then None else Some (limitsCPU c)
    end.
Proof.
  intros Hs. rewrite applyAnnotationOverrides_eq, Hs.
  unfold buildContainerSpec, buildResources, limitsCPU_override.
  cbn [c_Resources Limits limitsCPU limitsMemory].
  assert (∀ q m : Q, (if IsZero q then {[ResourceMemory := m]}
    else <[ResourceCPU := q]> {[ResourceMemory := m]} : gmap string Q) !! ResourceCPU =
    if IsZero q then None else Some q) as Hlim.
  { intros q m. destruct (IsZero q); [by rewrite lookup_singleton_ne|by rewrite lookup_insert_eq]. }
  rewrite Hlim. rewrite <- bool_decide_or.
  case_bool_decide; [by rewrite IsZero_zero|]. by destruct (ParseQuantity s).
Qed.

(** The settings are accepted exactly when the requests and the memory limit
    parse and the CPU limit parses or is empty or 0; a setting that does not
    parse is reported and no container is configured. *)
Theorem newContainerConfig_spec (s : SidecarInjector) :
  match newContainerConfig (Q:=Q) s with
  | Ok c =>
      ParseQuantity (RequestsCPU s) = Some (requestsCPU c) ∧
      ParseQuantity (RequestsMemory s) = Some (requestsMemory c) ∧
      ParseQuantity (LimitsMemory s) = Some (limitsMemory c) ∧
      (if bool_decide (LimitsCPU s = "" ∨ LimitsCPU s = "0") then limitsCPU c = zeroQuantity
       else ParseQuantity (LimitsCPU s) = Some (limitsCPU c)) ∧
      image c = TelegrafImage s ∧ debug c = false ∧ watchConfig c = WatchConfig s ∧
      env c = defaultEnv ∧ envFrom c = [] ∧ volumeMounts c = [] ∧
      securityContext c = buildSecurityContext s
  | Err (ErrParseQuantity _ v) => ParseQuantity v = @None Q ∧
      v ∈ [RequestsCPU s; RequestsMemory s; LimitsCPU s; LimitsMemory s]
  | Panic _ => False
  end.
Proof.
  unfold newContainerConfig, parseSetting.
  assert (bool_decide (LimitsCPU s = "" ∨ LimitsCPU s = "0") =
    negb (negb (bool_decide (LimitsCPU s = "")) && negb (bool_decide (LimitsCPU s = "0")))) as ->.
  { rewrite bool_decide_or. by do 2 case_bool_decide. }
  destruct (ParseQuantity (RequestsCPU s)) eqn:?; cbn; [|split; [done|set_solver]].
  destruct (ParseQuantity (RequestsMemory s)) eqn:?; cbn; [|split; [done|set_solver]].
  destruct (_ && _); cbn; [destruct (ParseQuantity (LimitsCPU s)) eqn:?; cbn;
    [|split; [done|set_solver]]|];
  (destruct (ParseQuantity (LimitsMemory s)) eqn:?; cbn; [done|split; [done|set_solver]]).
Qed.

(** A container gets a security context exactly when one of its settings is
    given; its capabilities are the trimmed items of the comma-separated
    texts, and are left out when both texts are empty. *)
Theorem buildSecurityContext_spec (s : SidecarInjector) :
  match buildSecurityContext s with
  | None =>
      OptInt64.Value (SecurityRunAsUser s) = None ∧ OptInt64.Value (SecurityRunAsGroup s) = None ∧
      OptBool.Value (SecurityRunAsNonRoot s) = None ∧
      OptBool.Value (SecurityReadOnlyRootFilesystem s) = None ∧
      OptBool.Value (SecurityAllowPrivilegeEscalation s) = None ∧
      SecurityCapabilitiesAdd s = "" ∧ SecurityCapabilitiesDrop s = ""
  | Some sc =>
      RunAsUser sc = OptInt64.Value (SecurityRunAsUser s) ∧
      RunAsGroup sc = OptInt64.Value (SecurityRunAsGroup s) ∧
      RunAsNonRoot sc = OptBool.Value (SecurityRunAsNonRoot s) ∧
      ReadOnlyRootFilesystem sc = OptBool.Value (SecurityReadOnlyRootFilesystem s) ∧
      AllowPrivilegeEscalation sc = OptBool.Value (SecurityAllowPrivilegeEscalation s) ∧
      (sc_Capabilities sc = None ↔ SecurityCapabilitiesAdd s = "" ∧ SecurityCapabilitiesDrop s = "") ∧
      ∀ cap, sc_Capabilities sc = Some cap →
        (∀ x, x ∈ cap_Add cap ↔ SecurityCapabilitiesAdd s ≠ "" ∧
           ∃ item, item ∈ Split (SecurityCapabilitiesAdd s) "," ∧ x = TrimSpace item) ∧
        (∀ x, x ∈ cap_Drop cap ↔ SecurityCapabilitiesDrop s ≠ "" ∧
           ∃ item, item ∈ Split (SecurityCapabilitiesDrop s) "," ∧ x = TrimSpace item)
  end.
Proof.
  unfold buildSecurityContext. destruct (_ && _) eqn:E.
  { rewrite !andb_true_iff, !bool_decide_eq_true in E.
    by destruct E as [[[[[[? ?] ?] ?] ?] ?] ?]. }
  cbn. split_and!; try done.
  - assert (Ha := bool_decide_eq_true (SecurityCapabilitiesAdd s = "")).
    assert (Hd := bool_decide_eq_true (SecurityCapabilitiesDrop s = "")).
    destruct (bool_decide (SecurityCapabilitiesAdd s = "")),
      (bool_decide (SecurityCapabilitiesDrop s = ""));
      cbn; rewrite <- Ha, <- Hd; split; try done; by intros [? ?].
  - intros cap Hcap. assert (∀ t x, x ∈ (if bool_decide (t = "") then [] else capabilityList t) ↔
      t ≠ "" ∧ ∃ item, item ∈ Split t "," ∧ x = TrimSpace item) as Hin.
    { intros t x. unfold capabilityList.
      pose proof (bool_decide_reflect (t = "")) as Hr. destruct Hr as [Ht|Ht].
      - split; [by intros ?%not_elem_of_nil|by intros [? _]].
      - rewrite list_elem_of_fmap. split.
        + intros (item & -> & ?). eauto.
        + intros [_ (item & ? & ->)]. eauto. }
    destruct (negb _ || negb _) in Hcap; [|done]. injection Hcap as <-. cbn.
    split; intros x; apply Hin.
Qed.
End theorems.

Section mounts.
Context {Q : Type} `{QuantityOps Q}.

(** The volume-mounts annotation in its documented form mounts exactly that
    volume, before the mount of the telegraf configuration at /etc/telegraf,
    which is always the last; any text that is not a JSON object of strings
    adds no mount at all. *)
Theorem volume_mounts_spec (R : MapRange) annotations (c : containerConfig Q) text :
  annotations !! SidecarVolumeMountsAnnotation = Some text →
  let mounts := c_VolumeMounts (buildContainerSpec (applyAnnotationOverrides annotations c)) in
  let config := {| mount_Name := "telegraf-config"; MountPath := "/etc/telegraf" |} in
  (∀ name path, plain name = true → plain path = true → text = object_text name path →
     mounts = volumeMounts c ++ [{| mount_Name := name; MountPath := path |}; config]) ∧
  (UnmarshalStringMap text = None → mounts = volumeMounts c ++ [config]).
Proof.
  intros Ht. rewrite applyAnnotationOverrides_eq. unfold buildContainerSpec, addedMounts.
  cbn [c_VolumeMounts volumeMounts]. rewrite Ht. cbn [mbind option_bind].
  split.
  - intros name path Hn Hp ->. rewrite UnmarshalStringMap_object by done.
    assert (map_range "volumeMounts" {[name := path]} = [(name, path)]) as ->.
    { apply Permutation_singleton_r. by rewrite map_range_perm, map_to_list_singleton. }
    by rewrite <- app_assoc.
  - intros ->. by rewrite app_nil_r.
Qed.
End mounts.

(** ** Samples and witnesses *)

Import SampleQuantity.

Definition sample_injector : SidecarInjector := {|
  SecretNamePrefix := "telegraf"; TelegrafImage := "docker.io/library/telegraf:1.30-alpine";
  WatchConfig := ""; RequestsCPU := "10m"; RequestsMemory := "56m"; LimitsCPU := "0";
  LimitsMemory := "128m"; SecurityRunAsUser := {| int64_value := None |};
  SecurityRunAsGroup := {| int64_value := None |}; SecurityRunAsNonRoot := {| bool_value := None |};
  SecurityReadOnlyRootFilesystem := {| bool_value := None |};
  SecurityAllowPrivilegeEscalation := {| bool_value := None |};
  SecurityCapabilitiesAdd := ""; SecurityCapabilitiesDrop := ""
|}.

Definition sample_config : containerConfig nat :=
  @mkConfig nat "telegraf" false "" 10 56 0 128 defaultEnv [] [] None.

Lemma sample_config_ok : newContainerConfig (Q:=nat) sample_injector =
  Ok (set_image sample_config "docker.io/library/telegraf:1.30-alpine").
Proof. vm_compute. reflexivity. Qed.

Definition cpu_annotations : gmap string string := {[SidecarLimitsCPUAnnotation := "250m"]}.

Definition mount_text : string := dq "{ 'log-vol': '/var/log/app' }".

Definition mount_annotations : gmap string string :=
  {[SidecarVolumeMountsAnnotation := mount_text]}.

Lemma cpu_limit_override_witness :
  Limits (c_Resources (buildContainerSpec (@applyAnnotationOverrides nat _ range_forward
    cpu_annotations sample_config))) !! ResourceCPU = Some 250.
Proof.
  etrans.
  - apply (@cpu_limit_override nat SampleQuantity.ops SampleQuantity.laws range_forward
      cpu_annotations sample_config "250m"). vm_compute. reflexivity.
  - vm_compute. reflexivity.
Defined.

Lemma volume_mounts_spec_witness :
  c_VolumeMounts (buildContainerSpec (@applyAnnotationOverrides nat _ range_forward
    mount_annotations sample_config)) =
  [{| mount_Name := "log-vol"; MountPath := "/var/log/app" |};
   {| mount_Name := "telegraf-config"; MountPath := "/etc/telegraf" |}].
Proof.
  destruct (@volume_mounts_spec nat SampleQuantity.ops range_forward
    mount_annotations sample_config mount_text) as [Hm _].
  - vm_compute. reflexivity.
  - apply (Hm "log-vol" "/var/log/app"); vm_compute; reflexivity.
Defined.

(** The order of the injected variables is the iteration order of a Go map: the
    same annotations can give containers whose variables come in different
    orders. *)
Theorem env_order_unspecified :
  ∃ annotations, @env nat (@applyAnnotationOverrides _ _ range_forward annotations sample_config)
    ≠ env (@applyAnnotationOverrides _ _ range_backward annotations sample_config).
Proof.
  exists {[SidecarEnvLiteralPrefixAnnotation +:+ "HOST" := "db";
           SidecarEnvLiteralPrefixAnnotation +:+ "URL" := "http://$(HOST)/"]}.
  vm_compute. congruence.
Qed.
