(* ===== verification/Injector.v ===== *)
(** [internal/injectorwebhook/injector.go]: the mutating webhook.  It decides
    whether a pod is injected, appends the container, the volume and the two
    labels, and chooses the name of the secret that the controller will create. *)
From S2P Require Import Prelude GoStrings Metadata OptConfig FeatureGate K8s Sidecar.

(** ** k8s.io/apiserver/pkg/storage/names

    [SimpleNameGenerator.GenerateName] is random: a call is given its own draw.
    Documented: the name plus a random suffix of five alphanumerics, never
    longer than the 63 characters of a standard Kubernetes name. *)
Definition is_lower_alnum (c : ascii) : bool :=
  let n := nat_of_ascii c in
  ((48 <=? n) && (n <=? 57)) || ((97 <=? n) && (n <=? 122)).

Class NameGenerator := { GenerateName : nat → string → string }.

Class NameGeneratorLaws `{NameGenerator} := {
  GenerateName_suffix : ∀ draw base, String.length base ≤ 58 →
    ∃ suffix, GenerateName draw base = base +:+ suffix ∧ String.length suffix = 5 ∧
      str_forallb is_lower_alnum suffix = true;
  GenerateName_length : ∀ draw base, String.length (GenerateName draw base) ≤ 63
}.

(** ** Pod updates *)

Section pod_updates.
Context {Q : Type}.
Implicit Types (p : Pod Q).

Definition append_InitContainer p (x : Container Q) : Pod Q :=
  let '(mkPod n g ns u l a c i v) := p in mkPod n g ns u l a c (i ++ [x]) v.
Definition append_Container p (x : Container Q) : Pod Q :=
  let '(mkPod n g ns u l a c i v) := p in mkPod n g ns u l a (c ++ [x]) i v.
Definition append_Volume p (x : Volume) : Pod Q :=
  let '(mkPod n g ns u l a c i v) := p in mkPod n g ns u l a c i (v ++ [x]).
Definition set_Labels p (x : option (gmap string string)) : Pod Q :=
  let '(mkPod n g ns u _ a c i v) := p in mkPod n g ns u x a c i v.

Definition set_RestartPolicy (c : Container Q) (policy : string) : Container Q :=
  {| c_Name := c_Name c; c_Image := c_Image c; c_Command := c_Command c;
     c_Resources := c_Resources c; c_Env := c_Env c; c_EnvFrom := c_EnvFrom c;
     c_SecurityContext := c_SecurityContext c; c_VolumeMounts := c_VolumeMounts c;
     c_RestartPolicy := Some policy |}.
End pod_updates.

Definition ContainerRestartPolicyAlways : string := "Always".

Inductive WebhookError :=
| ErrNotAPod (type_name : string)
| ErrContainerConfig (e : ConfigError).

Section injector.
Context {Q : Type} `{QuantityOps Q} `{MapRange} `{NameGenerator}.
Implicit Types (s : SidecarInjector) (g : GateState) (pod : Pod Q).

Definition podIdentifier pod : string :=
  if bool_decide (pod_Name pod = "") then pod_GenerateName pod else pod_Name pod.

Definition hasTelegrafContainer g pod : bool :=
  existsb (λ container, Contains (c_Name container) "telegraf")
    (if native_sidecars g then pod_InitContainers pod else pod_Containers pod).

Definition shouldInjectContainer g pod : bool :=
  if hasTelegrafContainer g pod then false
  else existsb (λ '(key, _), HasPrefix key Prefix)
         (map_range "shouldInjectContainer" (map_entries (pod_Annotations pod))).

(** The argument given to the name generator. *)
Definition secretNameBase s (identifier : string) : string :=
  let name := SecretNamePrefix s +:+ "-" +:+ TrimSuffix identifier "-" +:+ "-" in
  if 57 <? String.length name then str_take 57 name +:+ "-" else name.

Definition generateSecretName s (draw : nat) (identifier : string) : string :=
  GenerateName draw (secretNameBase s identifier).

Definition telegrafVolume (secretName : string) : Volume :=
  {| vol_Name := "telegraf-config"; vol_Source := SecretVolume secretName |}.

Definition injectLabels (labels : option (gmap string string)) (secretName : string)
    : result WebhookError (option (gmap string string)) :=
  let labels := match labels with None => Some ∅ | Some _ => labels end in
  labels ← map_assign labels SidecarInjectedLabel "true";
  map_assign labels SidecarSecretNameLabel secretName.

(** The part of [Default] after the configuration is built: the pod is
    updated in place, so the pod reached so far is returned with any panic. *)
Definition injectContainer s g (draw : nat) pod (config : containerConfig Q)
    : Pod Q * result WebhookError unit :=
  let config := applyAnnotationOverrides (map_entries (pod_Annotations pod)) config in
  let container := buildContainerSpec config in
  let identifier := podIdentifier pod in
  let pod :=
    if native_sidecars g
    then append_InitContainer pod (set_RestartPolicy container ContainerRestartPolicyAlways)
    else append_Container pod container in
  let secretName := generateSecretName s draw identifier in
  let pod := append_Volume pod (telegrafVolume secretName) in
  match injectLabels (pod_Labels pod) secretName with
  | Ok labels => (set_Labels pod labels, Ok ())
  | Err e => (pod, Err e)
  | Panic w => (pod, Panic w)
  end.

(** The whole handler: the object after the call, and what the call returns. *)
Definition Default s g (draw : nat) (obj : Object Q) : Object Q * result WebhookError unit :=
  match obj with
  | ObjOther t => (obj, Err (ErrNotAPod t))
  | ObjPod pod =>
      if negb (shouldInjectContainer g pod) then (obj, Ok ())
      else match newContainerConfig s with
        | Err e => (obj, Err (ErrContainerConfig e))
        | Panic w => (obj, Panic w)
        | Ok config =>
            let '(pod, r) := injectContainer s g draw pod config in (ObjPod pod, r)
        end
  end.
End injector.

(** * Lemmas *)

Lemma newContainerConfig_no_panic {Q} `{QuantityOps Q} (s : SidecarInjector) :
  panics (newContainerConfig (Q:=Q) s) = false.
Proof.
  unfold newContainerConfig.
  repeat (apply panics_bind; [unfold parseSetting; repeat case_match; done|intros ? _]). done.
Qed.

Lemma injectLabels_ok labels secretName :
  injectLabels labels secretName =
  Ok (Some (<[SidecarSecretNameLabel := secretName]>
        (<[SidecarInjectedLabel := "true"]> (map_entries labels)))).
Proof. by destruct labels. Qed.

Section decision.
Context {Q : Type} `{QuantityOps Q}.
Implicit Types (g : GateState) (pod : Pod Q).

(** The list of containers the webhook looks at, and appends to. *)
Definition sidecarList g pod : list (Container Q) :=
  if native_sidecars g then pod_InitContainers pod else pod_Containers pod.

(** The list it does not look at. *)
Definition otherList g pod : list (Container Q) :=
  if native_sidecars g then pod_Containers pod else pod_InitContainers pod.

(** The names that have to be different. *)
Definition container_names pod : list string :=
  c_Name <$> pod_Containers pod ++ pod_InitContainers pod.

Definition volume_names pod : list string := vol_Name <$> pod_Volumes pod.

Lemma shouldInjectContainer_true (R : MapRange) g pod :
  shouldInjectContainer g pod = true ↔
  (∀ c, c ∈ sidecarList g pod → Contains (c_Name c) "telegraf" = false) ∧
  ∃ k v, map_entries (pod_Annotations pod) !! k = Some v ∧ HasPrefix k Prefix = true.
Proof.
  unfold shouldInjectContainer, hasTelegrafContainer. fold (sidecarList g pod).
  set (p := λ container : Container Q, Contains (c_Name container) "telegraf").
  assert (existsb p (sidecarList g pod) = false ↔
    ∀ c, c ∈ sidecarList g pod → p c = false) as Hex.
  { induction (sidecarList g pod) as [|c l IH]; simpl.
    - split; [intros _ c Hc; by apply not_elem_of_nil in Hc|done].
    - rewrite orb_false_iff, IH. setoid_rewrite elem_of_cons. naive_solver. }
  change (∀ c, c ∈ sidecarList g pod → Contains (c_Name c) "telegraf" = false) with
    (∀ c, c ∈ sidecarList g pod → p c = false). rewrite <- Hex.
  destruct (existsb p _); [split; [done|by intros [? _]]|].
  rewrite existsb_map_range. naive_solver.
Qed.

Lemma shouldInjectContainer_order (R1 R2 : MapRange) g pod :
  @shouldInjectContainer Q R1 g pod = @shouldInjectContainer Q R2 g pod.
Proof. apply eq_true_iff_eq. by rewrite !shouldInjectContainer_true. Qed.

Lemma hasTelegraf_no_inject (R : MapRange) g pod c :
  c ∈ sidecarList g pod → Contains (c_Name c) "telegraf" = true →
  shouldInjectContainer g pod = false.
Proof.
  intros Hc Hn. destruct (shouldInjectContainer g pod) eqn:E; [|done].
  apply shouldInjectContainer_true in E as [Hno _]. by rewrite (Hno c Hc) in Hn.
Qed.
End decision.

Section effect.
Context {Q : Type} `{QuantityOps Q} `{NameGenerator}.
Implicit Types (s : SidecarInjector) (g : GateState) (pod : Pod Q).

(** The quantity of an annotation that is present and parses, else the setting's. *)
Definition quantityOf (annotation : option string) (setting : string) : option Q :=
  match annotation ≫= ParseQuantity with Some q => Some q | None => ParseQuantity setting end.

(** The limit of the CPU: none if it comes to zero, for which an empty text and 0
    are other writings. *)
Definition limitOf (annotation : option string) (setting : string) : option Q :=
  let fallback := if bool_decide (setting = "" ∨ setting = "0") then zeroQuantity
                  else default zeroQuantity (ParseQuantity setting) in
  let q := limitsCPU_override fallback annotation in
  if IsZero q then None else Some q.

(** The container that goes into a pod, field by field, from the settings of the
    operator and the annotations of the pod. *)
Record Overridden `{MapRange} s g (annotations : gmap string string) (c : Container Q) : Prop := {
  ov_Name : c_Name c = "telegraf";
  ov_Image : c_Image c = default (TelegrafImage s) (annotations !! SidecarCustomImageAnnotation);
  ov_Command : c_Command c =
    ["telegraf"; "--config"; "/etc/telegraf/telegraf.conf"] ++
    (if bool_decide (annotations !! TelegrafConfigDebugLogAnnotation = Some "true")
     then ["--debug"] else []) ++
    (if bool_decide (WatchConfig s = "") then [] else ["--watch-config"; WatchConfig s]);
  ov_Requests : ∀ k, Requests (c_Resources c) !! k =
    if bool_decide (k = "cpu")
    then quantityOf (annotations !! SidecarRequestsCPUAnnotation) (RequestsCPU s)
    else if bool_decide (k = "memory")
    then quantityOf (annotations !! SidecarRequestsMemoryAnnotation) (RequestsMemory s)
    else None;
  ov_Limits : ∀ k, Limits (c_Resources c) !! k =
    if bool_decide (k = "cpu")
    then limitOf (annotations !! SidecarLimitsCPUAnnotation) (LimitsCPU s)
    else if bool_decide (k = "memory")
    then quantityOf (annotations !! SidecarLimitsMemoryAnnotation) (LimitsMemory s)
    else None;
  ov_Env : c_Env c = defaultEnv ++ addedEnv annotations;
  ov_EnvFrom : c_EnvFrom c = addedEnvFrom annotations;
  ov_SecurityContext : c_SecurityContext c = buildSecurityContext s;
  ov_VolumeMounts : c_VolumeMounts c =
    addedMounts annotations ++ [{| mount_Name := "telegraf-config"; MountPath := "/etc/telegraf" |}];
  ov_RestartPolicy : c_RestartPolicy c = if native_sidecars g then Some "Always" else None
}.

(** The container that is appended. *)
Definition injectedContainer `{MapRange} g pod (config : containerConfig Q) : Container Q :=
  let c := buildContainerSpec
    (applyAnnotationOverrides (map_entries (pod_Annotations pod)) config) in
  if native_sidecars g then set_RestartPolicy c ContainerRestartPolicyAlways else c.

Lemma injectContainer_eq (R : MapRange) s g draw pod config :
  let secretName := generateSecretName s draw (podIdentifier pod) in
  let c := injectedContainer g pod config in
  injectContainer s g draw pod config =
  (mkPod (pod_Name pod) (pod_GenerateName pod) (pod_Namespace pod) (pod_UID pod)
     (Some (<[SidecarSecretNameLabel := secretName]>
        (<[SidecarInjectedLabel := "true"]> (map_entries (pod_Labels pod)))))
     (pod_Annotations pod)
     (pod_Containers pod ++ if native_sidecars g then [] else [c])
     (pod_InitContainers pod ++ if native_sidecars g then [c] else [])
     (pod_Volumes pod ++ [telegrafVolume secretName]), Ok ()).
Proof.
  unfold injectContainer, injectedContainer.
  rewrite injectLabels_ok. destruct pod, (native_sidecars g); cbn; by rewrite !app_nil_r.
Qed.

Lemma injectedContainer_name (R : MapRange) g pod config :
  c_Name (injectedContainer g pod config) = "telegraf".
Proof. unfold injectedContainer. by destruct (native_sidecars g). Qed.

Lemma injectedContainer_mount (R : MapRange) g pod config :
  {| mount_Name := "telegraf-config"; MountPath := "/etc/telegraf" |} ∈
  c_VolumeMounts (injectedContainer g pod config).
Proof.
  unfold injectedContainer. destruct (native_sidecars g); cbn; apply elem_of_app; right;
    by apply list_elem_of_singleton.
Qed.

Lemma injectedContainer_command (R : MapRange) g pod config :
  ["telegraf"; "--config"; "/etc/telegraf/telegraf.conf"] `prefix_of`
  c_Command (injectedContainer g pod config).
Proof.
  unfold injectedContainer. destruct (native_sidecars g); cbn [c_Command buildContainerSpec set_RestartPolicy];
    unfold buildCommand; by eexists.
Qed.

Lemma quantityOf_setting (annotation : option string) (setting : string) (q : Q) :
  ParseQuantity setting = Some q →
  Some (parsed_or ParseQuantity q annotation) = quantityOf annotation setting.
Proof.
  intros Hq. unfold parsed_or, quantityOf. destruct annotation as [t|]; cbn; [|done].
  destruct (ParseQuantity t); cbn; congruence.
Qed.

Lemma injectedContainer_overridden (R : MapRange) s g pod config :
  newContainerConfig s = Ok config →
  Overridden s g (map_entries (pod_Annotations pod)) (injectedContainer g pod config).
Proof.
  intros Hcfg. pose proof (newContainerConfig_spec (Q:=Q) s) as Hspec. rewrite Hcfg in Hspec.
  destruct Hspec as (Hrc & Hrm & Hlm & Hlc & Hi & Hd & Hw & He & Hef & Hvm & Hsc).
  set (annotations := map_entries (pod_Annotations pod)).
  assert (∃ c, c = buildContainerSpec (applyAnnotationOverrides annotations config) ∧
    injectedContainer g pod config = if native_sidecars g then set_RestartPolicy c "Always" else c)
    as (c & Hc & ->) by (by eexists).
  assert (limitsCPU config = if bool_decide (LimitsCPU s = "" ∨ LimitsCPU s = "0") then zeroQuantity
    else default zeroQuantity (ParseQuantity (LimitsCPU s))) as Hlimit
    by (case_bool_decide; [done|by rewrite Hlc]).
  rewrite applyAnnotationOverrides_eq in Hc. unfold buildContainerSpec, buildResources in Hc.
  cbn in Hc. rewrite Hi, Hd, Hw, He, Hef, Hvm, Hsc, Hlimit in Hc. subst c. clearbody annotations.
  split; destruct (native_sidecars g); cbn; try done;
    unfold buildCommand; cbn; try done; intros k; unfold ResourceCPU, ResourceMemory, limitOf.
  3, 4: destruct (IsZero _).
  all: rewrite !lookup_insert, lookup_empty.
  all: rewrite <- ?(quantityOf_setting _ _ _ Hrc), <- ?(quantityOf_setting _ _ _ Hrm),
    <- ?(quantityOf_setting _ _ _ Hlm).
  all: repeat case_decide; repeat case_bool_decide; (done || congruence).
Qed.

Lemma Default_pod (R : MapRange) s g draw pod :
  Default s g draw (ObjPod pod) =
  if shouldInjectContainer g pod then
    match newContainerConfig s with
    | Ok config => let '(pod', r) := injectContainer s g draw pod config in (ObjPod pod', r)
    | Err e => (ObjPod pod, Err (ErrContainerConfig e))
    | Panic w => (ObjPod pod, Panic w)
    end
  else (ObjPod pod, Ok ()).
Proof. unfold Default. by destruct (shouldInjectContainer g pod). Qed.
End effect.

(** ** Kubernetes names

    A DNS subdomain in the sense of RFC 1123: labels separated by periods, made
    of lower-case letters, digits and hyphens, starting and ending with a letter
    or a digit.  The scan is in one of three states: a label must start, the last
    byte was a letter or digit, the last byte was a hyphen. *)
Inductive scan_state := LabelStart | AfterAlnum | AfterHyphen.

#[export] Instance scan_state_eq_dec : EqDecision scan_state.
Proof. solve_decision. Defined.

Definition scan_step (st : scan_state) (c : ascii) : option scan_state :=
  if is_lower_alnum c then Some AfterAlnum
  else if bool_decide (c = "-"%char) then
    match st with LabelStart => None | _ => Some AfterHyphen end
  else if bool_decide (c = "."%char) then
    match st with AfterAlnum => Some LabelStart | _ => None end
  else None.

Fixpoint scan_name (st : scan_state) (s : string) : option scan_state :=
  match s with
  | "" => Some st
  | String c s => st ← scan_step st c; scan_name st s
  end.

Definition dns_subdomain (s : string) : Prop := scan_name LabelStart s = Some AfterAlnum.

Lemma scan_name_app st s t : scan_name st (s +:+ t) = scan_name st s ≫= λ st, scan_name st t.
Proof.
  revert st. induction s as [|c s IH]; intros st; [done|]. rewrite string_app_cons; simpl.
  destruct (scan_step st c); simpl; [apply IH|done].
Qed.

Lemma scan_name_alnum st s :
  s ≠ "" → str_forallb is_lower_alnum s = true → scan_name st s = Some AfterAlnum.
Proof.
  revert st. induction s as [|c s IH]; intros st Hs; [done|]; simpl.
  intros [Hc Ha]%andb_true_iff. unfold scan_step. rewrite Hc; simpl.
  destruct s as [|d s]; [done|]. by apply IH.
Qed.

(** A name read after a hyphen is read as at the start of a label. *)
Lemma scan_name_after_hyphen s :
  dns_subdomain s → scan_name AfterHyphen s = Some AfterAlnum.
Proof.
  unfold dns_subdomain. destruct s as [|c s]; [done|]; simpl. unfold scan_step.
  destruct (is_lower_alnum c); [done|]. repeat case_bool_decide; by subst.
Qed.

Lemma scan_hyphen st : st ≠ LabelStart → scan_name st "-" = Some AfterHyphen.
Proof. by destruct st. Qed.

Lemma str_take_scan n st s st' :
  scan_name st s = Some st' → is_Some (scan_name st (str_take n s)).
Proof.
  rewrite <- (str_take_drop n s) at 1. rewrite scan_name_app.
  destruct (scan_name st (str_take n s)); [by eexists|done].
Qed.

(** The scan is at the start of a label exactly after a period (or nothing). *)
Lemma scan_name_snoc st s c st' :
  scan_name st (s +:+ String c "") = Some st' → c ≠ "."%char → st' ≠ LabelStart.
Proof.
  rewrite scan_name_app. destruct (scan_name st s) as [st0|]; [|done]; simpl.
  unfold scan_step. intros Hs Hc.
  destruct (is_lower_alnum c); simplify_eq/=; [done|].
  repeat (case_bool_decide || case_match); by simplify_eq/=.
Qed.

Lemma string_snoc_inv s : s ≠ "" → ∃ u c, s = u +:+ String c "".
Proof.
  induction s as [|c s IH]; [done|]. intros _. destruct s as [|d s].
  - by exists "", c.
  - destruct IH as (u & e & ->); [done|]. by exists (String c u), e.
Qed.

Lemma scan_LabelStart s st :
  s ≠ "" → scan_name LabelStart s = Some st → (∃ u, s = u +:+ ".") ↔ st = LabelStart.
Proof.
  intros Hs Hst. split.
  - intros [u ->]. rewrite scan_name_app in Hst.
    destruct (scan_name LabelStart u) as [[]|]; simpl in Hst; by simplify_eq.
  - intros ->. destruct (string_snoc_inv s Hs) as (u & c & ->). exists u.
    destruct (decide (c = "."%char)) as [->|Hc]; [done|].
    by apply (scan_name_snoc _ _ _ _ Hst) in Hc.
Qed.

Lemma TrimSuffix_app t suffix : TrimSuffix (t +:+ suffix) suffix = t.
Proof.
  unfold TrimSuffix. by rewrite string_rev_app, TrimPrefix_app, string_rev_involutive.
Qed.

Lemma TrimSuffix_subdomain t : dns_subdomain t → TrimSuffix t "-" = t.
Proof.
  intros Ht. unfold TrimSuffix, TrimPrefix.
  destruct (HasPrefix (String.rev t) (String.rev "-")) eqn:E; [|apply string_rev_involutive].
  apply HasPrefix_spec in E as [u Hu].
  assert (t = String.rev u +:+ "-") as ->.
  { rewrite <- (string_rev_involutive t), Hu. by rewrite string_rev_app. }
  unfold dns_subdomain in Ht. rewrite scan_name_app in Ht.
  destruct (scan_name LabelStart (String.rev u)) as [[]|]; done.
Qed.

(** * Theorems *)

Section theorems.
Context {Q : Type} `{QuantityOps Q} `{NameGenerator}.
Implicit Types (s : SidecarInjector) (g : GateState) (pod : Pod Q).

(** A pod that no annotation concerns, or that already has a container named
    like telegraf where the webhook would put its own, is admitted as it is,
    even when the operator's settings could not configure a container. *)
Theorem Default_skips (R : MapRange) s g draw pod :
  (∃ c, c ∈ sidecarList g pod ∧ Contains (c_Name c) "telegraf" = true) ∨
  (∀ k, is_Some (map_entries (pod_Annotations pod) !! k) → HasPrefix k Prefix = false) →
  Default s g draw (ObjPod pod) = (ObjPod pod, Ok ()).
Proof.
  intros Hskip. rewrite Default_pod.
  assert (shouldInjectContainer g pod = false) as ->; [|done].
  destruct Hskip as [(c & Hc & Hn)|Hk]; [by eapply hasTelegraf_no_inject|].
  destruct (shouldInjectContainer g pod) eqn:E; [|done].
  apply shouldInjectContainer_true in E as (_ & k & v & Hv & Hp). by rewrite Hk in Hp.
Qed.

(** C9. Every other pod is injected: one container goes last in the list the
    gate selects (the init containers, with restart policy Always, or the
    containers) and the other list is unchanged; the container is, in every
    field, what the settings of the operator and the annotations of this very pod
    make it ([Overridden]: image, command, requests, limits, variables, sources,
    security context, mounts); one volume is added, which the container mounts and
    whose secret has the name that the secret-name label announces; and nothing
    else of the pod changes. *)
Theorem Default_injects (R : MapRange) s g draw pod config :
  (∀ c, c ∈ sidecarList g pod → Contains (c_Name c) "telegraf" = false) →
  (∃ k, is_Some (map_entries (pod_Annotations pod) !! k) ∧ HasPrefix k Prefix = true) →
  newContainerConfig s = Ok config →
  ∃ pod' c secretName,
    Default s g draw (ObjPod pod) = (ObjPod pod', Ok ()) ∧
    secretName = generateSecretName s draw (podIdentifier pod) ∧
    c_Name c = "telegraf" ∧
    Overridden s g (map_entries (pod_Annotations pod)) c ∧
    sidecarList g pod' = sidecarList g pod ++ [c] ∧
    (if native_sidecars g
     then pod_Containers pod' = pod_Containers pod ∧ c_RestartPolicy c = Some "Always"
     else pod_InitContainers pod' = pod_InitContainers pod ∧ c_RestartPolicy c = None) ∧
    pod_Volumes pod' = pod_Volumes pod ++
      [{| vol_Name := "telegraf-config"; vol_Source := SecretVolume secretName |}] ∧
    {| mount_Name := "telegraf-config"; MountPath := "/etc/telegraf" |} ∈ c_VolumeMounts c ∧
    label_of pod' SidecarInjectedLabel = "true" ∧
    label_of pod' SidecarSecretNameLabel = secretName ∧
    (∀ k, k ≠ SidecarInjectedLabel → k ≠ SidecarSecretNameLabel →
       map_entries (pod_Labels pod') !! k = map_entries (pod_Labels pod) !! k) ∧
    pod_Annotations pod' = pod_Annotations pod ∧
    pod_Name pod' = pod_Name pod ∧ pod_GenerateName pod' = pod_GenerateName pod ∧
    pod_Namespace pod' = pod_Namespace pod ∧ pod_UID pod' = pod_UID pod.
Proof.
  intros Hno (k & [v Hv] & Hk) Hcfg. rewrite Default_pod.
  assert (shouldInjectContainer g pod = true) as ->.
  { apply shouldInjectContainer_true. eauto. }
  rewrite Hcfg, injectContainer_eq.
  eexists _, (injectedContainer g pod config), _. split_and!; try reflexivity.
  - apply injectedContainer_name.
  - by apply injectedContainer_overridden.
  - unfold sidecarList. by destruct (native_sidecars g).
  - unfold injectedContainer. destruct (native_sidecars g); simpl; by rewrite app_nil_r.
  - apply injectedContainer_mount.
  - unfold label_of; simpl. by rewrite lookup_insert_ne, lookup_insert_eq by done.
  - unfold label_of; simpl. by rewrite lookup_insert_eq.
  - intros k' ? ?; simpl. by rewrite !lookup_insert_ne.
Qed.

(** C14. The webhook never panics, whatever object, settings and label or
    annotation maps (nil ones too) it is given; it fails exactly on an object
    that is not a pod and on a pod to inject under settings that give no
    container configuration, and then leaves the object as it was. *)
Theorem Default_errors (R : MapRange) s g draw (obj : Object Q) :
  panics (Default s g draw obj).2 = false ∧
  (is_ok (Default s g draw obj).2 = false ↔
     match obj with
     | ObjOther _ => True
     | ObjPod pod => shouldInjectContainer g pod = true ∧
         is_ok (newContainerConfig (Q:=Q) s) = false
     end) ∧
  (is_ok (Default s g draw obj).2 = false → (Default s g draw obj).1 = obj).
Proof.
  destruct obj as [pod|t]; [|done]. rewrite Default_pod.
  pose proof (newContainerConfig_no_panic (Q:=Q) s).
  destruct (shouldInjectContainer g pod); [|naive_solver].
  destruct (newContainerConfig s) as [config| |]; [|done..].
  rewrite injectContainer_eq; simpl. naive_solver.
Qed.

(** C10. Reinvocation: a second call on the result of a first one, under the same
    settings and gates, changes nothing and returns the same, whatever name
    the generator would draw and whatever the order of the maps. *)
Theorem Default_idempotent (R1 R2 : MapRange) s g draw1 draw2 (obj : Object Q) :
  let r := @Default Q _ R1 _ s g draw1 obj in
  @Default Q _ R2 _ s g draw2 r.1 = r.
Proof.
  destruct obj as [pod|t]; [|done]. cbn zeta. rewrite (Default_pod R1).
  destruct (@shouldInjectContainer Q R1 g pod) eqn:E; cbn [fst]; cycle 1.
  { by rewrite Default_pod, (shouldInjectContainer_order R2 R1), E. }
  destruct (newContainerConfig s) as [config|e|w] eqn:Hc; cbn [fst].
  - rewrite injectContainer_eq; cbn [fst]. rewrite Default_pod.
    rewrite (hasTelegraf_no_inject R2 _ _ (@injectedContainer Q _ R1 g pod config)); [done| |].
    + unfold sidecarList. destruct (native_sidecars g); simpl; set_solver.
    + by rewrite injectedContainer_name.
  - by rewrite Default_pod, (shouldInjectContainer_order R2 R1), E, Hc.
  - by rewrite Default_pod, (shouldInjectContainer_order R2 R1), E, Hc.
Qed.

(** C19. Kubernetes refuses a pod with two containers (of either kind) or two
    volumes of one name.  Among pods that it would take, the injection makes a pod
    that it refuses in exactly these cases: a container of the kind that the
    webhook does not look at is already named telegraf, or a volume is already
    named telegraf-config. *)
Theorem injected_names_unique (R : MapRange) s g draw pod pod' :
  shouldInjectContainer g pod = true →
  Default s g draw (ObjPod pod) = (ObjPod pod', Ok ()) →
  NoDup (container_names pod) → NoDup (volume_names pod) →
  (NoDup (container_names pod') ↔ "telegraf" ∉ (c_Name <$> otherList g pod)) ∧
  (NoDup (volume_names pod') ↔ "telegraf-config" ∉ volume_names pod).
Proof.
  intros Hinj Hdef Hnc Hnv. rewrite Default_pod, Hinj in Hdef.
  destruct (newContainerConfig s) as [config| |]; [|done..].
  rewrite injectContainer_eq in Hdef. injection Hdef as <-. split.
  - apply shouldInjectContainer_true in Hinj as [Hno _].
    assert ("telegraf" ∉ (c_Name <$> sidecarList g pod)) as Hside.
    { rewrite list_elem_of_fmap. intros (c & Hn & Hc). specialize (Hno c Hc). by rewrite <- Hn in Hno. }
    set (c := injectedContainer g pod config).
    assert (container_names (mkPod (pod_Name pod) (pod_GenerateName pod) (pod_Namespace pod) (pod_UID pod)
      (pod_Labels pod) (pod_Annotations pod)
      (pod_Containers pod ++ if native_sidecars g then [] else [c])
      (pod_InitContainers pod ++ if native_sidecars g then [c] else []) (pod_Volumes pod)) ≡ₚ
      "telegraf" :: container_names pod) as Hperm.
    { unfold container_names; cbn. rewrite <- (injectedContainer_name R g pod config).
      destruct (native_sidecars g); rewrite !fmap_app; cbn; rewrite ?app_nil_r; solve_Permutation. }
    unfold container_names in Hperm |- *; cbn in Hperm |- *. rewrite Hperm, NoDup_cons.
    assert ("telegraf" ∈ container_names pod ↔ "telegraf" ∈ (c_Name <$> otherList g pod)) as Hin.
    { unfold container_names. rewrite fmap_app, elem_of_app. unfold sidecarList, otherList in *.
      destruct (native_sidecars g); tauto. }
    fold (container_names pod). rewrite Hin. tauto.
  - unfold volume_names; cbn. rewrite fmap_app; cbn.
    rewrite (Permutation_app_comm _ ["telegraf-config"]); cbn. rewrite NoDup_cons.
    fold (volume_names pod). tauto.
Qed.

(** C35. The check looks at one list only, the one the gate selects: a pod
    injected while native sidecars are off and admitted again (on an update)
    after the operator was restarted with them on is injected a second time,
    and then has the container in both lists and two volumes of one name. *)
Theorem gate_flip_injects_twice (R : MapRange) s g g' draw1 draw2 pod config :
  native_sidecars g = false → native_sidecars g' = true →
  newContainerConfig s = Ok config →
  shouldInjectContainer g pod = true →
  (∀ c, c ∈ pod_InitContainers pod → Contains (c_Name c) "telegraf" = false) →
  ∃ pod1 pod2 c1 c2,
    Default s g draw1 (ObjPod pod) = (ObjPod pod1, Ok ()) ∧
    Default s g' draw2 (ObjPod pod1) = (ObjPod pod2, Ok ()) ∧
    c_Name c1 = "telegraf" ∧ c_Name c2 = "telegraf" ∧
    pod_Containers pod2 = pod_Containers pod ++ [c1] ∧
    pod_InitContainers pod2 = pod_InitContainers pod ++ [c2] ∧
    (vol_Name <$> pod_Volumes pod2) =
      (vol_Name <$> pod_Volumes pod) ++ ["telegraf-config"; "telegraf-config"].
Proof.
  intros Hg Hg' Hc E Hinit. rewrite Default_pod, E, Hc, injectContainer_eq.
  eexists _, _, (injectedContainer g pod config), _. split; [reflexivity|].
  rewrite Default_pod.
  assert (shouldInjectContainer g' (injectContainer s g draw1 pod config).1 = true) as Hs.
  { rewrite injectContainer_eq, Hg. apply shouldInjectContainer_true.
    apply shouldInjectContainer_true in E as [_ Hk]. split; [|done].
    unfold sidecarList. rewrite Hg'; simpl. intros c. rewrite app_nil_r. apply Hinit. }
  rewrite injectContainer_eq in Hs; cbn [fst] in Hs. rewrite Hs, Hc, injectContainer_eq.
  split_and!; [reflexivity|apply injectedContainer_name|apply injectedContainer_name| | |].
  - rewrite Hg, Hg'; simpl. by rewrite app_nil_r.
  - rewrite Hg, Hg'; simpl. by rewrite app_nil_r.
  - simpl. by rewrite !fmap_app, <- app_assoc.
Qed.
End theorems.

(** C20. The secret's name never exceeds 63 bytes.  For a prefix and a pod
    identifier that are Kubernetes names (the identifier possibly a generation
    prefix ending in a hyphen) it is the prefix, the identifier and a random
    suffix when these fit, and it is a valid name unless the identifier is cut
    just after a period. *)
Theorem secret_name_valid `{NameGenerator} `{!NameGeneratorLaws} s draw identifier id :
  dns_subdomain (SecretNamePrefix s) → dns_subdomain id →
  identifier = id ∨ identifier = id +:+ "-" →
  let full := SecretNamePrefix s +:+ "-" +:+ id +:+ "-" in
  let name := generateSecretName s draw identifier in
  String.length name ≤ 63 ∧
  (String.length full ≤ 57 → ∃ suffix, name = full +:+ suffix ∧ String.length suffix = 5) ∧
  (dns_subdomain name ↔
     ¬ (57 < String.length full ∧ ∃ u, str_take 57 full = u +:+ ".")).
Proof.
  intros Hp Hid Hident full name.
  assert (TrimSuffix identifier "-" = id) as Htrim.
  { destruct Hident as [->| ->]; [by apply TrimSuffix_subdomain|apply TrimSuffix_app]. }
  assert (scan_name LabelStart full = Some AfterHyphen) as Hfull.
  { unfold full. rewrite scan_name_app, Hp; cbn [mbind option_bind].
    rewrite scan_name_app; cbn [mbind option_bind scan_name scan_step].
    change (scan_step AfterAlnum "-") with (Some AfterHyphen); simpl.
    by rewrite scan_name_app, scan_name_after_hyphen. }
  assert (name = GenerateName draw
    (if 57 <? String.length full then str_take 57 full +:+ "-" else full)) as Hname.
  { unfold name, generateSecretName, secretNameBase. by rewrite Htrim. }
  clearbody full name. subst name.
  split; [apply GenerateName_length|].
  destruct (Nat.ltb_spec 57 (String.length full)) as [Hlong|Hshort].
  - split; [lia|].
    destruct (GenerateName_suffix draw (str_take 57 full +:+ "-")) as (r & -> & Hr & Ha).
    { rewrite string_length_app, str_take_length. cbn [String.length]. lia. }
    destruct (str_take_scan 57 _ _ _ Hfull) as [st Hst].
    assert ((∃ u, str_take 57 full = u +:+ ".") ↔ st = LabelStart) as Hdot.
    { apply (scan_LabelStart (str_take 57 full) st); [|done].
      intros Hnil. assert (String.length (str_take 57 full) = 0) as Hl by by rewrite Hnil.
      rewrite str_take_length in Hl. lia. }
    rewrite Hdot. unfold dns_subdomain. rewrite !scan_name_app, Hst; cbn [mbind option_bind].
    assert (r ≠ "") by by intros ->.
    destruct (decide (st = LabelStart)) as [->|Hn].
    + split; [done|]. intros []. by split.
    + rewrite scan_hyphen by done; cbn [mbind option_bind].
      rewrite scan_name_alnum by done. naive_solver.
  - destruct (GenerateName_suffix draw full) as (r & -> & Hr & Ha); [lia|].
    split; [by eauto|]. split; [lia|]. intros _. unfold dns_subdomain.
    rewrite scan_name_app, Hfull. apply scan_name_alnum; [|done]. by intros ->.
Qed.

(** ** Samples and witnesses *)

Import SampleQuantity.

(** The generator that always draws the same suffix. *)
Definition sample_generator : NameGenerator :=
  {| GenerateName _ base := str_take 58 base +:+ "x7k2q" |}.

Lemma sample_generator_laws : @NameGeneratorLaws sample_generator.
Proof.
  split.
  - intros draw base Hb. exists "x7k2q".
    change (@GenerateName sample_generator draw base) with (str_take 58 base +:+ "x7k2q").
    by rewrite str_take_all.
  - intros draw base.
    change (@GenerateName sample_generator draw base) with (str_take 58 base +:+ "x7k2q").
    rewrite string_length_app, str_take_length.
    cbn [String.length]. lia.
Qed.

Definition sample_container (name : string) : Container nat :=
  {| c_Name := name; c_Image := "app"; c_Command := [];
     c_Resources := {| Requests := ∅; Limits := ∅ |}; c_Env := []; c_EnvFrom := [];
     c_SecurityContext := None; c_VolumeMounts := []; c_RestartPolicy := None |}.

Definition sample_pod (annotations : option (gmap string string)) (name : string) : Pod nat :=
  mkPod "" "web-7d4b9-" "shop" "uid-1" None annotations [sample_container name] [] [].

Definition sample_annotations : gmap string string :=
  {[TelegrafConfigMetricsPortsAnnotation := "8080, 9090"]}.

Lemma Default_skips_witness :
  @Default nat _ range_forward sample_generator sample_injector (sample_gates false) 0
    (ObjPod (sample_pod (Some sample_annotations) "my-telegraf")) =
  (ObjPod (sample_pod (Some sample_annotations) "my-telegraf"), Ok ()).
Proof.
  apply (@Default_skips nat ops sample_generator range_forward).
  left. exists (sample_container "my-telegraf"). split; [|vm_compute; reflexivity].
  by apply list_elem_of_singleton.
Defined.

Lemma Default_injects_witness :
  ∃ (pod' : Pod nat) c,
    (@Default nat _ range_forward sample_generator sample_injector (sample_gates false) 0
      (ObjPod (sample_pod (Some sample_annotations) "app"))).1 = ObjPod pod' ∧
    label_of pod' SidecarSecretNameLabel = "telegraf-web-7d4b9-x7k2q" ∧
    pod_Containers pod' = [sample_container "app"; c] ∧
    c_Image c = "docker.io/library/telegraf:1.30-alpine".
Proof.
  destruct (@Default_injects nat ops sample_generator range_forward sample_injector
    (sample_gates false) 0 (sample_pod (Some sample_annotations) "app")
    (set_image sample_config "docker.io/library/telegraf:1.30-alpine"))
    as (pod' & c & n & Hd & Hn & _ & Hc & Hlist & _ & _ & _ & _ & Hl & _).
  - intros c Hc. apply list_elem_of_singleton in Hc as ->. vm_compute. reflexivity.
  - exists TelegrafConfigMetricsPortsAnnotation. split; [|vm_compute; reflexivity].
    exists "8080, 9090". vm_compute. reflexivity.
  - exact sample_config_ok.
  - exists pod', c. rewrite Hd, Hl, Hn. split; [reflexivity|]. split; [vm_compute; reflexivity|].
    split; [exact Hlist|]. rewrite (ov_Image _ _ _ _ Hc). vm_compute. reflexivity.
Defined.

(** A pod with a container of its own named telegraf, under native sidecars. *)
Definition twice_named : Pod nat :=
  match (@Default nat ops range_forward sample_generator sample_injector (sample_gates true) 0
    (ObjPod (sample_pod (Some sample_annotations) "telegraf"))).1 with
  | ObjPod p => p
  | ObjOther _ => sample_pod None "telegraf"
  end.

Lemma injected_names_unique_witness :
  ¬ NoDup (container_names twice_named) ∧ NoDup (volume_names twice_named).
Proof.
  destruct (@injected_names_unique nat ops sample_generator range_forward sample_injector
    (sample_gates true) 0 (sample_pod (Some sample_annotations) "telegraf") twice_named) as [Hc Hv].
  - vm_compute. reflexivity.
  - vm_compute. reflexivity.
  - apply (bool_decide_unpack _). vm_compute. exact I.
  - apply (bool_decide_unpack _). vm_compute. exact I.
  - split.
    + rewrite Hc. apply (bool_decide_unpack _). vm_compute. exact I.
    + apply Hv. apply (bool_decide_unpack _). vm_compute. exact I.
Defined.

Lemma gate_flip_injects_twice_witness :
  ∃ pod2 : Pod nat, (vol_Name <$> pod_Volumes pod2) = ["telegraf-config"; "telegraf-config"].
Proof.
  destruct (@gate_flip_injects_twice nat ops sample_generator range_forward sample_injector
    (sample_gates false) (sample_gates true) 0 1 (sample_pod (Some sample_annotations) "app")
    (set_image sample_config "docker.io/library/telegraf:1.30-alpine"))
    as (pod1 & pod2 & c1 & c2 & _ & _ & _ & _ & _ & _ & Hv).
  - vm_compute. reflexivity.
  - vm_compute. reflexivity.
  - exact sample_config_ok.
  - vm_compute. reflexivity.
  - intros c Hc. by apply not_elem_of_nil in Hc.
  - exists pod2. exact Hv.
Defined.

(** An identifier cut just after a period, where the name is not valid. *)
Definition dotted_name : string :=
  "aaaaaaaaaaaaaaaaaaaaaaaaaaaaaaaaaaaaaaaaaaaaaaa.bbb".

Lemma secret_name_valid_witness :
  dns_subdomain (@generateSecretName sample_generator sample_injector 0 "web-7d4b9-") ∧
  ¬ dns_subdomain (@generateSecretName sample_generator sample_injector 0 dotted_name).
Proof.
  destruct (@secret_name_valid sample_generator sample_generator_laws sample_injector 0
    "web-7d4b9-" "web-7d4b9") as (_ & _ & Hv); [vm_compute; reflexivity..|by right|].
  destruct (@secret_name_valid sample_generator sample_generator_laws sample_injector 0
    dotted_name dotted_name) as (_ & _ & Hi); [vm_compute; reflexivity..|by left|].
  split.
  - apply Hv. intros [Hl _]. revert Hl. vm_compute. lia.
  - rewrite Hi. intros Hn. apply Hn. split; [vm_compute; lia|].
    exists "telegraf-aaaaaaaaaaaaaaaaaaaaaaaaaaaaaaaaaaaaaaaaaaaaaaa". vm_compute. reflexivity.
Defined.
