(* ===== verification/TelegrafConfig.v ===== *)
(** [internal/controller/telegraf.go]: the values taken from the pod's
    annotations and the telegraf configuration built from them and from the
    data of the class. *)
From S2P Require Import Prelude GoStrings GoStrconv GoTime Metadata FeatureGate ClassData.

(** ** State *)

Definition defaultInterval : Z := 10 * Second.

Record annotationValues (H : Type) := mkValues {
  classDataHandler : H;
  globalTags : gmap string string;
  class : string;
  metricsPath : string;
  scheme : string;
  namepass : string;
  rawInput : string;
  rawAggregators : string;
  rawProcessors : string;
  ports : list Z;
  interval : Z;
  metricVersion : Z;
  enableInternal : bool
}.
Arguments mkValues {H} _ _ _ _ _ _ _ _ _ _ _ _ _.
Arguments classDataHandler {H} _.
Arguments globalTags {H} _.
Arguments class {H} _.
Arguments metricsPath {H} _.
Arguments scheme {H} _.
Arguments namepass {H} _.
Arguments rawInput {H} _.
Arguments rawAggregators {H} _.
Arguments rawProcessors {H} _.
Arguments ports {H} _.
Arguments interval {H} _.
Arguments metricVersion {H} _.
Arguments enableInternal {H} _.

Record prometheusInput := {
  Interval : string;
  Urls : list string;
  Namepass : list string;
  MetricVersion : Z
}.

(** A value stored in a [map[string]any]: what the TOML decoder put there (of a
    type that is the decoder's), the prometheus input, or a list of tables. *)
Inductive AnyValue (T : Type) :=
| Decoded (v : T)
| PrometheusInputs (l : list prometheusInput)
| Tables (l : list (gmap string T)).
Arguments Decoded {T} v.
Arguments PrometheusInputs {T} l.
Arguments Tables {T} l.

Abbreviation anymap T := (option (gmap string (AnyValue T))) (only parsing).

Record telegrafConfig (T : Type) := mkTelegraf {
  Agent : anymap T;
  Inputs : anymap T;
  Outputs : anymap T;
  Aggregators : anymap T;
  Processors : anymap T;
  GlobalTags : option (gmap string string)
}.
Arguments mkTelegraf {T} _ _ _ _ _ _.
Arguments Agent {T} _.
Arguments Inputs {T} _.
Arguments Outputs {T} _.
Arguments Aggregators {T} _.
Arguments Processors {T} _.
Arguments GlobalTags {T} _.

(** ** github.com/BurntSushi/toml

    [UnmarshalConfig text cfg] decodes into [cfg]; [UnmarshalTable key text]
    decodes into a fresh struct whose only field is a [map[string]any] tagged
    [key], and gives that field, which stays nil when the text has no such
    table; both give [None] for an error. *)
Class Toml (T : Type) := {
  UnmarshalConfig : string → telegrafConfig T → option (telegrafConfig T);
  UnmarshalTable : string → string → option (option (gmap string T));
  MarshalConfig : telegrafConfig T → option string
}.

(** The decoder stores into the maps it finds and allocates the nil ones; it
    never replaces a map by nil. *)
Class TomlLaws (T : Type) `{Toml T} := {
  Unmarshal_Inputs : ∀ text cfg cfg', UnmarshalConfig text cfg = Some cfg' →
    is_Some (Inputs cfg) → is_Some (Inputs cfg');
  Unmarshal_GlobalTags : ∀ text cfg cfg', UnmarshalConfig text cfg = Some cfg' →
    is_Some (GlobalTags cfg) → is_Some (GlobalTags cfg')
}.

(** ** Warnings and errors.  The wording of the messages is left out: a warning
    keeps the annotation value and the error that its text renders. *)
Inductive Warning :=
| WarnPortDeprecated
| WarnPort (value : string) (e : NumError)
| WarnPorts (value : string) (e : NumError)
| WarnMetricVersion (value : string) (e : NumError)
| WarnInterval (value : string).

Inductive BuildError :=
| ErrNoClass (class : string)
| ErrClassData
| ErrRawInput
| ErrRawAggregators
| ErrRawProcessors
| ErrMarshal.

(** The conversion [uint16(port)] of an int64. *)
Definition uint16 (z : Z) : Z := (z `mod` 2 ^ 16)%Z.
Definition uint8 (z : Z) : Z := (z `mod` 2 ^ 8)%Z.

Section values.
Context {H : Type} `{MapRange}.
Implicit Types (c : annotationValues H) (annotations : gmap string string).

Definition newAnnotationValues (h : H) (class : string) (internal : bool) : annotationValues H := {|
  classDataHandler := h; class := class; metricsPath := "/metrics"; ports := [];
  scheme := "http"; metricVersion := 1; namepass := ""; interval := defaultInterval;
  enableInternal := internal; rawInput := ""; rawAggregators := ""; rawProcessors := "";
  globalTags := ∅ |}.

(** ** Field updates *)

Definition set_globalTags c x : annotationValues H :=
  let '(mkValues h _ cl mp sc np ri ra rp po iv mv ei) := c in
  mkValues h x cl mp sc np ri ra rp po iv mv ei.
Definition set_class c x : annotationValues H :=
  let '(mkValues h gt _ mp sc np ri ra rp po iv mv ei) := c in
  mkValues h gt x mp sc np ri ra rp po iv mv ei.
Definition set_metricsPath c x : annotationValues H :=
  let '(mkValues h gt cl _ sc np ri ra rp po iv mv ei) := c in
  mkValues h gt cl x sc np ri ra rp po iv mv ei.
Definition set_scheme c x : annotationValues H :=
  let '(mkValues h gt cl mp _ np ri ra rp po iv mv ei) := c in
  mkValues h gt cl mp x np ri ra rp po iv mv ei.
Definition set_namepass c x : annotationValues H :=
  let '(mkValues h gt cl mp sc _ ri ra rp po iv mv ei) := c in
  mkValues h gt cl mp sc x ri ra rp po iv mv ei.
Definition set_rawInput c x : annotationValues H :=
  let '(mkValues h gt cl mp sc np _ ra rp po iv mv ei) := c in
  mkValues h gt cl mp sc np x ra rp po iv mv ei.
Definition set_rawAggregators c x : annotationValues H :=
  let '(mkValues h gt cl mp sc np ri _ rp po iv mv ei) := c in
  mkValues h gt cl mp sc np ri x rp po iv mv ei.
Definition set_rawProcessors c x : annotationValues H :=
  let '(mkValues h gt cl mp sc np ri ra _ po iv mv ei) := c in
  mkValues h gt cl mp sc np ri ra x po iv mv ei.
Definition append_port c x : annotationValues H :=
  let '(mkValues h gt cl mp sc np ri ra rp po iv mv ei) := c in
  mkValues h gt cl mp sc np ri ra rp (po ++ [x]) iv mv ei.
Definition set_interval c x : annotationValues H :=
  let '(mkValues h gt cl mp sc np ri ra rp po _ mv ei) := c in
  mkValues h gt cl mp sc np ri ra rp po x mv ei.
Definition set_metricVersion c x : annotationValues H :=
  let '(mkValues h gt cl mp sc np ri ra rp po iv _ ei) := c in
  mkValues h gt cl mp sc np ri ra rp po iv x ei.
Definition set_enableInternal c x : annotationValues H :=
  let '(mkValues h gt cl mp sc np ri ra rp po iv mv _) := c in
  mkValues h gt cl mp sc np ri ra rp po iv mv x.

(** ** Annotation overrides, one definition per block of
    [applyAnnotationOverrides], threading the values and the warnings. *)

(** A block that stores the text as it is. *)
Definition overrideText (key : string) (set : annotationValues H → string → annotationValues H)
    annotations c : annotationValues H :=
  match annotations !! key with Some override => set c override | None => c end.

(** [if port, err := strconv.ParseInt(text, 10, 16); err != nil { warn } else
    { append }] *)
Definition addPort (warn : NumError → Warning) (acc : annotationValues H * list Warning)
    (text : string) : annotationValues H * list Warning :=
  let '(c, warnings) := acc in
  match ParseInt text 16 with
  | Ok port => (append_port c (uint16 port), warnings)
  | Err e => (c, warnings ++ [warn e])
  | Panic _ => (c, warnings)
  end.

Definition overridePort annotations (acc : annotationValues H * list Warning)
    : annotationValues H * list Warning :=
  match annotations !! TelegrafConfigMetricsPortAnnotation with
  | Some override =>
      let '(c, warnings) := acc in
      addPort (WarnPort override) (c, warnings ++ [WarnPortDeprecated]) override
  | None => acc
  end.

Definition overridePorts annotations (acc : annotationValues H * list Warning)
    : annotationValues H * list Warning :=
  match annotations !! TelegrafConfigMetricsPortsAnnotation with
  | Some override =>
      foldl (λ acc portStr, addPort (WarnPorts override) acc (TrimSpace portStr)) acc
        (Split override ",")
  | None => acc
  end.

(** [strings.ReplaceAll(strings.Trim(override, "[]"), "'", "")] *)
Definition cleanNamepass (s : string) : string :=
  RemoveAll (Trim s ["["%char; "]"%char]) "'".

Definition overrideMetricVersion annotations (acc : annotationValues H * list Warning)
    : annotationValues H * list Warning :=
  match annotations !! TelegrafConfigMetricVersionAnnotation with
  | Some override =>
      let '(c, warnings) := acc in
      match ParseUint override 8 with
      | Ok ver => (set_metricVersion c (uint8 ver), warnings)
      | Err e => (c, warnings ++ [WarnMetricVersion override e])
      | Panic _ => (c, warnings)
      end
  | None => acc
  end.

Definition overrideInterval annotations (acc : annotationValues H * list Warning)
    : annotationValues H * list Warning :=
  match annotations !! TelegrafConfigIntervalAnnotation with
  | Some override =>
      let '(c, warnings) := acc in
      match ParseDuration override with
      | Ok interval => (set_interval c interval, warnings)
      | _ => (c, warnings ++ [WarnInterval override])
      end
  | None => acc
  end.

Definition overrideEnableInternal annotations c : annotationValues H :=
  match annotations !! TelegrafConfigEnableInternalAnnotation with
  | Some override => if negb (bool_decide (override = "")) then set_enableInternal c true else c
  | None => c
  end.

(** The values after the call, and the warnings; Go returns a non-nil error
    exactly when there is a warning. *)
Definition applyAnnotationOverrides annotations c : annotationValues H * list Warning :=
  let c := overrideText TelegrafConfigClassAnnotation set_class annotations c in
  let acc := overridePort annotations (c, []) in
  let '(c, warnings) := overridePorts annotations acc in
  let c := overrideText TelegrafConfigMetricsPathAnnotation set_metricsPath annotations c in
  let c := overrideText TelegrafConfigMetricsSchemeAnnotation set_scheme annotations c in
  let c := overrideText TelegrafConfigMetricsNamepass
    (λ c override, set_namepass c (cleanNamepass override)) annotations c in
  let acc := overrideMetricVersion annotations (c, warnings) in
  let '(c, warnings) := overrideInterval annotations acc in
  let c := overrideEnableInternal annotations c in
  let c := overrideText TelegrafConfigRawInputAnnotation set_rawInput annotations c in
  let c := overrideText TelegrafConfigRawAggregatorsAnnotation set_rawAggregators annotations c in
  let c := overrideText TelegrafConfigRawProcessorsAnnotation set_rawProcessors annotations c in
  (set_globalTags c (GetAnnotationsWithPrefix "globalTags" annotations
     TelegrafConfigGlobalTagLiteralPrefixAnnotation), warnings).
End values.

Section build.
Context {T D : Type} `{Toml T} `{Handler D} `{MapRange}.
Implicit Types (c : annotationValues D) (cfg : telegrafConfig T) (g : GateState).

Definition set_Inputs cfg x : telegrafConfig T :=
  let '(mkTelegraf a _ o ag p gt) := cfg in mkTelegraf a x o ag p gt.
Definition set_Aggregators cfg x : telegrafConfig T :=
  let '(mkTelegraf a i o _ p gt) := cfg in mkTelegraf a i o x p gt.
Definition set_Processors cfg x : telegrafConfig T :=
  let '(mkTelegraf a i o ag _ gt) := cfg in mkTelegraf a i o ag x gt.
Definition set_GlobalTags cfg x : telegrafConfig T :=
  let '(mkTelegraf a i o ag p _) := cfg in mkTelegraf a i o ag p x.

(** [fmt.Sprintf("%s://localhost:%d%s", c.scheme, port, c.metricsPath)] *)
Definition metricsUrl c (port : Z) : string :=
  scheme c +:+ "://localhost:" +:+ FormatUint port +:+ metricsPath c.

Definition prometheusInputOf c : prometheusInput := {|
  Urls := metricsUrl c <$> ports c;
  Interval := DurationString (interval c);
  MetricVersion := metricVersion c;
  Namepass := if bool_decide (namepass c = "") then []
              else TrimSpace <$> Split (namepass c) "," |}.

Definition emptyConfig : telegrafConfig T :=
  mkTelegraf None (Some ∅) None None None (Some ∅).

Definition loadClass c : result BuildError (telegrafConfig T) :=
  match GetDataForClass (classDataHandler c) (class c) with
  | Panic w => Panic w
  | Err e => match e with end
  | Ok None => Err (ErrNoClass (class c))
  | Ok (Some classData) =>
      match UnmarshalConfig classData emptyConfig with
      | Some cfg => Ok cfg
      | None => Err ErrClassData
      end
  end.

(** [cfg.Inputs[name] = v] *)
Definition putInput (name : string) (v : AnyValue T) cfg : result BuildError (telegrafConfig T) :=
  inputs ← map_assign (Inputs cfg) name v;
  Ok (set_Inputs cfg inputs).

Definition addPrometheus c cfg : result BuildError (telegrafConfig T) :=
  if bool_decide (ports c = []) then Ok cfg
  else putInput "prometheus" (PrometheusInputs [prometheusInputOf c]) cfg.

Definition addInternal c cfg : result BuildError (telegrafConfig T) :=
  if enableInternal c then putInput "internal" (Tables [∅]) cfg else Ok cfg.

(** A raw annotation, decoded: its text trimmed, its entries as [any]. *)
Definition decodeRaw (key text : string) (err : BuildError)
    : result BuildError (gmap string (AnyValue T)) :=
  match UnmarshalTable key (TrimSpace text) with
  | Some m => Ok (Decoded <$> map_entries m)
  | None => Err err
  end.

Definition addRawInput c cfg : result BuildError (telegrafConfig T) :=
  if bool_decide (rawInput c = "") then Ok cfg
  else
    raw ← decodeRaw "inputs" (rawInput c) ErrRawInput;
    inputs ← range_assign "rawInputs" raw (Inputs cfg);
    Ok (set_Inputs cfg inputs).

(** [if m == nil { m = make(map[string]any) }] *)
Definition make_if_nil (m : anymap T) : anymap T :=
  match m with None => Some ∅ | Some _ => m end.

Definition addRawAggregators g c cfg : result BuildError (telegrafConfig T) :=
  if negb (bool_decide (rawAggregators c = "")) && aggregator_annotations g then
    raw ← decodeRaw "aggregators" (rawAggregators c) ErrRawAggregators;
    aggregators ← range_assign "rawAggregators" raw (make_if_nil (Aggregators cfg));
    Ok (set_Aggregators cfg aggregators)
  else Ok cfg.

Definition addRawProcessors g c cfg : result BuildError (telegrafConfig T) :=
  if negb (bool_decide (rawProcessors c = "")) && processor_annotations g then
    raw ← decodeRaw "processors" (rawProcessors c) ErrRawProcessors;
    processors ← range_assign "rawProcessors" raw (make_if_nil (Processors cfg));
    Ok (set_Processors cfg processors)
  else Ok cfg.

Definition addGlobalTags c cfg : result BuildError (telegrafConfig T) :=
  if 0 <? size (globalTags c) then
    tags ← range_assign "globalTags" (globalTags c) (GlobalTags cfg);
    Ok (set_GlobalTags cfg tags)
  else Ok cfg.

Definition marshal cfg : result BuildError string :=
  match MarshalConfig cfg with Some text => Ok text | None => Err ErrMarshal end.

(** The configuration before it is written out. *)
Definition assembleConfig g c : result BuildError (telegrafConfig T) :=
  cfg ← loadClass c;
  cfg ← addPrometheus c cfg;
  cfg ← addInternal c cfg;
  cfg ← addRawInput c cfg;
  cfg ← addRawAggregators g c cfg;
  cfg ← addRawProcessors g c cfg;
  addGlobalTags c cfg.

Definition buildConfigData g c : result BuildError string :=
  cfg ← assembleConfig g c;
  marshal cfg.
End build.

(** * The overrides as one record *)

Definition parsedPort (text : string) : option Z :=
  match ParseInt text 16 with Ok port => Some (uint16 port) | _ => None end.

Definition portError (text : string) : option NumError :=
  match ParseInt text 16 with Err e => Some e | _ => None end.

(** The ports given by the two annotations, the deprecated one first. *)
Definition portItems (annotations : gmap string string) : list string :=
  match annotations !! TelegrafConfigMetricsPortsAnnotation with
  | Some s => TrimSpace <$> Split s ","
  | None => []
  end.

Definition portTexts (annotations : gmap string string) : list string :=
  option_list (annotations !! TelegrafConfigMetricsPortAnnotation) ++ portItems annotations.

Definition portWarnings (annotations : gmap string string) : list Warning :=
  match annotations !! TelegrafConfigMetricsPortAnnotation with
  | Some s => WarnPortDeprecated :: option_list (WarnPort s <$> portError s)
  | None => []
  end ++
  match annotations !! TelegrafConfigMetricsPortsAnnotation with
  | Some s => WarnPorts s <$> omap portError (TrimSpace <$> Split s ",")
  | None => []
  end.

Definition versionWarnings (annotations : gmap string string) : list Warning :=
  match annotations !! TelegrafConfigMetricVersionAnnotation with
  | Some s => match ParseUint s 8 with Err e => [WarnMetricVersion s e] | _ => [] end
  | None => []
  end.

Definition intervalWarnings (annotations : gmap string string) : list Warning :=
  match annotations !! TelegrafConfigIntervalAnnotation with
  | Some s => match ParseDuration s with Ok _ => [] | _ => [WarnInterval s] end
  | None => []
  end.

(** The value a setting takes when the annotation is present and parses. *)
Definition override_with {A} (parse : string → option A) (current : A) (o : option string) : A :=
  default current (o ≫= parse).

Lemma override_with_ind {A} (P : A → Prop) (parse : string → option A) (current : A) o :
  (∀ s v, parse s = Some v → P v) → P current → P (override_with parse current o).
Proof.
  intros Hp Hc. unfold override_with. destruct o as [s|]; simpl; [|done].
  destruct (parse s) eqn:E; simpl; [by eapply Hp|done].
Qed.

Definition ok_value {E A} (r : result E A) : option A :=
  match r with Ok a => Some a | _ => None end.

Section overrides.
Context {H : Type} `{MapRange}.
Implicit Types (c : annotationValues H) (annotations : gmap string string).

Definition append_ports c (l : list Z) : annotationValues H :=
  let '(mkValues h gt cl mp sc np ri ra rp po iv mv ei) := c in
  mkValues h gt cl mp sc np ri ra rp (po ++ l) iv mv ei.

Lemma append_ports_nil c : append_ports c [] = c.
Proof. destruct c; cbn. by rewrite app_nil_r. Qed.

Lemma append_ports_app c l1 l2 : append_ports (append_ports c l1) l2 = append_ports c (l1 ++ l2).
Proof. destruct c; cbn. by rewrite app_assoc. Qed.

Lemma addPort_eq warn c w text :
  addPort warn (c, w) text =
  (append_ports c (option_list (parsedPort text)), w ++ option_list (warn <$> portError text)).
Proof.
  unfold addPort, parsedPort, portError. pose proof (ParseInt_no_panic text 16) as Hp.
  destruct (ParseInt text 16); cbn; rewrite ?append_ports_nil, ?app_nil_r; [|done..].
  by destruct c.
Qed.

Lemma addPort_fold warn l c w :
  foldl (λ acc portStr, addPort warn acc (TrimSpace portStr)) (c, w) l =
  (append_ports c (omap parsedPort (TrimSpace <$> l)),
   w ++ (warn <$> omap portError (TrimSpace <$> l))).
Proof.
  revert c w. induction l as [|x l IH]; intros c w; cbn [foldl].
  { simpl. by rewrite append_ports_nil, app_nil_r. }
  rewrite addPort_eq, IH, append_ports_app, <- app_assoc. rewrite fmap_cons. simpl.
  by destruct (parsedPort (TrimSpace x)), (portError (TrimSpace x)).
Qed.

Lemma overridePorts_eq annotations c :
  overridePorts annotations (overridePort annotations (c, [])) =
  (append_ports c (omap parsedPort (portTexts annotations)), portWarnings annotations).
Proof.
  unfold overridePorts, overridePort, portTexts, portItems, portWarnings.
  destruct (annotations !! TelegrafConfigMetricsPortAnnotation) as [s|];
    destruct (annotations !! TelegrafConfigMetricsPortsAnnotation) as [t|];
    rewrite ?addPort_eq, ?addPort_fold, ?append_ports_app, ?append_ports_nil; simpl;
    rewrite ?app_nil_r; simpl; try done;
    by destruct (parsedPort s); rewrite ?app_nil_r.
Qed.

Lemma overrideText_default key set (get : annotationValues H → string) annotations c :
  set c (get c) = c →
  overrideText key set annotations c = set c (default (get c) (annotations !! key)).
Proof. intros Hid. unfold overrideText. by destruct (annotations !! key). Qed.

Lemma overrideInterval_eq annotations c w :
  overrideInterval annotations (c, w) =
  (set_interval c (override_with (ok_value ∘ ParseDuration) (interval c)
      (annotations !! TelegrafConfigIntervalAnnotation)), w ++ intervalWarnings annotations).
Proof.
  unfold overrideInterval, override_with, intervalWarnings.
  destruct (annotations !! _) as [s|]; simpl; [destruct (ParseDuration s)|]; simpl;
    rewrite ?app_nil_r; by destruct c.
Qed.

Lemma overrideMetricVersion_eq annotations c w :
  overrideMetricVersion annotations (c, w) =
  (set_metricVersion c (override_with (λ s, ok_value (ParseUint s 8)) (metricVersion c)
      (annotations !! TelegrafConfigMetricVersionAnnotation)), w ++ versionWarnings annotations).
Proof.
  unfold overrideMetricVersion, override_with, versionWarnings.
  destruct (annotations !! _) as [s|]; simpl; [|rewrite app_nil_r; by destruct c].
  pose proof (ParseUint_no_panic s 8). destruct (ParseUint s 8) as [v| |] eqn:E; simpl; [| |done].
  - apply ParseUint_bounds in E; [|lia]. unfold uint8. rewrite Z.mod_small by lia.
    by rewrite app_nil_r.
  - by destruct c.
Qed.

Lemma overrideEnableInternal_eq annotations c :
  overrideEnableInternal annotations c = set_enableInternal c (enableInternal c ||
    negb (bool_decide (default "" (annotations !! TelegrafConfigEnableInternalAnnotation) = ""))).
Proof.
  unfold overrideEnableInternal. destruct (annotations !! _) as [s|]; simpl;
    [case_bool_decide; simpl|]; destruct c; cbn; by rewrite ?orb_false_r, ?orb_true_r.
Qed.

Lemma annotationValues_eq annotations c :
  applyAnnotationOverrides annotations c =
  ({| classDataHandler := classDataHandler c;
      globalTags := GetAnnotationsWithPrefix "globalTags" annotations
        TelegrafConfigGlobalTagLiteralPrefixAnnotation;
      class := default (class c) (annotations !! TelegrafConfigClassAnnotation);
      metricsPath := default (metricsPath c) (annotations !! TelegrafConfigMetricsPathAnnotation);
      scheme := default (scheme c) (annotations !! TelegrafConfigMetricsSchemeAnnotation);
      namepass := from_option cleanNamepass (namepass c)
        (annotations !! TelegrafConfigMetricsNamepass);
      rawInput := default (rawInput c) (annotations !! TelegrafConfigRawInputAnnotation);
      rawAggregators := default (rawAggregators c)
        (annotations !! TelegrafConfigRawAggregatorsAnnotation);
      rawProcessors := default (rawProcessors c)
        (annotations !! TelegrafConfigRawProcessorsAnnotation);
      ports := ports c ++ omap parsedPort (portTexts annotations);
      interval := override_with (ok_value ∘ ParseDuration) (interval c)
        (annotations !! TelegrafConfigIntervalAnnotation);
      metricVersion := override_with (λ s, ok_value (ParseUint s 8)) (metricVersion c)
        (annotations !! TelegrafConfigMetricVersionAnnotation);
      enableInternal := enableInternal c ||
        negb (bool_decide (default "" (annotations !! TelegrafConfigEnableInternalAnnotation) = ""))
    |}, portWarnings annotations ++ versionWarnings annotations ++ intervalWarnings annotations).
Proof.
  unfold applyAnnotationOverrides.
  rewrite (overrideText_default _ set_class class) by (by destruct c).
  rewrite overridePorts_eq.
  assert (∀ c, overrideText TelegrafConfigMetricsNamepass
    (λ c override, set_namepass c (cleanNamepass override)) annotations c =
    set_namepass c (from_option cleanNamepass (namepass c)
      (annotations !! TelegrafConfigMetricsNamepass))) as Hnp.
  { intros c'. unfold overrideText. by destruct (annotations !! _), c'. }
  rewrite Hnp.
  rewrite (overrideText_default _ set_metricsPath metricsPath) by (by destruct c).
  rewrite (overrideText_default _ set_scheme scheme) by (by destruct c).
  rewrite overrideMetricVersion_eq, overrideInterval_eq, overrideEnableInternal_eq.
  rewrite (overrideText_default _ set_rawInput rawInput) by (by destruct c).
  rewrite (overrideText_default _ set_rawAggregators rawAggregators) by (by destruct c).
  rewrite (overrideText_default _ set_rawProcessors rawProcessors) by (by destruct c).
  rewrite <- app_assoc. by destruct c.
Qed.
End overrides.

(** * The assembled configuration *)

Section assemble.
Context {T D : Type} `{TomlLaws T} `{Handler D}.
Implicit Types (c : annotationValues D) (cfg : telegrafConfig T) (g : GateState).

(** A raw annotation that counts only when it is not empty and is enabled. *)
Definition rawTable (key text : string) (enabled : bool) (err : BuildError)
    : result BuildError (gmap string (AnyValue T)) :=
  if negb (bool_decide (text = "")) && enabled then decodeRaw key text err else Ok ∅.

Definition generatedInputs c : gmap string (AnyValue T) :=
  (if enableInternal c then {["internal" := Tables [∅]]} else ∅) ∪
  (if bool_decide (ports c = []) then ∅
   else {["prometheus" := PrometheusInputs [prometheusInputOf c]]}).

Definition merged (text : string) (enabled : bool) (raw : gmap string (AnyValue T))
    (m : anymap T) : anymap T :=
  if negb (bool_decide (text = "")) && enabled then Some (raw ∪ map_entries m) else m.

Lemma loadClass_maps c cfg :
  loadClass c = Ok cfg → is_Some (Inputs cfg) ∧ is_Some (GlobalTags cfg).
Proof.
  unfold loadClass. destruct (GetDataForClass _ _) as [[d|]|[]|]; [|done..].
  destruct (UnmarshalConfig d emptyConfig) as [cfg'|] eqn:E; [|done]. intros [= <-].
  split; [eapply Unmarshal_Inputs|eapply Unmarshal_GlobalTags]; eauto; by eexists.
Qed.

Lemma addGenerated_eq c a i o ag p gt :
  (cfg ← addPrometheus c (mkTelegraf a (Some i) o ag p gt); addInternal c cfg) =
  Ok (mkTelegraf a (Some (generatedInputs c ∪ i)) o ag p gt).
Proof.
  unfold addPrometheus, addInternal, putInput, generatedInputs.
  case_bool_decide; cbn [mbind result_mbind result_bind map_assign Inputs set_Inputs];
    destruct (enableInternal c); cbn [mbind result_mbind result_bind map_assign Inputs set_Inputs];
    rewrite ?map_empty_union, ?map_union_empty, <- ?map_union_assoc;
    by rewrite ?insert_union_singleton_l.
Qed.

Lemma addRawInput_eq (R : MapRange) c a i o ag p gt :
  addRawInput c (mkTelegraf a (Some i) o ag p gt) =
  (ri ← rawTable "inputs" (rawInput c) true ErrRawInput;
   Ok (mkTelegraf a (Some (ri ∪ i)) o ag p gt)).
Proof.
  unfold addRawInput, rawTable. case_bool_decide; simpl.
  - by rewrite map_empty_union.
  - destruct (decodeRaw _ _ _); simpl; [|done..]. by rewrite range_assign_Some.
Qed.

Lemma addRawAggregators_eq (R : MapRange) g c a i o ag p gt :
  addRawAggregators g c (mkTelegraf a i o ag p gt) =
  (ra ← rawTable "aggregators" (rawAggregators c) (aggregator_annotations g) ErrRawAggregators;
   Ok (mkTelegraf a i o (merged (rawAggregators c) (aggregator_annotations g) ra ag) p gt)).
Proof.
  unfold addRawAggregators, rawTable, merged. destruct (_ && _); [|done].
  destruct (decodeRaw _ _ _); cbn; [|done..]. by destruct ag; cbn; rewrite range_assign_Some.
Qed.

Lemma addRawProcessors_eq (R : MapRange) g c a i o ag p gt :
  addRawProcessors g c (mkTelegraf a i o ag p gt) =
  (rp ← rawTable "processors" (rawProcessors c) (processor_annotations g) ErrRawProcessors;
   Ok (mkTelegraf a i o ag (merged (rawProcessors c) (processor_annotations g) rp p) gt)).
Proof.
  unfold addRawProcessors, rawTable, merged. destruct (_ && _); [|done].
  destruct (decodeRaw _ _ _); cbn; [|done..]. by destruct p; cbn; rewrite range_assign_Some.
Qed.

Lemma addGlobalTags_eq (R : MapRange) c a i o ag p t :
  addGlobalTags c (mkTelegraf a i o ag p (Some t)) =
  Ok (mkTelegraf (T:=T) a i o ag p (Some (globalTags c ∪ t))).
Proof.
  unfold addGlobalTags. destruct (Nat.ltb_spec 0 (size (globalTags c))) as [_|Hs].
  - cbn [GlobalTags]. by rewrite range_assign_Some.
  - assert (size (globalTags c) = 0) as ->%map_size_empty_inv by lia.
    by rewrite map_empty_union.
Qed.

(** The whole assembly: the class data, under the generated inputs, under the
    raw annotations; nothing in it depends on an iteration order. *)
Lemma assembleConfig_eq (R : MapRange) g c :
  assembleConfig (T:=T) g c =
  (cfg ← loadClass c;
   ri ← rawTable "inputs" (rawInput c) true ErrRawInput;
   ra ← rawTable "aggregators" (rawAggregators c) (aggregator_annotations g) ErrRawAggregators;
   rp ← rawTable "processors" (rawProcessors c) (processor_annotations g) ErrRawProcessors;
   Ok (mkTelegraf (Agent cfg)
         (Some (ri ∪ (generatedInputs c ∪ map_entries (Inputs cfg))))
         (Outputs cfg)
         (merged (rawAggregators c) (aggregator_annotations g) ra (Aggregators cfg))
         (merged (rawProcessors c) (processor_annotations g) rp (Processors cfg))
         (Some (globalTags c ∪ map_entries (GlobalTags cfg))))).
Proof.
  unfold assembleConfig. destruct (loadClass c) as [cfg|e|w] eqn:Hl; [|done..].
  apply loadClass_maps in Hl as [[i Hi] [t Ht]].
  destruct cfg as [a ? o ag p ?]; cbn in Hi, Ht; subst. simpl.
  pose proof (addGenerated_eq c a i o ag p (Some t)) as Hgen.
  destruct (addPrometheus _ _) as [cfg1| |]; simpl in *; [|done..]. rewrite Hgen. simpl.
  rewrite addRawInput_eq. destruct (rawTable "inputs" _ _ _); simpl; [|done..].
  rewrite addRawAggregators_eq. destruct (rawTable "aggregators" _ _ _); simpl; [|done..].
  rewrite addRawProcessors_eq. destruct (rawTable "processors" _ _ _); simpl; [|done..].
  by rewrite addGlobalTags_eq.
Qed.
End assemble.

(** ** Lookups in the merged tables *)

Lemma lookup_union_match {V} (m1 m2 : gmap string V) k :
  (m1 ∪ m2) !! k = match m1 !! k with Some v => Some v | None => m2 !! k end.
Proof. rewrite lookup_union. by destruct (m1 !! k), (m2 !! k). Qed.

Section lookups.
Context {T D : Type} `{Toml T}.

Lemma generatedInputs_lookup {A} (c : annotationValues D) k (f : AnyValue T → A) (d : A) :
  match generatedInputs c !! k with Some v => f v | None => d end =
  if bool_decide (k = "internal") && enableInternal c then f (Tables [∅])
  else if bool_decide (k = "prometheus") && negb (bool_decide (ports c = []))
  then f (PrometheusInputs [prometheusInputOf c]) else d.
Proof.
  unfold generatedInputs. rewrite lookup_union_match.
  destruct (enableInternal c), (bool_decide (ports c = [])); simpl;
    rewrite ?lookup_empty, ?lookup_singleton; repeat case_decide; repeat case_bool_decide;
    by subst.
Qed.

Lemma merged_lookup key text enabled err (raw : gmap string (AnyValue T)) m k :
  rawTable key text enabled err = Ok raw →
  map_entries (merged text enabled raw m) !! k =
  match raw !! k with Some v => Some v | None => map_entries m !! k end.
Proof.
  unfold rawTable, merged. destruct (_ && _).
  - intros _. apply lookup_union_match.
  - intros [= <-]. by rewrite lookup_empty.
Qed.

(** The two outcomes of a raw annotation. *)
Lemma rawTable_cases key text enabled err :
  (∃ raw, rawTable (T:=T) key text enabled err = Ok raw) ∨
  (rawTable (T:=T) key text enabled err = Err err ∧ text ≠ "" ∧ enabled = true ∧
   UnmarshalTable (T:=T) key (TrimSpace text) = None).
Proof.
  unfold rawTable, decodeRaw. case_bool_decide; simpl; [by left; eexists|].
  destruct enabled; simpl; [|by left; eexists].
  destruct (UnmarshalTable key (TrimSpace text)); [left; by eexists|by right].
Qed.
End lookups.

Ltac rawTable_case key :=
  match goal with
  | |- context [rawTable key ?text ?enabled ?err] =>
      let raw := fresh "raw" in
      destruct (rawTable_cases key text enabled err) as [[raw ->]|(-> & ? & ? & ?)];
      cbn [mbind result_mbind result_bind]; [|by auto]
  end.

(** ** Lemmas on ports and warnings *)

Lemma omap_nil {A B} (f : A → option B) l : omap f l = [] ↔ Forall (λ x, f x = None) l.
Proof.
  induction l as [|x l IH]; [done|]. rewrite Forall_cons; simpl. rewrite <- IH.
  destruct (f x); naive_solver.
Qed.

Lemma portError_None s : portError s = None ↔ is_ok (ParseInt s 16) = true.
Proof.
  unfold portError. pose proof (ParseInt_no_panic s 16). by destruct (ParseInt s 16).
Qed.

Lemma warnings_nil annotations :
  portWarnings annotations ++ versionWarnings annotations ++ intervalWarnings annotations = [] ↔
  annotations !! TelegrafConfigMetricsPortAnnotation = None ∧
  Forall (λ s, is_ok (ParseInt s 16) = true) (portItems annotations) ∧
  (∀ s, annotations !! TelegrafConfigMetricVersionAnnotation = Some s →
     is_ok (ParseUint s 8) = true) ∧
  (∀ s, annotations !! TelegrafConfigIntervalAnnotation = Some s → is_ok (ParseDuration s) = true).
Proof.
  assert (portWarnings annotations = [] ↔
    annotations !! TelegrafConfigMetricsPortAnnotation = None ∧
    Forall (λ s, is_ok (ParseInt s 16) = true) (portItems annotations)) as Hp.
  { unfold portWarnings, portItems. rewrite app_nil. f_equiv; [by case_match|].
    destruct (annotations !! TelegrafConfigMetricsPortsAnnotation) as [s|]; [|done].
    rewrite <- (Forall_iff _ _ _ portError_None), <- omap_nil.
    by destruct (omap portError _). }
  assert (versionWarnings annotations = [] ↔
    ∀ s, annotations !! TelegrafConfigMetricVersionAnnotation = Some s →
      is_ok (ParseUint s 8) = true) as Hv.
  { unfold versionWarnings. destruct (annotations !! TelegrafConfigMetricVersionAnnotation) as [s|];
      [|by split].
    pose proof (ParseUint_no_panic s 8).
    split; [intros Hw ? [= <-]|intros Hok; specialize (Hok s eq_refl)];
      by destruct (ParseUint s 8). }
  assert (intervalWarnings annotations = [] ↔
    ∀ s, annotations !! TelegrafConfigIntervalAnnotation = Some s →
      is_ok (ParseDuration s) = true) as Hi.
  { unfold intervalWarnings. destruct (annotations !! TelegrafConfigIntervalAnnotation) as [s|];
      [|by split].
    split; [intros Hw ? [= <-]|intros Hok; specialize (Hok s eq_refl)];
      by destruct (ParseDuration s). }
  rewrite !app_nil, Hp, Hv, Hi. tauto.
Qed.

Lemma omap_fmap_inverse {A B} (f : B → option A) (g : A → B) l :
  Forall (λ x, f (g x) = Some x) l → omap f (g <$> l) = l.
Proof. induction 1 as [|x l Hx Hl IH]; [done|]; simpl. rewrite Hx. by f_equal. Qed.

Lemma parse_formatted (l : list Z) :
  Forall (λ p, 0 ≤ p < 2 ^ 15)%Z l →
  omap parsedPort (FormatInt <$> l) = l ∧ omap portError (FormatInt <$> l) = [].
Proof.
  intros Hl. split.
  - apply omap_fmap_inverse. eapply Forall_impl; [done|]. intros p Hp; cbn beta in *.
    unfold parsedPort. rewrite ParseInt_FormatInt by lia. unfold uint16.
    by rewrite Z.mod_small by lia.
  - apply omap_nil, Forall_fmap. eapply Forall_impl; [done|]. intros p Hp; cbn beta in Hp.
    change (portError (FormatInt p) = None). unfold portError. by rewrite ParseInt_FormatInt by lia.
Qed.

(** * Theorems *)

Section settings.
Context {H : Type}.
Implicit Types (c : annotationValues H) (annotations : gmap string string).

(** C21. Every telegraf setting but the ports (which C22 is about) is the
    annotation's when it is present and usable and the old one otherwise; of the
    namepass annotation brackets at the ends and single quotes are dropped, and
    its trimmed items are the namepass of the prometheus input; [internal] can only be switched on; the global
    tags are exactly the annotations under their prefix; the call reports
    warnings exactly when the deprecated annotation is used or a port, the
    metric version or the interval does not parse. *)
Theorem telegraf_settings_spec (R : MapRange) annotations c :
  let '(c', warnings) := applyAnnotationOverrides annotations c in
  class c' = default (class c) (annotations !! TelegrafConfigClassAnnotation) ∧
  metricsPath c' = default (metricsPath c) (annotations !! TelegrafConfigMetricsPathAnnotation) ∧
  scheme c' = default (scheme c) (annotations !! TelegrafConfigMetricsSchemeAnnotation) ∧
  namepass c' = match annotations !! TelegrafConfigMetricsNamepass with
    | Some s => RemoveAll (Trim s ["["%char; "]"%char]) "'"
    | None => namepass c
    end ∧
  Namepass (prometheusInputOf c') = (if bool_decide (namepass c' = "") then []
    else TrimSpace <$> Split (namepass c') ",") ∧
  classDataHandler c' = classDataHandler c ∧
  rawInput c' = default (rawInput c) (annotations !! TelegrafConfigRawInputAnnotation) ∧
  rawAggregators c' = default (rawAggregators c)
    (annotations !! TelegrafConfigRawAggregatorsAnnotation) ∧
  rawProcessors c' = default (rawProcessors c)
    (annotations !! TelegrafConfigRawProcessorsAnnotation) ∧
  metricVersion c' = override_with (λ s, ok_value (ParseUint s 8)) (metricVersion c)
    (annotations !! TelegrafConfigMetricVersionAnnotation) ∧
  interval c' = override_with (λ s, ok_value (ParseDuration s)) (interval c)
    (annotations !! TelegrafConfigIntervalAnnotation) ∧
  (enableInternal c' = true ↔ enableInternal c = true ∨
     ∃ s, annotations !! TelegrafConfigEnableInternalAnnotation = Some s ∧ s ≠ "") ∧
  (∀ tag, globalTags c' !! tag =
     annotations !! (TelegrafConfigGlobalTagLiteralPrefixAnnotation +:+ tag)) ∧
  (warnings = [] ↔
     annotations !! TelegrafConfigMetricsPortAnnotation = None ∧
     Forall (λ s, is_ok (ParseInt s 16) = true) (portItems annotations) ∧
     (∀ s, annotations !! TelegrafConfigMetricVersionAnnotation = Some s →
        is_ok (ParseUint s 8) = true) ∧
     (∀ s, annotations !! TelegrafConfigIntervalAnnotation = Some s →
        is_ok (ParseDuration s) = true)).
Proof.
  rewrite annotationValues_eq; cbn. split_and!; try done.
  - rewrite orb_true_iff, negb_true_iff, bool_decide_eq_false. f_equiv.
    destruct (annotations !! _) as [s|]; simpl; [naive_solver|]. split; [done|by intros (? & ? & _)].
  - intros tag. apply GetAnnotationsWithPrefix_lookup.
  - apply warnings_nil.
Qed.

(** C22. The ports are those of the deprecated annotation and then of the list,
    in order, without the items that do not parse; each is a 16-bit unsigned
    value, the metric version an 8-bit one and the interval an int64. *)
Theorem ports_spec (R : MapRange) annotations (h : H) cl internal :
  let c := (applyAnnotationOverrides annotations (newAnnotationValues h cl internal)).1 in
  ports c = omap parsedPort
    (option_list (annotations !! TelegrafConfigMetricsPortAnnotation) ++ portItems annotations) ∧
  Forall (λ p, 0 ≤ p < 2 ^ 16)%Z (ports c) ∧ (0 ≤ metricVersion c < 2 ^ 8)%Z ∧
  (- 2 ^ 63 ≤ interval c < 2 ^ 63)%Z.
Proof.
  rewrite annotationValues_eq; cbn -[Z.pow Z.opp].
  split; [done|split; [|split]].
  - apply Forall_forall. intros p Hp. apply list_elem_of_omap in Hp as (s & _ & Hs).
    unfold parsedPort in Hs. destruct (ParseInt s 16); [|done..]. injection Hs as <-.
    unfold uint16. apply Z.mod_pos_bound. lia.
  - apply override_with_ind; [|done]. intros s v Hs.
    destruct (ParseUint s 8) eqn:E; [|done..]. injection Hs as ->.
    by apply ParseUint_bounds in E.
  - apply override_with_ind; [|done]. intros s v Hs; simpl in Hs.
    destruct (ParseDuration s) eqn:E; [|done..]. injection Hs as ->.
    exact (ParseDuration_bounds s v E).
Qed.

(** C29. A list of ports from 0 to 32767, written in decimal with commas, is read
    back as that list, without a warning. *)
Theorem ports_roundtrip (R : MapRange) (l : list Z) (h : H) cl internal :
  l ≠ [] → Forall (λ p, 0 ≤ p < 2 ^ 15)%Z l →
  let '(c, warnings) := applyAnnotationOverrides
    {[TelegrafConfigMetricsPortsAnnotation := Join (FormatInt <$> l) ","]}
    (newAnnotationValues h cl internal) in
  ports c = l ∧ warnings = [].
Proof.
  intros Hne Hl. rewrite annotationValues_eq. cbn [ports newAnnotationValues].
  assert (TrimSpace <$> Split (Join (FormatInt <$> l) ",") "," = FormatInt <$> l) as Hsplit.
  { rewrite Split_Join; [|by destruct l|].
    - rewrite <- list_fmap_compose. apply list_fmap_ext. intros i p Hp; simpl.
      apply TrimSpace_trimmed, FormatInt_trimmed.
    - apply Forall_fmap. eapply Forall_impl; [done|]. intros p _. by apply FormatInt_free. }
  unfold portTexts, portItems, portWarnings, versionWarnings, intervalWarnings.
  rewrite lookup_singleton_eq, !lookup_singleton_ne, Hsplit by done. simpl.
  destruct (parse_formatted l Hl) as [-> ->]. done.
Qed.

(** C34. The full range of one port: 32767 is the last value accepted; a port
    from 32768 to 65535, valid for TCP, is refused with a range warning, and a
    negative value is accepted and wraps round to a port from 32768 up. *)
Theorem port_range (R : MapRange) (z : Z) (h : H) cl internal :
  (- 2 ^ 15 ≤ z < 2 ^ 16)%Z →
  let '(c, warnings) := applyAnnotationOverrides
    {[TelegrafConfigMetricsPortsAnnotation := FormatInt z]}
    (newAnnotationValues h cl internal) in
  if (z <? 0)%Z then ports c = [(z + 2 ^ 16)%Z] ∧ warnings = []
  else if (z <? 2 ^ 15)%Z then ports c = [z] ∧ warnings = []
  else ports c = [] ∧ warnings = [WarnPorts (FormatInt z) ErrRange].
Proof.
  intros Hz. rewrite annotationValues_eq. cbn [ports newAnnotationValues].
  assert (TrimSpace <$> Split (FormatInt z) "," = [FormatInt z]) as Hsplit.
  { rewrite Split_free_self by by apply FormatInt_free. simpl.
    by rewrite TrimSpace_trimmed by apply FormatInt_trimmed. }
  unfold portTexts, portItems, portWarnings, versionWarnings, intervalWarnings.
  rewrite lookup_singleton_eq, !lookup_singleton_ne, Hsplit by done. simpl.
  unfold parsedPort, portError, uint16.
  destruct (Z.ltb_spec z (2 ^ 15)) as [Hlt|Hge].
  - rewrite ParseInt_FormatInt by lia. destruct (Z.ltb_spec z 0); simpl; (split; [|done]); f_equal.
    + rewrite <- (Z_mod_plus_full z 1). apply Z.mod_small. lia.
    + apply Z.mod_small. lia.
  - rewrite ParseInt_FormatInt_range by lia. by rewrite (proj2 (Z.ltb_ge _ _)) by lia.
Qed.
End settings.

Section configuration.
Context {T D : Type} `{TomlLaws T} `{Handler D}.
Implicit Types (c : annotationValues D) (g : GateState).

(** C11. What goes into the configuration when every part decodes: agent and
    outputs come from the class; an input is the raw annotation's if it has it,
    else the generated one (internal, prometheus over all the ports), else the
    class's; aggregators and processors are the annotation's over the class's
    when their gate is on and the class's when it is off; a global tag of the
    pod wins over the class's. *)
Theorem buildConfigData_spec (R : MapRange) g c classData cfg ri ra rp :
  GetDataForClass (classDataHandler c) (class c) = Ok (Some classData) →
  UnmarshalConfig classData emptyConfig = Some cfg →
  rawTable (T:=T) "inputs" (rawInput c) true ErrRawInput = Ok ri →
  rawTable "aggregators" (rawAggregators c) (aggregator_annotations g) ErrRawAggregators = Ok ra →
  rawTable "processors" (rawProcessors c) (processor_annotations g) ErrRawProcessors = Ok rp →
  ∃ out, buildConfigData g c = marshal out ∧
    Agent out = Agent cfg ∧ Outputs out = Outputs cfg ∧
    (∀ k, map_entries (Inputs out) !! k =
       match ri !! k with
       | Some v => Some v
       | None =>
           if bool_decide (k = "internal") && enableInternal c then Some (Tables [∅])
           else if bool_decide (k = "prometheus") && negb (bool_decide (ports c = []))
           then Some (PrometheusInputs [prometheusInputOf c])
           else map_entries (Inputs cfg) !! k
       end) ∧
    (∀ k, map_entries (Aggregators out) !! k =
       match ra !! k with Some v => Some v | None => map_entries (Aggregators cfg) !! k end) ∧
    (∀ k, map_entries (Processors out) !! k =
       match rp !! k with Some v => Some v | None => map_entries (Processors cfg) !! k end) ∧
    (∀ k, map_entries (GlobalTags out) !! k =
       match globalTags c !! k with Some v => Some v | None => map_entries (GlobalTags cfg) !! k end).
Proof.
  intros Hc Hu Hi Ha Hp. unfold buildConfigData. rewrite assembleConfig_eq. unfold loadClass.
  rewrite Hc, Hu; cbn [mbind result_mbind result_bind]. rewrite Hi; cbn [result_bind].
  rewrite Ha; cbn [result_bind]. rewrite Hp; cbn [result_bind].
  eexists. split; [reflexivity|]. cbn [Agent Outputs Inputs Aggregators Processors GlobalTags].
  split_and!; try done.
  - intros k. cbn [map_entries default from_option id].
    rewrite lookup_union_match. destruct (ri !! k); [done|].
    rewrite lookup_union_match. by rewrite generatedInputs_lookup.
  - intros k. eapply merged_lookup, Ha.
  - intros k. eapply merged_lookup, Hp.
  - intros k. apply lookup_union_match.
Qed.

(** C15. Why a configuration is not built: the class is unknown, its data or an
    enabled raw annotation is not acceptable TOML, or the result cannot be
    written; there is no other failure, and no panic (in particular no write to
    a nil map) as long as the class handler does not panic. *)
Theorem buildConfigData_errors (R : MapRange) g c :
  panics (GetDataForClass (classDataHandler c) (class c)) = false →
  match buildConfigData (T:=T) g c with
  | Ok _ => ∃ data, GetDataForClass (classDataHandler c) (class c) = Ok (Some data)
  | Err (ErrNoClass name) => name = class c ∧
      GetDataForClass (classDataHandler c) name = Ok None
  | Err ErrClassData => ∃ data, GetDataForClass (classDataHandler c) (class c) = Ok (Some data) ∧
      UnmarshalConfig (T:=T) data emptyConfig = None
  | Err ErrRawInput => rawInput c ≠ "" ∧
      UnmarshalTable (T:=T) "inputs" (TrimSpace (rawInput c)) = None
  | Err ErrRawAggregators => rawAggregators c ≠ "" ∧ aggregator_annotations g = true ∧
      UnmarshalTable (T:=T) "aggregators" (TrimSpace (rawAggregators c)) = None
  | Err ErrRawProcessors => rawProcessors c ≠ "" ∧ processor_annotations g = true ∧
      UnmarshalTable (T:=T) "processors" (TrimSpace (rawProcessors c)) = None
  | Err ErrMarshal => ∃ out : telegrafConfig T, MarshalConfig out = None
  | Panic _ => False
  end.
Proof.
  intros Hnp. unfold buildConfigData. rewrite assembleConfig_eq. unfold loadClass.
  destruct (GetDataForClass (classDataHandler c) (class c)) as [[d|]|[]|] eqn:Hg; [| |done].
  2:{ cbn. done. }
  destruct (UnmarshalConfig d emptyConfig) as [cfg|] eqn:Hu; [|cbn; eauto].
  cbn [mbind result_mbind result_bind].
  rawTable_case "inputs". rawTable_case "aggregators". rawTable_case "processors".
  unfold marshal. match goal with |- context [MarshalConfig ?m] => destruct (MarshalConfig m) eqn:? end;
    cbn; eauto.
Qed.

(** While a gate is off, its annotation has no effect whatever it contains,
    broken TOML included. *)
Theorem gates_off_ignored (R : MapRange) g c aggregators processors :
  aggregator_annotations g = false → processor_annotations g = false →
  buildConfigData (T:=T) g (set_rawProcessors (set_rawAggregators c aggregators) processors) =
  buildConfigData (T:=T) g c.
Proof.
  intros Ha Hp. unfold buildConfigData. rewrite !assembleConfig_eq, Ha, Hp.
  unfold rawTable, merged. rewrite !andb_false_r. by destruct c.
Qed.

Lemma buildConfigData_order (R1 R2 : MapRange) g annotations (c : annotationValues D) :
  @buildConfigData T D _ _ R1 g (@applyAnnotationOverrides D R1 annotations c).1 =
  @buildConfigData T D _ _ R2 g (@applyAnnotationOverrides D R2 annotations c).1.
Proof.
  unfold buildConfigData. rewrite !assembleConfig_eq, !annotationValues_eq.
  by rewrite (GetAnnotationsWithPrefix_order R1 R2 _ "globalTags").
Qed.

(** C27. The text that is written does not depend on the iteration order of any
    map, in any of the four loops, so reconciling again gives the same secret. *)
Theorem config_order_independent (R1 R2 : MapRange) g annotations (c : annotationValues D) :
  @buildConfigData T D _ _ R1 g (@applyAnnotationOverrides D R1 annotations c).1 =
  @buildConfigData T D _ _ R2 g (@applyAnnotationOverrides D R2 annotations c).1.
Proof. apply buildConfigData_order. Qed.
End configuration.

(** An interval of whole seconds, written as Go prints it, reaches the
    prometheus input as the same text, without a warning. *)
Theorem interval_roundtrip {D} (R : MapRange) (k : Z) (h : D) cl internal :
  (0 ≤ k)%Z → (k * Second < 2 ^ 63)%Z →
  let '(c, warnings) := applyAnnotationOverrides
    {[TelegrafConfigIntervalAnnotation := DurationString (k * Second)]}
    (newAnnotationValues h cl internal) in
  Interval (prometheusInputOf c) = DurationString (k * Second) ∧ interval c = (k * Second)%Z ∧
  warnings = [].
Proof.
  intros Hk Hmax. rewrite annotationValues_eq.
  unfold portWarnings, versionWarnings, intervalWarnings, override_with.
  cbn [prometheusInputOf Interval interval newAnnotationValues].
  rewrite lookup_singleton_eq, !lookup_singleton_ne by done.
  cbn [mbind option_bind compose]. rewrite ParseDuration_whole by done. done.
Qed.

(** ** Samples and witnesses *)

(** A toy language in place of TOML: a text [k=v] is a table with one entry, the
    empty text has no table, anything else is an error. *)
Definition sample_entry (text : string) : option (option (string * string)) :=
  match SplitN2 text "=" with
  | [k; v] => Some (Some (k, v))
  | _ => if bool_decide (text = "") then Some None else None
  end.

Definition sample_toml : Toml string := {|
  UnmarshalConfig text cfg :=
    e ← sample_entry text;
    Some (match e with
      | Some (k, v) => set_Inputs cfg (Some (<[k := Decoded v]> (map_entries (Inputs cfg))))
      | None => cfg
      end);
  UnmarshalTable key text :=
    e ← sample_entry text;
    Some (match e with Some (k, v) => Some {[k := v]} | None => None end);
  MarshalConfig cfg := Some (Join (map_to_list (map_entries (Inputs cfg))).*1 ",")
|}.

Lemma sample_toml_laws : @TomlLaws string sample_toml.
Proof.
  split; intros text cfg cfg' Hu; unfold UnmarshalConfig, sample_toml in Hu;
    destruct (sample_entry text) as [[[k v]|]|]; cbn in Hu; [| |done| | |done];
    injection Hu as <-; destruct cfg; cbn; try done; intros _; by eexists.
Qed.

Definition sample_class_handler : DirectoryHandler :=
  mkHandler {["default" := "cpu=all"]} "/etc/config/classes".

Definition sample_values : annotationValues DirectoryHandler :=
  set_rawInput (append_port (newAnnotationValues sample_class_handler "default" false) 8080)
    "cpu=one".

Lemma ports_roundtrip_witness :
  ports (@applyAnnotationOverrides unit range_forward
    {[TelegrafConfigMetricsPortsAnnotation := "8080,9090"]} (newAnnotationValues () "default" false)).1
  = [8080; 9090]%Z.
Proof.
  assert (Forall (λ p, 0 ≤ p < 2 ^ 15)%Z [8080; 9090]%Z) as Hl
    by (repeat (apply Forall_cons_2; [lia|]); apply Forall_nil_2).
  pose proof (ports_roundtrip range_forward [8080; 9090]%Z () "default" false ltac:(done) Hl) as Hr.
  revert Hr. change (Join (FormatInt <$> [8080; 9090]%Z) ",") with "8080,9090".
  destruct (applyAnnotationOverrides _ _) as [c w]. intros [Hp _]. exact Hp.
Defined.

Lemma port_range_witness :
  ports (@applyAnnotationOverrides unit range_forward
    {[TelegrafConfigMetricsPortsAnnotation := "-1"]} (newAnnotationValues () "default" false)).1
  = [65535]%Z ∧
  ports (@applyAnnotationOverrides unit range_forward
    {[TelegrafConfigMetricsPortsAnnotation := "40000"]} (newAnnotationValues () "default" false)).1
  = [].
Proof.
  split.
  - pose proof (port_range range_forward (-1) () "default" false ltac:(lia)) as Hr.
    revert Hr. change (FormatInt (-1)) with "-1".
    destruct (applyAnnotationOverrides _ _) as [c w]. intros [Hp _]. exact Hp.
  - pose proof (port_range range_forward 40000 () "default" false ltac:(lia)) as Hr.
    revert Hr. change (FormatInt 40000) with "40000".
    destruct (applyAnnotationOverrides _ _) as [c w]. intros [Hp _]. exact Hp.
Defined.

Lemma buildConfigData_spec_witness :
  ∃ out : telegrafConfig string,
    @buildConfigData _ _ sample_toml _ range_forward (sample_gates false) sample_values =
      @marshal string sample_toml out ∧
    map_entries (Inputs out) !! "cpu" = Some (Decoded "one") ∧
    is_Some (map_entries (Inputs out) !! "prometheus").
Proof.
  destruct (@buildConfigData_spec string _ sample_toml sample_toml_laws directory_handler
    range_forward (sample_gates false) sample_values "cpu=all"
    (mkTelegraf None (Some {["cpu" := Decoded "all"]}) None None None (Some ∅))
    {["cpu" := Decoded "one"]} ∅ ∅)
    as (out & Hout & _ & _ & Hin & _); [vm_compute; reflexivity..|].
  exists out. split; [exact Hout|]. rewrite !Hin. split; [vm_compute; reflexivity|].
  eexists. vm_compute. reflexivity.
Defined.

Lemma buildConfigData_errors_witness :
  @buildConfigData _ _ sample_toml _ range_forward (sample_gates false)
    (set_class sample_values "missing") = Err (ErrNoClass "missing") ∧
  GetDataForClass sample_class_handler "missing" = Ok None.
Proof.
  pose proof (@buildConfigData_errors string _ sample_toml sample_toml_laws directory_handler
    range_forward (sample_gates false) (set_class sample_values "missing") eq_refl) as Hb.
  assert (@buildConfigData _ _ sample_toml _ range_forward (sample_gates false)
    (set_class sample_values "missing") = Err (ErrNoClass "missing")) as E
    by (vm_compute; reflexivity).
  rewrite E in Hb. split; [exact E|exact (proj2 Hb)].
Defined.

Lemma gates_off_ignored_witness :
  @buildConfigData _ _ sample_toml _ range_forward (sample_gates false)
    (set_rawProcessors (set_rawAggregators sample_values "not toml") "[[[") =
  @buildConfigData _ _ sample_toml _ range_forward (sample_gates false) sample_values.
Proof.
  apply (@gates_off_ignored string _ sample_toml sample_toml_laws directory_handler range_forward
    (sample_gates false)); vm_compute; reflexivity.
Defined.

Lemma interval_roundtrip_witness :
  Interval (prometheusInputOf (@applyAnnotationOverrides unit range_forward
    {[TelegrafConfigIntervalAnnotation := "1m30s"]} (newAnnotationValues () "default" false)).1)
  = "1m30s".
Proof.
  pose proof (interval_roundtrip range_forward 90 () "default" false ltac:(lia)
    ltac:(vm_compute; reflexivity)) as Hr.
  revert Hr. change (DurationString (90 * Second)) with "1m30s".
  destruct (applyAnnotationOverrides _ _) as [c w]. intros [Hp _]. exact Hp.
Defined.

Lemma config_order_independent_witness :
  @buildConfigData _ _ sample_toml _ range_forward (sample_gates false)
    (@applyAnnotationOverrides _ range_forward ∅ sample_values).1 =
  @buildConfigData _ _ sample_toml _ range_backward (sample_gates false)
    (@applyAnnotationOverrides _ range_backward ∅ sample_values).1.
Proof.
  apply (@config_order_independent string _ sample_toml sample_toml_laws directory_handler
    range_forward range_backward (sample_gates false)).
Defined.
