(* ===== verification/PodController.v ===== *)
(** [internal/controller/pod_controller.go]: the reconciler.  For an injected pod
    it creates the secret whose name the webhook left in a label. *)
From S2P Require Import Prelude GoStrconv GoTime Metadata FeatureGate ClassData K8s TelegrafConfig.

(** ** sigs.k8s.io/controller-runtime/pkg/client

    The client works on the state [W] of the world outside.  A [Get] reads a
    cache, so it may miss an object that exists; an error of the API is one of
    the two the code distinguishes or another one. *)
Inductive ApiError := NotFound | AlreadyExists | OtherApiError (what : string).

Class ApiClient (W Q : Type) := {
  GetPod : W → string → string → result ApiError (Pod Q);
  GetSecret : W → string → string → result ApiError Secret;
  CreateSecret : W → Secret → W * option ApiError
}.

(** [store'] is [store] with the secret [s] under its key, which was free. *)
Definition one_more (store store' : string → string → option Secret) (s : Secret) : Prop :=
  store (secret_Namespace s) (secret_Name s) = None ∧
  ∀ ns name, store' ns name =
    if bool_decide (ns = secret_Namespace s ∧ name = secret_Name s) then Some s
    else store ns name.

(** What the API server promises: [stored] is its store of secrets, by namespace
    and name; a client call returns (it does not panic); a creation adds the
    object under a key that is free and is refused with AlreadyExists on a key
    that is taken.  Any other error leaves open whether the object was stored:
    after a time-out, say, the request may have been carried out or not. *)
Class ApiServer (W Q : Type) `{ApiClient W Q} := {
  stored : W → string → string → option Secret;
  GetPod_returns : ∀ w ns name, panics (GetPod w ns name) = false;
  GetSecret_returns : ∀ w ns name, panics (GetSecret w ns name) = false;
  CreateSecret_spec : ∀ w s w' err, CreateSecret w s = (w', err) →
    match err with
    | None => one_more (stored w) (stored w') s
    | Some AlreadyExists => is_Some (stored w (secret_Namespace s) (secret_Name s)) ∧
        ∀ ns name, stored w' ns name = stored w ns name
    | Some _ => (∀ ns name, stored w' ns name = stored w ns name) ∨
        one_more (stored w) (stored w') s
    end
}.

(** ** controllerutil.SetOwnerReference *)
Class OwnerReferences (Q : Type) := {
  SetOwnerReference : Pod Q → Secret → result string Secret
}.

Definition owned_by (uid : string) (s : Secret) : bool :=
  existsb (λ owner, bool_decide (owner_UID owner = uid)) (secret_OwnerReferences s).

(** On success the object has a reference to the owner, which does not make the
    owner its controller, and is otherwise the same. *)
Class OwnerReferencesLaws (Q : Type) `{OwnerReferences Q} := {
  SetOwnerReference_returns : ∀ p s, panics (SetOwnerReference p s) = false;
  SetOwnerReference_spec : ∀ p s s', SetOwnerReference p s = Ok s' →
    owned_by (pod_UID p) s' = true ∧
    secret_Name s' = secret_Name s ∧ secret_Namespace s' = secret_Namespace s ∧
    secret_Labels s' = secret_Labels s ∧ secret_Type s' = secret_Type s ∧
    secret_StringData s' = secret_StringData s ∧
    ∀ o, o ∈ secret_OwnerReferences s' → o ∈ secret_OwnerReferences s ∨
      (owner_UID o = pod_UID p ∧ owner_Controller o = None)
}.

(** ** State *)

Inductive EventType := EventTypeNormal | EventTypeWarning.

(** A recorded event; its message keeps what the text renders. *)
Inductive EventMessage :=
| MsgWarnings (warnings : list Warning)
| MsgBuild (e : BuildError)
| MsgOwner (secret : string)
| MsgCreate (secret : string)
| MsgCreated (secret : string).

Record Event := { event_Type : EventType; event_Reason : string; event_Message : EventMessage }.

Record PodReconciler (D : Type) := {
  ClassDataHandler : D;
  DefaultClass : string;
  EnableInternalPlugin : bool
}.
Arguments ClassDataHandler {D} _.
Arguments DefaultClass {D} _.
Arguments EnableInternalPlugin {D} _.

(** The world and the events recorded on the pod. *)
Record State (W : Type) := mkState { world : W; events : list Event }.
Arguments mkState {W} _ _.
Arguments world {W} _.
Arguments events {W} _.

Inductive ReconcileError :=
| ErrFetchPod (e : ApiError)
| ErrLookupSecret (e : ApiError)
| ErrBuildConfig (e : BuildError)
| ErrSetOwner
| ErrCreateSecret (secret : string) (e : ApiError).

(** [ctrl.Result]: the delay after which to reconcile again, 0 for none. *)
Record Result := { RequeueAfter : Z }.

Definition done_result : Result := {| RequeueAfter := 0 |}.
Definition requeue_result : Result := {| RequeueAfter := 5 * Second |}.

Section controller.
Context {W Q T D : Type} `{ApiClient W Q} `{OwnerReferences Q} `{Toml T} `{Handler D} `{MapRange}.
Implicit Types (r : PodReconciler D) (g : GateState) (st : State W) (obj : Pod Q).

Definition record st (t : EventType) (reason : string) (msg : EventMessage) : State W :=
  mkState (world st)
    (events st ++ [{| event_Type := t; event_Reason := reason; event_Message := msg |}]).

Definition shouldAttemptReconcilation obj : bool :=
  existsb (λ '(key, _), bool_decide (key = SidecarInjectedLabel))
    (map_range "shouldAttemptReconcilation" (map_entries (pod_Labels obj))).

Definition newSecret obj (class configData : string) : Secret := {|
  secret_Name := label_of obj SidecarSecretNameLabel;
  secret_Namespace := pod_Namespace obj;
  secret_Labels :=
    {[ TelegrafSecretClassNameLabel := class; TelegrafSecretPodLabel := pod_Name obj;
       SecretManagedByLabelKey := ControllerName; SecretCreatedByLabelKey := ControllerName ]};
  secret_OwnerReferences := [];
  secret_Type := "Opaque";
  secret_StringData := {[ "telegraf.conf" := configData ]} |}.

(** [reconcile], up to the creation: the secret to create. *)
Definition prepare r g st obj : State W * result ReconcileError Secret :=
  let telegrafConfig := newAnnotationValues (ClassDataHandler r) (DefaultClass r)
    (EnableInternalPlugin r) in
  let '(telegrafConfig, warnings) :=
    applyAnnotationOverrides (map_entries (pod_Annotations obj)) telegrafConfig in
  let st := if bool_decide (warnings = []) then st
            else record st EventTypeWarning "InvalidAnnotationFormat" (MsgWarnings warnings) in
  match buildConfigData g telegrafConfig with
  | Panic w => (st, Panic w)
  | Err e => (record st EventTypeWarning "InvalidTelegrafConfiguration" (MsgBuild e),
              Err (ErrBuildConfig e))
  | Ok configData =>
      let secret := newSecret obj (class telegrafConfig) configData in
      match SetOwnerReference obj secret with
      | Panic w => (st, Panic w)
      | Err _ => (record st EventTypeWarning "SetOwnerReferenceError" (MsgOwner (secret_Name secret)),
                  Err ErrSetOwner)
      | Ok secret => (st, Ok secret)
      end
  end.

(** [reconcile], the creation. *)
Definition commit st (secret : Secret) : State W * result ReconcileError Result :=
  let '(w, err) := CreateSecret (world st) secret in
  let st := mkState w (events st) in
  match err with
  | Some AlreadyExists => (st, Ok done_result)
  | Some e =>
      (record st EventTypeWarning "CreateSecretInClusterError" (MsgCreate (secret_Name secret)),
       Err (ErrCreateSecret (secret_Name secret) e))
  | None =>
      (record st EventTypeNormal "TelegrafConfigCreateSuccessful" (MsgCreated (secret_Name secret)),
       Ok done_result)
  end.

Definition reconcile r g st obj : State W * result ReconcileError Result :=
  match prepare r g st obj with
  | (st, Ok secret) => commit st secret
  | (st, Err e) => (st, Err e)
  | (st, Panic w) => (st, Panic w)
  end.

(** [Reconcile], up to the call of [reconcile]: the pod to go on with, or the
    result of an early return. *)
Definition lookup_pod w (namespace name : string) : result ReconcileError (Pod Q + Result) :=
  match GetPod w namespace name with
  | Err NotFound => Ok (inr done_result)
  | Err e => Err (ErrFetchPod e)
  | Panic w => Panic w
  | Ok obj =>
      if negb (shouldAttemptReconcilation obj) then Ok (inr done_result)
      else match GetSecret w namespace (label_of obj SidecarSecretNameLabel) with
        | Err NotFound => Ok (inl obj)
        | Err e => Err (ErrLookupSecret e)
        | Panic w => Panic w
        | Ok secret =>
            if owned_by (pod_UID obj) secret then Ok (inr done_result)
            else Ok (inr requeue_result)
        end
  end.

Definition Reconcile r g st (namespace name : string) : State W * result ReconcileError Result :=
  match lookup_pod (world st) namespace name with
  | Ok (inl obj) => reconcile r g st obj
  | Ok (inr res) => (st, Ok res)
  | Err e => (st, Err e)
  | Panic w => (st, Panic w)
  end.
End controller.

(** ** Several workers

    The manager runs four reconciles at a time.  A worker reads the caches and
    prepares its secret in one step and creates it in a later one; between the
    two, other workers move, class data are refreshed (each step has its own
    [r]), and the world changes in any way that keeps the stored secrets. *)
Section workers.
Context {W Q T D : Type} `{ApiServer W Q} `{OwnerReferences Q} `{Toml T} `{Handler D} `{MapRange}.

Record Workers := mkWorkers { shared : State W; pending : gmap nat Secret }.

Inductive worker_step (g : GateState) : Workers → Workers → Prop :=
| step_prepare i (r : PodReconciler D) ns name st p obj st' secret :
    p !! i = None → lookup_pod (world st) ns name = Ok (inl obj) →
    prepare (T:=T) r g st obj = (st', Ok secret) →
    worker_step g (mkWorkers st p) (mkWorkers st' (<[i := secret]> p))
| step_return i (r : PodReconciler D) ns name st p res :
    p !! i = None →
    (∀ obj, lookup_pod (world st) ns name = Ok (inl obj) →
       is_ok (prepare (T:=T) r g st obj).2 = false) →
    Reconcile (T:=T) r g st ns name = res →
    worker_step g (mkWorkers st p) (mkWorkers res.1 p)
| step_create i st p secret :
    p !! i = Some secret →
    worker_step g (mkWorkers st p) (mkWorkers (commit st secret).1 (delete i p))
| step_world st p w :
    (∀ ns name, stored w ns name = stored (world st) ns name) →
    worker_step g (mkWorkers st p) (mkWorkers (mkState w (events st)) p).
End workers.

(** * Lemmas *)

(** What every secret of the operator is: it carries the operator's label, the
    name that the label of some injected pod announces in the pod's namespace,
    that pod as its only owner (though not as its controller), and one
    configuration file. *)
Definition operator_secret {Q} (s : Secret) (obj : Pod Q) (text : string) : Prop :=
  is_Some (map_entries (pod_Labels obj) !! SidecarInjectedLabel) ∧
  secret_Name s = label_of obj SidecarSecretNameLabel ∧
  secret_Namespace s = pod_Namespace obj ∧
  owned_by (pod_UID obj) s = true ∧
  secret_Labels s !! SecretManagedByLabelKey = Some ControllerName ∧
  secret_Type s = "Opaque" ∧
  secret_StringData s = {[ "telegraf.conf" := text ]} ∧
  ∀ o, o ∈ secret_OwnerReferences s → owner_UID o = pod_UID obj ∧ owner_Controller o = None.

(** [uid] owns the secret, and no other object does. *)
Definition sole_owner (uid : string) (s : Secret) : Prop := ∀ u, owned_by u s = true ↔ u = uid.

(** Kubernetes' garbage collector removes an object that has owners once none of
    them is there any more. *)
Definition collectable (live : gset string) (s : Secret) : Prop :=
  secret_OwnerReferences s ≠ [] ∧ ∀ o, o ∈ secret_OwnerReferences s → owner_UID o ∉ live.

Lemma owned_by_true uid s :
  owned_by uid s = true ↔ ∃ o, o ∈ secret_OwnerReferences s ∧ owner_UID o = uid.
Proof.
  unfold owned_by. rewrite existsb_exists. split.
  - intros (o & Ho%list_elem_of_In & Hu%bool_decide_eq_true). eauto.
  - intros (o & Ho & Hu). exists o. split; [by apply list_elem_of_In|by apply bool_decide_eq_true].
Qed.

Lemma sole_owner_collectable uid s live :
  sole_owner uid s → collectable live s ↔ uid ∉ live.
Proof.
  intros Hs. destruct (proj1 (owned_by_true uid s) (proj2 (Hs uid) eq_refl)) as (o & Ho & Hu). split.
  - intros [_ Hall]. rewrite <- Hu. by apply Hall.
  - intros Hl. split; [intros E; rewrite E in Ho; by apply elem_of_nil in Ho|].
    intros o' Ho'. assert (owner_UID o' = uid) as ->; [|done].
    apply Hs, owned_by_true. eauto.
Qed.

Lemma operator_secret_owner {Q} s (obj : Pod Q) text :
  operator_secret s obj text → sole_owner (pod_UID obj) s.
Proof.
  intros (_ & _ & _ & Ho & _ & _ & _ & Hall) u. split; [|by intros ->].
  rewrite owned_by_true. intros (o & [Hu _]%Hall & <-). done.
Qed.

Section lemmas.
Context {W Q T D : Type} `{ApiServer W Q} `{OwnerReferencesLaws Q} `{TomlLaws T} `{Handler D}.
Implicit Types (r : PodReconciler D) (g : GateState) (st : State W) (obj : Pod Q).

Lemma shouldAttempt_true (R : MapRange) obj :
  shouldAttemptReconcilation obj = true ↔
  is_Some (map_entries (pod_Labels obj) !! SidecarInjectedLabel).
Proof.
  unfold shouldAttemptReconcilation. rewrite existsb_map_range. split.
  - intros (k & v & Hk & ->%bool_decide_eq_true). by eexists.
  - intros [v Hv]. exists SidecarInjectedLabel, v. split; [done|]. by apply bool_decide_eq_true.
Qed.

(** The values the reconciler computes for a pod. *)
Definition valuesOf `{MapRange} r obj : annotationValues D * list Warning :=
  applyAnnotationOverrides (map_entries (pod_Annotations obj))
    (newAnnotationValues (ClassDataHandler r) (DefaultClass r) (EnableInternalPlugin r)).

(** The secret that the reconciler prepares for a pod: with the configuration of
    its class and its annotations, and with the pod as its owner. *)
Definition prepared `{MapRange} r g obj (secret : Secret) : Prop :=
  ∃ text, buildConfigData (T:=T) g (valuesOf r obj).1 = Ok text ∧
    SetOwnerReference obj (newSecret obj (class (valuesOf r obj).1) text) = Ok secret.

Definition warningEvents (warnings : list Warning) : list Event :=
  if bool_decide (warnings = []) then []
  else [{| event_Type := EventTypeWarning; event_Reason := "InvalidAnnotationFormat";
           event_Message := MsgWarnings warnings |}].

Lemma prepare_eq (R : MapRange) r g st obj :
  prepare (T:=T) r g st obj =
  let '(c, warnings) := valuesOf r obj in
  let st := mkState (world st) (events st ++ warningEvents warnings) in
  match buildConfigData g c with
  | Panic w => (st, Panic w)
  | Err e => (record st EventTypeWarning "InvalidTelegrafConfiguration" (MsgBuild e),
              Err (ErrBuildConfig e))
  | Ok text =>
      match SetOwnerReference obj (newSecret obj (class c) text) with
      | Panic w => (st, Panic w)
      | Err _ => (record st EventTypeWarning "SetOwnerReferenceError"
                    (MsgOwner (label_of obj SidecarSecretNameLabel)), Err ErrSetOwner)
      | Ok secret => (st, Ok secret)
      end
  end.
Proof.
  unfold prepare, valuesOf, warningEvents.
  destruct (applyAnnotationOverrides _ _) as [c warnings]. destruct st as [w evs].
  case_bool_decide; [|done]. by rewrite app_nil_r.
Qed.

Lemma prepare_prepared (R : MapRange) r g st obj secret :
  (∃ st', prepare (T:=T) r g st obj = (st', Ok secret)) ↔ prepared r g obj secret.
Proof.
  unfold prepared. split.
  - intros [st' Hp]. rewrite prepare_eq in Hp. destruct (valuesOf r obj) as [c ws]; cbn [fst].
    destruct (buildConfigData g c) as [text| |]; [|done..].
    destruct (SetOwnerReference _ _) as [s| |] eqn:Hs; [|done..]. injection Hp as _ <-. by exists text.
  - intros (text & Hb & Ho). rewrite prepare_eq. destruct (valuesOf r obj) as [c ws]; cbn [fst] in *.
    rewrite Hb, Ho. by eexists.
Qed.

(** The order in which maps are gone through makes no difference to it. *)
Lemma prepared_order (R1 R2 : MapRange) r g obj secret :
  @prepared R1 r g obj secret → @prepared R2 r g obj secret.
Proof.
  intros (text & Hb & Ho). exists text. unfold valuesOf in *.
  rewrite (buildConfigData_order R2 R1). split; [done|].
  rewrite (@annotationValues_eq _ R1) in Ho. by rewrite (@annotationValues_eq _ R2).
Qed.

Lemma prepare_world (R : MapRange) r g st obj :
  world (prepare (T:=T) r g st obj).1 = world st.
Proof.
  rewrite prepare_eq. destruct (valuesOf r obj) as [c warnings].
  destruct (buildConfigData g c); [|done..]. by destruct (SetOwnerReference _ _).
Qed.

Lemma prepare_Ok (R : MapRange) r g st obj st' secret :
  is_Some (map_entries (pod_Labels obj) !! SidecarInjectedLabel) →
  prepare (T:=T) r g st obj = (st', Ok secret) →
  ∃ text, buildConfigData (T:=T) g (valuesOf r obj).1 = Ok text ∧
    operator_secret secret obj text ∧
    secret_Labels secret !! TelegrafSecretClassNameLabel = Some (class (valuesOf r obj).1) ∧
    world st' = world st ∧ events st' = events st ++ warningEvents (valuesOf r obj).2.
Proof.
  intros Hl. rewrite prepare_eq. destruct (valuesOf r obj) as [c warnings]; cbn [fst snd].
  destruct (buildConfigData g c) as [text| |] eqn:Hb; [|done..].
  destruct (SetOwnerReference _ _) as [s| |] eqn:Hs; [|done..]. intros [= <- <-].
  apply SetOwnerReference_spec in Hs as (Ho & Hn & Hns & Hlab & Ht & Hd & Hall).
  exists text. split_and!; [done| | |done..].
  - split; [done|]. rewrite Hn, Hns, Hlab, Ht, Hd. split_and!; [done..|].
    intros o [Hnil|?]%Hall; [|done]. by apply elem_of_nil in Hnil.
  - by rewrite Hlab.
Qed.

Definition same_store (w w' : W) : Prop := ∀ ns name, stored w' ns name = stored w ns name.

(** [w'] has one secret more than [w]. *)
Definition adds_secret (w w' : W) (s : Secret) : Prop := one_more (stored w) (stored w') s.

Lemma adds_secret_keeps w w' s ns name old :
  adds_secret w w' s → stored w ns name = Some old → stored w' ns name = Some old.
Proof. intros [Hn Hs] Ho. rewrite Hs. case_bool_decide; [naive_solver|done]. Qed.

Lemma adds_secret_new w w' s ns name new :
  adds_secret w w' s → stored w ns name = None → stored w' ns name = Some new →
  new = s ∧ ns = secret_Namespace s ∧ name = secret_Name s.
Proof. intros [Hn Hs] Ho. rewrite Hs. case_bool_decide; naive_solver. Qed.

Lemma commit_spec st secret :
  let '(st', res) := commit st secret in
  match res with
  | Ok res => res = done_result ∧
      ((adds_secret (world st) (world st') secret ∧ events st' = events st ++
          [{| event_Type := EventTypeNormal; event_Reason := "TelegrafConfigCreateSuccessful";
              event_Message := MsgCreated (secret_Name secret) |}]) ∨
       (is_Some (stored (world st) (secret_Namespace secret) (secret_Name secret)) ∧
        same_store (world st) (world st') ∧ events st' = events st))
  | Err e => ∃ a, e = ErrCreateSecret (secret_Name secret) a ∧ a ≠ AlreadyExists ∧
      (same_store (world st) (world st') ∨ adds_secret (world st) (world st') secret) ∧
      events st' = events st ++
          [{| event_Type := EventTypeWarning; event_Reason := "CreateSecretInClusterError";
              event_Message := MsgCreate (secret_Name secret) |}]
  | Panic _ => False
  end.
Proof.
  unfold commit. destruct (CreateSecret (world st) secret) as [w err] eqn:Hc.
  apply CreateSecret_spec in Hc.
  destruct err as [[| |what]|]; cbn.
  - by exists NotFound.
  - destruct Hc as [? ?]. split; [done|]. by right.
  - by exists (OtherApiError what).
  - split; [done|]. by left.
Qed.

(** Whatever the outcome, a creation leaves the store alone or adds the secret. *)
Lemma commit_store st secret :
  same_store (world st) (world (commit st secret).1) ∨
  adds_secret (world st) (world (commit st secret).1) secret.
Proof.
  pose proof (commit_spec st secret) as Hc.
  destruct (commit st secret) as [st' [res|e|]]; cbn; [| |done].
  - destruct Hc as [_ [[Ha _]|(_ & Hs & _)]]; [by right|by left].
  - by destruct Hc as (a & _ & _ & Hs & _).
Qed.

Lemma lookup_pod_inl (R : MapRange) w ns name obj :
  lookup_pod w ns name = Ok (inl obj) ↔
  GetPod w ns name = Ok obj ∧ is_Some (map_entries (pod_Labels obj) !! SidecarInjectedLabel) ∧
  GetSecret w ns (label_of obj SidecarSecretNameLabel) = Err NotFound.
Proof.
  unfold lookup_pod. split.
  - destruct (GetPod w ns name) as [p|[]|]; [|done..].
    destruct (shouldAttemptReconcilation p) eqn:E; [|done]. apply shouldAttempt_true in E; simpl.
    destruct (GetSecret w ns (label_of p SidecarSecretNameLabel)) as [s|[]|] eqn:Hs;
      [by destruct (owned_by (pod_UID p) s)| |done..]. by intros [= <-].
  - intros (-> & Hl & Hs). by rewrite (proj2 (shouldAttempt_true R obj) Hl), Hs.
Qed.

(** One reconcile leaves the store alone, or adds one secret of the operator and
    then succeeds or fails with an error of the creation. *)
Lemma Reconcile_store (R : MapRange) r g st ns name :
  let '(st', res) := Reconcile (T:=T) r g st ns name in
  same_store (world st) (world st') ∨
  (∃ obj text secret, GetPod (world st) ns name = Ok obj ∧ operator_secret secret obj text ∧
     buildConfigData (T:=T) g (valuesOf r obj).1 = Ok text ∧
     adds_secret (world st) (world st') secret ∧
     (res = Ok done_result ∨
      ∃ a, a ≠ AlreadyExists ∧ res = Err (ErrCreateSecret (secret_Name secret) a))).
Proof.
  unfold Reconcile. destruct (lookup_pod (world st) ns name) as [[obj|res]|e|w] eqn:Hl;
    [|by left..].
  apply lookup_pod_inl in Hl as (Hp & Hlab & _).
  unfold reconcile. pose proof (prepare_world R r g st obj) as Hw.
  destruct (prepare r g st obj) as [st1 [secret|e|w]] eqn:Hprep; cbn in Hw;
    [|left; intros ??; by rewrite Hw..].
  apply prepare_Ok in Hprep as (text & Hb & Hs & _ & _ & _); [|done].
  pose proof (commit_spec st1 secret) as Hc. pose proof (commit_store st1 secret) as Hcs.
  rewrite Hw in Hcs. destruct (commit st1 secret) as [st' res]; cbn in Hcs.
  destruct Hcs as [Hsame|Ha]; [by left|right]. exists obj, text, secret. split_and!; [done..|].
  destruct res as [res|e|]; [left; by destruct Hc as [-> _]| |done].
  destruct Hc as (a & -> & ? & _). right. by exists a.
Qed.
End lemmas.

(** ** Failures *)

Section failures.
Context {W Q T D : Type} `{ApiServer W Q} `{OwnerReferencesLaws Q} `{TomlLaws T} `{Handler D}.
Implicit Types (r : PodReconciler D) (g : GateState) (st : State W) (obj : Pod Q).



End failures.

(** ** Success *)

Section success.
Context {W Q T D : Type} `{ApiServer W Q} `{OwnerReferencesLaws Q} `{TomlLaws T} `{Handler D}.
Implicit Types (r : PodReconciler D) (g : GateState) (st : State W) (obj : Pod Q).

Lemma Reconcile_success (R : MapRange) r g st ns name obj text secret :
  GetPod (world st) ns name = Ok obj → pod_Namespace obj = ns →
  is_Some (map_entries (pod_Labels obj) !! SidecarInjectedLabel) →
  GetSecret (world st) ns (label_of obj SidecarSecretNameLabel) = Err NotFound →
  buildConfigData (T:=T) g (valuesOf r obj).1 = Ok text →
  SetOwnerReference obj (newSecret obj (class (valuesOf r obj).1) text) = Ok secret →
  (CreateSecret (world st) secret).2 = None →
  ∃ st', Reconcile (T:=T) r g st ns name = (st', Ok done_result) ∧
    stored (world st') ns (label_of obj SidecarSecretNameLabel) = Some secret ∧
    operator_secret secret obj text ∧
    secret_Labels secret !! TelegrafSecretClassNameLabel = Some (class (valuesOf r obj).1) ∧
    events st' = events st ++ warningEvents (valuesOf r obj).2 ++
      [{| event_Type := EventTypeNormal; event_Reason := "TelegrafConfigCreateSuccessful";
          event_Message := MsgCreated (secret_Name secret) |}].
Proof.
  intros Hp Hns Hl Hg Hb Ho Hc. unfold Reconcile.
  rewrite (proj2 (lookup_pod_inl R _ _ _ obj)) by done. unfold reconcile.
  destruct (proj2 (prepare_prepared R r g st obj secret)) as (st1 & Hprep); [by exists text|].
  rewrite Hprep. apply prepare_Ok in Hprep as (text' & Hb' & Hs & Hcl & Hw & He); [|done].
  rewrite Hb in Hb'. injection Hb' as <-. unfold commit. rewrite Hw.
  destruct (CreateSecret (world st) secret) as [w err] eqn:E; cbn in Hc; subst err.
  apply CreateSecret_spec in E as [_ Hst]. eexists. split; [reflexivity|].
  pose proof Hs as (_ & Hn & Hsns & _). split_and!; [|done..|].
  - simpl. rewrite Hst, bool_decide_eq_true_2; [done|]. by rewrite Hsns, Hn.
  - simpl. by rewrite He, <- app_assoc.
Qed.
End success.

(** ** The workers' invariant *)

Section worker_invariant.
Context {W Q T D : Type} `{ApiServer W Q} `{OwnerReferencesLaws Q} `{TomlLaws T} `{Handler D}.

(** A secret of the operator, stored (or about to be) under its own key. *)
Definition keyed_secret (ns name : string) (s : Secret) : Prop :=
  ∃ (obj : Pod Q) text, operator_secret s obj text ∧
    ns = pod_Namespace obj ∧ name = label_of obj SidecarSecretNameLabel.

(** Between the start and [ws]: pending secrets are well formed, old secrets are
    kept, new ones are well formed. *)
Definition workers_inv (w0 : W) (ws : Workers) : Prop :=
  (∀ i s, pending ws !! i = Some s → keyed_secret (secret_Namespace s) (secret_Name s) s) ∧
  (∀ ns name s, stored w0 ns name = Some s → stored (world (shared ws)) ns name = Some s) ∧
  (∀ ns name s, stored w0 ns name = None → stored (world (shared ws)) ns name = Some s →
     keyed_secret ns name s).

Lemma workers_inv_same w0 st p st' :
  same_store (world st) (world st') → workers_inv w0 (mkWorkers st p) →
  workers_inv w0 (mkWorkers st' p).
Proof.
  intros Hs (Hp & Hk & Hn). split_and!; cbn in *; [done|..];
    intros ns name s; rewrite Hs; eauto.
Qed.

Lemma workers_inv_adds w0 st p st' s :
  adds_secret (world st) (world st') s → keyed_secret (secret_Namespace s) (secret_Name s) s →
  workers_inv w0 (mkWorkers st p) → workers_inv w0 (mkWorkers st' p).
Proof.
  intros Ha Hs (Hp & Hk & Hn). split_and!; cbn in *; [done|..].
  - intros ns name x Hx. by eapply adds_secret_keeps; eauto.
  - intros ns name x Hx Hx'. destruct (stored (world st) ns name) as [y|] eqn:E.
    + rewrite (adds_secret_keeps _ _ _ _ _ _ Ha E) in Hx'. simplify_eq. eauto.
    + by destruct (adds_secret_new _ _ _ _ _ _ Ha E Hx') as (-> & -> & ->).
Qed.

Lemma operator_keyed s (obj : Pod Q) text :
  operator_secret s obj text → keyed_secret (secret_Namespace s) (secret_Name s) s.
Proof. intros Ho. exists obj, text. pose proof Ho as (_ & -> & -> & _). done. Qed.

Lemma workers_inv_step (R : MapRange) g w0 ws ws' :
  worker_step (T:=T) (D:=D) g ws ws' → workers_inv w0 ws → workers_inv w0 ws'.
Proof.
  intros Hstep Hinv. destruct Hstep as [i r ns name st p obj st' s Hi Hl Hprep
    |i r ns name st p res Hi Hno Hres|i st p s Hi|st p w Hw].
  - apply lookup_pod_inl in Hl as (_ & Hlab & _).
    apply prepare_Ok in Hprep as (text & _ & Hs & _ & Hw & _); [|done].
    apply (workers_inv_same w0 st p st') in Hinv; [|intros ??; by rewrite Hw].
    destruct Hinv as (Hp & Hk & Hn). split_and!; [|done..]. cbn.
    intros j x. rewrite lookup_insert. case_decide; intros ?; simplify_eq;
      [by eapply operator_keyed|eauto].
  - subst res. pose proof (Reconcile_store R r g st ns name) as Hr.
    destruct (Reconcile r g st ns name) as [st' res]; cbn.
    destruct Hr as [Hs|(obj & text & s & _ & Ho & _ & Ha & _)].
    + by eapply workers_inv_same.
    + eapply workers_inv_adds; [done| |done]. by eapply operator_keyed.
  - pose proof Hinv as (Hp & _ & _). specialize (Hp i s Hi).
    assert (workers_inv w0 (mkWorkers (commit st s).1 p)) as (Hp' & Hk & Hn)
      by (destruct (commit_store st s); [by eapply workers_inv_same|by eapply workers_inv_adds]).
    split_and!; [|done..]. cbn. intros j x [_ Hj]%lookup_delete_Some. eauto.
  - by eapply workers_inv_same.
Qed.

Lemma workers_reach (R : MapRange) g ws ws' :
  rtc (worker_step (T:=T) (D:=D) g) ws ws' →
  (∀ i s, pending ws !! i = Some s → keyed_secret (secret_Namespace s) (secret_Name s) s) →
  workers_inv (world (shared ws)) ws'.
Proof.
  intros Hrtc Hp. assert (workers_inv (world (shared ws)) ws) as Hinv.
  { split_and!; [done|done|]. intros ns name s. congruence. }
  clear Hp. revert Hinv. generalize (world (shared ws)). intros w0.
  induction Hrtc as [|ws1 ws2 ws3 Hstep _ IH]; intros Hinv; [done|].
  by apply IH, (workers_inv_step R g w0 ws1 ws2).
Qed.
End worker_invariant.

(** * Theorems *)

Section theorems.
Context {W Q T D : Type} `{ApiServer W Q} `{OwnerReferencesLaws Q} `{TomlLaws T} `{Handler D}.
Implicit Types (r : PodReconciler D) (g : GateState) (st : State W) (obj : Pod Q).

(** C12. An injected pod whose secret is missing gets it: when its configuration
    can be built, the pod may own the secret made of it and the API accepts this
    one object, the reconcile succeeds, the secret is stored in the pod's namespace under the name of the label,
    labelled for the operator and with the class in use, owned by the pod, and
    holds exactly the configuration; annotations that do not parse only add a
    warning before the success event. *)
Theorem Reconcile_creates (R : MapRange) r g st ns name obj text secret :
  GetPod (world st) ns name = Ok obj → pod_Namespace obj = ns →
  is_Some (map_entries (pod_Labels obj) !! SidecarInjectedLabel) →
  GetSecret (world st) ns (label_of obj SidecarSecretNameLabel) = Err NotFound →
  buildConfigData (T:=T) g (valuesOf r obj).1 = Ok text →
  SetOwnerReference obj (newSecret obj (class (valuesOf r obj).1) text) = Ok secret →
  (CreateSecret (world st) secret).2 = None →
  let '(st', res) := Reconcile (T:=T) r g st ns name in
  res = Ok done_result ∧
  stored (world st') ns (label_of obj SidecarSecretNameLabel) = Some secret ∧
  operator_secret secret obj text ∧
  secret_Labels secret !! TelegrafSecretClassNameLabel = Some (class (valuesOf r obj).1) ∧
  (event_Reason <$> events st') = (event_Reason <$> events st) ++
    (if bool_decide ((valuesOf r obj).2 = []) then [] else ["InvalidAnnotationFormat"]) ++
    ["TelegrafConfigCreateSuccessful"].
Proof.
  intros Hp Hns Hl Hg Hb Ho Hc.
  destruct (Reconcile_success R r g st ns name obj text secret)
    as (st' & -> & Hst & Hs & Hcl & He); [done..|]. split_and!; [done..|].
  rewrite He, !fmap_app. unfold warningEvents. by case_bool_decide.
Qed.

(** Nothing is done, and no event is recorded, for a pod that is gone, that
    has no injected label, or whose secret exists: owned by this very pod, the
    reconcile is finished; owned by another (an earlier pod of the same name
    not yet collected), it is tried again after five seconds. *)
Theorem Reconcile_skips (R : MapRange) r g st ns name :
  GetPod (world st) ns name = Err NotFound ∨
  (∃ obj, GetPod (world st) ns name = Ok obj ∧
     (map_entries (pod_Labels obj) !! SidecarInjectedLabel = None ∨
      ∃ s, GetSecret (world st) ns (label_of obj SidecarSecretNameLabel) = Ok s)) →
  Reconcile (T:=T) r g st ns name =
    (st, Ok (match GetPod (world st) ns name with
       | Ok obj =>
           match map_entries (pod_Labels obj) !! SidecarInjectedLabel,
                 GetSecret (world st) ns (label_of obj SidecarSecretNameLabel) with
           | Some _, Ok s => if owned_by (pod_UID obj) s then done_result
                             else {| RequeueAfter := 5 * Second |}
           | _, _ => done_result
           end
       | _ => done_result
       end)).
Proof.
  unfold Reconcile, lookup_pod. intros [->|(obj & -> & Hobj)]; [done|].
  destruct (shouldAttemptReconcilation obj) eqn:E; simpl.
  - apply shouldAttempt_true in E as [v Hv]. rewrite Hv in Hobj |- *.
    destruct Hobj as [|[s ->]]; [done|]. by destruct (owned_by _ _).
  - destruct (map_entries (pod_Labels obj) !! SidecarInjectedLabel) as [v|] eqn:Hv; [|done].
    by rewrite (proj2 (shouldAttempt_true R obj) (ex_intro _ v Hv)) in E.
Qed.

(** C8. The reconciler only ever adds: a stored secret is never changed or
    removed, whatever the caches show and whether the reconcile succeeds or
    not; at most one secret appears, and it is the pod's, with the configuration
    of the pod's own annotations; and if one appears then the call succeeds, or
    returns the error of this very creation (a time-out, say, after which the
    object may be there all the same). *)
Theorem Reconcile_only_adds (R : MapRange) r g st ns name :
  let '(st', res) := Reconcile (T:=T) r g st ns name in
  (∀ n m s, stored (world st) n m = Some s → stored (world st') n m = Some s) ∧
  (∀ n m s, stored (world st) n m = None → stored (world st') n m = Some s →
     (res = Ok done_result ∨ ∃ a, a ≠ AlreadyExists ∧ res = Err (ErrCreateSecret m a)) ∧
     ∃ obj text, GetPod (world st) ns name = Ok obj ∧
       operator_secret s obj text ∧ n = pod_Namespace obj ∧
       m = label_of obj SidecarSecretNameLabel ∧
       buildConfigData (T:=T) g (valuesOf r obj).1 = Ok text).
Proof.
  pose proof (Reconcile_store R r g st ns name) as Hr.
  destruct (Reconcile r g st ns name) as [st' res].
  destruct Hr as [Hsame|(obj & text & secret & Hp & Hs & Hb & Ha & Hres)].
  - split; intros n m s; rewrite Hsame; congruence.
  - split; [intros n m s; by eapply adds_secret_keeps|].
    intros n m s Hn Hs'. destruct (adds_secret_new _ _ _ _ _ _ Ha Hn Hs') as (-> & -> & ->).
    split; [done|]. exists obj, text. pose proof Hs as (_ & -> & -> & _). done.
Qed.


(** C38. A name that is taken: when the cache does not show the secret stored
    under the pod's name (it is filtered by label, or it lags), and the API has
    no other objection to the secret prepared for the pod, the creation is
    refused, the store stays as it is and the reconcile still succeeds without
    any further event: a pod that does not own the stored secret is left without
    its configuration. *)
Theorem taken_name_succeeds (R : MapRange) r g st ns name obj text secret s :
  GetPod (world st) ns name = Ok obj → pod_Namespace obj = ns →
  is_Some (map_entries (pod_Labels obj) !! SidecarInjectedLabel) →
  GetSecret (world st) ns (label_of obj SidecarSecretNameLabel) = Err NotFound →
  buildConfigData (T:=T) g (valuesOf r obj).1 = Ok text →
  SetOwnerReference obj (newSecret obj (class (valuesOf r obj).1) text) = Ok secret →
  (CreateSecret (world st) secret).2 ∈ [None; Some AlreadyExists] →
  stored (world st) ns (label_of obj SidecarSecretNameLabel) = Some s →
  let '(st', res) := Reconcile (T:=T) r g st ns name in
  res = Ok done_result ∧ (∀ n m, stored (world st') n m = stored (world st) n m) ∧
  events st' = events st ++ warningEvents (valuesOf r obj).2.
Proof.
  intros Hp Hns Hl Hg Hb Ho Hc Hst. unfold Reconcile.
  rewrite (proj2 (lookup_pod_inl R _ _ _ obj)) by done. unfold reconcile.
  destruct (proj2 (prepare_prepared R r g st obj secret)) as (st1 & Hprep); [by exists text|].
  rewrite Hprep. apply prepare_Ok in Hprep as (text' & _ & (_ & Hn & Hsns & _) & _ & Hw & He); [|done].
  unfold commit. rewrite Hw.
  destruct (CreateSecret (world st) secret) as [w err] eqn:E. apply CreateSecret_spec in E. cbn in Hc.
  apply list_elem_of_In in Hc as [<-|[<-|[]]].
  - destruct E as [Hnone _]. rewrite Hn, Hsns, Hns in Hnone. congruence.
  - by destruct E as [_ Hsame].
Qed.
End theorems.

Section workers_theorems.
Context {W Q T D : Type} `{ApiServer W Q} `{OwnerReferencesLaws Q} `{TomlLaws T} `{Handler D}.

(** Concurrency: from any state without work in progress, however the
    workers' lookups and creations interleave and however the caches, the pods
    and the class data change meanwhile, no stored secret is ever overwritten,
    and every secret that appears is a well-formed secret of the operator,
    stored under its own name, for some injected pod. *)
Theorem workers_never_overwrite (R : MapRange) g st ws :
  rtc (worker_step (W:=W) (Q:=Q) (T:=T) (D:=D) g) (mkWorkers st ∅) ws →
  (∀ ns name s, stored (world st) ns name = Some s →
     stored (world (shared ws)) ns name = Some s) ∧
  (∀ ns name s, stored (world st) ns name = None →
     stored (world (shared ws)) ns name = Some s →
     ∃ (obj : Pod Q) text, operator_secret s obj text ∧
       ns = pod_Namespace obj ∧ name = label_of obj SidecarSecretNameLabel).
Proof.
  intros Hrtc. apply workers_reach in Hrtc as (_ & Hk & Hn); [done|].
  intros i s Hi. cbn in Hi. by rewrite lookup_empty in Hi.
Qed.
End workers_theorems.

(** ** Samples and witnesses *)

(** A cluster whose cache shows every pod and, as the manager configures it
    (main.go), only the secrets that carry the operator's managed-by label.  Its
    API server refuses labels that are not valid. *)
Record Cluster := mkCluster {
  cl_pods : gmap (string * string) (Pod nat);
  cl_secrets : gmap (string * string) Secret
}.

Definition managed (s : Secret) : bool :=
  bool_decide (secret_Labels s !! SecretManagedByLabelKey = Some ControllerName).

Definition cluster_client : ApiClient Cluster nat := {|
  GetPod w ns name := match cl_pods w !! (ns, name) with Some p => Ok p | None => Err NotFound end;
  GetSecret w ns name :=
    match cl_secrets w !! (ns, name) with
    | Some s => if managed s then Ok s else Err NotFound
    | None => Err NotFound
    end;
  CreateSecret w s :=
    if decide (labels_valid (secret_Labels s)) then
      match cl_secrets w !! (secret_Namespace s, secret_Name s) with
      | Some _ => (w, Some AlreadyExists)
      | None => (mkCluster (cl_pods w)
                   (<[(secret_Namespace s, secret_Name s) := s]> (cl_secrets w)), None)
      end
    else (w, Some (OtherApiError "invalid label"))
|}.

Definition cluster_server : @ApiServer Cluster nat cluster_client.
Proof.
  refine (@Build_ApiServer Cluster nat cluster_client (λ w ns name, cl_secrets w !! (ns, name)) _ _ _).
  - intros w ns name. unfold GetPod, cluster_client. by case_match.
  - intros w ns name. unfold GetSecret, cluster_client. by repeat case_match.
  - intros w s w' err. unfold CreateSecret, cluster_client.
    destruct (decide _); [|intros [= <- <-]; by left].
    destruct (cl_secrets w !! (secret_Namespace s, secret_Name s)) eqn:E; intros [= <- <-].
    + split; [by eexists|done].
    + split; [done|]. intros ns name; cbn. rewrite lookup_insert.
      case_decide; case_bool_decide; naive_solver.
Defined.

(** An owner of another namespace is refused. *)
Definition sample_owner : OwnerReferences nat := {|
  SetOwnerReference p s :=
    if String.eqb (pod_Namespace p) (secret_Namespace s) then
      Ok (mkSecret (secret_Name s) (secret_Namespace s) (secret_Labels s)
        (secret_OwnerReferences s ++
           [{| owner_Kind := "Pod"; owner_Name := pod_Name p; owner_UID := pod_UID p;
               owner_Controller := None |}])
        (secret_Type s) (secret_StringData s))
    else Err "cross-namespace owner references are disallowed"
|}.

Lemma sample_owner_laws : @OwnerReferencesLaws nat sample_owner.
Proof.
  split; [intros p s; cbn; by case_match|].
  intros p s s'; cbn. case_match; [|done]. intros [= <-]. split_and!; try done.
  - apply owned_by_true; cbn. eexists. split; [apply elem_of_app; right; by left|done].
  - intros o [Ho|Ho]%elem_of_app; [by left|]. apply list_elem_of_singleton in Ho as ->. by right.
Qed.

Definition injected_pod : Pod nat :=
  mkPod "web-1" "" "shop" "uid-1"
    (Some {[SidecarInjectedLabel := "true"; SidecarSecretNameLabel := "telegraf-web-1-x7k2q"]})
    (Some {[TelegrafConfigMetricsPortsAnnotation := "8080, http"]}) [] [] [].

Definition sample_reconciler : PodReconciler DirectoryHandler :=
  {| ClassDataHandler := sample_class_handler; DefaultClass := "default";
     EnableInternalPlugin := false |}.

Definition foreign_secret : Secret :=
  mkSecret "telegraf-web-1-x7k2q" "shop" ∅ [] "Opaque" ∅.

Definition sample_world (secrets : gmap (string * string) Secret) : State Cluster :=
  mkState (mkCluster {[("shop", "web-1") := injected_pod]} secrets) [].

Abbreviation sample_Reconcile := (@Reconcile Cluster nat string DirectoryHandler cluster_client
  sample_owner sample_toml directory_handler range_forward sample_reconciler (sample_gates false)).

Definition prepared_secret : Secret :=
  match @SetOwnerReference nat sample_owner injected_pod (newSecret injected_pod "default" "cpu,prometheus") with
  | Ok s => s
  | _ => foreign_secret
  end.

Lemma Reconcile_creates_witness :
  let '(st', res) := sample_Reconcile (sample_world ∅) "shop" "web-1" in
  res = Ok done_result ∧
  (event_Reason <$> events st') = ["InvalidAnnotationFormat"; "TelegrafConfigCreateSuccessful"].
Proof.
  pose proof (@Reconcile_creates Cluster nat string DirectoryHandler cluster_client cluster_server
    sample_owner sample_owner_laws sample_toml directory_handler range_forward
    sample_reconciler (sample_gates false) (sample_world ∅) "shop" "web-1" injected_pod
    "cpu,prometheus" prepared_secret) as Hr.
  assert (is_Some (map_entries (pod_Labels injected_pod) !! SidecarInjectedLabel)) as Hl
    by (exists "true"; vm_compute; reflexivity).
  specialize (Hr ltac:(vm_compute; reflexivity) eq_refl Hl ltac:(vm_compute; reflexivity)
    ltac:(vm_compute; reflexivity) ltac:(vm_compute; reflexivity) ltac:(vm_compute; reflexivity)).
  destruct (sample_Reconcile (sample_world ∅) "shop" "web-1") as [st' res].
  destruct Hr as (Hres & _ & _ & _ & Hev). split; [exact Hres|].
  rewrite Hev. vm_compute. reflexivity.
Defined.

Lemma Reconcile_skips_witness :
  sample_Reconcile (sample_world {[("shop", "telegraf-web-1-x7k2q") :=
    newSecret injected_pod "default" "old"]}) "shop" "web-1" =
  (sample_world {[("shop", "telegraf-web-1-x7k2q") := newSecret injected_pod "default" "old"]},
   Ok {| RequeueAfter := 5 * Second |}).
Proof.
  etrans.
  - apply (@Reconcile_skips Cluster nat string DirectoryHandler cluster_client
      sample_owner sample_toml directory_handler range_forward sample_reconciler).
    right. exists injected_pod. split; [vm_compute; reflexivity|]. right.
    exists (newSecret injected_pod "default" "old"). vm_compute. reflexivity.
  - vm_compute. reflexivity.
Defined.


(** A cluster whose answer to every creation comes too late: the object is
    stored, and the call fails with a time-out. *)
Definition late_client : ApiClient Cluster nat := {|
  GetPod := @GetPod Cluster nat cluster_client;
  GetSecret := @GetSecret Cluster nat cluster_client;
  CreateSecret w s :=
    match @CreateSecret Cluster nat cluster_client w s with
    | (w', None) => (w', Some (OtherApiError "timeout"))
    | answer => answer
    end
|}.

Definition late_server : @ApiServer Cluster nat late_client.
Proof.
  refine (@Build_ApiServer Cluster nat late_client (@stored Cluster nat _ cluster_server) _ _ _).
  - apply (@GetPod_returns Cluster nat _ cluster_server).
  - apply (@GetSecret_returns Cluster nat _ cluster_server).
  - intros w s w' err. unfold CreateSecret at 1, late_client.
    destruct (@CreateSecret Cluster nat cluster_client w s) as [w1 err1] eqn:E.
    apply (@CreateSecret_spec Cluster nat _ cluster_server) in E.
    destruct err1 as [e|]; intros [= <- <-]; [exact E|by right].
Defined.

(** Such a creation fails, and is repaired by the next attempt. *)
Lemma late_creation :
  let reconcile_again st := @Reconcile Cluster nat string DirectoryHandler late_client
    sample_owner sample_toml directory_handler range_forward sample_reconciler
    (sample_gates false) st "shop" "web-1" in
  let '(st1, res1) := reconcile_again (sample_world ∅) in
  res1 = Err (ErrCreateSecret "telegraf-web-1-x7k2q" (OtherApiError "timeout")) ∧
  @stored Cluster nat late_client late_server (world st1) "shop" "telegraf-web-1-x7k2q" =
    Some prepared_secret ∧
  (reconcile_again st1).2 = Ok done_result.
Proof. vm_compute. split; [|split]; reflexivity. Qed.

Lemma cluster_create_answers (w : Cluster) s :
  labels_valid (secret_Labels s) →
  (@CreateSecret Cluster nat cluster_client w s).2 ∈ [None; Some AlreadyExists].
Proof.
  intros Hv. unfold CreateSecret, cluster_client. rewrite decide_True by done.
  destruct (_ !! _); set_solver.
Qed.

Lemma prepared_secret_labels : labels_valid (secret_Labels prepared_secret).
Proof. apply (bool_decide_unpack _). vm_compute. exact I. Qed.

Lemma taken_name_succeeds_witness :
  (sample_Reconcile (sample_world {[("shop", "telegraf-web-1-x7k2q") := foreign_secret]})
     "shop" "web-1").2 = Ok done_result.
Proof.
  pose proof (@taken_name_succeeds Cluster nat string DirectoryHandler cluster_client cluster_server
    sample_owner sample_owner_laws sample_toml directory_handler range_forward
    sample_reconciler (sample_gates false)
    (sample_world {[("shop", "telegraf-web-1-x7k2q") := foreign_secret]}) "shop" "web-1"
    injected_pod "cpu,prometheus" prepared_secret foreign_secret) as Hr.
  assert (is_Some (map_entries (pod_Labels injected_pod) !! SidecarInjectedLabel)) as Hl
    by (exists "true"; vm_compute; reflexivity).
  specialize (Hr ltac:(vm_compute; reflexivity) eq_refl Hl ltac:(vm_compute; reflexivity)
    ltac:(vm_compute; reflexivity) ltac:(vm_compute; reflexivity)
    (cluster_create_answers _ _ prepared_secret_labels) ltac:(vm_compute; reflexivity)).
  destruct (sample_Reconcile _ "shop" "web-1") as [st' res].
  exact (proj1 Hr).
Defined.

(** Two workers on the same missing secret: both prepare it, both try to create
    it, and the second is refused. *)
Abbreviation sample_step := (@worker_step Cluster nat string DirectoryHandler cluster_client
  cluster_server sample_owner sample_toml directory_handler range_forward (sample_gates false)).

Definition sample_prepared : State Cluster :=
  mkState (world (sample_world ∅)) (warningEvents [WarnPorts "8080, http" ErrSyntax]).

Lemma sample_step_prepare i st p :
  p !! i = None → world st = world (sample_world ∅) →
  ∃ st', sample_step (mkWorkers st p) (mkWorkers st' (<[i := prepared_secret]> p)) ∧
    world st' = world (sample_world ∅).
Proof.
  intros Hi Hw. destruct st as [w evs]; cbn in Hw; subst w.
  exists (mkState (world (sample_world ∅)) (evs ++ warningEvents [WarnPorts "8080, http" ErrSyntax])).
  split; [|done].
  eapply step_prepare with (r := sample_reconciler) (ns := "shop") (name := "web-1")
    (obj := injected_pod); [done|vm_compute; reflexivity|].
  rewrite prepare_eq. vm_compute. reflexivity.
Qed.

Lemma sample_trace : ∃ ws, rtc sample_step (mkWorkers (sample_world ∅) ∅) ws ∧
  @stored Cluster nat cluster_client cluster_server (world (shared ws)) "shop"
    "telegraf-web-1-x7k2q" = Some prepared_secret.
Proof.
  destruct (sample_step_prepare 0 (sample_world ∅) ∅) as (st1 & H1 & Hw1); [done..|].
  destruct (sample_step_prepare 1 st1 {[0 := prepared_secret]}) as (st2 & H2 & Hw2); [done..|].
  eexists. split.
  - eapply rtc_l; [exact H1|]. eapply rtc_l; [exact H2|].
    eapply rtc_l; [eapply (step_create _ 0); vm_compute; reflexivity|].
    eapply rtc_l; [eapply (step_create _ 1); vm_compute; reflexivity|]. apply rtc_refl.
  - destruct st2 as [w2 evs2]; cbn in Hw2; subst w2. vm_compute. reflexivity.
Qed.

Lemma workers_never_overwrite_witness :
  ∃ (obj : Pod nat) text, operator_secret prepared_secret obj text.
Proof.
  destruct sample_trace as (ws & Hrtc & Hs).
  destruct (@workers_never_overwrite Cluster nat string DirectoryHandler cluster_client cluster_server
    sample_owner sample_owner_laws sample_toml directory_handler range_forward
    (sample_gates false) (sample_world ∅) ws Hrtc) as [_ Hn].
  destruct (Hn "shop" "telegraf-web-1-x7k2q" prepared_secret) as (obj & text & Ho & _ & _).
  - vm_compute. reflexivity.
  - exact Hs.
  - exists obj, text. exact Ho.
Defined.

Lemma Reconcile_only_adds_witness :
  let '(st', _) := sample_Reconcile (sample_world {[("shop", "other") := foreign_secret]})
    "shop" "web-1" in
  @stored Cluster nat cluster_client cluster_server (world st') "shop" "other" = Some foreign_secret.
Proof.
  pose proof (@Reconcile_only_adds Cluster nat string DirectoryHandler cluster_client cluster_server
    sample_owner sample_owner_laws sample_toml directory_handler range_forward
    sample_reconciler (sample_gates false)
    (sample_world {[("shop", "other") := foreign_secret]}) "shop" "web-1") as Hr.
  destruct (sample_Reconcile _ "shop" "web-1") as [st' res].
  apply (proj1 Hr). vm_compute. reflexivity.
Defined.
