(* ===== verification/Retry.v ===== *)
(** The work queue around the reconciler: what becomes of a pod over several
    calls of [Reconcile].

    controller-runtime calls [Reconcile] again after an error (and, by default,
    after a recovered panic) and after a positive [RequeueAfter]; any other
    result ends the work on the key.  Between two attempts anything can happen to
    the world, and each attempt sees the class data and the gates of its time. *)
From S2P Require Import Prelude Metadata FeatureGate ClassData K8s TelegrafConfig PodController.

(** What the queue does with the outcome of a call. *)
Definition finished (res : result ReconcileError Result) : bool :=
  match res with
  | Ok res => (RequeueAfter res =? 0)%Z
  | Err _ | Panic _ => false
  end.

Section retry.
Context {W Q T D : Type} `{ApiClient W Q} `{OwnerReferences Q} `{Toml T} `{Handler D} `{MapRange}.

(** The world before attempt [n], from the world after the one before it, and
    the reconciler and the gates of attempt [n]. *)
Record Environment := {
  before : nat → W → W;
  reconciler : nat → PodReconciler D;
  gates_at : nat → GateState
}.

Definition attempt (env : Environment) (n : nat) (ns name : string) (st : State W)
    : State W * result ReconcileError Result :=
  Reconcile (T:=T) (reconciler env n) (gates_at env n)
    (mkState (before env n (world st)) (events st)) ns name.

(** The states between the attempts, were they never to end, and the world that
    attempt [n] works on. *)
Fixpoint state_at (env : Environment) (ns name : string) (st : State W) (n : nat) : State W :=
  match n with
  | O => st
  | S n => (attempt env n ns name (state_at env ns name st n)).1
  end.

Definition world_at (env : Environment) (ns name : string) (st : State W) (n : nat) : W :=
  before env n (world (state_at env ns name st n)).

(** Up to [fuel] attempts from attempt [n] on: the state, and the attempt that
    finished. *)
Fixpoint retry (fuel : nat) (env : Environment) (n : nat) (ns name : string) (st : State W)
    : State W * option nat :=
  match fuel with
  | O => (st, None)
  | S fuel =>
      let '(st, res) := attempt env n ns name st in
      if finished res then (st, Some n) else retry fuel env (S n) ns name st
  end.
End retry.
Arguments Environment : clear implicits.

(** * Lemmas *)

Section lemmas.
Context {W Q T D : Type} `{ApiServer W Q} `{OwnerReferencesLaws Q} `{TomlLaws T} `{Handler D}.
Implicit Types (env : Environment W D) (st : State W) (obj : Pod Q).

(** A finished call on a visible injected pod: its secret was found in the
    cache, or it was created, or its name is taken. *)
Lemma finished_Reconcile (R : MapRange) r g st ns name obj :
  GetPod (world st) ns name = Ok obj → pod_Namespace obj = ns →
  is_Some (map_entries (pod_Labels obj) !! SidecarInjectedLabel) →
  finished (Reconcile (T:=T) r g st ns name).2 = true →
  (∃ s, GetSecret (world st) ns (label_of obj SidecarSecretNameLabel) = Ok s ∧
     owned_by (pod_UID obj) s = true ∧ (Reconcile (T:=T) r g st ns name).1 = st) ∨
  (GetSecret (world st) ns (label_of obj SidecarSecretNameLabel) = Err NotFound ∧
   ((∃ s, stored (world (Reconcile (T:=T) r g st ns name).1) ns
       (label_of obj SidecarSecretNameLabel) = Some s ∧ owned_by (pod_UID obj) s = true) ∨
    (is_Some (stored (world st) ns (label_of obj SidecarSecretNameLabel)) ∧
     same_store (world st) (world (Reconcile (T:=T) r g st ns name).1)))).
Proof.
  intros Hp Hns Hl Hfin. unfold Reconcile in *.
  destruct (lookup_pod (world st) ns name) as [[obj'|res]|e|] eqn:Hlook; [| |done..].
  - pose proof (proj1 (lookup_pod_inl R _ _ _ _) Hlook) as (Hp' & _ & Hs).
    rewrite Hp in Hp'. injection Hp' as <-. right. split; [done|].
    unfold reconcile in *. pose proof (prepare_world R r g st obj) as Hw.
    destruct (prepare r g st obj) as [st1 [secret|e|]] eqn:Hprep; [|done..]. cbn in Hw.
    apply prepare_Ok in Hprep as (text & _ & Hos & _); [|done].
    pose proof Hos as (_ & Hn & Hsns & Hown & _).
    pose proof (commit_spec st1 secret) as Hc. rewrite Hw, Hn, Hsns, Hns in Hc.
    destruct (commit st1 secret) as [st' [res|e|]]; [|done..]. cbn [fst].
    destruct Hc as [-> [[[_ Ha] _]|(Hst & Hsame & _)]]; [left|by right].
    exists secret. split; [|done]. rewrite Ha, bool_decide_eq_true_2; [done|]. by rewrite Hn, Hsns.
  - left. unfold lookup_pod in Hlook. rewrite Hp in Hlook.
    rewrite (proj2 (shouldAttempt_true R obj) Hl) in Hlook; simpl in Hlook.
    destruct (GetSecret _ _ _) as [s|[]|]; [|done..].
    destruct (owned_by (pod_UID obj) s) eqn:Ho; simplify_eq. eauto.
Qed.

(** Nothing hinders a call on the pod in the world [w]: the cache shows the pod,
    and the pod's own secret; or it shows no secret, the class and the annotations
    give one that the pod may own, and the API accepts this secret or has its name
    already. *)
Definition healthy (R : MapRange) (r : PodReconciler D) (g : GateState) (w : W)
    (ns name : string) (obj : Pod Q) : Prop :=
  GetPod w ns name = Ok obj ∧
  ((GetSecret w ns (label_of obj SidecarSecretNameLabel) = Err NotFound ∧
    ∃ secret, prepared (T:=T) r g obj secret ∧
      (CreateSecret w secret).2 ∈ [None; Some AlreadyExists]) ∨
   ∃ s, GetSecret w ns (label_of obj SidecarSecretNameLabel) = Ok s ∧
     owned_by (pod_UID obj) s = true).

(** Then it finishes. *)
Lemma healthy_finishes (R : MapRange) r g st ns name obj :
  is_Some (map_entries (pod_Labels obj) !! SidecarInjectedLabel) →
  healthy R r g (world st) ns name obj →
  finished (Reconcile (T:=T) r g st ns name).2 = true.
Proof.
  intros Hl [Hp Hs]. unfold Reconcile. destruct Hs as [(Hs & secret & Hprep & Hc)|(s & Hs & Hown)].
  - rewrite (proj2 (lookup_pod_inl R _ _ _ obj)) by done. unfold reconcile.
    pose proof (prepare_world R r g st obj) as Hw.
    destruct (proj2 (prepare_prepared R r g st obj secret) Hprep) as (st1 & Heq).
    rewrite Heq in Hw |- *. cbn in Hw. unfold commit. rewrite Hw.
    destruct (CreateSecret (world st) secret) as [w err]. cbn in Hc.
    apply list_elem_of_In in Hc as [<-|[<-|[]]]; done.
  - unfold lookup_pod. rewrite Hp, (proj2 (shouldAttempt_true R obj) Hl); simpl.
    by rewrite Hs, Hown.
Qed.
End lemmas.

(** * Theorems *)

Section theorems.
Context {W Q T D : Type} `{ApiServer W Q} `{OwnerReferencesLaws Q} `{TomlLaws T} `{Handler D}.

(** The pod, as every attempt finds it, and the fate of its secret's name: the
    caches show stored secrets only, and what is stored under the name is the
    pod's or visible to the operator.  (A secret without the operator's label is
    neither; then the name is taken.) *)
Record Attended (R : MapRange) (env : Environment W D) (ns name : string) (obj : Pod Q)
    (st : State W) : Prop := {
  attended_pod : ∀ n, GetPod (world_at (T:=T) env ns name st n) ns name = Ok obj ∨
    ∃ what, GetPod (world_at (T:=T) env ns name st n) ns name = Err (OtherApiError what);
  attended_namespace : pod_Namespace obj = ns;
  attended_label : is_Some (map_entries (pod_Labels obj) !! SidecarInjectedLabel);
  attended_cache : ∀ n s,
    GetSecret (world_at (T:=T) env ns name st n) ns (label_of obj SidecarSecretNameLabel) = Ok s →
    stored (world_at (T:=T) env ns name st n) ns (label_of obj SidecarSecretNameLabel) = Some s;
  attended_name : ∀ n s,
    stored (world_at (T:=T) env ns name st n) ns (label_of obj SidecarSecretNameLabel) = Some s →
    owned_by (pod_UID obj) s = true ∨
    GetSecret (world_at (T:=T) env ns name st n) ns (label_of obj SidecarSecretNameLabel) = Ok s
}.

Definition healthy_attempt (R : MapRange) (env : Environment W D) (ns name : string) (obj : Pod Q)
    (st : State W) (n : nat) : Prop :=
  healthy (T:=T) R (reconciler env n) (gates_at env n) (world_at (T:=T) env ns name st n) ns name obj.

(** The secret that a pod's own volume mounts is in place. *)
Definition served (w : W) (ns : string) (obj : Pod Q) : Prop :=
  ∃ s, stored w ns (label_of obj SidecarSecretNameLabel) = Some s ∧ owned_by (pod_UID obj) s = true.

Lemma attempt_finished (R : MapRange) env ns name obj st n :
  Attended R env ns name obj st →
  finished (attempt (T:=T) env n ns name (state_at (T:=T) env ns name st n)).2 = true →
  served (world (state_at (T:=T) env ns name st (S n))) ns obj.
Proof.
  intros [Hp Hns Hl Hc Hn] Hfin. cbn [state_at]. unfold attempt in *.
  specialize (Hp n); specialize (Hc n); specialize (Hn n). unfold world_at in Hp, Hc, Hn.
  set (st0 := mkState (before env n _) _) in *.
  change (before env n _) with (world st0) in Hp, Hc, Hn. clearbody st0.
  destruct Hp as [Hp|[what Hp]]; cycle 1.
  { unfold Reconcile, lookup_pod in Hfin. by rewrite Hp in Hfin. }
  destruct (finished_Reconcile R _ _ _ _ _ _ Hp Hns Hl Hfin)
    as [(s & Hs & Hown & ->)|(Hs & [Hserved|([s Hst] & Hsame)])].
  - exists s. auto.
  - done.
  - exists s. rewrite Hsame. split; [done|]. destruct (Hn s Hst) as [|Hok]; [done|].
    by rewrite Hs in Hok.
Qed.

Lemma healthy_attempt_finishes (R : MapRange) env ns name obj st n :
  is_Some (map_entries (pod_Labels obj) !! SidecarInjectedLabel) →
  healthy_attempt R env ns name obj st n →
  finished (attempt (T:=T) env n ns name (state_at (T:=T) env ns name st n)).2 = true.
Proof.
  intros Hl Hh. unfold attempt. by apply (healthy_finishes R _ _ _ _ _ obj).
Qed.

(** Attempts end the work only with the pod served, and end it at the latest at
    an attempt that nothing hinders. *)
Lemma retry_outcome (R : MapRange) env ns name obj st fuel j :
  Attended R env ns name obj st →
  match retry (T:=T) fuel env j ns name (state_at (T:=T) env ns name st j) with
  | (st', Some n) => (j ≤ n < j + fuel)%nat ∧ served (world st') ns obj ∧
      ∀ k, (j ≤ k)%nat → healthy_attempt R env ns name obj st k → (n ≤ k)%nat
  | (_, None) => ∀ k, (j ≤ k < j + fuel)%nat → ¬ healthy_attempt R env ns name obj st k
  end.
Proof.
  intros Hatt. revert j. induction fuel as [|fuel IH]; intros j; [intros k ? ?; simpl in *; lia|].
  cbn [retry].
  pose proof (attempt_finished R env ns name obj st j Hatt) as Hfin.
  pose proof (healthy_attempt_finishes R env ns name obj st j (attended_label _ _ _ _ _ _ Hatt)) as Hh.
  specialize (IH (S j)). cbn [state_at] in Hfin, IH.
  destruct (attempt env j ns name (state_at env ns name st j)) as [st1 res]; cbn [fst snd] in *.
  destruct (finished res) eqn:Hf.
  - split_and!; [lia|lia|by apply Hfin|]. intros; lia.
  - destruct (retry fuel env (S j) ns name st1) as [st' [n|]].
    + destruct IH as (Hn & Hs & Hk). split_and!; [lia|lia|done|]. intros k Hjk Hkh.
      destruct (decide (k = j)) as [->|]; [by apply Hh in Hkh|]. apply Hk; [lia|done].
    + intros k Hk Hkh. destruct (decide (k = j)) as [->|]; [by apply Hh in Hkh|].
      by apply (IH k); [lia|].
Qed.

(** The work on an injected pod gets done: whatever fails before, and however
    the world, the classes and the gates change between the attempts, if attempt
    [k] is not hindered then an attempt up to [k] ends the work, and the work
    only ever ends with the pod's own secret stored under the name that its
    volume mounts. *)
Theorem retry_serves (R : MapRange) env ns name obj st :
  Attended R env ns name obj st →
  (∀ k, healthy_attempt R env ns name obj st k →
     ∃ n st', retry (T:=T) (S k) env 0 ns name st = (st', Some n) ∧ (n ≤ k)%nat) ∧
  (∀ fuel n st', retry (T:=T) fuel env 0 ns name st = (st', Some n) → served (world st') ns obj).
Proof.
  intros Hatt. split.
  - intros k Hk. pose proof (retry_outcome R env ns name obj st (S k) 0 Hatt) as Ho.
    cbn [state_at] in Ho. destruct (retry (S k) env 0 ns name st) as [st' [n|]].
    + exists n, st'. split; [done|]. apply Ho; [lia|done].
    + by destruct (Ho k); [lia|].
  - intros fuel n st' Hr. pose proof (retry_outcome R env ns name obj st fuel 0 Hatt) as Ho.
    cbn [state_at] in Ho. rewrite Hr in Ho. apply Ho.
Qed.
End theorems.

(** ** Samples and witnesses *)

(** The secret of an earlier pod is still there at the first attempt, and collected
    before the others. *)
Definition earlier_secret : Secret :=
  mkSecret "telegraf-web-1-x7k2q" "shop" {[SecretManagedByLabelKey := ControllerName]}
    [{| owner_Kind := "Pod"; owner_Name := "web-1"; owner_UID := "uid-0";
        owner_Controller := None |}] "Opaque" ∅.

Definition sample_environment : Environment Cluster DirectoryHandler := {|
  before n _ := world (sample_world
    (if decide (n = 0%nat) then {[("shop", "telegraf-web-1-x7k2q") := earlier_secret]} else ∅));
  reconciler _ := sample_reconciler;
  gates_at _ := sample_gates false
|}.

Lemma retry_serves_witness :
  ∃ st', @retry Cluster nat string DirectoryHandler cluster_client sample_owner sample_toml
      directory_handler range_forward 2 sample_environment 0 "shop" "web-1" (sample_world ∅) =
      (st', Some 1%nat) ∧
    @served Cluster nat cluster_client cluster_server (world st') "shop" injected_pod.
Proof.
  destruct (@retry_serves Cluster nat string DirectoryHandler cluster_client cluster_server
    sample_owner sample_owner_laws sample_toml directory_handler range_forward
    sample_environment "shop" "web-1" injected_pod (sample_world ∅)) as [Hends Hserved].
  { split.
    - intros n. left. unfold world_at; cbn [before sample_environment]. reflexivity.
    - reflexivity.
    - exists "true". vm_compute. reflexivity.
    - intros n s. unfold world_at; cbn [before sample_environment].
      case_decide; vm_compute; [|discriminate]. by intros [= <-].
    - intros n s. unfold world_at; cbn [before sample_environment].
      case_decide; vm_compute; [|discriminate]. intros [= <-]. by right. }
  destruct (Hends 1%nat) as (n & st' & Hr & Hn).
  { unfold healthy_attempt, healthy, world_at; cbn [before sample_environment].
    split; [reflexivity|]. left. split; [vm_compute; reflexivity|]. exists prepared_secret. split.
    - exists "cpu,prometheus". vm_compute. split; reflexivity.
    - apply cluster_create_answers, prepared_secret_labels. }
  exists st'. pose proof (Hserved _ _ _ Hr) as Hs. split; [|exact Hs].
  assert (n = 1%nat) as ->; [|exact Hr].
  apply (f_equal snd) in Hr. vm_compute in Hr. congruence.
Defined.
