(* ===== verification/Labels.v ===== *)
(** The labels that the reconciler puts on a secret, and what the API server
    makes of them.

    Two of the four come from outside: the name of the pod and the name of the
    class.  Names may be longer than the values of labels, and have a wider syntax
    in the case of classes, which are names of files. *)
From S2P Require Import Prelude GoStrings Metadata FeatureGate ClassData K8s Injector.
From S2P Require Import TelegrafConfig PodController Retry.

(** Documented: the API server validates an object before it stores it, and refuses
    one with a label that is not valid. *)
Class LabelValidation (W Q : Type) `{ApiServer W Q} : Prop := {
  CreateSecret_labels : ∀ w s, ¬ labels_valid (secret_Labels s) →
    (∃ what, (CreateSecret w s).2 = Some (OtherApiError what)) ∧
    same_store w (CreateSecret w s).1
}.

(** * Lemmas *)

Lemma lower_alnum c : is_lower_alnum c = true → is_alnum c = true.
Proof.
  unfold is_lower_alnum, is_alnum. rewrite !orb_true_iff. tauto.
Qed.

Lemma scan_step_byte st c st' : scan_step st c = Some st' → label_byte c = true.
Proof.
  unfold scan_step, label_byte. destruct (is_lower_alnum c) eqn:Hc; [by rewrite lower_alnum|].
  case_bool_decide; [by subst|]. case_bool_decide; [by subst|done].
Qed.

Lemma scan_name_bytes st s st' : scan_name st s = Some st' → str_forallb label_byte s = true.
Proof.
  revert st. induction s as [|c s IH]; intros st; [done|]; cbn.
  destruct (scan_step st c) as [st1|] eqn:Hc; [|done]. intros Hs.
  by rewrite (scan_step_byte _ _ _ Hc), (IH st1 Hs).
Qed.

(** The scan begins with a letter or digit, and is in its accepting state after
    one only. *)
Lemma scan_step_alnum st c st' :
  scan_step st c = Some st' → st = LabelStart ∨ st' = AfterAlnum → is_alnum c = true.
Proof.
  unfold scan_step. destruct (is_lower_alnum c) eqn:Hc; [by rewrite lower_alnum|].
  repeat case_bool_decide; destruct st; naive_solver.
Qed.

Lemma subdomain_label s : dns_subdomain s → label_value s = true ↔ String.length s ≤ 63.
Proof.
  unfold dns_subdomain. intros Hs. unfold label_value. rewrite (scan_name_bytes _ _ _ Hs), andb_true_r.
  assert (starts_alnum s = true) as ->.
  { destruct s as [|c s]; [done|]; cbn in *.
    destruct (scan_step LabelStart c) eqn:Hc; [|done]. eapply scan_step_alnum; [done|by left]. }
  assert (starts_alnum (String.rev s) = true) as ->.
  { destruct (decide (s = "")) as [->|Hne]; [done|].
    destruct (string_snoc_inv s Hne) as (u & c & ->). rewrite string_rev_app. cbn.
    rewrite scan_name_app in Hs. destruct (scan_name LabelStart u) as [st|]; [|done]. cbn in Hs.
    destruct (scan_step st c) eqn:Hc; [|done]. cbn in Hs.
    eapply scan_step_alnum; [done|right; congruence]. }
  rewrite !andb_true_r. apply Nat.leb_le.
Qed.

Section lemmas.
Context {W Q T D : Type} `{ApiServer W Q} `{OwnerReferencesLaws Q} `{Toml T} `{Handler D}.
Implicit Types (r : PodReconciler D) (g : GateState) (st : State W) (obj : Pod Q).

Lemma prepare_labels (R : MapRange) r g st obj st' secret :
  prepare (T:=T) r g st obj = (st', Ok secret) →
  secret_Labels secret =
    {[ TelegrafSecretClassNameLabel := class (valuesOf r obj).1;
       TelegrafSecretPodLabel := pod_Name obj;
       SecretManagedByLabelKey := ControllerName; SecretCreatedByLabelKey := ControllerName ]}.
Proof.
  rewrite prepare_eq. destruct (valuesOf r obj) as [c warnings]; cbn [fst snd].
  destruct (buildConfigData g c) as [text| |]; [|done..].
  destruct (SetOwnerReference _ _) as [s| |] eqn:Hs; [|done..]. intros [= _ <-].
  by apply SetOwnerReference_spec in Hs as (_ & _ & _ & -> & _).
Qed.

(** The labels are valid if the two that vary are. *)
Lemma prepared_labels_valid cl name :
  labels_valid {[ TelegrafSecretClassNameLabel := cl; TelegrafSecretPodLabel := name;
       SecretManagedByLabelKey := ControllerName; SecretCreatedByLabelKey := ControllerName ]} ↔
  label_value cl = true ∧ label_value name = true.
Proof.
  unfold labels_valid.
  rewrite !map_Forall_insert, map_Forall_singleton
    by (apply (bool_decide_unpack _); vm_compute; exact I).
  assert (label_value ControllerName = true) as -> by (vm_compute; reflexivity). tauto.
Qed.
End lemmas.

(** * Theorems *)

Section theorems.
Context {W Q T D : Type} `{LabelValidation W Q} `{OwnerReferencesLaws Q}
  `{Toml T} `{Handler D}.
Implicit Types (r : PodReconciler D) (g : GateState) (st : State W) (obj : Pod Q).

(** C36. The labels of the secret are valid exactly if the name of the pod has at
    most 63 bytes and the class is the value of a label.  Names of pods may have
    253 bytes: for an injected pod with a longer one no call ever stores a secret,
    whatever the caches show, and while the cache shows none each call asks for
    another one. *)
Theorem secret_labels_bound (R : MapRange) r g st ns name obj :
  GetPod (world st) ns name = Ok obj → dns_subdomain (pod_Name obj) →
  let valid := String.length (pod_Name obj) ≤ 63 ∧ label_value (class (valuesOf r obj).1) = true in
  (∀ st' secret, prepare (T:=T) r g st obj = (st', Ok secret) →
     labels_valid (secret_Labels secret) ↔ valid) ∧
  (¬ valid →
   same_store (world st) (world (Reconcile (T:=T) r g st ns name).1) ∧
   (is_Some (map_entries (pod_Labels obj) !! SidecarInjectedLabel) →
    GetSecret (world st) ns (label_of obj SidecarSecretNameLabel) = Err NotFound →
    finished (Reconcile (T:=T) r g st ns name).2 = false)).
Proof.
  intros Hp Hdns valid.
  assert (∀ st' secret, prepare (T:=T) r g st obj = (st', Ok secret) →
    labels_valid (secret_Labels secret) ↔ valid) as Hval.
  { intros st' secret Hprep. rewrite (prepare_labels R _ _ _ _ _ _ Hprep), prepared_labels_valid.
    rewrite (subdomain_label (pod_Name obj) Hdns). unfold valid. tauto. }
  split; [done|]. intros Hno.
  assert (∀ p, lookup_pod (world st) ns name = Ok (inl p) →
    same_store (world st) (world (Reconcile (T:=T) r g st ns name).1) ∧
    finished (Reconcile (T:=T) r g st ns name).2 = false) as Hrec.
  { intros p Hlook. pose proof (proj1 (lookup_pod_inl R _ _ _ p) Hlook) as (Hp' & _).
    rewrite Hp in Hp'. injection Hp' as <-. unfold Reconcile. rewrite Hlook. unfold reconcile.
    pose proof (prepare_world R (T:=T) r g st obj) as Hw.
    destruct (prepare r g st obj) as [st1 [secret| |]] eqn:Hprep; cbn in Hw |- *;
      [|split; [intros ??; by rewrite Hw|done]..].
    assert (¬ labels_valid (secret_Labels secret)) as Hbad by (by rewrite (Hval _ _ eq_refl)).
    destruct (CreateSecret_labels (world st1) secret Hbad) as [[what Hrej] Hsame].
    unfold commit. destruct (CreateSecret (world st1) secret) as [w err] eqn:Hc.
    cbn in Hrej, Hsame; subst err. cbn. by rewrite <- Hw. }
  split.
  - destruct (lookup_pod (world st) ns name) as [[p|]| |] eqn:Hlook; [by apply (Hrec p)|..];
      unfold Reconcile; by rewrite Hlook.
  - intros Hl Hs. by apply (Hrec obj), (lookup_pod_inl R).
Qed.
End theorems.

(** ** Samples and witnesses *)

Lemma cluster_labels : @LabelValidation Cluster nat cluster_client cluster_server.
Proof.
  split. intros w s Hbad. unfold CreateSecret, cluster_client. rewrite decide_False by done.
  split; [by eexists|]. by intros ns name.
Qed.

Definition long_name : string :=
  "a-database-that-somebody-has-given-a-name-with-every-detail-of-it".

Definition long_named_pod : Pod nat :=
  mkPod long_name "" "shop" "uid-1" (pod_Labels injected_pod) (pod_Annotations injected_pod) [] [] [].

Definition long_named_world : State Cluster :=
  mkState (mkCluster {[("shop", long_name) := long_named_pod]} ∅) [].

Lemma secret_labels_bound_witness :
  finished (@Reconcile Cluster nat string _ cluster_client sample_owner sample_toml
    directory_handler range_forward sample_reconciler (sample_gates false) long_named_world
    "shop" long_name).2 = false.
Proof.
  destruct (@secret_labels_bound Cluster nat string _ cluster_client cluster_server
    cluster_labels sample_owner sample_owner_laws sample_toml directory_handler range_forward
    sample_reconciler (sample_gates false) long_named_world "shop" long_name long_named_pod)
    as [_ Hbad].
  - vm_compute. reflexivity.
  - vm_compute. reflexivity.
  - destruct Hbad as [_ Hfin].
    + intros [Hlen _]. vm_compute in Hlen. lia.
    + apply Hfin; [exists "true"; vm_compute; reflexivity|vm_compute; reflexivity].
Defined.
