(* ===== verification/Watches.v ===== *)
(** [SetupWithManager] of [internal/controller/pod_controller.go]: which changes in
    the cluster make the controller call [Reconcile], and for which pods. *)
From S2P Require Import Prelude Metadata K8s TelegrafConfig PodController.

(** What [Reconcile] is called for: the namespace and the name of a pod. *)
Abbreviation Request := (string * string)%type.

Definition request_for {Q} (p : Pod Q) : Request := (pod_Namespace p, pod_Name p).

(** ** Pods: [For] with its predicates

    An event of the watch on pods, and the predicates of
    sigs.k8s.io/controller-runtime/pkg/predicate that filter it.  Documented: the
    label selector admits the objects it matches (the new one of an update), each
    of the others skips only the updates without the change it is named after. *)
Inductive PodEvent (Q : Type) :=
| Created (p : Pod Q)
| Updated (old new : Pod Q)
| Deleted (p : Pod Q).
Arguments Created {Q} p.
Arguments Updated {Q} old new.
Arguments Deleted {Q} p.

Definition event_object {Q} (e : PodEvent Q) : Pod Q :=
  match e with Created p | Updated _ p | Deleted p => p end.

Class Predicates (Q : Type) := {
  LabelExists : string → PodEvent Q → bool;
  GenerationChanged : PodEvent Q → bool;
  LabelChanged : PodEvent Q → bool;
  AnnotationChanged : PodEvent Q → bool
}.

Class PredicatesLaws (Q : Type) `{Predicates Q} := {
  LabelExists_spec : ∀ key e, LabelExists key e = true ↔
    is_Some (map_entries (pod_Labels (event_object e)) !! key);
  GenerationChanged_other : ∀ p,
    GenerationChanged (Created p) = true ∧ GenerationChanged (Deleted p) = true;
  GenerationChanged_same : ∀ p, GenerationChanged (Updated p p) = false;
  LabelChanged_update : ∀ old new, LabelChanged (Updated old new) = true ↔
    map_entries (pod_Labels old) ≠ map_entries (pod_Labels new);
  AnnotationChanged_update : ∀ old new, AnnotationChanged (Updated old new) = true ↔
    map_entries (pod_Annotations old) ≠ map_entries (pod_Annotations new)
}.

(** The predicates given to [builder.WithPredicates] must all hold. *)
Definition startsReconcile {Q} `{Predicates Q} (e : PodEvent Q) : bool :=
  LabelExists SidecarInjectedLabel e &&
  (GenerationChanged e || LabelChanged e || AnnotationChanged e).

(** ** Secrets: [Owns]

    Documented: a change of an owned object is mapped to its owner of the type
    given to [For], the owner being the one that is its controller; the old and
    the new object of an update both count. *)
Inductive SecretEvent :=
| SecretCreated (s : Secret)
| SecretUpdated (old new : Secret)
| SecretDeleted (s : Secret).

Definition event_secrets (e : SecretEvent) : list Secret :=
  match e with
  | SecretCreated s | SecretDeleted s => [s]
  | SecretUpdated old new => [old; new]
  end.

Definition is_controller (o : OwnerReference) : bool := bool_decide (owner_Controller o = Some true).

(** [metav1.GetControllerOf] *)
Definition GetControllerOf (s : Secret) : option OwnerReference :=
  head (filter is_controller (secret_OwnerReferences s)).

Class OwnerHandler := {
  EnqueueRequestForOwner : SecretEvent → list Request
}.

Class OwnerHandlerLaws `{OwnerHandler} : Prop := {
  EnqueueRequestForOwner_spec : ∀ e req, req ∈ EnqueueRequestForOwner e ↔
    ∃ s o, s ∈ event_secrets e ∧ GetControllerOf s = Some o ∧ owner_Kind o = "Pod" ∧
      req = (secret_Namespace s, owner_Name o)
}.

(** ** The two watches *)
Inductive WatchEvent (Q : Type) :=
| PodWatch (e : PodEvent Q)
| SecretWatch (e : SecretEvent).
Arguments PodWatch {Q} e.
Arguments SecretWatch {Q} e.

Definition requests_of {Q} `{Predicates Q} `{OwnerHandler} (e : WatchEvent Q) : list Request :=
  match e with
  | PodWatch e => if startsReconcile e then [request_for (event_object e)] else []
  | SecretWatch e => EnqueueRequestForOwner e
  end.

(** * Lemmas *)

(** Every pod the reconciler would act on starts a reconcile when it appears or
    goes, and when its annotations or labels change; no other pod ever does. *)
Lemma startsReconcile_spec {Q} `{PredicatesLaws Q} (R : MapRange) (e : PodEvent Q) :
  (startsReconcile e = true → shouldAttemptReconcilation (event_object e) = true) ∧
  (shouldAttemptReconcilation (event_object e) = true →
   match e with
   | Updated old new =>
       map_entries (pod_Labels old) ≠ map_entries (pod_Labels new) ∨
       map_entries (pod_Annotations old) ≠ map_entries (pod_Annotations new)
   | _ => True
   end → startsReconcile e = true).
Proof.
  unfold startsReconcile. rewrite shouldAttempt_true. split.
  - intros [Hl _]%andb_true_iff. by apply LabelExists_spec in Hl.
  - intros Hl He. rewrite (proj2 (LabelExists_spec _ e) Hl); simpl.
    destruct e as [p|old new|p].
    + by rewrite (proj1 (GenerationChanged_other p)).
    + rewrite <- LabelChanged_update, <- AnnotationChanged_update in He.
      destruct He as [-> | ->]; by rewrite ?orb_true_r.
    + by rewrite (proj2 (GenerationChanged_other p)).
Qed.

(** The creation of an injected pod is queued; a resync is not. *)
Lemma created_queued {Q} `{PredicatesLaws Q} `{OwnerHandler} (p : Pod Q) :
  is_Some (map_entries (pod_Labels p) !! SidecarInjectedLabel) →
  requests_of (PodWatch (Created p)) = [request_for p].
Proof.
  intros Hl. cbn. unfold startsReconcile. rewrite (proj2 (LabelExists_spec _ (Created p)) Hl).
  by rewrite (proj1 (GenerationChanged_other p)).
Qed.

Lemma resync_filtered {Q} `{PredicatesLaws Q} `{OwnerHandler} (p : Pod Q) :
  requests_of (PodWatch (Updated p p)) = [].
Proof.
  cbn. unfold startsReconcile. rewrite GenerationChanged_same.
  destruct (LabelChanged (Updated p p)) eqn:Hl; [by apply LabelChanged_update in Hl|].
  destruct (AnnotationChanged (Updated p p)) eqn:Ha; [by apply AnnotationChanged_update in Ha|].
  by destruct (LabelExists _ _).
Qed.

(** No pod is the controller of a secret that the operator creates, so the watch
    on secrets maps no change of such a secret to a pod. *)
Lemma operator_secret_controller {Q} s (p : Pod Q) text :
  operator_secret s p text → GetControllerOf s = None.
Proof.
  intros (_ & _ & _ & _ & _ & _ & _ & Hall). unfold GetControllerOf.
  destruct (filter is_controller (secret_OwnerReferences s)) as [|o os] eqn:E; [done|exfalso].
  assert (o ∈ filter is_controller (secret_OwnerReferences s)) as [Hc Ho]%list_elem_of_filter
    by (rewrite E; by left).
  apply Hall in Ho as [_ Ho]. unfold is_controller in Hc. by rewrite Ho in Hc.
Qed.

Lemma owns_nothing {Q} `{Predicates Q} `{OwnerHandlerLaws} (e : SecretEvent) :
  (∀ s, s ∈ event_secrets e → ∃ (p : Pod Q) text, operator_secret s p text) →
  requests_of (Q:=Q) (SecretWatch e) = [].
Proof.
  intros Hall. cbn. destruct (EnqueueRequestForOwner e) as [|req reqs] eqn:E; [done|exfalso].
  assert (req ∈ EnqueueRequestForOwner e) as Hin by (rewrite E; by left).
  apply EnqueueRequestForOwner_spec in Hin as (s & o & Hs & Ho & _).
  destruct (Hall s Hs) as (p & text & Hop). by rewrite (operator_secret_controller s p text Hop) in Ho.
Qed.

(** ** Samples *)

Definition sample_predicates : Predicates nat := {|
  LabelExists key e :=
    match map_entries (pod_Labels (event_object e)) !! key with Some _ => true | None => false end;
  GenerationChanged e := match e with Updated _ _ => false | _ => true end;
  LabelChanged e :=
    match e with
    | Updated old new => bool_decide (map_entries (pod_Labels old) ≠ map_entries (pod_Labels new))
    | _ => true
    end;
  AnnotationChanged e :=
    match e with
    | Updated old new =>
        bool_decide (map_entries (pod_Annotations old) ≠ map_entries (pod_Annotations new))
    | _ => true
    end
|}.

Lemma sample_predicates_laws : @PredicatesLaws nat sample_predicates.
Proof.
  split.
  - intros key e; simpl. destruct (_ !! key); split; done.
  - done.
  - done.
  - intros old new; simpl. apply bool_decide_eq_true.
  - intros old new; simpl. apply bool_decide_eq_true.
Qed.

Definition sample_owner_handler : OwnerHandler := {|
  EnqueueRequestForOwner e :=
    s ← event_secrets e;
    match GetControllerOf s with
    | Some o => if bool_decide (owner_Kind o = "Pod") then [(secret_Namespace s, owner_Name o)] else []
    | None => []
    end
|}.

Lemma sample_owner_handler_laws : @OwnerHandlerLaws sample_owner_handler.
Proof.
  split. intros e req. cbn [EnqueueRequestForOwner sample_owner_handler].
  rewrite list_elem_of_bind. split.
  - intros (s & Hreq & Hs). destruct (GetControllerOf s) as [o|] eqn:Ho; [|by apply elem_of_nil in Hreq].
    case_bool_decide as Hk; [|by apply elem_of_nil in Hreq].
    apply list_elem_of_singleton in Hreq as ->. by exists s, o.
  - intros (s & o & Hs & Ho & Hk & ->). exists s. rewrite Ho, bool_decide_eq_true_2 by done.
    split; [by left|done].
Qed.
