(* ===== verification/Operator.v ===== *)
(** [cmd/main.go]: the flags, their validation, the start-up sequence, and how
    the webhook and the reconciler it wires work together. *)
From S2P Require Import Prelude GoStrings GoTime Metadata OptConfig FeatureGate ClassData K8s.
From S2P Require Import Sidecar Injector TelegrafConfig PodController.

(** ** Flags: the values after [flag.Parse], by the names of the variables *)

Record Flags := {
  metricsAddr : string;
  probeAddr : string;
  enableLeaderElection : bool;
  leaderElectLeaseDuration : Z;
  leaderElectRenewDeadline : Z;
  leaderElectRetryPeriod : Z;
  leaderElectReleaseOnCancel : bool;
  secureMetrics : bool;
  enableHTTP2 : bool;
  telegrafClassesDirectory : string;
  telegrafDefaultClass : string;
  telegrafEnableIntervalPlugin : bool;
  telegrafSecretNamePrefix : string;
  telegrafImage : string;
  telegrafRequestsCPU : string;
  telegrafRequestsMemory : string;
  telegrafLimitsCPU : string;
  telegrafLimitsMemory : string;
  telegrafWatchConfig : string;
  telegrafSecurityRunAsUser : OptionalInt64;
  telegrafSecurityRunAsGroup : OptionalInt64;
  telegrafSecurityRunAsNonRoot : OptionalBool;
  telegrafSecurityReadOnlyRootFS : OptionalBool;
  telegrafSecurityAllowPrivEsc : OptionalBool;
  telegrafSecurityCapAdd : string;
  telegrafSecurityCapDrop : string;
  disableCacheOptimizations : bool
}.

Definition defaultTelegrafSecretNamePrefix : string := "telegraf-config".
Definition defaultTelegrafImage : string := "docker.io/library/telegraf:1.30-alpine".
Definition defaultTelegrafRequestsCPU : string := "100m".
Definition defaultTelegrafRequestsMemory : string := "100Mi".
Definition defaultTelegrafLimitsCPU : string := "".
Definition defaultTelegrafLimitsMemory : string := "300Mi".

(** The flags when the command line sets none. *)
Definition defaultFlags : Flags := {|
  metricsAddr := ":8080"; probeAddr := ":8081"; enableLeaderElection := false;
  leaderElectLeaseDuration := 35 * Second; leaderElectRenewDeadline := 30 * Second;
  leaderElectRetryPeriod := 5 * Second; leaderElectReleaseOnCancel := true;
  secureMetrics := false; enableHTTP2 := false;
  telegrafClassesDirectory := "/etc/config/classes"; telegrafDefaultClass := "default";
  telegrafEnableIntervalPlugin := false;
  telegrafSecretNamePrefix := defaultTelegrafSecretNamePrefix;
  telegrafImage := defaultTelegrafImage;
  telegrafRequestsCPU := defaultTelegrafRequestsCPU;
  telegrafRequestsMemory := defaultTelegrafRequestsMemory;
  telegrafLimitsCPU := defaultTelegrafLimitsCPU;
  telegrafLimitsMemory := defaultTelegrafLimitsMemory;
  telegrafWatchConfig := "";
  telegrafSecurityRunAsUser := {| int64_value := None |};
  telegrafSecurityRunAsGroup := {| int64_value := None |};
  telegrafSecurityRunAsNonRoot := {| bool_value := None |};
  telegrafSecurityReadOnlyRootFS := {| bool_value := None |};
  telegrafSecurityAllowPrivEsc := {| bool_value := None |};
  telegrafSecurityCapAdd := ""; telegrafSecurityCapDrop := "";
  disableCacheOptimizations := false
|}.

(** ** Validation *)

Inductive FlagError :=
| ErrResourceValue (val : string)
| ErrWatchConfig (watchConfig : string).

Fixpoint validateRequestsAndLimits {Q} `{QuantityOps Q} (resources : list string)
    : option FlagError :=
  match resources with
  | [] => None
  | val :: resources =>
      if negb (bool_decide (val = "")) then
        match ParseQuantity (Q:=Q) val with
        | Some _ => validateRequestsAndLimits (Q:=Q) resources
        | None => Some (ErrResourceValue val)
        end
      else validateRequestsAndLimits (Q:=Q) resources
  end.

Definition validWatchValues : list string := ["inotify"; "poll"].

Definition validateWatchConfig (watchConfig : string) : option FlagError :=
  if bool_decide (watchConfig = "") then None
  else
    let watchConfig := ToLower (TrimSpace watchConfig) in
    if existsb (λ valid, bool_decide (watchConfig = valid)) validWatchValues then None
    else Some (ErrWatchConfig watchConfig).

(** ** The manager's options *)

(** [tls.Config], with the field that the operator sets: the protocols offered,
    where nil leaves the choice to the server. *)
Record TlsConfig := { NextProtos : option (list string) }.

Definition disableHTTP2 (c : TlsConfig) : TlsConfig := {| NextProtos := Some ["http/1.1"] |}.

(** Functions that a server applies to its configuration. *)
Definition tlsOpts (f : Flags) : list (TlsConfig → TlsConfig) :=
  if negb (enableHTTP2 f) then [disableHTTP2] else [].

(** The label sets of the selectors that limit the caches; none when the
    optimizations are disabled. *)
Record CacheOptions := {
  podCache : option (gmap string string);
  secretCache : option (gmap string string)
}.

Definition cacheOptions (f : Flags) : CacheOptions :=
  if disableCacheOptimizations f then {| podCache := None; secretCache := None |}
  else {| podCache := Some {[SidecarInjectedLabel := "true"]};
          secretCache := Some {[SecretManagedByLabelKey := ControllerName]} |}.

(** [ctrl.Options] with the options of the metrics server and of the webhook's
    server in it; durations are in nanoseconds. *)
Record Options := {
  Metrics_BindAddress : string;
  Metrics_SecureServing : bool;
  Metrics_TLSOpts : list (TlsConfig → TlsConfig);
  Webhook_TLSOpts : list (TlsConfig → TlsConfig);
  HealthProbeBindAddress : string;
  LeaderElection : bool;
  LeaderElectionID : string;
  LeaseDuration : Z;
  RenewDeadline : Z;
  RetryPeriod : Z;
  LeaderElectionReleaseOnCancel : bool;
  Cache : CacheOptions;
  MaxConcurrentReconciles : nat
}.

Definition optionsOf (f : Flags) : Options := {|
  Metrics_BindAddress := metricsAddr f;
  Metrics_SecureServing := secureMetrics f;
  Metrics_TLSOpts := tlsOpts f;
  Webhook_TLSOpts := tlsOpts f;
  HealthProbeBindAddress := probeAddr f;
  LeaderElection := enableLeaderElection f;
  LeaderElectionID := "b20b1aee.mickey.dev";
  LeaseDuration := leaderElectLeaseDuration f;
  RenewDeadline := leaderElectRenewDeadline f;
  RetryPeriod := leaderElectRetryPeriod f;
  LeaderElectionReleaseOnCancel := leaderElectReleaseOnCancel f;
  Cache := cacheOptions f;
  MaxConcurrentReconciles := 4
|}.

(** ** Start-up *)

Inductive SetupStep :=
| NewManager | CreateController | CreateWebhook | AddHealthzCheck | AddReadyzCheck | StartManager.

Inductive Exit :=
| ExitResources (e : FlagError)
| ExitWatchConfig (e : FlagError)
| ExitSetup (step : SetupStep).

(** What runs once the manager is started.  [ClassDataHandler] is an interface
    holding a [*DirectoryHandler], which is nil when [NewDirectoryHandler]
    failed. *)
Record Operator := {
  admission : SidecarInjector;
  podReconciler : PodReconciler (option DirectoryHandler);
  managerOptions : Options
}.

Definition caches (op : Operator) : CacheOptions := Cache (managerOptions op).

Section main.
Context {Q : Type} `{QuantityOps Q} `{MapRange}.
Variable toml_Parse : string → bool.

Definition admissionOf (f : Flags) : SidecarInjector := {|
  SecretNamePrefix := telegrafSecretNamePrefix f;
  TelegrafImage := telegrafImage f;
  WatchConfig := telegrafWatchConfig f;
  RequestsCPU := telegrafRequestsCPU f;
  RequestsMemory := telegrafRequestsMemory f;
  LimitsCPU := telegrafLimitsCPU f;
  LimitsMemory := telegrafLimitsMemory f;
  SecurityRunAsUser := telegrafSecurityRunAsUser f;
  SecurityRunAsGroup := telegrafSecurityRunAsGroup f;
  SecurityRunAsNonRoot := telegrafSecurityRunAsNonRoot f;
  SecurityReadOnlyRootFilesystem := telegrafSecurityReadOnlyRootFS f;
  SecurityAllowPrivilegeEscalation := telegrafSecurityAllowPrivEsc f;
  SecurityCapabilitiesAdd := telegrafSecurityCapAdd f;
  SecurityCapabilitiesDrop := telegrafSecurityCapDrop f
|}.

(** The steps of the set-up that call the manager, each of which may fail. *)
Definition setupSteps : list SetupStep :=
  [NewManager; CreateController; CreateWebhook; AddHealthzCheck; AddReadyzCheck; StartManager].

(** [main] after the flags are parsed: an error of [NewDirectoryHandler] is
    logged and the start-up goes on; [setup] tells which manager step fails. *)
Definition main (fs : FileSystem) (setup : SetupStep → bool) (f : Flags) : result Exit Operator :=
  match validateRequestsAndLimits (Q:=Q)
    [telegrafRequestsCPU f; telegrafRequestsMemory f; telegrafLimitsCPU f; telegrafLimitsMemory f] with
  | Some e => Err (ExitResources e)
  | None =>
      match validateWatchConfig (telegrafWatchConfig f) with
      | Some e => Err (ExitWatchConfig e)
      | None =>
          match NewDirectoryHandler toml_Parse fs (telegrafClassesDirectory f) with
          | Panic w => Panic w
          | handler =>
              let classDataHandler := match handler with Ok h => Some h | _ => None end in
              match List.find (λ step, negb (setup step)) setupSteps with
              | Some step => Err (ExitSetup step)
              | None =>
                  Ok {| admission := admissionOf f;
                        podReconciler := {|
                          ClassDataHandler := classDataHandler;
                          DefaultClass := telegrafDefaultClass f;
                          EnableInternalPlugin := telegrafEnableIntervalPlugin f |};
                        managerOptions := optionsOf f |}
              end
          end
      end
  end.
End main.

(** ** k8s.io/apimachinery/pkg/labels

    The selector of a label set matches the objects that have all its labels. *)
Class Selectors := {
  Matches : gmap string string → gmap string string → bool;
  Matches_spec : ∀ set labels, Matches set labels = true ↔ set ⊆ labels
}.

Definition cached `{Selectors} (selector : option (gmap string string))
    (labels : gmap string string) : bool :=
  match selector with Some set => Matches set labels | None => true end.

(** The caches of [cacheOptions] show the objects with the operator's labels. *)
Lemma cached_pod `{Selectors} f labels :
  labels !! SidecarInjectedLabel = Some "true" → cached (podCache (cacheOptions f)) labels = true.
Proof.
  intros Hl. unfold cacheOptions. destruct (disableCacheOptimizations f); [done|]; simpl.
  apply Matches_spec. by apply map_singleton_subseteq_l.
Qed.

Lemma cached_secret `{Selectors} f labels :
  labels !! SecretManagedByLabelKey = Some ControllerName →
  cached (secretCache (cacheOptions f)) labels = true.
Proof.
  intros Hl. unfold cacheOptions. destruct (disableCacheOptimizations f); [done|]; simpl.
  apply Matches_spec. by apply map_singleton_subseteq_l.
Qed.

(** * Theorems *)

Section validation.
Context {Q : Type} `{QuantityLaws Q} `{MapRange}.
Variable toml_Parse : string → bool.

Lemma validate_None resources :
  validateRequestsAndLimits (Q:=Q) resources = None ↔
  Forall (λ val, val = "" ∨ is_Some (ParseQuantity (Q:=Q) val)) resources.
Proof.
  induction resources as [|val l IH]; [done|]. rewrite Forall_cons, <- IH; simpl.
  case_bool_decide; simpl; [naive_solver|].
  destruct (ParseQuantity val) as [q|]; [|by split; [|intros [[|[? ?]] ?]]].
  split; [|by intros [_ ?]]. intros ?. split; [|done]. right. by eexists.
Qed.

(** The configuration of the webhook's container, from parseable settings. *)
Lemma newContainerConfig_ok s :
  is_ok (newContainerConfig (Q:=Q) s) = true ↔
  is_Some (ParseQuantity (Q:=Q) (RequestsCPU s)) ∧ is_Some (ParseQuantity (Q:=Q) (RequestsMemory s)) ∧
  (LimitsCPU s = "" ∨ LimitsCPU s = "0" ∨ is_Some (ParseQuantity (Q:=Q) (LimitsCPU s))) ∧
  is_Some (ParseQuantity (Q:=Q) (LimitsMemory s)).
Proof.
  unfold newContainerConfig, parseSetting.
  destruct (ParseQuantity (RequestsCPU s)); simpl; [|by split; [|intros [[? ?] _]]].
  destruct (ParseQuantity (RequestsMemory s)); simpl; [|by split; [|intros (_ & [? ?] & _)]].
  case_bool_decide as He; simpl; [|case_bool_decide as Hz; simpl].
  3: destruct (ParseQuantity (LimitsCPU s)); simpl;
    [|by split; [|intros (_ & _ & [?|[?|[? ?]]] & _)]].
  all: destruct (ParseQuantity (LimitsMemory s)); simpl;
    [|by split; [|intros (_ & _ & _ & [? ?])]].
  all: split; [intros _; split_and!; try (by eexists)|done]; eauto.
Qed.

Lemma main_Ok fs setup f op :
  main (Q:=Q) toml_Parse fs setup f = Ok op →
  Forall (λ val, val = "" ∨ is_Some (ParseQuantity (Q:=Q) val))
    [telegrafRequestsCPU f; telegrafRequestsMemory f; telegrafLimitsCPU f; telegrafLimitsMemory f] ∧
  validateWatchConfig (telegrafWatchConfig f) = None ∧
  (∀ step, setup step = true) ∧ admission op = admissionOf f ∧ managerOptions op = optionsOf f ∧
  ClassDataHandler (podReconciler op) =
    match NewDirectoryHandler toml_Parse fs (telegrafClassesDirectory f) with
    | Ok h => Some h | _ => None end.
Proof.
  unfold main. rewrite <- validate_None. destruct (validateRequestsAndLimits _); [done|].
  destruct (validateWatchConfig _); [done|].
  assert (List.find (λ step, negb (setup step)) setupSteps = None → ∀ step, setup step = true)
    as Hsteps.
  { intros Hf step. assert (In step setupSteps) as Hin by (destruct step; simpl; tauto).
    by apply (find_none _ _ Hf), negb_false_iff in Hin. }
  destruct (NewDirectoryHandler _ _ _); [| |done];
    (destruct (List.find _ setupSteps); [done|]); intros [= <-]; split_and!; auto.
Qed.
End validation.

Section startup.
Context {Q : Type} `{QuantityLaws Q} (toml_Parse : string → bool).

(** C33. What the start-up checks are worth to the webhook: on a running operator
    its settings give a container configuration exactly when the requests and
    the memory limit are not empty, three values the checks let through empty;
    a CPU limit that passed the checks, empty or not, is never the reason. *)
Theorem startup_settings (R : MapRange) fs setup f op :
  main (Q:=Q) toml_Parse fs setup f = Ok op →
  (is_ok (newContainerConfig (Q:=Q) (admission op)) = true ↔
   telegrafRequestsCPU f ≠ "" ∧ telegrafRequestsMemory f ≠ "" ∧ telegrafLimitsMemory f ≠ "").
Proof.
  intros (Hv & _ & _ & -> & _)%main_Ok. rewrite newContainerConfig_ok; cbn.
  rewrite !Forall_cons in Hv. destruct Hv as (Hrc & Hrm & Hlc & Hlm & _).
  assert (∀ val, val = "" ∨ is_Some (ParseQuantity (Q:=Q) val) →
    (is_Some (ParseQuantity (Q:=Q) val) ↔ val ≠ "")) as Hp.
  { intros val Hval. split; [|tauto]. intros [q Hq] ->. by rewrite ParseQuantity_empty in Hq. }
  rewrite (Hp _ Hrc), (Hp _ Hrm), (Hp _ Hlm). tauto.
Qed.
End startup.

Section watch.
Context {Q : Type} `{QuantityOps Q}.

(** The value of [--telegraf-watch-config] is checked after trimming and
    lower-casing but used as it was given: some accepted value that telegraf
    does not know ends the command of every container. *)
Theorem watch_config_verbatim :
  ∃ w, validateWatchConfig w = None ∧ w ∉ validWatchValues ∧
    ∀ (R : MapRange) f config annotations, telegrafWatchConfig f = w →
      newContainerConfig (Q:=Q) (admissionOf f) = Ok config →
      ∃ args, c_Command (buildContainerSpec (Sidecar.applyAnnotationOverrides annotations config)) =
        args ++ ["--watch-config"; w].
Proof.
  exists " INotify ". split_and!; [vm_compute; reflexivity|by vm_compute; set_solver|].
  intros R f config annotations Hw Hc.
  assert (watchConfig config = " INotify ") as Hcw.
  { unfold newContainerConfig in Hc.
    do 4 (apply bind_Ok_inv in Hc as (? & _ & Hc)). by injection Hc as <-. }
  rewrite Sidecar.applyAnnotationOverrides_eq.
  unfold buildContainerSpec, buildCommand; cbn [c_Command debug watchConfig]. rewrite Hcw.
  eexists (_ ++ _). rewrite <- app_assoc. reflexivity.
Qed.
End watch.

Section system.
Context {W Q T : Type} `{QuantityLaws Q} `{NameGenerator} `{ApiServer W Q}
  `{OwnerReferencesLaws Q} `{TomlLaws T} `{Selectors} (toml_Parse : string → bool).

(** C39. An unreadable or invalid class directory does not stop the operator: it
    starts with a nil class handler, injects pods, and the first pod to
    reconcile that needs its secret makes it panic. *)
Theorem class_failure_panics (R : MapRange) fs setup f op g (st : State W) ns name obj :
  main (Q:=Q) toml_Parse fs setup f = Ok op →
  is_ok (NewDirectoryHandler toml_Parse fs (telegrafClassesDirectory f)) = false →
  lookup_pod (world st) ns name = Ok (inl obj) →
  panics (Reconcile (T:=T) (podReconciler op) g st ns name).2 = true.
Proof.
  intros (_ & _ & _ & _ & _ & Hh)%main_Ok Hn Hl.
  assert (ClassDataHandler (podReconciler op) = None) as Hnil.
  { rewrite Hh. by destruct (NewDirectoryHandler _ _ _). }
  unfold Reconcile, reconcile. rewrite Hl, prepare_eq.
  assert (panics (buildConfigData (T:=T) g (valuesOf (podReconciler op) obj).1) = true) as Hb.
  { unfold buildConfigData. rewrite assembleConfig_eq. unfold loadClass, valuesOf.
    rewrite annotationValues_eq. cbn [fst classDataHandler newAnnotationValues].
    by rewrite Hnil. }
  destruct (valuesOf (podReconciler op) obj) as [c ws]; cbn in Hb.
  by destruct (buildConfigData g c).
Qed.

(** C7. End to end: a pod the webhook injects, stored by the API server with any
    name and UID, gets from the reconciler the secret that its own volume
    mounts, in its namespace, owned by it and holding the configuration built
    from its annotations; and the operator's caches, filtered or not, show it
    both the pod and the secret.  This is the case of success: no secret is shown
    under the pod's name, its configuration can be built, the pod may own the
    secret made of it, and the API accepts this one object. *)
Theorem injected_pod_gets_its_secret (R : MapRange) fs setup f op g draw pod pod1 pod2
    (st : State W) name text secret :
  main (Q:=Q) toml_Parse fs setup f = Ok op →
  shouldInjectContainer g pod = true →
  Default (admission op) g draw (ObjPod pod) = (ObjPod pod1, Ok ()) →
  pod_Labels pod2 = pod_Labels pod1 → pod_Volumes pod2 = pod_Volumes pod1 →
  GetPod (world st) (pod_Namespace pod2) name = Ok pod2 →
  GetSecret (world st) (pod_Namespace pod2) (label_of pod2 SidecarSecretNameLabel) = Err NotFound →
  buildConfigData (T:=T) g (valuesOf (podReconciler op) pod2).1 = Ok text →
  SetOwnerReference pod2 (newSecret pod2 (class (valuesOf (podReconciler op) pod2).1) text) =
    Ok secret →
  (CreateSecret (world st) secret).2 = None →
  let '(st', res) := Reconcile (T:=T) (podReconciler op) g st (pod_Namespace pod2) name in
  res = Ok done_result ∧
  ∃ secretName,
    {| vol_Name := "telegraf-config"; vol_Source := SecretVolume secretName |} ∈ pod_Volumes pod2 ∧
    stored (world st') (pod_Namespace pod2) secretName = Some secret ∧
    owned_by (pod_UID pod2) secret = true ∧
    secret_StringData secret !! "telegraf.conf" = Some text ∧
    cached (podCache (caches op)) (map_entries (pod_Labels pod2)) = true ∧
    cached (secretCache (caches op)) (secret_Labels secret) = true.
Proof.
  intros Hop Hinj Hdef Hlab Hvol Hp Hs Hb Ho Hc.
  apply main_Ok in Hop as (_ & _ & _ & _ & Hcache & _).
  apply (f_equal Cache) in Hcache. fold (caches op) in Hcache. cbn [Cache optionsOf] in Hcache.
  rewrite Default_pod, Hinj in Hdef.
  destruct (newContainerConfig (admission op)) as [config| |]; [|done..].
  rewrite injectContainer_eq in Hdef. injection Hdef as <-. cbn in Hlab, Hvol.
  set (n := generateSecretName (admission op) draw (podIdentifier pod)) in *.
  assert (map_entries (pod_Labels pod2) !! SidecarInjectedLabel = Some "true") as Hinjected.
  { rewrite Hlab; simpl. by rewrite lookup_insert_ne, lookup_insert_eq. }
  assert (label_of pod2 SidecarSecretNameLabel = n) as Hn.
  { unfold label_of. rewrite Hlab; simpl. by rewrite lookup_insert_eq. }
  destruct (Reconcile_success R (podReconciler op) g st (pod_Namespace pod2) name pod2 text secret)
    as (st' & -> & Hst & (_ & _ & _ & Hown & Hm & _ & Hd & _) & _); try done.
  split; [done|]. exists n. rewrite Hn in Hst.
  split_and!; [|done|done|by rewrite Hd, lookup_singleton_eq|..].
  - rewrite Hvol. apply elem_of_app. right. by apply list_elem_of_singleton.
  - rewrite Hcache. by apply cached_pod.
  - rewrite Hcache. by apply cached_secret.
Qed.
End system.

(** ** Samples and witnesses *)

Import SampleQuantity.

(** A class directory with one file, and one that cannot be read. *)
Definition sample_fs (readable : bool) : FileSystem := {|
  ReadDir _ := if readable then Ok ["default"] else Err "no such file or directory";
  StatRegular _ _ := Ok true;
  ReadFile _ _ := Ok "cpu=all"
|}.

Definition with_resources (f : Flags) (requestsCPU requestsMemory limitsCPU limitsMemory : string)
    : Flags := {|
  metricsAddr := metricsAddr f; probeAddr := probeAddr f;
  enableLeaderElection := enableLeaderElection f;
  leaderElectLeaseDuration := leaderElectLeaseDuration f;
  leaderElectRenewDeadline := leaderElectRenewDeadline f;
  leaderElectRetryPeriod := leaderElectRetryPeriod f;
  leaderElectReleaseOnCancel := leaderElectReleaseOnCancel f;
  secureMetrics := secureMetrics f; enableHTTP2 := enableHTTP2 f;
  telegrafClassesDirectory := telegrafClassesDirectory f;
  telegrafDefaultClass := telegrafDefaultClass f;
  telegrafEnableIntervalPlugin := telegrafEnableIntervalPlugin f;
  telegrafSecretNamePrefix := telegrafSecretNamePrefix f; telegrafImage := telegrafImage f;
  telegrafRequestsCPU := requestsCPU; telegrafRequestsMemory := requestsMemory;
  telegrafLimitsCPU := limitsCPU; telegrafLimitsMemory := limitsMemory;
  telegrafWatchConfig := telegrafWatchConfig f;
  telegrafSecurityRunAsUser := telegrafSecurityRunAsUser f;
  telegrafSecurityRunAsGroup := telegrafSecurityRunAsGroup f;
  telegrafSecurityRunAsNonRoot := telegrafSecurityRunAsNonRoot f;
  telegrafSecurityReadOnlyRootFS := telegrafSecurityReadOnlyRootFS f;
  telegrafSecurityAllowPrivEsc := telegrafSecurityAllowPrivEsc f;
  telegrafSecurityCapAdd := telegrafSecurityCapAdd f;
  telegrafSecurityCapDrop := telegrafSecurityCapDrop f;
  disableCacheOptimizations := disableCacheOptimizations f
|}.

Definition sample_flags (requestsCPU : string) : Flags :=
  with_resources defaultFlags requestsCPU "56m" "" "128m".

Definition sample_selectors : Selectors.
Proof.
  refine {| Matches set labels := bool_decide (set ⊆ labels) |}.
  intros set labels. apply bool_decide_eq_true.
Defined.

Definition sample_operator (readable : bool) (requestsCPU : string) : result Exit Operator :=
  @main nat ops range_forward (λ _, true) (sample_fs readable) (λ _, true) (sample_flags requestsCPU).

(** An operator started with an empty CPU request runs and cannot configure its
    container. *)
Lemma startup_settings_witness :
  ∃ op, sample_operator true "" = Ok op ∧
    is_ok (newContainerConfig (Q:=nat) (admission op)) ≠ true.
Proof.
  destruct (sample_operator true "") as [op| |] eqn:E; [|vm_compute in E; discriminate..].
  exists op. split; [reflexivity|].
  rewrite (@startup_settings nat ops SampleQuantity.laws (λ _, true) range_forward (sample_fs true)
    (λ _, true) (sample_flags "") op E).
  intros [H _]. apply H. reflexivity.
Defined.

Lemma class_failure_panics_witness :
  ∃ op, sample_operator false "10m" = Ok op ∧
    panics (@Reconcile Cluster nat string _ cluster_client sample_owner sample_toml
      directory_handler_ptr range_forward (podReconciler op) (sample_gates false)
      (sample_world ∅) "shop" "web-1").2 = true.
Proof.
  destruct (sample_operator false "10m") as [op| |] eqn:E; [|vm_compute in E; discriminate..].
  exists op. split; [reflexivity|].
  eapply (@class_failure_panics Cluster nat string ops cluster_client sample_owner sample_toml
    sample_toml_laws (λ _, true) range_forward _ _ _ _ _ _ _ _ injected_pod E);
    vm_compute; reflexivity.
Defined.

(** The pod as the API server stores it: a name and a UID are given to it. *)
Definition stored_pod (name uid : string) (p : Pod nat) : Pod nat :=
  mkPod name (pod_GenerateName p) (pod_Namespace p) uid (pod_Labels p) (pod_Annotations p)
    (pod_Containers p) (pod_InitContainers p) (pod_Volumes p).

Definition request_pod : Pod nat := sample_pod (Some sample_annotations) "app".

Definition admitted_pod (op : Operator) : Pod nat :=
  match (@Default nat ops range_forward sample_generator (admission op) (sample_gates false) 0
    (ObjPod request_pod)).1 with
  | ObjPod p => p
  | ObjOther _ => request_pod
  end.

Definition sample_state (op : Operator) : State Cluster :=
  mkState (mkCluster {[("shop", "web-7d4b9-hj2xz") :=
    stored_pod "web-7d4b9-hj2xz" "uid-1" (admitted_pod op)]} ∅) [].

Definition running_operator : Operator := {|
  admission := admissionOf (sample_flags "10m");
  podReconciler := {| ClassDataHandler := Some sample_class_handler; DefaultClass := "default";
                      EnableInternalPlugin := false |};
  managerOptions := optionsOf (sample_flags "10m")
|}.

(** The secret prepared for the sample pod. *)
Definition running_secret : Secret :=
  match @prepare Cluster nat string (option DirectoryHandler) sample_owner sample_toml
    directory_handler_ptr range_forward (podReconciler running_operator) (sample_gates false)
    (sample_state running_operator)
    (stored_pod "web-7d4b9-hj2xz" "uid-1" (admitted_pod running_operator)) with
  | (_, Ok s) => s
  | _ => foreign_secret
  end.

Lemma injected_pod_gets_its_secret_witness :
  ∃ st' n, @Reconcile Cluster nat string _ cluster_client sample_owner sample_toml
      directory_handler_ptr range_forward (podReconciler running_operator) (sample_gates false)
      (sample_state running_operator) "shop" "web-7d4b9-hj2xz" = (st', Ok done_result) ∧
    @stored Cluster nat cluster_client cluster_server (world st') "shop" n =
      Some running_secret ∧
    secret_StringData running_secret !! "telegraf.conf" = Some "cpu,prometheus".
Proof.
  pose proof (@injected_pod_gets_its_secret Cluster nat string ops sample_generator cluster_client
    cluster_server sample_owner sample_owner_laws sample_toml sample_selectors (λ _, true)
    range_forward (sample_fs true) (λ _, true) (sample_flags "10m") running_operator
    (sample_gates false) 0 request_pod (admitted_pod running_operator)
    (stored_pod "web-7d4b9-hj2xz" "uid-1" (admitted_pod running_operator))
    (sample_state running_operator) "web-7d4b9-hj2xz" "cpu,prometheus" running_secret
    ltac:(vm_compute; reflexivity)) as Hr.
  specialize (Hr ltac:(vm_compute; reflexivity) ltac:(vm_compute; reflexivity) eq_refl eq_refl).
  specialize (Hr ltac:(vm_compute; reflexivity) ltac:(vm_compute; reflexivity)
    ltac:(vm_compute; reflexivity) ltac:(vm_compute; reflexivity) ltac:(vm_compute; reflexivity)).
  change (pod_Namespace (stored_pod "web-7d4b9-hj2xz" "uid-1" (admitted_pod running_operator)))
    with "shop" in Hr.
  destruct (Reconcile _ _ _ "shop" _) as [st' res].
  destruct Hr as (-> & n & _ & Hs & _ & Hd & _).
  exists st', n. split; [reflexivity|]. split; [exact Hs|exact Hd].
Defined.
