(* ===== verification/CommandLine.v ===== *)
(** The command line: the flags that [cmd/main.go] declares, [flag.Parse] over
    them, and the program from its arguments to the running operator. *)
From S2P Require Import Prelude GoStrings GoStrconv GoTime GoFlag OptConfig FeatureGate ClassData.
From S2P Require Import K8s Sidecar Injector TelegrafConfig PodController Operator.
From coqutil Require Import Datatypes.RecordSetters.
Import TriangleBracketNotations.

(** The variables that the flags set: those of [main], the gates of the global
    registry, and the variables [X] of the flags that other packages declare
    (the logger's options, [kubeconfig]). *)
Record Variables (X : Type) := {
  flags : Flags; gateRegistry : Registry; foreign : X
}.
Arguments Build_Variables {X} flags gateRegistry foreign.
Arguments flags {X} v.
Arguments gateRegistry {X} v.
Arguments foreign {X} v.

(** Errors of [Set]: [errParse] of package [flag], those of the optional values
    and those of the gates. *)
Inductive SetError (M : Type) :=
| ErrParse
| ErrNum (e : NumError)
| ErrGates (e : M)
| ErrForeign.
Arguments ErrParse {M}.
Arguments ErrNum {M} e.
Arguments ErrGates {M} e.
Arguments ErrForeign {M}.

(** The values of Go's variables before any assignment. *)
Definition zeroFlags : Flags := {|
  metricsAddr := ""; probeAddr := ""; enableLeaderElection := false;
  leaderElectLeaseDuration := 0; leaderElectRenewDeadline := 0; leaderElectRetryPeriod := 0;
  leaderElectReleaseOnCancel := false; secureMetrics := false; enableHTTP2 := false;
  telegrafClassesDirectory := ""; telegrafDefaultClass := "";
  telegrafEnableIntervalPlugin := false; telegrafSecretNamePrefix := ""; telegrafImage := "";
  telegrafRequestsCPU := ""; telegrafRequestsMemory := "";
  telegrafLimitsCPU := ""; telegrafLimitsMemory := ""; telegrafWatchConfig := "";
  telegrafSecurityRunAsUser := {| int64_value := None |};
  telegrafSecurityRunAsGroup := {| int64_value := None |};
  telegrafSecurityRunAsNonRoot := {| bool_value := None |};
  telegrafSecurityReadOnlyRootFS := {| bool_value := None |};
  telegrafSecurityAllowPrivEsc := {| bool_value := None |};
  telegrafSecurityCapAdd := ""; telegrafSecurityCapDrop := "";
  disableCacheOptimizations := false
|}.

(** A pointer to a variable of [main], as the flags use it. *)
Record pointer (A : Type) := { load : Flags → A; store : A → Flags → Flags }.
Arguments load {A} p _.
Arguments store {A} p _ _.

Local Notation "'&' x" := {| load := x; store := λ v f, f <| x := v |> |} (at level 5).

Section declarations.
Context `{MapRange} {M : Type} `{Multierr M} {X : Type}.
Abbreviation S := (Variables X).
Abbreviation FlagValue := (Value S (SetError M)).
Abbreviation FlagSet := (gmap string FlagValue).

Definition onFlags (f : Flags → Flags) (s : S) : S :=
  {| flags := f (flags s); gateRegistry := gateRegistry s; foreign := foreign s |}.

(** A declaration registers the flag; [StringVar], [BoolVar] and [DurationVar]
    also assign the default. *)
Record Declaration := declare { decl_name : string; decl_value : FlagValue; decl_default : S → S }.

Definition StringVar (p : pointer string) (name default : string) : Declaration :=
  declare name (stringValue (λ v, onFlags (store p v))) (onFlags (store p default)).

Definition BoolVar (p : pointer bool) (name : string) (default : bool) : Declaration :=
  declare name (boolValue ErrParse (λ v, onFlags (store p v))) (onFlags (store p default)).

Definition DurationVar (p : pointer Z) (name : string) (default : Z) : Declaration :=
  declare name (durationValue ErrParse (λ v, onFlags (store p v))) (onFlags (store p default)).

(** [flag.Var] of a [*config.OptionalInt64] and of a [*config.OptionalBool]:
    neither has a method [IsBoolFlag]. *)
Definition VarInt64 (p : pointer OptionalInt64) (name : string) : Declaration :=
  declare name (mkValue (λ text s,
    let '(o, e) := OptInt64.Set_ (load p (flags s)) text in
    (onFlags (store p o) s, ErrNum <$> e)) false) id.

Definition VarBool (p : pointer OptionalBool) (name : string) : Declaration :=
  declare name (mkValue (λ text s,
    let '(o, e) := OptBool.Set_ (load p (flags s)) text in
    (onFlags (store p o) s, ErrNum <$> e)) false) id.

(** [featuregate.RegisterFlags]: the flag sets the gates of the registry. *)
Definition featureGatesFlag : string := "feature-gates".

Definition flagValue : FlagValue :=
  mkValue (λ text s,
    let '(r, e) := flagSet (gateRegistry s) text in
    ({| flags := flags s; gateRegistry := r; foreign := foreign s |}, ErrGates <$> e)) false.

Definition RegisterFlags : Declaration := declare featureGatesFlag flagValue id.

(** The declarations of [main], in order. *)
Definition declarations : list Declaration := [
  StringVar (& metricsAddr) "metrics-bind-address" ":8080";
  StringVar (& probeAddr) "health-probe-bind-address" ":8081";
  BoolVar (& enableLeaderElection) "leader-elect" false;
  DurationVar (& leaderElectLeaseDuration) "leader-elect-lease-duration" (35 * Second);
  DurationVar (& leaderElectRenewDeadline) "leader-elect-renew-deadline" (30 * Second);
  DurationVar (& leaderElectRetryPeriod) "leader-elect-retry-period" (5 * Second);
  BoolVar (& leaderElectReleaseOnCancel) "leader-elect-release-on-cancel" true;
  BoolVar (& secureMetrics) "metrics-secure" false;
  BoolVar (& enableHTTP2) "enable-http2" false;
  RegisterFlags;
  StringVar (& telegrafClassesDirectory) "telegraf-classes-directory" "/etc/config/classes";
  StringVar (& telegrafDefaultClass) "telegraf-default-class" "default";
  BoolVar (& telegrafEnableIntervalPlugin) "telegraf-enable-internal-plugin" false;
  StringVar (& telegrafImage) "telegraf-image" defaultTelegrafImage;
  StringVar (& telegrafRequestsCPU) "telegraf-requests-cpu" defaultTelegrafRequestsCPU;
  StringVar (& telegrafRequestsMemory) "telegraf-requests-memory" defaultTelegrafRequestsMemory;
  StringVar (& telegrafLimitsCPU) "telegraf-limits-cpu" defaultTelegrafLimitsCPU;
  StringVar (& telegrafLimitsMemory) "telegraf-limits-memory" defaultTelegrafLimitsMemory;
  StringVar (& telegrafSecretNamePrefix) "telegraf-secret-name-prefix" defaultTelegrafSecretNamePrefix;
  StringVar (& telegrafWatchConfig) "telegraf-watch-config" "";
  VarInt64 (& telegrafSecurityRunAsUser) "telegraf-security-run-as-user";
  VarInt64 (& telegrafSecurityRunAsGroup) "telegraf-security-run-as-group";
  VarBool (& telegrafSecurityRunAsNonRoot) "telegraf-security-run-as-non-root";
  VarBool (& telegrafSecurityReadOnlyRootFS) "telegraf-security-readonly-rootfs";
  VarBool (& telegrafSecurityAllowPrivEsc) "telegraf-security-allow-privilege-escalation";
  StringVar (& telegrafSecurityCapAdd) "telegraf-security-capabilities-add" "";
  StringVar (& telegrafSecurityCapDrop) "telegraf-security-capabilities-drop" "";
  BoolVar (& disableCacheOptimizations) "disable-cache-optimizations" false
].

(** ** The flags of other packages

    controller-runtime declares [kubeconfig] when it is loaded, and
    [opts.BindFlags] declares the logger's flags at the end.  Each sets variables
    of its own package, or refuses the text. *)
Record ForeignFlag := {
  foreign_Set : string → option (X → X);
  foreign_IsBoolFlag : bool
}.

Definition foreignValue (v : ForeignFlag) : FlagValue :=
  mkValue (λ text s,
    match foreign_Set v text with
    | Some update => ({| flags := flags s; gateRegistry := gateRegistry s;
                         foreign := update (foreign s) |}, None)
    | None => (s, Some ErrForeign)
    end) (foreign_IsBoolFlag v).

Definition foreignDeclaration (nv : string * ForeignFlag) : Declaration :=
  declare nv.1 (foreignValue nv.2) id.
End declarations.
Arguments ForeignFlag X : clear implicits.

Class ForeignFlags (X : Type) := {
  loadedFlags : list (string * ForeignFlag X);
  BindFlags : list (string * ForeignFlag X)
}.

Definition flagNames : list string := [
  "metrics-bind-address"; "health-probe-bind-address"; "leader-elect";
  "leader-elect-lease-duration"; "leader-elect-renew-deadline"; "leader-elect-retry-period";
  "leader-elect-release-on-cancel"; "metrics-secure"; "enable-http2"; "feature-gates";
  "telegraf-classes-directory"; "telegraf-default-class"; "telegraf-enable-internal-plugin";
  "telegraf-image"; "telegraf-requests-cpu"; "telegraf-requests-memory"; "telegraf-limits-cpu";
  "telegraf-limits-memory"; "telegraf-secret-name-prefix"; "telegraf-watch-config";
  "telegraf-security-run-as-user"; "telegraf-security-run-as-group";
  "telegraf-security-run-as-non-root"; "telegraf-security-readonly-rootfs";
  "telegraf-security-allow-privilege-escalation"; "telegraf-security-capabilities-add";
  "telegraf-security-capabilities-drop"; "disable-cache-optimizations"
].

Definition valid_name (name : string) : bool :=
  bool_decide (name ≠ "") && negb (HasPrefix name "-") && negb (Contains name "=").

(** The other packages' names are usable, distinct, and none of [main]'s. *)
Class ForeignFlagsLaws (X : Type) `{ForeignFlags X} : Prop := {
  foreign_NoDup : NoDup (loadedFlags ++ BindFlags).*1;
  foreign_valid : Forall (λ name, valid_name name = true) (loadedFlags ++ BindFlags).*1;
  foreign_disjoint : Forall (λ name, name ∉ flagNames) (loadedFlags ++ BindFlags).*1
}.

(** ** The program *)

Section program.
Context {Q : Type} `{QuantityOps Q} `{MapRange} {M : Type} `{Multierr M} {X : Type} `{ForeignFlags X}.
Variable toml_Parse : string → bool.

(** What is declared when [flag.Parse] is called, in the order of declaration. *)
Definition allDeclarations : list (@Declaration M X) :=
  (foreignDeclaration <$> loadedFlags) ++ declarations ++ (foreignDeclaration <$> BindFlags).

Definition declareFlag (acc : gmap string (Value (Variables X) (SetError M)) * Variables X)
    (d : Declaration) : result Empty_set (gmap string (Value (Variables X) (SetError M)) * Variables X) :=
  formal ← Var acc.1 (decl_name d) (decl_value d); Ok (formal, decl_default d acc.2).

Definition CommandLine (r : Registry) (x : X)
    : result Empty_set (gmap string (Value (Variables X) (SetError M)) * Variables X) :=
  foldl (λ acc d, acc ← acc; declareFlag acc d)
    (Ok (∅, {| flags := zeroFlags; gateRegistry := r; foreign := x |})) allDeclarations.

(** [ExitOnError]: status 0 after [-help], 2 after the other errors of the flags;
    the exits of [main] itself have status 1. *)
Inductive ProgramExit :=
| ExitFlags (e : ParseError (SetError M))
| ExitMain (e : Exit).

Definition exitStatus (e : ProgramExit) : Z :=
  match e with
  | ExitFlags ErrHelp => 0
  | ExitFlags _ => 2
  | ExitMain _ => 1
  end.

(** The program with the arguments [args] and the other packages' variables [x]:
    the gates are registered, the flags declared and parsed, and [main] goes on
    with them.  The arguments left by [Parse] are not looked at. *)
Definition program (fs : FileSystem) (setup : SetupStep → bool) (x : X) (args : list string)
    : result ProgramExit (Operator * GateState) :=
  match initGates (E:=Empty_set) with
  | Panic w => Panic w
  | Err e => match e with end
  | Ok (r, gateVars) =>
      match CommandLine r x with
      | Panic w => Panic w
      | Err e => match e with end
      | Ok (formal, s) =>
          match Parse formal args s with
          | Some (_, s, None) =>
              match main (Q:=Q) toml_Parse fs setup (flags s) with
              | Ok op => Ok (op, {| registry := gateRegistry s; variables := gateVars |})
              | Err e => Err (ExitMain e)
              | Panic w => Panic w
              end
          | Some (_, _, Some e) => Err (ExitFlags e)
          | None => Panic "flag.Parse"
          end
      end
  end.
End program.
Arguments ProgramExit M : clear implicits.

(** ** The variables after a list of settings, the latest first

    What [main] reads in its variables: the last value given to the flag, parsed,
    or the default. *)
Fixpoint last_value (name : string) (l : list (string * string)) : option string :=
  match l with
  | [] => None
  | (n, v) :: l => if String.eqb n name then Some v else last_value name l
  end.

Definition text_of (name d : string) (l : list (string * string)) : string :=
  default d (last_value name l).

Definition parsed_of {E A} (parse : string → result E A) (name : string) (d : A)
    (l : list (string * string)) : A :=
  match last_value name l with
  | Some text => match parse text with Ok a => a | _ => d end
  | None => d
  end.

Definition bool_of := parsed_of ParseBool.
Definition duration_of := parsed_of ParseDuration.
Definition int64_of name :=
  parsed_of (λ text, v ← ParseInt text 64; Ok {| int64_value := Some v |}) name {| int64_value := None |}.
Definition optbool_of name :=
  parsed_of (λ text, v ← ParseBool text; Ok {| bool_value := Some v |}) name {| bool_value := None |}.

Definition flags_of (l : list (string * string)) : Flags := {|
  metricsAddr := text_of "metrics-bind-address" ":8080" l;
  probeAddr := text_of "health-probe-bind-address" ":8081" l;
  enableLeaderElection := bool_of "leader-elect" false l;
  leaderElectLeaseDuration := duration_of "leader-elect-lease-duration" (35 * Second) l;
  leaderElectRenewDeadline := duration_of "leader-elect-renew-deadline" (30 * Second) l;
  leaderElectRetryPeriod := duration_of "leader-elect-retry-period" (5 * Second) l;
  leaderElectReleaseOnCancel := bool_of "leader-elect-release-on-cancel" true l;
  secureMetrics := bool_of "metrics-secure" false l;
  enableHTTP2 := bool_of "enable-http2" false l;
  telegrafClassesDirectory := text_of "telegraf-classes-directory" "/etc/config/classes" l;
  telegrafDefaultClass := text_of "telegraf-default-class" "default" l;
  telegrafEnableIntervalPlugin := bool_of "telegraf-enable-internal-plugin" false l;
  telegrafSecretNamePrefix := text_of "telegraf-secret-name-prefix" "telegraf-config" l;
  telegrafImage := text_of "telegraf-image" "docker.io/library/telegraf:1.30-alpine" l;
  telegrafRequestsCPU := text_of "telegraf-requests-cpu" "100m" l;
  telegrafRequestsMemory := text_of "telegraf-requests-memory" "100Mi" l;
  telegrafLimitsCPU := text_of "telegraf-limits-cpu" "" l;
  telegrafLimitsMemory := text_of "telegraf-limits-memory" "300Mi" l;
  telegrafWatchConfig := text_of "telegraf-watch-config" "" l;
  telegrafSecurityRunAsUser := int64_of "telegraf-security-run-as-user" l;
  telegrafSecurityRunAsGroup := int64_of "telegraf-security-run-as-group" l;
  telegrafSecurityRunAsNonRoot := optbool_of "telegraf-security-run-as-non-root" l;
  telegrafSecurityReadOnlyRootFS := optbool_of "telegraf-security-readonly-rootfs" l;
  telegrafSecurityAllowPrivEsc := optbool_of "telegraf-security-allow-privilege-escalation" l;
  telegrafSecurityCapAdd := text_of "telegraf-security-capabilities-add" "" l;
  telegrafSecurityCapDrop := text_of "telegraf-security-capabilities-drop" "" l;
  disableCacheOptimizations := bool_of "disable-cache-optimizations" false l
|}.

Definition boolFlags : list string := [
  "leader-elect"; "leader-elect-release-on-cancel"; "metrics-secure"; "enable-http2";
  "telegraf-enable-internal-plugin"; "disable-cache-optimizations"
].
Definition optionalBoolFlags : list string := [
  "telegraf-security-run-as-non-root"; "telegraf-security-readonly-rootfs";
  "telegraf-security-allow-privilege-escalation"
].
Definition durationFlags : list string :=
  ["leader-elect-lease-duration"; "leader-elect-renew-deadline"; "leader-elect-retry-period"].
Definition int64Flags : list string :=
  ["telegraf-security-run-as-user"; "telegraf-security-run-as-group"].

Section settings.
Context `{MapRange} {M : Type} `{Multierr M} {X : Type} `{ForeignFlags X}.

Definition foreignMap : gmap string (ForeignFlag X) := list_to_map (loadedFlags ++ BindFlags).

(** The texts that a flag takes, in a program with the gates of [r]. *)
Definition takes (r : Registry) (nv : string * string) : bool :=
  let '(name, value) := nv in
  if existsb (String.eqb name) (boolFlags ++ optionalBoolFlags) then is_ok (ParseBool value)
  else if existsb (String.eqb name) durationFlags then is_ok (ParseDuration value)
  else if existsb (String.eqb name) int64Flags then is_ok (ParseInt value 64)
  else if String.eqb name featureGatesFlag
  then forallb (λ gb, bool_decide (is_Some (gates r !! gb.1))) (gate_settings value)
  else match foreignMap !! name with
       | Some v => bool_decide (is_Some (foreign_Set v value))
       | None => true
       end.

Definition gates_of (r : Registry) (l : list (string * string)) : Registry :=
  foldr (λ '(n, v) r, if String.eqb n featureGatesFlag then (flagSet (E:=M) r v).1 else r) r l.

Definition foreign_of (x : X) (l : list (string * string)) : X :=
  foldr (λ '(n, v) x, match foreignMap !! n ≫= λ f, foreign_Set f v with
                      | Some update => update x
                      | None => x
                      end) x l.

Definition variables_of (r : Registry) (x : X) (l : list (string * string)) : Variables X :=
  {| flags := flags_of l; gateRegistry := gates_of r l; foreign := foreign_of x l |}.

Definition formalFlags : gmap string (Value (Variables X) (SetError M)) :=
  list_to_map ((λ d, (decl_name d, decl_value d)) <$> allDeclarations).
End settings.

(** * Lemmas *)

Lemma valid_name_spec name :
  valid_name name = true ↔ name ≠ "" ∧ HasPrefix name "-" = false ∧ Contains name "=" = false.
Proof.
  unfold valid_name. rewrite !andb_true_iff, !negb_true_iff, bool_decide_eq_true. tauto.
Qed.

Lemma flagNames_NoDup : NoDup flagNames.
Proof. apply (bool_decide_unpack _). vm_compute. exact I. Qed.

Lemma flagNames_valid : Forall (λ name, valid_name name = true) flagNames.
Proof. apply (bool_decide_unpack _). vm_compute. exact I. Qed.

Section lemmas.
Context `{MapRange} {M : Type} `{Multierr M} {X : Type} `{ForeignFlagsLaws X}.

Lemma declarations_names : decl_name <$> declarations (M:=M) (X:=X) = flagNames.
Proof. reflexivity. Qed.

Lemma allDeclarations_names :
  decl_name <$> allDeclarations (M:=M) = loadedFlags.*1 ++ flagNames ++ BindFlags.*1.
Proof.
  unfold allDeclarations. rewrite !fmap_app, declarations_names, <- !list_fmap_compose. done.
Qed.

Lemma foreign_not_main name : name ∈ (loadedFlags ++ BindFlags).*1 → name ∉ flagNames.
Proof. pose proof foreign_disjoint as Hd. rewrite Forall_forall in Hd. apply Hd. Qed.

Lemma allDeclarations_NoDup : NoDup (decl_name <$> allDeclarations (M:=M)).
Proof.
  rewrite allDeclarations_names. pose proof foreign_NoDup as Hf. pose proof foreign_not_main as Hd.
  rewrite fmap_app in *. apply NoDup_app in Hf as (Hl & Hlb & Hb).
  apply NoDup_app. split_and!; [done| |].
  - intros n Hn [Hm|Hm]%elem_of_app; [|by apply (Hlb n)].
    revert Hm. apply Hd. apply elem_of_app. by left.
  - apply NoDup_app. split_and!; [apply flagNames_NoDup| |done].
    intros n Hn Hm. revert Hn. apply Hd. apply elem_of_app. by right.
Qed.

Lemma allDeclarations_valid :
  Forall (λ name, valid_name name = true) (decl_name <$> allDeclarations (M:=M)).
Proof.
  rewrite allDeclarations_names. pose proof foreign_valid as Hv. rewrite fmap_app in Hv.
  apply Forall_app in Hv as [Hl Hb]. rewrite !Forall_app. auto using flagNames_valid.
Qed.

Lemma declareFlag_fold (l : list (@Declaration M X)) acc :
  NoDup (decl_name <$> l) → Forall (λ name, valid_name name = true) (decl_name <$> l) →
  Forall (λ name, acc.1 !! name = None) (decl_name <$> l) →
  foldl (λ acc d, acc ← acc; declareFlag acc d) (Ok acc) l =
  Ok (list_to_map ((λ d, (decl_name d, decl_value d)) <$> l) ∪ acc.1,
      foldl (λ s d, decl_default d s) acc.2 l).
Proof.
  revert acc. induction l as [|d l IH]; intros [m s]; csimpl; [by rewrite (left_id_L ∅ (∪))|].
  rewrite !NoDup_cons, !Forall_cons. intros [Hd Hnd] [Hv Hvs] [Hm Hms].
  apply valid_name_spec in Hv as (_ & Hp & Hc).
  assert (declareFlag (m, s) d = Ok (<[decl_name d := decl_value d]> m, decl_default d s)) as ->.
  { unfold declareFlag, Var. cbn [fst snd] in *. by rewrite Hp, Hc, Hm. }
  rewrite IH by (try done; cbn; apply Forall_forall; intros n Hn;
    rewrite Forall_forall in Hms; rewrite lookup_insert_ne by (by intros <-); by apply Hms).
  f_equal. f_equal. cbn. rewrite <- insert_union_r; [by rewrite insert_union_l|].
  apply not_elem_of_list_to_map_1. by rewrite <- list_fmap_compose.
Qed.

(** No declaration panics, and the variables start with the defaults. *)
Lemma CommandLine_ok r x : CommandLine r x = Ok (formalFlags (M:=M), variables_of r x []).
Proof.
  unfold CommandLine. rewrite declareFlag_fold; [|apply allDeclarations_NoDup
    |apply allDeclarations_valid|apply Forall_forall; intros; apply lookup_empty].
  cbn [fst snd]. rewrite (right_id_L ∅ (∪)). unfold formalFlags. f_equal. f_equal.
  unfold allDeclarations. rewrite !foldl_app.
  assert (∀ (l : list (string * ForeignFlag X)) (s : Variables X),
    foldl (λ s d, decl_default d s) s (foreignDeclaration (M:=M) <$> l) = s) as Hf.
  { intros l. induction l as [|d l IH]; intros s; [done|]. apply IH. }
  by rewrite !Hf.
Qed.

Lemma formalFlags_elem name v :
  formalFlags !! name = Some v ↔
  (name, v) ∈ (λ d, (decl_name d, decl_value d)) <$> allDeclarations (M:=M).
Proof.
  symmetry. apply elem_of_list_to_map. rewrite <- list_fmap_compose. apply allDeclarations_NoDup.
Qed.

Lemma formalFlags_names name :
  is_Some (formalFlags (M:=M) !! name) ↔ name ∈ flagNames ∨ name ∈ (loadedFlags ++ BindFlags).*1.
Proof.
  assert (is_Some (formalFlags (M:=M) !! name) ↔ name ∈ decl_name <$> allDeclarations (M:=M)) as ->.
  { split.
    - intros [v Hv]. apply formalFlags_elem, list_elem_of_fmap in Hv as (d & [= -> _] & Hd).
      apply list_elem_of_fmap. eauto.
    - intros (d & -> & Hd)%list_elem_of_fmap. exists (decl_value d).
      apply formalFlags_elem, list_elem_of_fmap. eauto. }
  rewrite allDeclarations_names, fmap_app, !elem_of_app. tauto.
Qed.

Lemma formalFlags_ok : formal_ok (formalFlags (M:=M)).
Proof.
  intros name [v Hv]. apply formalFlags_elem, list_elem_of_fmap in Hv as (d & [= -> _] & Hd).
  pose proof allDeclarations_valid as Ha. rewrite Forall_fmap, Forall_forall in Ha.
  apply Ha, valid_name_spec in Hd as (_ & ? & ?). split; [done|]. by apply free_of_Contains.
Qed.

Lemma formalFlags_nonempty name : is_Some (formalFlags (M:=M) !! name) → name ≠ "".
Proof.
  intros [v Hv]. apply formalFlags_elem, list_elem_of_fmap in Hv as (d & [= -> _] & Hd).
  pose proof allDeclarations_valid as Ha. rewrite Forall_fmap, Forall_forall in Ha.
  by apply Ha, valid_name_spec in Hd as (? & _).
Qed.
End lemmas.

(** ** One setting *)

Section step.
Context `{MapRange} {M : Type} `{Multierr M} {X : Type} `{ForeignFlagsLaws X}.

Lemma foreignMap_elem n v : foreignMap !! n = Some v ↔ (n, v) ∈ loadedFlags ++ BindFlags.
Proof. symmetry. apply elem_of_list_to_map, foreign_NoDup. Qed.

Lemma foreignMap_main n : n ∈ flagNames → foreignMap !! n = None.
Proof.
  intros Hn. destruct (foreignMap !! n) as [v|] eqn:Hv; [|done].
  apply foreignMap_elem in Hv. destruct (foreign_not_main n); [|done].
  apply list_elem_of_fmap. by exists (n, v).
Qed.

Lemma ParseBool_no_panic v : panics (ParseBool v) = false.
Proof. unfold ParseBool. by repeat case_bool_decide. Qed.

Definition step_ok (r : Registry) (x : X) (l : list (string * string)) (n v : string)
    (fv : Value (Variables X) (SetError M)) : Prop :=
  if takes r (n, v)
  then Set_ fv v (variables_of r x l) = (variables_of r x ((n, v) :: l), None)
  else is_Some (Set_ fv v (variables_of r x l)).2.

Lemma step_foreign x l n v : n ∈ flagNames → foreign_of x ((n, v) :: l) = foreign_of x l.
Proof. intros Hn. cbn [foreign_of foldr]. by rewrite (foreignMap_main n Hn). Qed.

Lemma step_main_ok r x l d v :
  d ∈ declarations (M:=M) (X:=X) → decl_name d ≠ featureGatesFlag →
  step_ok r x l (decl_name d) v (decl_value d).
Proof.
  intros Hd. assert (decl_name d ∈ flagNames) as Hn.
  { rewrite <- (declarations_names (M:=M) (X:=X)). by apply list_elem_of_fmap_2. }
  unfold step_ok, takes, variables_of at 2. rewrite (step_foreign x l _ v Hn), (foreignMap_main _ Hn). clear Hn.
  unfold declarations in Hd.
  repeat (apply elem_of_cons in Hd as [->|Hd]); [..|by apply elem_of_nil in Hd].
  all: intros Hne; cbn [existsb boolFlags].
  all: unfold variables_of, flags_of, bool_of, duration_of, int64_of, optbool_of, parsed_of;
    simpl; unfold OptInt64.Set_, OptBool.Set_; try done.
  all: try (pose proof (ParseBool_no_panic v) as Hp; destruct (ParseBool v);
    [reflexivity|by eexists|done]).
  all: try (destruct (ParseDuration v); [reflexivity|by eexists..]).
  all: pose proof (ParseInt_no_panic v 64) as Hp; destruct (ParseInt v 64);
    [reflexivity|by eexists|done].
Qed.

Lemma flagNames_takes r n v :
  n ∉ flagNames →
  takes r (n, v) = match foreignMap !! n with
                   | Some f => bool_decide (is_Some (foreign_Set f v))
                   | None => true
                   end.
Proof.
  intros Hn. unfold takes.
  assert (∀ names, names ⊆ flagNames → existsb (String.eqb n) names = false) as Hs.
  { intros names Hsub. apply not_true_iff_false. intros (m & Hm & Hnm)%existsb_exists.
    apply String.eqb_eq in Hnm as <-. apply Hn, Hsub. by apply list_elem_of_In. }
  rewrite !Hs by (apply (bool_decide_unpack _); vm_compute; exact I).
  destruct (String.eqb n featureGatesFlag) eqn:E; [|done].
  apply String.eqb_eq in E as ->. destruct Hn. apply (bool_decide_unpack _); vm_compute; exact I.
Qed.

Lemma step_foreign_ok r x l n (f : ForeignFlag X) v :
  (n, f) ∈ loadedFlags ++ BindFlags → step_ok r x l n v (foreignValue f).
Proof.
  intros Hf. assert (n ∉ flagNames) as Hn.
  { apply foreign_not_main, list_elem_of_fmap. by exists (n, f). }
  assert (foreignMap !! n = Some f) as Hm by by apply foreignMap_elem.
  unfold step_ok. rewrite flagNames_takes, Hm by done.
  assert (String.eqb n featureGatesFlag = false) as Hg.
  { apply String.eqb_neq. intros ->. apply Hn. apply (bool_decide_unpack _); vm_compute; exact I. }
  assert (∀ name, name ∈ flagNames → String.eqb n name = false) as Hlv.
  { intros name Hname. apply String.eqb_neq. by intros ->. }
  assert (flags_of ((n, v) :: l) = flags_of l) as Hfl.
  { unfold flags_of, bool_of, duration_of, int64_of, optbool_of, parsed_of, text_of.
    cbn [last_value]. rewrite !Hlv by (apply (bool_decide_unpack _); vm_compute; exact I). done. }
  unfold variables_of at 2. rewrite Hfl. cbn [gates_of foreign_of foldr]. rewrite Hg, Hm.
  cbn [mbind option_bind foreignValue Set_]. destruct (foreign_Set f v) as [u|]; [done|by eexists].
Qed.

Lemma gates_of_inv r l :
  registry_inv r → registry_inv (gates_of (M:=M) r l) ∧ gates (gates_of (M:=M) r l) = gates r.
Proof.
  intros Hr. induction l as [|[n v] l [IHi IHg]]; [done|]. cbn [gates_of foldr].
  destruct (String.eqb n featureGatesFlag); [|by split].
  change (foldr _ r l) with (gates_of (M:=M) r l).
  destruct (flagSet (gates_of (M:=M) r l) v) as [r' e] eqn:Hf. rewrite flagSet_settings in Hf.
  apply apply_settings_spec in Hf as (? & Hg & _); [|done]. cbn. split; [done|by rewrite Hg].
Qed.

(** The gate flag takes a text exactly when all its names are registered. *)
Lemma flagSet_error r v :
  registry_inv r →
  forallb (λ gb, bool_decide (is_Some (gates r !! gb.1))) (gate_settings v) = true ↔
  (flagSet (E:=M) r v).2 = None.
Proof.
  intros Hr. destruct (flagSet r v) as [r' e] eqn:Hf. rewrite flagSet_settings in Hf.
  apply apply_settings_spec in Hf as (_ & _ & _ & He); [|done]. cbn. rewrite He, forallb_forall.
  split.
  - intros Hall. split; [done|]. intros n b Hn%list_elem_of_In.
    by apply Hall, bool_decide_eq_true in Hn.
  - intros [_ Hall] [n b] Hn%list_elem_of_In. apply bool_decide_eq_true. by eapply Hall.
Qed.

Lemma step_gates_ok r x l v :
  registry_inv r → step_ok r x l featureGatesFlag v flagValue.
Proof.
  intros Hr. assert (featureGatesFlag ∈ flagNames) as Hn.
  { apply (bool_decide_unpack _); vm_compute; exact I. }
  destruct (gates_of_inv r l Hr) as [Hi Hg].
  unfold step_ok, takes, variables_of at 2. rewrite (step_foreign x l _ v Hn).
  assert (flags_of ((featureGatesFlag, v) :: l) = flags_of l) as -> by reflexivity.
  cbn [existsb boolFlags optionalBoolFlags durationFlags int64Flags app].
  change (String.eqb featureGatesFlag featureGatesFlag) with true. cbn -[flagSet gate_settings].
  change (foldr _ r l) with (gates_of (M:=M) r l).
  pose proof (flagSet_error (gates_of (M:=M) r l) v Hi) as He. rewrite Hg in He.
  destruct (flagSet (gates_of (M:=M) r l) v) as [r' e]. cbn in He |- *.
  destruct (forallb _ (gate_settings v)).
  - by rewrite (proj1 He eq_refl).
  - destruct e as [e|]; [by eexists|]. by discriminate (proj2 He eq_refl).
Qed.

Lemma step_formal_ok r x l n v fv :
  registry_inv r → formalFlags !! n = Some fv → step_ok r x l n v fv.
Proof.
  intros Hr Hf. apply formalFlags_elem, list_elem_of_fmap in Hf as (d & [= -> ->] & Hd).
  unfold allDeclarations in Hd. rewrite !elem_of_app, !list_elem_of_fmap in Hd.
  destruct Hd as [(f & -> & Hf)|[Hd|(f & -> & Hf)]].
  - apply step_foreign_ok. apply elem_of_app. left. by destruct f.
  - destruct (decide (decl_name d = featureGatesFlag)) as [Hg|]; [|by apply step_main_ok].
    assert (d = RegisterFlags) as ->; [|by apply step_gates_ok].
    revert Hg. unfold declarations in Hd.
    repeat (apply elem_of_cons in Hd as [->|Hd]; [done|]). by apply elem_of_nil in Hd.
  - apply step_foreign_ok. apply elem_of_app. right. by destruct f.
Qed.

(** Settings are accepted when each flag takes its text, and then the variables
    are those of the list. *)
Lemma assign_takes r x l :
  registry_inv r → Forall (λ nv, is_Some (formalFlags (M:=M) !! nv.1)) l →
  assign (formalFlags (M:=M)) l (variables_of r x []) =
  if forallb (takes r) l then Some (variables_of r x (reverse l)) else None.
Proof.
  intros Hr. induction l as [|[n v] l IH] using rev_ind; [done|].
  rewrite Forall_app, Forall_singleton. intros [Hl [fv Hfv]].
  rewrite assign_app, IH, forallb_app, reverse_app by done.
  destruct (forallb (takes r) l); [|done]. cbn [mbind option_bind andb forallb assign].
  cbn in Hfv. rewrite Hfv. pose proof (step_formal_ok r x (reverse l) n v fv Hr Hfv) as Hs.
  unfold step_ok in Hs. rewrite andb_true_r. destruct (takes r (n, v)); [by rewrite Hs|].
  destruct Hs as [e He]. destruct (Set_ fv v _) as [s e']; cbn in He. by rewrite He.
Qed.

Lemma cmdline_formal formal args l rest :
  cmdline (S:=Variables X) (E:=SetError M) formal args l rest →
  Forall (λ nv, is_Some (formal !! nv.1)) l.
Proof. induction 1 as [|???? l rest Hi _ IH]; constructor; try done. by destruct Hi; eexists. Qed.

(** The whole of the parsing. *)
Lemma Parse_commandLine r x args rest s' :
  registry_inv r →
  Parse (formalFlags (M:=M)) args (variables_of r x []) = Some (rest, s', None) ↔
  ∃ l, cmdline (formalFlags (M:=M)) args l rest ∧ forallb (takes r) l = true ∧
       s' = variables_of r x (reverse l).
Proof.
  intros Hr. rewrite Parse_cmdline by apply formalFlags_ok. split.
  - intros (l & Hl & Ha). exists l. pose proof (cmdline_formal _ _ _ _ Hl) as Hn.
    rewrite assign_takes in Ha by done. destruct (forallb (takes r) l); by simplify_eq.
  - intros (l & Hl & Ht & ->). exists l. pose proof (cmdline_formal _ _ _ _ Hl) as Hn.
    by rewrite assign_takes, Ht.
Qed.
End step.
