(* ===== verification/Startup.v ===== *)
(** From the arguments to the running operator: what [CommandLine.program] does
    with every command line, and the command line that leads to given values. *)
From S2P Require Import Prelude GoStrings GoStrconv GoTime GoFlag OptConfig FeatureGate ClassData.
From S2P Require Import K8s Sidecar Injector TelegrafConfig PodController Operator CommandLine.

(** ** From the arguments to the operator *)

Lemma initGates_ok {E} : initGates (E:=E) = Ok gates_init.
Proof. vm_compute. reflexivity. Qed.

Lemma gates_init_inv : registry_inv gates_init.1.
Proof. apply registry_reach_inv, gates_init_reach. Qed.

Lemma gates_init_safe : map_Forall (λ name _, flag_safe name = true) (gates gates_init.1).
Proof. apply (bool_decide_unpack _). vm_compute. exact I. Qed.

Section program_lemmas.
Context {Q : Type} `{QuantityOps Q} `{MapRange} {M : Type} `{Multierr M} {X : Type}
  `{ForeignFlagsLaws X} (toml_Parse : string → bool).

(** The program once its flags are declared. *)
Lemma program_eq fs setup x args :
  program (Q:=Q) (M:=M) toml_Parse fs setup x args =
  match Parse (formalFlags (M:=M)) args (variables_of gates_init.1 x []) with
  | Some (_, s, None) =>
      match main (Q:=Q) toml_Parse fs setup (flags s) with
      | Ok op => Ok (op, {| registry := gateRegistry s; variables := gates_init.2 |})
      | Err e => Err (ExitMain e)
      | Panic w => Panic w
      end
  | Some (_, _, Some e) => Err (ExitFlags e)
  | None => Panic "flag.Parse"
  end.
Proof.
  unfold program. rewrite initGates_ok. destruct gates_init as [r vars]. cbn [fst snd].
  by rewrite CommandLine_ok.
Qed.

Lemma main_no_panic fs setup f : panics (main (Q:=Q) toml_Parse fs setup f) = false.
Proof.
  unfold main. destruct (validateRequestsAndLimits _); [done|].
  destruct (validateWatchConfig _); [done|].
  pose proof (NewDirectoryHandler_no_panic toml_Parse fs (telegrafClassesDirectory f)) as Hp.
  destruct (NewDirectoryHandler toml_Parse fs _); [..|done]; by destruct (List.find _ setupSteps).
Qed.

(** The grammar decides: the settings of an accepted command line. *)
Lemma program_Ok fs setup x args op g :
  program (Q:=Q) (M:=M) toml_Parse fs setup x args = Ok (op, g) ↔
  ∃ l rest, cmdline (formalFlags (M:=M)) args l rest ∧ forallb (takes gates_init.1) l = true ∧
    main (Q:=Q) toml_Parse fs setup (flags_of (reverse l)) = Ok op ∧
    g = {| registry := gates_of (M:=M) gates_init.1 (reverse l); variables := gates_init.2 |}.
Proof.
  rewrite program_eq. split.
  - destruct (Parse _ args _) as [[[rest s] [e|]]|] eqn:Hp; [done| |done].
    apply Parse_commandLine in Hp as (l & Hl & Ht & ->); [|apply gates_init_inv].
    destruct (main _ _ _ _) as [op'| |] eqn:Hm; [|done..]. intros [= <- <-]. eauto 6.
  - intros (l & rest & Hl & Ht & Hm & ->).
    assert (Parse (formalFlags (M:=M)) args (variables_of gates_init.1 x []) =
      Some (rest, variables_of gates_init.1 x (reverse l), None)) as ->.
    { apply Parse_commandLine; [apply gates_init_inv|]. eauto. }
    cbn [flags variables_of]. by rewrite Hm.
Qed.
End program_lemmas.

(** ** Single flags *)

Section single.
Context `{MapRange} {M : Type} `{Multierr M} {X : Type} `{ForeignFlagsLaws X}.

Lemma formalFlags_declared (d : @Declaration M X) :
  d ∈ declarations → formalFlags (M:=M) !! decl_name d = Some (decl_value d).
Proof.
  intros Hd. apply formalFlags_elem, list_elem_of_fmap. exists d. split; [done|].
  unfold allDeclarations. rewrite !elem_of_app. tauto.
Qed.

Lemma declared_kind name (b : bool) :
  existsb (λ d : @Declaration M X, String.eqb name (decl_name d) &&
    Bool.eqb b (IsBoolFlag (decl_value d))) declarations = true →
  ∃ v, formalFlags (M:=M) !! name = Some v ∧ IsBoolFlag v = b.
Proof.
  intros (d & Hd & [Hn Hb]%andb_true_iff)%existsb_exists.
  apply String.eqb_eq in Hn as ->. apply Bool.eqb_prop in Hb as ->.
  exists (decl_value d). split; [|done]. by apply formalFlags_declared, list_elem_of_In.
Qed.

Lemma formalFlags_bool name :
  name ∈ boolFlags → ∃ v, formalFlags (M:=M) !! name = Some v ∧ IsBoolFlag v = true.
Proof.
  intros Hn. unfold boolFlags in Hn. repeat (apply elem_of_cons in Hn as [->|Hn];
    [by apply declared_kind|]). by apply elem_of_nil in Hn.
Qed.

Lemma formalFlags_optional name :
  name ∈ optionalBoolFlags → ∃ v, formalFlags (M:=M) !! name = Some v ∧ IsBoolFlag v = false.
Proof.
  intros Hn. unfold optionalBoolFlags in Hn. repeat (apply elem_of_cons in Hn as [->|Hn];
    [by apply declared_kind|]). by apply elem_of_nil in Hn.
Qed.

Lemma formalFlags_name name v :
  formalFlags (M:=M) !! name = Some v →
  name ≠ "" ∧ HasPrefix name "-" = false ∧ HasPrefix name "=" = false ∧ free_of "=" name = true.
Proof.
  intros Hv. assert (is_Some (formalFlags (M:=M) !! name)) as Hs by by eexists.
  destruct (formalFlags_ok name Hs) as [Hd Hf]. pose proof (formalFlags_nonempty name Hs) as Hne.
  split_and!; auto using head_free.
Qed.

Lemma Parse_flag name rest s v :
  formalFlags (M:=M) !! name = Some v →
  Parse formalFlags (("--" +:+ name) :: rest) s =
  match (if IsBoolFlag v then setFlag v "true" (ErrBoolFlag name) rest s
         else match rest with
              | value :: rest => setFlag v value (ErrValue value name) rest s
              | [] => ([], s, Err (ErrNeedsArgument name))
              end) with
  | (args, s, Ok true) => Parse formalFlags args s
  | (args, s, Ok false) => Some (args, s, None)
  | (args, s, Err e) => Some (args, s, Some e)
  | (_, _, Panic _) => None
  end.
Proof.
  intros Hv. destruct (formalFlags_name _ _ Hv) as (Hne & Hd & He & Hf).
  rewrite Parse_dashes by done. unfold parseFlag. by rewrite splitFlag_name, Hv by done.
Qed.

Lemma Parse_flag_value name value rest s v :
  formalFlags (M:=M) !! name = Some v →
  Parse formalFlags (("--" +:+ name +:+ "=" +:+ value) :: rest) s =
  match setFlag v value (if IsBoolFlag v then ErrBoolValue value name else ErrValue value name)
    rest s with
  | (args, s, Ok true) => Parse formalFlags args s
  | (args, s, Ok false) => Some (args, s, None)
  | (args, s, Err e) => Some (args, s, Some e)
  | (_, _, Panic _) => None
  end.
Proof.
  intros Hv. destruct (formalFlags_name _ _ Hv) as (Hne & Hd & He & Hf).
  rewrite Parse_dashes by (rewrite ?head_app; try done; by destruct name).
  unfold parseFlag. rewrite splitFlag_value, Hv by done. by destruct (IsBoolFlag v).
Qed.

Lemma Parse_stops args rest s :
  stops args rest → Parse (formalFlags (M:=M)) args s = Some (rest, s, None).
Proof. intros Hs. unfold Parse. cbn [Parse_loop]. by rewrite (parseOne_stops _ _ _ _ Hs). Qed.

Lemma setFlag_cases (v : Value (Variables X) (SetError M)) value mk s :
  (∃ s', ∀ rest, setFlag v value mk rest s = (rest, s', Ok true)) ∨
  (∃ s' e, ∀ rest, setFlag v value mk rest s = (rest, s', Err (mk e))).
Proof. unfold setFlag. destruct (Set_ v value s) as [s' [e|]]; [right|left]; eauto. Qed.
End single.

(** ** Command lines from values *)

Definition opt_setting {A} (name : string) (show : A → string) (o : option A)
    : list (string * string) :=
  match o with Some a => [(name, show a)] | None => [] end.

(** One setting per variable that has a value, and the gates as their flag prints
    them. *)
Definition settings_of `{MapRange} (f : Flags) (r : Registry) : list (string * string) :=
  opt_setting "telegraf-security-run-as-user" FormatInt (OptInt64.Value (telegrafSecurityRunAsUser f)) ++
  opt_setting "telegraf-security-run-as-group" FormatInt (OptInt64.Value (telegrafSecurityRunAsGroup f)) ++
  opt_setting "telegraf-security-run-as-non-root" FormatBool
    (OptBool.Value (telegrafSecurityRunAsNonRoot f)) ++
  opt_setting "telegraf-security-readonly-rootfs" FormatBool
    (OptBool.Value (telegrafSecurityReadOnlyRootFS f)) ++
  opt_setting "telegraf-security-allow-privilege-escalation" FormatBool
    (OptBool.Value (telegrafSecurityAllowPrivEsc f)) ++ [
  ("metrics-bind-address", metricsAddr f);
  ("health-probe-bind-address", probeAddr f);
  ("leader-elect", FormatBool (enableLeaderElection f));
  ("leader-elect-lease-duration", DurationString (leaderElectLeaseDuration f));
  ("leader-elect-renew-deadline", DurationString (leaderElectRenewDeadline f));
  ("leader-elect-retry-period", DurationString (leaderElectRetryPeriod f));
  ("leader-elect-release-on-cancel", FormatBool (leaderElectReleaseOnCancel f));
  ("metrics-secure", FormatBool (secureMetrics f));
  ("enable-http2", FormatBool (enableHTTP2 f));
  ("feature-gates", flagString (Some r));
  ("telegraf-classes-directory", telegrafClassesDirectory f);
  ("telegraf-default-class", telegrafDefaultClass f);
  ("telegraf-enable-internal-plugin", FormatBool (telegrafEnableIntervalPlugin f));
  ("telegraf-image", telegrafImage f);
  ("telegraf-requests-cpu", telegrafRequestsCPU f);
  ("telegraf-requests-memory", telegrafRequestsMemory f);
  ("telegraf-limits-cpu", telegrafLimitsCPU f);
  ("telegraf-limits-memory", telegrafLimitsMemory f);
  ("telegraf-secret-name-prefix", telegrafSecretNamePrefix f);
  ("telegraf-watch-config", telegrafWatchConfig f);
  ("telegraf-security-capabilities-add", telegrafSecurityCapAdd f);
  ("telegraf-security-capabilities-drop", telegrafSecurityCapDrop f);
  ("disable-cache-optimizations", FormatBool (disableCacheOptimizations f))
].

(** A duration that [time.Duration.String] prints without a fraction. *)
Definition whole_seconds (d : Z) : Prop := ∃ k, (0 <= k ∧ d = k * Second ∧ d < 2 ^ 63)%Z.

Definition printable_flags (f : Flags) : Prop :=
  whole_seconds (leaderElectLeaseDuration f) ∧ whole_seconds (leaderElectRenewDeadline f) ∧
  whole_seconds (leaderElectRetryPeriod f) ∧
  int64_ok (telegrafSecurityRunAsUser f) ∧ int64_ok (telegrafSecurityRunAsGroup f).

Lemma whole_seconds_parse d : whole_seconds d → ParseDuration (DurationString d) = Ok d.
Proof. intros (k & ? & -> & ?). by apply ParseDuration_whole. Qed.

Lemma last_value_opt {A} name n (show : A → string) o l :
  last_value name (reverse (opt_setting n show o) ++ l) =
  if String.eqb n name
  then match o with Some a => Some (show a) | None => last_value name l end
  else last_value name l.
Proof. destruct o; simpl; by destruct (String.eqb n name). Qed.

(** The settings lead back to the values, and every flag takes its text. *)
Lemma flags_of_settings `{MapRange} f r :
  printable_flags f → flags_of (reverse (settings_of f r)) = f.
Proof.
  destruct f as [? ? ? ld rd rp ? ? ? ? ? ? ? ? ? ? ? ? ? [u] [g] [nr] [ro] [pe] ? ? ?].
  intros (Hld & Hrd & Hrp & Hu & Hg). cbn in Hld, Hrd, Hrp, Hu, Hg.
  apply whole_seconds_parse in Hld, Hrd, Hrp.
  unfold settings_of. rewrite !reverse_app, <- !app_assoc.
  rewrite <- (app_nil_r (reverse (opt_setting "telegraf-security-run-as-user" _ _))).
  unfold flags_of, bool_of, duration_of, int64_of, optbool_of, parsed_of, text_of. simpl.
  rewrite !last_value_opt. simpl. rewrite Hld, Hrd, Hrp, !ParseBool_FormatBool.
  f_equal.
  - destruct u as [u|]; [|done]. simpl. by rewrite ParseInt_FormatInt by (done || lia).
  - destruct g as [g|]; [|done]. simpl. by rewrite ParseInt_FormatInt by (done || lia).
  - destruct nr as [nr|]; [|done]. simpl. by rewrite ParseBool_FormatBool.
  - destruct ro as [ro|]; [|done]. simpl. by rewrite ParseBool_FormatBool.
  - destruct pe as [pe|]; [|done]. simpl. by rewrite ParseBool_FormatBool.
Qed.

Lemma gates_of_settings `{MapRange} {M} `{Multierr M} f r r0 :
  gates_of (M:=M) r0 (reverse (settings_of f r)) = (flagSet (E:=M) r0 (flagString (Some r))).1.
Proof.
  unfold settings_of.
  by destruct (OptInt64.Value (telegrafSecurityRunAsUser f)),
    (OptInt64.Value (telegrafSecurityRunAsGroup f)), (OptBool.Value (telegrafSecurityRunAsNonRoot f)),
    (OptBool.Value (telegrafSecurityReadOnlyRootFS f)),
    (OptBool.Value (telegrafSecurityAllowPrivEsc f)).
Qed.

Lemma opt_setting_Forall {A} (P : string * string → Prop) name (show : A → string) o :
  (∀ a, o = Some a → P (name, show a)) → Forall P (opt_setting name show o).
Proof. destruct o; simpl; intros; repeat constructor; auto. Qed.

Lemma settings_names `{MapRange} f r : Forall (λ nv, nv.1 ∈ flagNames) (settings_of f r).
Proof.
  unfold settings_of. rewrite !Forall_app. split_and!.
  all: try (apply opt_setting_Forall; intros a _; cbn [fst];
    apply (bool_decide_unpack _); vm_compute; exact I).
  repeat (apply Forall_cons; split; [cbn [fst]; apply (bool_decide_unpack _); vm_compute; exact I|]).
  constructor.
Qed.

Lemma settings_takes `{MapRange} {X} `{ForeignFlagsLaws X} f r r0 :
  printable_flags f →
  forallb (λ gb, bool_decide (is_Some (gates r0 !! gb.1))) (gate_settings (flagString (Some r))) = true →
  Forall (λ nv, takes r0 nv = true) (settings_of f r).
Proof.
  intros (Hld & Hrd & Hrp & Hu & Hg) Hgates. apply whole_seconds_parse in Hld, Hrd, Hrp.
  unfold settings_of. rewrite !Forall_app. split_and!.
  1,2: apply opt_setting_Forall; intros v Hv; unfold OptInt64.Value, int64_ok in *;
    rewrite Hv in *; simpl; rewrite ParseInt_FormatInt by (done || lia); done.
  1-3: apply opt_setting_Forall; intros v _; simpl; by rewrite ParseBool_FormatBool.
  repeat (apply Forall_cons; split).
  all: try (simpl; rewrite ?ParseBool_FormatBool, ?Hld, ?Hrd, ?Hrp; done).
  all: try (unfold takes; rewrite foreignMap_main;
    [done|apply (bool_decide_unpack _); vm_compute; exact I]).
Qed.

(** * Theorems *)

(** The values that the types of the variables hold. *)
Definition int64_range (z : Z) : Prop := (- 2 ^ 63 <= z < 2 ^ 63)%Z.

Definition typed_flags (f : Flags) : Prop :=
  int64_range (leaderElectLeaseDuration f) ∧ int64_range (leaderElectRenewDeadline f) ∧
  int64_range (leaderElectRetryPeriod f) ∧
  int64_ok (telegrafSecurityRunAsUser f) ∧ int64_ok (telegrafSecurityRunAsGroup f).

Lemma duration_of_range name d l : int64_range d → int64_range (duration_of name d l).
Proof.
  intros Hd. unfold duration_of, parsed_of. destruct (last_value name l) as [t|]; [|done].
  destruct (ParseDuration t) eqn:E; [|done..]. by apply ParseDuration_bounds in E.
Qed.

Lemma int64_of_ok name l : int64_ok (int64_of name l).
Proof.
  unfold int64_of, parsed_of. destruct (last_value name l) as [t|]; [|done].
  destruct (ParseInt t 64) eqn:E; [|done..]. by apply ParseInt_bounds in E; [|lia].
Qed.

Lemma flags_of_typed l : typed_flags (flags_of l).
Proof.
  unfold typed_flags. cbn [flags_of leaderElectLeaseDuration leaderElectRenewDeadline
    leaderElectRetryPeriod telegrafSecurityRunAsUser telegrafSecurityRunAsGroup].
  split_and!; try apply int64_of_ok; apply duration_of_range; unfold int64_range; unfold_units; lia.
Qed.

Lemma gates_of_reach `{MapRange} r l :
  registry_reach r → registry_reach (gates_of (M:=list GateError) r l).
Proof.
  intros Hr. induction l as [|[n v] l IH]; [done|]. cbn [gates_of foldr].
  destruct (String.eqb n featureGatesFlag); [|done]. by apply reach_flag.
Qed.

Section program_theorems.
Context {Q : Type} `{QuantityOps Q} {X : Type} `{ForeignFlagsLaws X} (toml_Parse : string → bool).

(** C13. The command line: the operator runs exactly when the arguments are
    settings of declared flags, in one of the three forms of the grammar, each
    with a text its flag takes, and [main] accepts the resulting values.  Each
    variable then holds the last value given to its flag, or its default, and
    each gate what the [--feature-gates] settings leave. *)
Theorem command_line_spec (R : MapRange) {M} `{Multierr M} fs setup x args op g :
  program (Q:=Q) (M:=M) toml_Parse fs setup x args = Ok (op, g) ↔
  ∃ l rest, cmdline (formalFlags (M:=M)) args l rest ∧ forallb (takes gates_init.1) l = true ∧
    main (Q:=Q) toml_Parse fs setup (flags_of (reverse l)) = Ok op ∧
    g = {| registry := gates_of (M:=M) gates_init.1 (reverse l); variables := gates_init.2 |}.
Proof. apply program_Ok. Qed.

(** C23. The program always gets to an operator or to one of its exits: no
    declaration clashes with another, the loop of [Parse] needs at most one round
    per argument and one, and neither parsing nor [main] panics. *)
Theorem program_terminates (R : MapRange) {M} `{Multierr M} fs setup x args :
  panics (program (Q:=Q) (M:=M) toml_Parse fs setup x args) = false ∧
  ∀ fuel, (length args < fuel)%nat →
    is_Some (Parse_loop fuel (formalFlags (M:=M)) args (variables_of gates_init.1 x [])).
Proof.
  split; [|intros; by apply Parse_loop_total]. rewrite program_eq.
  destruct (Parse_total (formalFlags (M:=M)) args (variables_of gates_init.1 x []))
    as [[[rest s] [e|]] ->]; [done|].
  pose proof (main_no_panic (Q:=Q) toml_Parse fs setup (flags s)) as Hp. by destruct (main _ _ _ _).
Qed.

(** C26. What a running operator got from its command line is within Go's types:
    durations and user and group IDs are 64-bit integers, however many digits
    the arguments had, and the gate variables point to the gates of their names. *)
Theorem program_typed (R : MapRange) fs setup x args op g :
  program (Q:=Q) (M:=list GateError) toml_Parse fs setup x args = Ok (op, g) →
  (∃ f, typed_flags f ∧ admission op = admissionOf f ∧ managerOptions op = optionsOf f) ∧
  int64_ok (SecurityRunAsUser (admission op)) ∧ int64_ok (SecurityRunAsGroup (admission op)) ∧
  registry_reach (registry g) ∧
  Get (registry g) "operator.nativesidecars" = Some (NativeSidecars (variables g)) ∧
  Get (registry g) "telegraf.aggregators" = Some (AggregatorAnnotations (variables g)) ∧
  Get (registry g) "telegraf.processors" = Some (ProcessorAnnotations (variables g)).
Proof.
  intros (l & rest & _ & _ & Hm & ->)%program_Ok. apply main_Ok in Hm as (_ & _ & _ & Ha & Hc & _).
  pose proof (flags_of_typed (reverse l)) as Ht. rewrite Ha.
  split; [by exists (flags_of (reverse l))|]. destruct Ht as (_ & _ & _ & Hu & Hg).
  split; [done|]. split; [done|]. split; [apply gates_of_reach, gates_init_reach|].
  unfold Get; cbn [registry variables].
  destruct (gates_of_inv (M:=list GateError) gates_init.1 (reverse l) gates_init_inv) as [_ ->].
  split_and!; vm_compute; reflexivity.
Qed.

(** C25. From values to arguments and back: the command line that gives each
    variable its printed value and the gates their printed state starts the
    program as [main] with these values and gates.  The durations are whole
    seconds, as all the defaults are. *)
Theorem command_line_roundtrip (R : MapRange) {M} `{Multierr M} fs setup x f r :
  printable_flags f → registry_reach r → (∀ name, Get r name = Get gates_init.1 name) →
  ∃ g, program (Q:=Q) (M:=M) toml_Parse fs setup x (render (settings_of f r)) =
      match main (Q:=Q) toml_Parse fs setup f with
      | Ok op => Ok (op, g) | Err e => Err (ExitMain e) | Panic w => Panic w end ∧
    variables g = gates_init.2 ∧
    ∀ name p, Get r name = Some p → IsEnabled (registry g) p = IsEnabled r p.
Proof.
  intros Hf Hr%registry_reach_inv Hsame.
  destruct (flagSet_flagString (E:=M) R r gates_init.1) as (r' & Hset & Hen);
    [done|apply gates_init_inv|done| |].
  { apply Forall_forall. intros name Hn%elem_of_gate_names; [|done].
    fold (Get r name) in Hn. rewrite Hsame in Hn. destruct Hn as [p Hp].
    exact (gates_init_safe name p Hp). }
  exists {| registry := r'; variables := gates_init.2 |}. split; [|done].
  rewrite program_eq.
  assert (Parse (formalFlags (M:=M)) (render (settings_of f r)) (variables_of gates_init.1 x []) =
    Some ([], variables_of gates_init.1 x (reverse (settings_of f r)), None)) as ->.
  { apply Parse_commandLine; [apply gates_init_inv|]. exists (settings_of f r). split_and!; [| |done].
    - apply cmdline_render. eapply Forall_impl; [apply settings_names|]. intros nv Hnv.
      assert (is_Some (formalFlags (M:=M) !! nv.1)) as Hs by (apply formalFlags_names; by left).
      split; [by eapply formalFlags_nonempty|done].
    - apply forallb_forall. intros nv Hnv%list_elem_of_In. revert nv Hnv. apply Forall_forall.
      apply settings_takes; [done|]. apply (flagSet_error (M:=M)); [apply gates_init_inv|].
      by rewrite Hset. }
  cbn [variables_of flags gateRegistry]. rewrite flags_of_settings, gates_of_settings, Hset by done.
  by destruct (main _ _ _ _).
Qed.

(** C24. Every exit of the flag package has its cause on the command line: after
    some accepted settings comes an argument with bad syntax, an undeclared name,
    a flag without its argument, or a text that its flag refuses; and only an
    undeclared [help] or [h] makes the program exit with status 0. *)
Theorem flag_exits (R : MapRange) {M} `{Multierr M} fs setup x args err :
  program (Q:=Q) (M:=M) toml_Parse fs setup x args = Err (ExitFlags err) →
  (∃ l args', items (formalFlags (M:=M)) args l args' ∧ forallb (takes gates_init.1) l = true ∧
     faulty (formalFlags (M:=M)) args' (variables_of gates_init.1 x (reverse l)) err) ∧
  (exitStatus (ExitFlags err) = 0%Z ↔ err = ErrHelp) ∧
  (err ≠ ErrHelp → exitStatus (ExitFlags err) = 2%Z).
Proof.
  rewrite program_eq. destruct (Parse _ args _) as [[[rest s] [e|]]|] eqn:Hp; [| |done].
  2: by destruct (main _ _ _ _).
  intros [= ->]. split; [|by destruct err].
  apply Parse_loop_Err in Hp as (l & args' & s1 & Hl & Ha & Hf). exists l, args'.
  rewrite assign_takes in Ha by (apply gates_init_inv || by eapply items_formal).
  by destruct (forallb (takes gates_init.1) l); simplify_eq.
Qed.

(** A boolean flag never takes the next argument: [--leader-elect false] sets
    the flag, and the program ignores [false] and everything after it.  An
    optional boolean is not such a flag: without [=] it takes the next argument
    as its text, and as the last argument it makes the program exit. *)
Theorem boolean_flag_arguments (R : MapRange) {M} `{Multierr M} fs setup x value rest :
  (∀ name, name ∈ boolFlags → HasPrefix value "-" = false →
     program (Q:=Q) (M:=M) toml_Parse fs setup x (("--" +:+ name) :: value :: rest) =
     program (Q:=Q) toml_Parse fs setup x ["--" +:+ name]) ∧
  (∀ name, name ∈ optionalBoolFlags →
     program (Q:=Q) (M:=M) toml_Parse fs setup x (("--" +:+ name) :: value :: rest) =
     program (Q:=Q) toml_Parse fs setup x (("--" +:+ name +:+ "=" +:+ value) :: rest) ∧
     program (Q:=Q) (M:=M) toml_Parse fs setup x ["--" +:+ name] =
     Err (ExitFlags (ErrNeedsArgument name))).
Proof.
  split; intros name Hname.
  - intros Hv. destruct (formalFlags_bool (M:=M) name Hname) as (v & Hf & Hb).
    rewrite !program_eq, (Parse_flag _ (value :: rest) _ v), (Parse_flag _ [] _ v), Hb by done.
    destruct (setFlag_cases v "true" (ErrBoolFlag name) (variables_of gates_init.1 x []))
      as [[s' Hs]|(s' & e & Hs)]; rewrite !Hs; [|done].
    rewrite (Parse_stops (value :: rest) (value :: rest)) by (constructor; by right).
    by rewrite (Parse_stops [] []) by constructor.
  - destruct (formalFlags_optional (M:=M) name Hname) as (v & Hf & Hb).
    rewrite !program_eq. split.
    + by rewrite (Parse_flag _ _ _ v), (Parse_flag_value _ _ _ _ v), Hb by done.
    + by rewrite (Parse_flag _ _ _ v), Hb by done.
Qed.
End program_theorems.

(** ** Samples and witnesses *)

Import SampleQuantity.

(** The flags that controller-runtime declares, over a record of the settings. *)
Definition sample_foreign (accepts : string → bool) (bool_flag : bool) : ForeignFlag (list string) := {|
  foreign_Set text := if accepts text then Some (λ x, x ++ [text]) else None;
  foreign_IsBoolFlag := bool_flag
|}.

#[local] Instance sample_foreign_flags : ForeignFlags (list string) := {|
  loadedFlags := [("kubeconfig", sample_foreign (λ _, true) false)];
  BindFlags := [
    ("zap-devel", sample_foreign (λ text, is_ok (ParseBool text)) true);
    ("zap-encoder", sample_foreign (λ text, bool_decide (text ∈ ["json"; "console"])) false);
    ("zap-log-level", sample_foreign (λ _, true) false);
    ("zap-stacktrace-level", sample_foreign (λ _, true) false);
    ("zap-time-encoding", sample_foreign (λ _, true) false)]
|}.

#[local] Instance sample_foreign_laws : ForeignFlagsLaws (list string).
Proof. split; apply (bool_decide_unpack _); vm_compute; exact I. Qed.

Definition sample_program (args : list string)
    : result (ProgramExit (list GateError)) (Operator * GateState) :=
  @program nat ops range_forward _ multierr_list _ sample_foreign_flags (λ _, true) (sample_fs true)
    (λ _, true) [] args.

(** Arguments of the shape that the deployments give. *)
Definition chart_args : list string := [
  "--leader-elect"; "--zap-log-level=info"; "--zap-encoder=json"; "--zap-time-encoding=rfc3339";
  "--zap-stacktrace-level=error"; "--telegraf-default-class=default";
  "--telegraf-classes-directory=/etc/config/classes"; "--telegraf-enable-internal-plugin";
  "--telegraf-secret-name-prefix=telegraf-config"; "--telegraf-requests-cpu=10m";
  "--telegraf-requests-memory=56m"; "--telegraf-limits-cpu=100m"; "--telegraf-limits-memory=128m";
  "--feature-gates=telegraf.aggregators"; "--telegraf-security-run-as-user=1000";
  "--telegraf-security-run-as-non-root=true"
].

Lemma chart_args_ok :
  match sample_program chart_args with
  | Ok (op, g) => SecurityRunAsUser (admission op) = {| int64_value := Some 1000%Z |} ∧
                  aggregator_annotations g = true
  | _ => False
  end.
Proof. vm_compute. split; reflexivity. Defined.

Lemma gates_all_on_same : gates gates_all_on = gates gates_init.1.
Proof. apply (bool_decide_unpack _). vm_compute. exact I. Qed.

Lemma command_line_spec_witness :
  ∃ op g l rest, sample_program chart_args = Ok (op, g) ∧
    cmdline (@formalFlags range_forward _ multierr_list _ sample_foreign_flags) chart_args l rest ∧
    @main nat ops range_forward (λ _, true) (sample_fs true) (λ _, true) (flags_of (reverse l)) = Ok op.
Proof.
  pose proof chart_args_ok as Hok.
  destruct (sample_program chart_args) as [[op g]| |] eqn:E; [|destruct Hok..].
  pose proof (@command_line_spec nat ops _ _ sample_foreign_laws (λ _, true) range_forward _
    multierr_list (sample_fs true) (λ _, true) [] chart_args op g) as [Hs _].
  destruct (Hs E) as (l & rest & Hl & _ & Hm & _). exists op, g, l, rest. auto.
Defined.

Lemma program_terminates_witness :
  panics (sample_program ["--feature-gates"; "-nope"; "--"; "--leader-elect"]) = false.
Proof.
  apply (@program_terminates nat ops _ _ sample_foreign_laws (λ _, true) range_forward _
    multierr_list (sample_fs true) (λ _, true) [] _).
Defined.

Lemma program_typed_witness :
  ∃ op g, sample_program chart_args = Ok (op, g) ∧
    SecurityRunAsUser (admission op) = {| int64_value := Some 1000%Z |} ∧
    int64_ok (SecurityRunAsUser (admission op)) ∧ aggregator_annotations g = true.
Proof.
  pose proof chart_args_ok as Hok.
  destruct (sample_program chart_args) as [[op g]| |] eqn:E; [|destruct Hok..].
  exists op, g. split; [done|].
  pose proof (@program_typed nat ops _ _ sample_foreign_laws (λ _, true) range_forward
    (sample_fs true) (λ _, true) [] chart_args op g E) as (_ & Hu & _).
  destruct Hok as [Hok1 Hok2]. by split_and!.
Defined.

Definition sample_settings : Flags := with_resources defaultFlags "10m" "56m" "100m" "128m".

Lemma command_line_roundtrip_witness :
  ∃ op g, sample_program (render (@settings_of range_forward sample_settings gates_all_on)) = Ok (op, g) ∧
    admission op = admissionOf sample_settings ∧ native_sidecars g = true.
Proof.
  destruct (@command_line_roundtrip nat ops _ _ sample_foreign_laws (λ _, true) range_forward _
    multierr_list (sample_fs true) (λ _, true) [] sample_settings gates_all_on) as (g & Hp & Hv & Hg).
  - unfold printable_flags, whole_seconds. split_and!; [exists 35%Z|exists 30%Z|exists 5%Z|done..];
      vm_compute; repeat split; congruence.
  - exact gates_all_on_reach.
  - intros name. exact (f_equal (lookup name) gates_all_on_same).
  - assert (is_ok (@main nat ops range_forward (λ _, true) (sample_fs true) (λ _, true)
      sample_settings) = true) as Hok by (vm_compute; reflexivity).
    destruct (@main nat ops range_forward (λ _, true) (sample_fs true) (λ _, true) sample_settings)
      as [op| |] eqn:Hm; [|discriminate Hok..].
    exists op, g. split_and!; [exact Hp|by apply main_Ok in Hm as (_ & _ & _ & ? & _)|].
    unfold native_sidecars. rewrite Hv. rewrite (Hg "operator.nativesidecars"); vm_compute; reflexivity.
Defined.

Lemma flag_exits_witness :
  sample_program ["--leader-elect"; "-help"] = Err (ExitFlags ErrHelp) ∧
  ∃ l args', items (@formalFlags range_forward _ multierr_list _ sample_foreign_flags)
    ["--leader-elect"; "-help"] l args' ∧
    faulty (@formalFlags range_forward _ multierr_list _ sample_foreign_flags) args'
      (@variables_of range_forward _ multierr_list _ sample_foreign_flags gates_init.1 [] (reverse l))
      ErrHelp.
Proof.
  assert (sample_program ["--leader-elect"; "-help"] = Err (ExitFlags ErrHelp)) as E
    by (vm_compute; reflexivity).
  split; [exact E|].
  destruct (@flag_exits nat ops _ _ sample_foreign_laws (λ _, true) range_forward _
    multierr_list (sample_fs true) (λ _, true) [] ["--leader-elect"; "-help"] ErrHelp E) as [(l & args' & Hl & _ & Hf) _].
  exists l, args'. split; [exact Hl|exact Hf].
Defined.

Lemma boolean_flag_arguments_witness :
  sample_program ["--leader-elect"; "false"; "--nope"] = sample_program ["--leader-elect"] ∧
  sample_program ["--telegraf-security-run-as-non-root"] =
    Err (ExitFlags (ErrNeedsArgument "telegraf-security-run-as-non-root")).
Proof.
  pose proof (@boolean_flag_arguments nat ops _ _ sample_foreign_laws (λ _, true) range_forward _
    multierr_list (sample_fs true) (λ _, true) [] "false" ["--nope"]) as [Hb Ho].
  split.
  - apply (Hb "leader-elect"); [apply (bool_decide_unpack _)|]; vm_compute; constructor.
  - apply (Ho "telegraf-security-run-as-non-root"). apply (bool_decide_unpack _); vm_compute; constructor.
Defined.
