(* ===== verification/Protocol.v ===== *)
(** What the operator promises to a cluster, as an abstract state machine: pods
    announce a place (a namespace and a secret's name), and each place is filled
    at most once with a configuration for the pod that announced it.  [System]
    shows that the webhook and the reconciler, running together, refine it. *)
From S2P Require Import Prelude.

Abbreviation place := (string * string)%type.
Abbreviation annotations := (gmap string string).

Section protocol.
(** Which texts are configurations for a set of annotations. *)
Variable configures : annotations → string → Prop.

(** The pods by UID, with the place each one announces and the annotations it has
    had; and the filled places, with the UID of the owner and the text. *)
Record Protocol := mkProtocol {
  announced : gmap string (place * list annotations);
  provided : gmap place (string * string)
}.

Definition protocol_init : Protocol := mkProtocol ∅ ∅.

Inductive protocol_step : Protocol → Protocol → Prop :=
| protocol_announce uid pl ann st :
    announced st !! uid = None →
    protocol_step st (mkProtocol (<[uid := (pl, [ann])]> (announced st)) (provided st))
| protocol_annotate uid pl anns ann st :
    announced st !! uid = Some (pl, anns) →
    protocol_step st (mkProtocol (<[uid := (pl, ann :: anns)]> (announced st)) (provided st))
| protocol_provide uid pl anns ann text st :
    announced st !! uid = Some (pl, anns) → ann ∈ anns → configures ann text →
    provided st !! pl = None →
    protocol_step st (mkProtocol (announced st) (<[pl := (uid, text)]> (provided st)))
| protocol_withdraw m st :
    m ⊆ provided st → protocol_step st (mkProtocol (announced st) m)
| protocol_stutter st : protocol_step st st.

(** The invariant of the protocol: a filled place is the one its owner announced,
    and holds a configuration for annotations that the owner had. *)
Definition protocol_inv (st : Protocol) : Prop :=
  ∀ pl uid text, provided st !! pl = Some (uid, text) →
    ∃ anns ann, announced st !! uid = Some (pl, anns) ∧ ann ∈ anns ∧ configures ann text.

Lemma protocol_inv_init : protocol_inv protocol_init.
Proof. intros pl uid text Hp. cbn in Hp. by rewrite lookup_empty in Hp. Qed.

Lemma protocol_inv_step st st' : protocol_step st st' → protocol_inv st → protocol_inv st'.
Proof.
  intros Hstep Hinv. destruct Hstep as [uid pl ann st Hn|uid pl anns ann st Hu
    |uid pl anns ann text st Hu Ha Hc Hp|m st Hm|st]; intros pl' uid' text' Hp'; cbn in *.
  - destruct (Hinv _ _ _ Hp') as (anns' & ann' & Hu' & ?). exists anns', ann'.
    rewrite lookup_insert_ne; [done|]. congruence.
  - destruct (Hinv _ _ _ Hp') as (anns' & ann' & Hu' & Ha' & ?).
    destruct (decide (uid = uid')) as [<-|Hne].
    + rewrite Hu in Hu'. injection Hu' as <- <-. exists (ann :: anns), ann'.
      rewrite lookup_insert_eq. split_and!; [done|by right|done].
    + exists anns', ann'. by rewrite lookup_insert_ne.
  - rewrite lookup_insert in Hp'. case_decide as Hpl; [|by apply Hinv].
    injection Hp' as <- <-. subst pl'. by exists anns, ann.
  - apply Hinv. by eapply lookup_weaken.
  - by apply Hinv.
Qed.

Lemma protocol_reach st : rtc protocol_step protocol_init st → protocol_inv st.
Proof.
  intros Hr. assert (∀ s, protocol_inv s → rtc protocol_step s st → protocol_inv st) as Hgen.
  { intros s Hs. induction 1; eauto using protocol_inv_step. }
  by apply (Hgen protocol_init); [apply protocol_inv_init|].
Qed.
End protocol.
