(* ===== verification/System.v ===== *)
(** The whole operator in its cluster, as a transition system: requests pass the
    webhook or bypass it, pods are amended, workers look pods up and create
    secrets, work is lost, and the rest of the cluster changes the world.  The
    system refines [Protocol]: every secret of the operator is where a pod
    announced it, and is that pod's. *)
From S2P Require Import Prelude Metadata FeatureGate ClassData K8s Sidecar Injector.
From S2P Require Import TelegrafConfig PodController Operator Protocol.

(** Creating a secret changes no pod. *)
Class PodCache (W Q : Type) `{ApiClient W Q} : Prop := {
  CreateSecret_pods : ∀ w s ns name, GetPod (CreateSecret w s).1 ns name = GetPod w ns name
}.

Section system.
Context {W Q T D : Type} `{QuantityOps Q} `{NameGenerator} `{ApiServer W Q} `{OwnerReferences Q}
  `{Toml T} `{Handler D}.

(** The reconcilers (class data, default class) and gates that the operator has
    had: class data can be refreshed, and the operator restarted with other
    flags. *)
Variable runs_with : PodReconciler D → GateState → Prop.

(** The workers with the world they share, and every version of every pod that
    was ever stored. *)
Record System := mkSystem { workers : @Workers W; history : list (Pod Q) }.

Definition injected (p : Pod Q) : Prop :=
  is_Some (map_entries (pod_Labels p) !! SidecarInjectedLabel).

Definition place_of (p : Pod Q) : place := (pod_Namespace p, label_of p SidecarSecretNameLabel).

Definition managed_secret (s : Secret) : Prop :=
  secret_Labels s !! SecretManagedByLabelKey = Some ControllerName.

Definition fresh_uid (uid : string) (h : list (Pod Q)) : Prop := ∀ p, p ∈ h → pod_UID p ≠ uid.

(** The cache shows pods that exist or existed, as they are or were. *)
Definition cache_sound (h : list (Pod Q)) (w : W) : Prop :=
  ∀ ns name p, GetPod w ns name = Ok p → p ∈ h.

Definition all_containers (p : Pod Q) : list (Container Q) :=
  pod_Containers p ++ pod_InitContainers p.

(** The containers of [p] are still there, with their commands and mounts. *)
Definition keeps_containers (p p' : Pod Q) : Prop :=
  ∀ c, c ∈ all_containers p → ∃ c', c' ∈ all_containers p' ∧ c_Name c' = c_Name c ∧
    c_Command c' = c_Command c ∧ ∀ m, m ∈ c_VolumeMounts c → m ∈ c_VolumeMounts c'.

(** The pod that is stored for an admitted one: it has got its UID (and its name
    and namespace, if need be), and other webhooks may have added to it. *)
Definition persisted (admitted p : Pod Q) : Prop :=
  pod_Labels p = pod_Labels admitted ∧ pod_Annotations p = pod_Annotations admitted ∧
  (∀ v, v ∈ pod_Volumes admitted → v ∈ pod_Volumes p) ∧ keeps_containers admitted p.

(** An update of a pod by its user: the volumes and all of the containers but
    their images are immutable, and the operator's labels are left alone. *)
Definition amended (p p' : Pod Q) : Prop :=
  pod_UID p' = pod_UID p ∧ pod_Namespace p' = pod_Namespace p ∧
  pod_Volumes p' = pod_Volumes p ∧ keeps_containers p p' ∧
  map_entries (pod_Labels p') !! SidecarInjectedLabel = map_entries (pod_Labels p) !! SidecarInjectedLabel ∧
  map_entries (pod_Labels p') !! SidecarSecretNameLabel = map_entries (pod_Labels p) !! SidecarSecretNameLabel.

(** The rest of the cluster deletes any secret and does as it likes with those
    that do not carry the operator's label. *)
Definition other_clients (w w' : W) : Prop :=
  ∀ ns name s, stored w' ns name = Some s → managed_secret s → stored w ns name = Some s.

(** What the rest of the cluster does to the pods and the world, the webhook's
    answers included. *)
Inductive cluster_step : list (Pod Q) → W → list (Pod Q) → W → Prop :=
| cluster_admit (R : MapRange) injector g draw request admitted p h w :
    ¬ injected request → Default injector g draw (ObjPod request) = (ObjPod admitted, Ok ()) →
    persisted admitted p → fresh_uid (pod_UID p) h →
    cluster_step h w (p :: h) w
| cluster_bypass p h w :
    ¬ injected p → fresh_uid (pod_UID p) h → cluster_step h w (p :: h) w
| cluster_amend p p' h w :
    p ∈ h → amended p p' → cluster_step h w (p' :: h) w
| cluster_clients h w w' :
    other_clients w w' → cache_sound h w' → cluster_step h w h w'.

Inductive system_step : System → System → Prop :=
| system_cluster st ps h h' w' :
    cluster_step h (world st) h' w' →
    system_step (mkSystem (mkWorkers st ps) h) (mkSystem (mkWorkers (mkState w' (events st)) ps) h')
| system_prepare (R : MapRange) i r g ns name st ps h obj st' secret :
    runs_with r g → ps !! i = None → lookup_pod (world st) ns name = Ok (inl obj) →
    prepare (T:=T) r g st obj = (st', Ok secret) →
    system_step (mkSystem (mkWorkers st ps) h) (mkSystem (mkWorkers st' (<[i := secret]> ps)) h)
| system_return (R : MapRange) r g ns name st ps h :
    runs_with r g →
    (∀ obj, lookup_pod (world st) ns name = Ok (inl obj) →
       is_ok (prepare (T:=T) r g st obj).2 = false) →
    system_step (mkSystem (mkWorkers st ps) h)
      (mkSystem (mkWorkers (Reconcile (T:=T) r g st ns name).1 ps) h)
| system_create i st ps h secret :
    ps !! i = Some secret →
    system_step (mkSystem (mkWorkers st ps) h) (mkSystem (mkWorkers (commit st secret).1 (delete i ps)) h)
| system_restart st ps ps' h :
    ps' ⊆ ps → system_step (mkSystem (mkWorkers st ps) h) (mkSystem (mkWorkers st ps') h).

(** Before the operator runs: no pods known, no secret with its label. *)
Definition system_init (sys : System) : Prop :=
  history sys = [] ∧ pending (workers sys) = ∅ ∧ cache_sound [] (world (shared (workers sys))) ∧
  ∀ ns name s, stored (world (shared (workers sys))) ns name = Some s → ¬ managed_secret s.

(** The configurations for a set of annotations, under what the operator has run
    with. *)
Definition configures (ann : annotations) (text : string) : Prop :=
  ∃ (R : MapRange) r g, runs_with r g ∧
    buildConfigData (T:=T) g (applyAnnotationOverrides ann
      (newAnnotationValues (ClassDataHandler r) (DefaultClass r) (EnableInternalPlugin r))).1 = Ok text.

(** What the webhook has given to an injected pod: a volume with the announced
    secret, and a container that mounts it and starts telegraf on a file there. *)
Definition telegrafMount : VolumeMount :=
  {| mount_Name := "telegraf-config"; MountPath := "/etc/telegraf" |}.

Definition runs_telegraf (c : Container Q) : Prop :=
  c_Name c = "telegraf" ∧ telegrafMount ∈ c_VolumeMounts c ∧
  ["telegraf"; "--config"; "/etc/telegraf/telegraf.conf"] `prefix_of` c_Command c.

Definition equipped (p : Pod Q) : Prop :=
  telegrafVolume (label_of p SidecarSecretNameLabel) ∈ pod_Volumes p ∧
  ∃ c, c ∈ all_containers p ∧ runs_telegraf c.

(** ** The refinement relation *)
Record refines (sys : System) (a : Protocol) : Prop := {
  ref_announced : ∀ p, p ∈ history sys → injected p →
    ∃ anns, announced a !! pod_UID p = Some (place_of p, anns) ∧
      map_entries (pod_Annotations p) ∈ anns;
  ref_versions : ∀ uid pl anns, announced a !! uid = Some (pl, anns) →
    anns ≠ [] ∧ ∀ ann, ann ∈ anns → ∃ p, p ∈ history sys ∧ injected p ∧ pod_UID p = uid ∧
      place_of p = pl ∧ map_entries (pod_Annotations p) = ann;
  ref_mounts : ∀ p, p ∈ history sys → injected p → equipped p;
  ref_cache : cache_sound (history sys) (world (shared (workers sys)));
  ref_pending : ∀ i s, pending (workers sys) !! i = Some s →
    ∃ p text, p ∈ history sys ∧ operator_secret s p text ∧
      configures (map_entries (pod_Annotations p)) text;
  ref_stored : ∀ ns name s,
    stored (world (shared (workers sys))) ns name = Some s → managed_secret s →
    ∃ uid text, provided a !! (ns, name) = Some (uid, text) ∧ sole_owner uid s ∧
      secret_StringData s = {["telegraf.conf" := text]};
  ref_provided : ∀ ns name x, provided a !! (ns, name) = Some x →
    ∃ s, stored (world (shared (workers sys))) ns name = Some s ∧ managed_secret s
}.

Definition simulated (a : Protocol) (sys : System) : Prop :=
  ∃ a', protocol_step configures a a' ∧ refines sys a'.
End system.
Arguments System W Q : clear implicits.

(** * Lemmas *)

Section lemmas.
Context {W Q T D : Type} `{QuantityOps Q} `{NameGenerator} `{ApiServer W Q} `{!PodCache W Q}
  `{OwnerReferencesLaws Q} `{TomlLaws T} `{Handler D}.
Variable runs_with : PodReconciler D → GateState → Prop.
Implicit Types (p : Pod Q) (h : list (Pod Q)) (st : State W) (a : Protocol).

Abbreviation refines := (refines (T:=T) (W:=W) (Q:=Q) runs_with).
Abbreviation configures := (configures (T:=T) runs_with).

(** The webhook's side of the contract. *)
Lemma admitted_equipped (R : MapRange) injector g draw (request admitted : Pod Q) :
  ¬ injected request → Default injector g draw (ObjPod request) = (ObjPod admitted, Ok ()) →
  injected admitted → equipped admitted.
Proof.
  intros Hreq. rewrite Default_pod. destruct (shouldInjectContainer g request); [|naive_solver].
  destruct (newContainerConfig injector) as [config| |]; [|done..].
  rewrite injectContainer_eq. intros [= <-] _. split; cbn.
  - apply elem_of_app. right. apply list_elem_of_singleton. unfold label_of; cbn.
    by rewrite lookup_insert_eq.
  - exists (injectedContainer g request config). split.
    + unfold all_containers; cbn. destruct (native_sidecars g); rewrite !elem_of_app;
        [right|left]; right; by apply list_elem_of_singleton.
    + split_and!; [by apply injectedContainer_name|by apply injectedContainer_mount|].
      by apply injectedContainer_command.
Qed.

Lemma keeps_same p p' : all_containers p' = all_containers p → keeps_containers p p'.
Proof. intros E c Hc. exists c. by rewrite E. Qed.

(** A pod keeps what it was given. *)
Lemma equipped_kept p p' :
  label_of p' SidecarSecretNameLabel = label_of p SidecarSecretNameLabel →
  (∀ v, v ∈ pod_Volumes p → v ∈ pod_Volumes p') → keeps_containers p p' →
  equipped p → equipped p'.
Proof.
  intros Hl Hv Hk [Hvol (c & Hc & Hn & Hm & Hcmd)]. split; [rewrite Hl; auto|].
  destruct (Hk c Hc) as (c' & Hc' & Hn' & Hcmd' & Hm'). exists c'.
  split_and!; [done|]. split_and!; [by rewrite Hn'|auto|by rewrite Hcmd'].
Qed.

Lemma refines_uninjected ws h a p :
  refines (mkSystem ws h) a → ¬ injected p → refines (mkSystem ws (p :: h)) a.
Proof.
  intros [Ha Hv Hm Hc Hp Hs Hpr] Hn. split; cbn in *; [..|done|done].
  - intros q [->|Hq]%elem_of_cons Hi; [done|auto].
  - intros uid pl anns Hu. destruct (Hv _ _ _ Hu) as [Hne Hall]. split; [done|].
    intros ann Hann. destruct (Hall ann Hann) as (q & Hq & ?). exists q. split; [by right|done].
  - intros q [->|Hq]%elem_of_cons Hi; [done|auto].
  - intros ns name q Hq. right. eauto.
  - intros i s Hi. destruct (Hp i s Hi) as (q & text & Hq & ?). exists q, text. split; [by right|done].
Qed.

(** An injected pod joins the history, as a new one or as a new version of one. *)
Lemma refines_injected ws h a p anns :
  refines (mkSystem ws h) a → injected p →
  equipped p →
  (announced a !! pod_UID p = None ∧ anns = [] ∧ fresh_uid (pod_UID p) h) ∨
  announced a !! pod_UID p = Some (place_of p, anns) →
  refines (mkSystem ws (p :: h)) (mkProtocol
    (<[pod_UID p := (place_of p, map_entries (pod_Annotations p) :: anns)]> (announced a)) (provided a)).
Proof.
  intros [Ha Hv Hm Hc Hp Hs Hpr] Hi Hmount Hold. split; cbn in *; [..|done|done].
  - intros q Hq Hiq. destruct (decide (pod_UID q = pod_UID p)) as [He|Hne].
    + rewrite He, lookup_insert_eq. apply elem_of_cons in Hq as [->|Hq].
      { eexists. split; [done|by left]. }
      destruct Hold as [(_ & _ & Hf)|Hold]; [by destruct (Hf q Hq)|].
      destruct (Ha q Hq Hiq) as (anns' & Hq' & Hin). rewrite He, Hold in Hq'.
      assert (place_of p = place_of q) as <- by congruence. assert (anns = anns') as <- by congruence.
      eexists. split; [done|by right].
    + rewrite lookup_insert_ne by done. apply elem_of_cons in Hq as [->|Hq]; [done|]. by apply Ha.
  - intros uid pl anns'. rewrite lookup_insert. case_decide as He; intros Hu.
    + injection Hu as <- <-. subst uid. split; [done|].
      intros ann [->|Hann]%elem_of_cons; [exists p; split; [by left|done]|].
      destruct Hold as [(_ & -> & _)|Hold]; [by apply elem_of_nil in Hann|].
      destruct (proj2 (Hv _ _ _ Hold) ann Hann) as (q & Hq & ?). exists q. split; [by right|done].
    + destruct (Hv _ _ _ Hu) as [Hne Hall]. split; [done|].
      intros ann Hann. destruct (Hall ann Hann) as (q & Hq & ?). exists q. split; [by right|done].
  - intros q [->|Hq]%elem_of_cons Hiq; [done|auto].
  - intros ns name q Hq. right. eauto.
  - intros i s Hps. destruct (Hp i s Hps) as (q & text & Hq & ?). exists q, text.
    split; [by right|done].
Qed.

(** The world and the pending work may change in these ways without a trace in
    the protocol. *)
Lemma refines_workers st ps st' ps' h a :
  refines (mkSystem (mkWorkers st ps) h) a →
  same_store (world st) (world st') → cache_sound h (world st') →
  (∀ i s, ps' !! i = Some s → ps !! i = Some s ∨
     ∃ p text, p ∈ h ∧ operator_secret s p text ∧ configures (map_entries (pod_Annotations p)) text) →
  refines (mkSystem (mkWorkers st' ps') h) a.
Proof.
  intros [Ha Hv Hm Hc Hp Hs Hpr] Hsame Hcache Hps. split; cbn in *; try done.
  - intros i s Hi. destruct (Hps i s Hi) as [Hi'|]; eauto.
  - intros ns name s. rewrite Hsame. apply Hs.
  - intros ns name x (s & ? & ?)%Hpr. exists s. by rewrite Hsame.
Qed.

Lemma commit_cache st secret h :
  cache_sound h (world st) → cache_sound h (world (commit st secret).1).
Proof.
  intros Hc ns name p. unfold commit.
  pose proof (CreateSecret_pods (world st) secret ns name) as Hg.
  destruct (CreateSecret (world st) secret) as [w err]; cbn in Hg.
  intros Hp. apply (Hc ns name). rewrite <- Hg. by destruct err as [[]|].
Qed.

(** A call that ends before the creation leaves the world alone. *)
Lemma Reconcile_returns_world (R : MapRange) r g ns name st :
  (∀ obj, lookup_pod (world st) ns name = Ok (inl obj) →
     is_ok (prepare (T:=T) r g st obj).2 = false) →
  world (Reconcile (T:=T) r g st ns name).1 = world st.
Proof.
  intros Hno. unfold Reconcile. destruct (lookup_pod (world st) ns name) as [[obj|]| |]; [|done..].
  specialize (Hno obj eq_refl). unfold reconcile. pose proof (prepare_world R r g st obj) as Hw.
  by destruct (prepare r g st obj) as [st' [| |]].
Qed.

Lemma operator_secret_managed s p text : operator_secret s p text → managed_secret s.
Proof. by intros (_ & _ & _ & _ & ? & _). Qed.

(** A secret that appears for a pod fills the place this pod announced. *)
Lemma refines_added st ps h a st' ps' secret p text :
  refines (mkSystem (mkWorkers st ps) h) a →
  adds_secret (world st) (world st') secret → cache_sound h (world st') →
  (∀ i s, ps' !! i = Some s → ps !! i = Some s) →
  p ∈ h → operator_secret secret p text → configures (map_entries (pod_Annotations p)) text →
  simulated (T:=T) runs_with a (mkSystem (mkWorkers st' ps') h).
Proof.
  intros [Ha Hv Hm Hc Hp Hs Hpr] [Hfree Hadd] Hcache Hps Hph Hos Hconf; cbn in *.
  pose proof Hos as (Hinj & Hn & Hns & Hown & Hman & _ & Hdata & _).
  destruct (Ha p Hph Hinj) as (anns & Hann & Hin).
  exists (mkProtocol (announced a) (<[place_of p := (pod_UID p, text)]> (provided a))). split.
  { eapply protocol_provide; [done..|]. destruct (provided a !! place_of p) as [x|] eqn:Hx; [|done].
    unfold place_of in Hx. apply Hpr in Hx as (s & Hs' & _).
    rewrite Hns, Hn in Hfree. congruence. }
  assert ((secret_Namespace secret, secret_Name secret) = place_of p) as Hplace
    by (unfold place_of; congruence).
  split; cbn; try done.
  - intros j s Hj. eauto.
  - intros ns name s. rewrite Hadd. case_bool_decide as Hk.
    + intros [= <-] _. destruct Hk as [-> ->]. rewrite Hplace, lookup_insert_eq.
      exists (pod_UID p), text. split_and!; [done|by eapply operator_secret_owner|done].
    + intros Hst Hms. rewrite lookup_insert_ne; [by apply Hs|]. rewrite <- Hplace. naive_solver.
  - intros ns name x. rewrite Hadd, lookup_insert, <- Hplace. case_decide as Hk.
    + injection Hk as <- <-. intros _. rewrite bool_decide_eq_true_2 by done. eauto.
    + rewrite bool_decide_eq_false_2 by naive_solver. apply Hpr.
Qed.

(** The creation of a pending secret leaves the store alone or adds the secret. *)
Lemma refines_create st ps h a i secret :
  refines (mkSystem (mkWorkers st ps) h) a → ps !! i = Some secret →
  simulated (T:=T) runs_with a (mkSystem (mkWorkers (commit st secret).1 (delete i ps)) h).
Proof.
  intros Href Hi. pose proof Href as [_ _ _ Hc Hp _ _]; cbn in *.
  assert (∀ j s, delete i ps !! j = Some s → ps !! j = Some s) as Hdel
    by (by intros j s [_ Hj]%lookup_delete_Some).
  pose proof (commit_cache st secret h Hc) as Hcache.
  destruct (Hp i secret Hi) as (p & text & Hph & Hos & Hconf).
  destruct (commit_store st secret) as [Hsame|Hadd]; [|by eapply refines_added].
  exists a. split; [constructor|]. eapply refines_workers; [done..|]. intros j s ?. left. eauto.
Qed.

(** Other clients at most empty places. *)
Lemma refines_world st ps h a w :
  refines (mkSystem (mkWorkers st ps) h) a → other_clients (world st) w → cache_sound h w →
  simulated (T:=T) runs_with a (mkSystem (mkWorkers (mkState w (events st)) ps) h).
Proof.
  intros [Ha Hv Hm Hc Hp Hs Hpr] Ho Hcache; cbn in *.
  set (kept := λ x : place * (string * string), match stored w x.1.1 x.1.2 with
    | Some s => secret_Labels s !! SecretManagedByLabelKey = Some ControllerName | None => False end).
  assert (∀ x, Decision (kept x)) as Hdec.
  { intros x. unfold kept. destruct (stored w x.1.1 x.1.2); apply _. }
  exists (mkProtocol (announced a) (filter kept (provided a))). split.
  { apply protocol_withdraw, map_filter_subseteq. }
  split; cbn; try done.
  - intros ns name s Hst Hman. destruct (Hs ns name s (Ho _ _ _ Hst Hman) Hman) as (uid & text & Hx & ?).
    exists uid, text. split; [|done]. apply map_lookup_filter_Some. split; [done|].
    unfold kept; cbn. by rewrite Hst.
  - intros ns name x [_ Hk]%map_lookup_filter_Some. unfold kept in Hk; cbn in Hk.
    destruct (stored w ns name) as [s|] eqn:Hst; [|done]. eauto.
Qed.

(** An admitted pod is announced, if the webhook injected it. *)
Lemma refines_admit (R : MapRange) injector g draw (request admitted p : Pod Q) ws h a :
  refines (mkSystem ws h) a → ¬ injected request →
  Default injector g draw (ObjPod request) = (ObjPod admitted, Ok ()) →
  persisted admitted p → fresh_uid (pod_UID p) h →
  simulated (T:=T) runs_with a (mkSystem ws (p :: h)).
Proof.
  intros Href Hreq Hdef (Hlab & Hann & Hvol & Hcont) Hf.
  assert (injected p ↔ injected admitted) as Hinj by (unfold injected; by rewrite Hlab).
  destruct (decide (injected p)) as [Hi|Hni].
  2: { exists a. split; [constructor|]. by apply refines_uninjected. }
  exists (mkProtocol (<[pod_UID p := (place_of p, [map_entries (pod_Annotations p)])]> (announced a))
    (provided a)).
  assert (announced a !! pod_UID p = None) as Hnew.
  { destruct (announced a !! pod_UID p) as [[pl anns]|] eqn:Hu; [|done].
    destruct (ref_versions _ _ _ Href _ _ _ Hu) as [Hne Hall].
    destruct anns as [|ann anns]; [done|].
    destruct (Hall ann) as (q & Hq & _ & Hquid & _); [by left|]. by destruct (Hf q Hq). }
  split; [by apply protocol_announce|]. apply refines_injected; [done|done| |by left].
  apply (equipped_kept admitted); [unfold label_of; by rewrite Hlab|done|done|].
  eapply admitted_equipped; [done..|]. by apply Hinj.
Qed.

(** An amended pod keeps its place and adds a set of annotations. *)
Lemma refines_amend ws h a p p' :
  refines (mkSystem ws h) a → p ∈ h → amended p p' →
  simulated (T:=T) runs_with a (mkSystem ws (p' :: h)).
Proof.
  intros Href Hp (Hu & Hns & Hvol & Hcont & Hl1 & Hl2).
  destruct (decide (injected p')) as [Hi|Hni].
  2: { exists a. split; [constructor|]. by apply refines_uninjected. }
  assert (injected p) as Hip by (unfold injected in *; by rewrite <- Hl1).
  assert (label_of p' SidecarSecretNameLabel = label_of p SidecarSecretNameLabel) as Hlab
    by (unfold label_of; by rewrite Hl2).
  destruct (ref_announced _ _ _ Href p Hp Hip) as (anns & Hann & _).
  assert (place_of p' = place_of p) as Hpl by (unfold place_of; by rewrite Hns, Hlab).
  rewrite <- Hu, <- Hpl in Hann.
  exists (mkProtocol (<[pod_UID p' := (place_of p', map_entries (pod_Annotations p') :: anns)]>
    (announced a)) (provided a)).
  split; [by apply protocol_annotate|]. apply refines_injected; [done|done| |by right].
  apply (equipped_kept p); [done|by rewrite Hvol|done|]. by apply (ref_mounts _ _ _ Href).
Qed.

Lemma refines_cluster st ps h h' w' a :
  refines (mkSystem (mkWorkers st ps) h) a → cluster_step h (world st) h' w' →
  simulated (T:=T) runs_with a (mkSystem (mkWorkers (mkState w' (events st)) ps) h').
Proof.
  destruct st as [w0 evs]. cbn. intros Href Hstep.
  destruct Hstep as [R injector g draw request admitted p h w Hreq Hdef Hpers Hf
    |p h w Hn Hf|p p' h w Hp Ham|h w w' Ho Hc].
  - by eapply refines_admit.
  - exists a. split; [constructor|]. by apply refines_uninjected.
  - by eapply refines_amend.
  - by apply (refines_world (mkState w evs)).
Qed.

(** A prepared secret is for a pod of the history, which the cache showed. *)
Lemma refines_prepare (R : MapRange) i r g ns name st ps h obj st' secret a :
  refines (mkSystem (mkWorkers st ps) h) a → runs_with r g →
  lookup_pod (world st) ns name = Ok (inl obj) → prepare (T:=T) r g st obj = (st', Ok secret) →
  refines (mkSystem (mkWorkers st' (<[i := secret]> ps)) h) a.
Proof.
  intros Href Hrun Hl Hprep. apply lookup_pod_inl in Hl as (Hget & Hinj & _).
  pose proof (ref_cache _ _ _ Href _ _ _ Hget) as Hobj; cbn in Hobj.
  apply prepare_Ok in Hprep as (text & Hb & Hos & _ & Hw & _); [|done].
  eapply refines_workers; [done| | |].
  - intros ??. by rewrite Hw.
  - rewrite Hw. apply (ref_cache _ _ _ Href).
  - intros j s. rewrite lookup_insert. case_decide; intros ?; simplify_eq; [right|by left].
    exists obj, text. split_and!; [done|done|]. by exists R, r, g.
Qed.

(** The simulation: every step of the system is a step of the protocol. *)
Lemma system_simulation (sys sys' : System W Q) a :
  refines sys a → system_step (T:=T) runs_with sys sys' → simulated (T:=T) runs_with a sys'.
Proof.
  intros Href Hstep. destruct Hstep as [st ps h h' w' Hc|R i r g ns name st ps h obj st' secret Hrun
    Hi Hl Hprep|R r g ns name st ps h Hrun Hno|i st ps h secret Hi|st ps ps' h Hsub].
  - by eapply refines_cluster.
  - exists a. split; [constructor|]. by eapply refines_prepare.
  - exists a. split; [constructor|].
    pose proof (Reconcile_returns_world R r g ns name st Hno) as Hw.
    eapply refines_workers; [done| | |by left].
    + intros ??. by rewrite Hw.
    + rewrite Hw. apply (ref_cache _ _ _ Href).
  - by eapply refines_create.
  - exists a. split; [constructor|].
    eapply refines_workers; [done|done|apply (ref_cache _ _ _ Href)|].
    intros i s Hs. left. by eapply lookup_weaken.
Qed.

Lemma refines_init (sys : System W Q) : system_init sys → refines sys protocol_init.
Proof.
  destruct sys as [[st ps] h]. intros (Hh & Hps & Hc & Hs); cbn in *. subst h ps.
  split; cbn; try done.
  - intros p Hp. by apply elem_of_nil in Hp.
  - intros p Hp. by apply elem_of_nil in Hp.
  - intros ns name s Hst Hm. by destruct (Hs _ _ _ Hst).
Qed.

(** Runs of the system are runs of the protocol. *)
Lemma system_runs (sys0 sys : System W Q) :
  system_init sys0 → rtc (system_step (T:=T) runs_with) sys0 sys →
  ∃ a, rtc (protocol_step configures) protocol_init a ∧ refines sys a.
Proof.
  intros Hinit Hrun. pose proof (refines_init sys0 Hinit) as Href.
  assert (∀ a0, rtc (protocol_step configures) protocol_init a0 → refines sys0 a0 →
    ∃ a, rtc (protocol_step configures) protocol_init a ∧ refines sys a) as Hgen.
  { clear Hinit Href. induction Hrun as [sys|sys1 sys2 sys3 Hstep _ IH]; intros a0 Ha0 Hr; [eauto|].
    destruct (system_simulation _ _ _ Hr Hstep) as (a1 & Hstep' & Hr').
    apply (IH a1); [|done]. by eapply rtc_r. }
  by apply (Hgen protocol_init).
Qed.
(** Where a secret of the operator comes from. *)
Lemma secret_origin (sys0 sys : System W Q) ns name s :
  system_init sys0 → rtc (system_step (T:=T) runs_with) sys0 sys →
  stored (world (shared (workers sys))) ns name = Some s → managed_secret s →
  ∃ p text, p ∈ history sys ∧ injected p ∧ equipped p ∧ place_of p = (ns, name) ∧
    sole_owner (pod_UID p) s ∧ secret_StringData s = {["telegraf.conf" := text]} ∧
    configures (map_entries (pod_Annotations p)) text.
Proof.
  intros Hinit Hrun Hst Hm. destruct (system_runs sys0 sys Hinit Hrun) as (a & Ha & Href).
  destruct (ref_stored _ _ _ Href _ _ _ Hst Hm) as (uid & text & Hx & Ho & Hd).
  destruct (protocol_reach _ _ Ha _ _ _ Hx) as (anns & ann & Hu & Hin & Hc).
  destruct (ref_versions _ _ _ Href _ _ _ Hu) as [_ Hall].
  destruct (Hall ann Hin) as (p & Hp & Hi & <- & Hpl & <-).
  exists p, text. split_and!; try done. by apply (ref_mounts _ _ _ Href).
Qed.

Lemma injected_equipped (sys0 sys : System W Q) p :
  system_init sys0 → rtc (system_step (T:=T) runs_with) sys0 sys →
  p ∈ history sys → injected p → equipped p.
Proof.
  intros Hinit Hrun Hp Hi. destruct (system_runs sys0 sys Hinit Hrun) as (a & _ & Href).
  by apply (ref_mounts _ _ _ Href).
Qed.
End lemmas.

(** * Theorems *)

Section theorems.
Context {W Q T D : Type} `{QuantityOps Q} `{NameGenerator} `{ApiServer W Q} `{!PodCache W Q}
  `{OwnerReferencesLaws Q} `{TomlLaws T} `{Handler D}.
Variable runs_with : PodReconciler D → GateState → Prop.
Implicit Types (sys : System W Q).

(** C3. The operator refines the protocol.  From a cluster without secrets of the
    operator, every run of the webhook, the workers, the users and the other
    clients of the cluster, in any interleaving, is a run of [Protocol]: the
    injected pods are the announcements, each with the annotations it has had,
    and the filled places are exactly the stored secrets with the operator's
    label, each owned by the pod alone and holding the text that the protocol says. *)
Theorem system_refines_protocol sys0 sys :
  system_init sys0 → rtc (system_step (T:=T) runs_with) sys0 sys →
  ∃ a, rtc (protocol_step (configures (T:=T) runs_with)) protocol_init a ∧
    (∀ p, p ∈ history sys → injected p →
       ∃ anns, announced a !! pod_UID p = Some (place_of p, anns) ∧
         map_entries (pod_Annotations p) ∈ anns) ∧
    (∀ ns name, is_Some (provided a !! (ns, name)) ↔
       ∃ s, stored (world (shared (workers sys))) ns name = Some s ∧ managed_secret s) ∧
    (∀ ns name s uid text, provided a !! (ns, name) = Some (uid, text) →
       stored (world (shared (workers sys))) ns name = Some s →
       sole_owner uid s ∧ secret_StringData s = {["telegraf.conf" := text]}).
Proof.
  intros Hinit Hrun. destruct (system_runs runs_with sys0 sys Hinit Hrun) as (a & Ha & Href).
  exists a. split; [done|]. destruct Href as [Hann _ _ _ _ Hs Hpr]. split_and!; [done|..].
  - intros ns name. split; [by intros [x Hx]; eapply Hpr|].
    intros (s & Hst & Hm). destruct (Hs _ _ _ Hst Hm) as (uid & text & -> & _). by eexists.
  - intros ns name s uid text Hx Hst. destruct (Hpr _ _ _ Hx) as (s' & Hst' & Hm).
    rewrite Hst in Hst'. injection Hst' as <-.
    destruct (Hs _ _ _ Hst Hm) as (uid' & text' & Hx' & Ho & Hd). rewrite Hx in Hx'.
    by injection Hx' as <- <-.
Qed.

(** C6. In every reachable state, each secret with the operator's label belongs to
    a pod that the webhook injected: the pod alone owns it, is in its namespace, mounts
    it by its name, and its configuration is one for annotations that this pod
    had, under class data and gates that the operator ran with.  As the README
    promises, the garbage collector removes it when the pod is deleted, and not
    before: of the objects that are there, it depends on the pod alone. *)
Theorem secrets_are_mounted sys0 sys ns name s :
  system_init sys0 → rtc (system_step (T:=T) runs_with) sys0 sys →
  stored (world (shared (workers sys))) ns name = Some s → managed_secret s →
  ∃ p text, p ∈ history sys ∧ injected p ∧ pod_Namespace p = ns ∧ sole_owner (pod_UID p) s ∧
    {| vol_Name := "telegraf-config"; vol_Source := SecretVolume name |} ∈ pod_Volumes p ∧
    secret_StringData s = {["telegraf.conf" := text]} ∧
    configures (T:=T) runs_with (map_entries (pod_Annotations p)) text ∧
    ∀ live, collectable live s ↔ pod_UID p ∉ live.
Proof.
  intros Hinit Hrun Hst Hm.
  destruct (secret_origin runs_with sys0 sys ns name s Hinit Hrun Hst Hm)
    as (p & text & Hp & Hi & [Hmount _] & Hpl & Ho & Hd & Hc).
  injection Hpl as <- <-. exists p, text. split_and!; try done.
  intros live. by apply sole_owner_collectable.
Qed.
End theorems.

(** ** Samples and witnesses *)

Import SampleQuantity.

Lemma cluster_pods : @PodCache Cluster nat cluster_client.
Proof.
  split. intros w s ns name. unfold GetPod, CreateSecret, cluster_client; cbn.
  destruct (decide _); [|done]. by destruct (_ !! (secret_Namespace s, secret_Name s)).
Qed.

(** A pod is admitted, the cache sees it, a worker prepares its secret, the user
    amends the pod, and the secret is created. *)
Definition run_pod : Pod nat := stored_pod "web-7d4b9-hj2xz" "uid-1" (admitted_pod running_operator).

Definition amended_pod : Pod nat :=
  mkPod (pod_Name run_pod) (pod_GenerateName run_pod) (pod_Namespace run_pod) (pod_UID run_pod)
    (pod_Labels run_pod) (Some ∅) (pod_Containers run_pod) (pod_InitContainers run_pod)
    (pod_Volumes run_pod).

Definition sample_runs (r : PodReconciler (option DirectoryHandler)) (g : GateState) : Prop :=
  r = podReconciler running_operator ∧ g = sample_gates false.

Definition run_start : System Cluster nat :=
  mkSystem (mkWorkers (mkState (mkCluster ∅ ∅) []) ∅) [].

Definition run_world : Cluster := mkCluster {[("shop", "web-7d4b9-hj2xz") := run_pod]} ∅.

Definition run_prepared : State Cluster * result ReconcileError Secret :=
  @prepare Cluster nat string _ sample_owner sample_toml directory_handler_ptr range_forward
    (podReconciler running_operator) (sample_gates false) (mkState run_world []) run_pod.

Definition run_secret : Secret := match run_prepared.2 with Ok s => s | _ => foreign_secret end.

Definition run_end : System Cluster nat :=
  mkSystem (mkWorkers (@commit Cluster nat cluster_client run_prepared.1 run_secret).1
    (delete 0%nat {[0%nat := run_secret]})) [amended_pod; run_pod].

Abbreviation sample_system_step := (@system_step Cluster nat string (option DirectoryHandler)
  ops sample_generator cluster_client cluster_server sample_owner sample_toml directory_handler_ptr
  sample_runs).

Lemma sample_run_init : @system_init Cluster nat cluster_client cluster_server run_start.
Proof.
  split_and!; [done|done|..].
  - intros ns name p. cbn. by rewrite lookup_empty.
  - intros ns name s. cbn. by rewrite lookup_empty.
Qed.

(** The pod is admitted, and the cache shows it. *)
Lemma sample_run_shown :
  rtc sample_system_step run_start (mkSystem (mkWorkers (mkState run_world []) ∅) [run_pod]).
Proof.
  eapply rtc_l.
  { apply system_cluster, (cluster_admit range_forward (admission running_operator) (sample_gates false) 0
      request_pod (admitted_pod running_operator) run_pod).
    - intros [x Hx]. vm_compute in Hx. discriminate.
    - vm_compute. reflexivity.
    - split_and!; [reflexivity|reflexivity|done|by apply keeps_same].
    - intros p Hp. by apply elem_of_nil in Hp. }
  apply rtc_once, system_cluster, (cluster_clients _ _ run_world).
  - intros ns name s. cbn. by rewrite lookup_empty.
  - intros ns name p. cbn. destruct (_ !! (ns, name)) as [q|] eqn:E; [|done].
    apply lookup_singleton_Some in E as [_ <-]. intros [= <-]. by left.
Qed.

Lemma sample_run : rtc sample_system_step run_start run_end.
Proof.
  etrans; [exact sample_run_shown|].
  eapply rtc_l.
  { eapply (system_prepare _ range_forward 0 (podReconciler running_operator) (sample_gates false)
      "shop" "web-7d4b9-hj2xz" _ _ _ run_pod run_prepared.1 run_secret).
    - done.
    - reflexivity.
    - vm_compute. reflexivity.
    - vm_compute. reflexivity. }
  eapply rtc_l.
  { apply system_cluster, (cluster_amend run_pod amended_pod); [by left|].
    split_and!; try reflexivity. by apply keeps_same. }
  eapply rtc_l; [|apply rtc_refl].
  apply system_create. reflexivity.
Qed.

Lemma system_refines_protocol_witness :
  ∃ a, rtc (protocol_step (@configures string _ sample_toml directory_handler_ptr sample_runs))
      protocol_init a ∧
    is_Some (provided a !! ("shop", secret_Name run_secret)).
Proof.
  destruct (@system_refines_protocol Cluster nat string _ ops sample_generator cluster_client
    cluster_server cluster_pods sample_owner sample_owner_laws sample_toml directory_handler_ptr
    sample_runs run_start run_end sample_run_init sample_run) as (a & Ha & _ & Hp & _).
  exists a. split; [exact Ha|]. apply Hp. exists run_secret. split; vm_compute; reflexivity.
Defined.

Lemma secrets_are_mounted_witness :
  ∃ p, p ∈ history run_end ∧
    {| vol_Name := "telegraf-config"; vol_Source := SecretVolume (secret_Name run_secret) |}
      ∈ pod_Volumes p.
Proof.
  destruct (@secrets_are_mounted Cluster nat string _ ops sample_generator cluster_client
    cluster_server cluster_pods sample_owner sample_owner_laws sample_toml directory_handler_ptr
    sample_runs run_start run_end "shop" (secret_Name run_secret) run_secret sample_run_init
    sample_run) as (p & text & Hp & _ & _ & _ & Hv & _); [vm_compute; reflexivity..|].
  exists p. split; [exact Hp|exact Hv].
Defined.
