(* ===== verification/Queue.v ===== *)
(** The controller's work queue, over the cluster of [System]: events put pods
    into the queue, workers take them out and call [Reconcile], and what is not
    finished is queued again.

    The queue is controller-runtime's.  Documented: a pod that is queued several
    times is worked on once, by one worker at a time, of as many as the manager was
    set up with ([MaxConcurrentReconciles], cmd/main.go); an error, a recovered panic
    and a positive [RequeueAfter] queue the pod again (here at once, since a start
    can wait arbitrarily long); a pod that waits is taken eventually, which is the
    hypothesis [Fair] of the theorem on liveness.  A restart loses the queue and
    the calls in progress, and announces every pod that the cache shows. *)
From S2P Require Import Prelude Metadata FeatureGate ClassData K8s Sidecar Injector.
From S2P Require Import TelegrafConfig PodController Watches Retry Operator Protocol System.

Section queue.
Context {W Q T D : Type} `{QuantityOps Q} `{NameGenerator} `{ApiServer W Q} `{OwnerReferences Q}
  `{Toml T} `{Handler D} `{Predicates Q} `{OwnerHandler}.
Variable runs_with : PodReconciler D → GateState → Prop.

(** The values of the command-line flags that the manager was set up with. *)
Variable settings : Flags.

(** The number of workers. *)
Definition capacity : nat := MaxConcurrentReconciles (optionsOf settings).

(** The world with the recorded events, the pods there have been, the waiting
    requests, and what each busy worker works on: its request, and the secret it
    is about to create once it has prepared one. *)
Record Queue := mkQueue {
  cluster : State W;
  pods : list (Pod Q);
  todo : gset Request;
  active : gmap nat (Request * option Secret)
}.

(** A worker has the request. *)
Definition busy (a : gmap nat (Request * option Secret)) (k : Request) : Prop :=
  map_Exists (λ _ x, x.1 = k) a.

Definition requeue (k : Request) (res : result ReconcileError Result) (t : gset Request)
    : gset Request :=
  if finished res then t else {[k]} ∪ t.

Inductive label :=
| Watched (e : WatchEvent Q)
| Started (i : nat) (k : Request)
| Worked (i : nat) (r : PodReconciler D) (g : GateState)
| Elsewhere
| Restarted.

Inductive queue_step : label → Queue → Queue → Prop :=
| queue_watch e st h t a :
    queue_step (Watched e) (mkQueue st h t a) (mkQueue st h (list_to_set (requests_of e) ∪ t) a)
| queue_start i k st h t a :
    k ∈ t → ¬ busy a k → i < capacity → a !! i = None →
    queue_step (Started i k) (mkQueue st h t a) (mkQueue st h (t ∖ {[k]}) (<[i := (k, None)]> a))
| queue_prepare (R : MapRange) i k r g st h t a obj st' secret :
    runs_with r g → a !! i = Some (k, None) → lookup_pod (world st) k.1 k.2 = Ok (inl obj) →
    prepare (T:=T) r g st obj = (st', Ok secret) →
    queue_step (Worked i r g) (mkQueue st h t a) (mkQueue st' h t (<[i := (k, Some secret)]> a))
| queue_return (R : MapRange) i k r g st h t a st' res :
    runs_with r g → a !! i = Some (k, None) →
    (∀ obj, lookup_pod (world st) k.1 k.2 = Ok (inl obj) →
       is_ok (prepare (T:=T) r g st obj).2 = false) →
    Reconcile (T:=T) r g st k.1 k.2 = (st', res) →
    queue_step (Worked i r g) (mkQueue st h t a) (mkQueue st' h (requeue k res t) (delete i a))
| queue_create i k r g st h t a secret st' res :
    a !! i = Some (k, Some secret) → commit st secret = (st', res) →
    queue_step (Worked i r g) (mkQueue st h t a) (mkQueue st' h (requeue k res t) (delete i a))
| queue_cluster st h t a h' w' :
    cluster_step h (world st) h' w' →
    queue_step Elsewhere (mkQueue st h t a) (mkQueue (mkState w' (events st)) h' t a)
| queue_restart st h t a t' :
    (∀ ns name p, GetPod (world st) ns name = Ok p → startsReconcile (Created p) = true →
       (ns, name) ∈ t') →
    queue_step Restarted (mkQueue st h t a) (mkQueue st h t' ∅).

(** The queue forgotten. *)
Definition system_of (q : Queue) : System W Q :=
  mkSystem (mkWorkers (cluster q) (omap snd (active q))) (pods q).

(** No worker is beyond the capacity, and no two have the same request. *)
Definition exclusive (q : Queue) : Prop :=
  (∀ i x, active q !! i = Some x → i < capacity) ∧
  ∀ i j x y, active q !! i = Some x → active q !! j = Some y → x.1 = y.1 → i = j.
End queue.
Arguments Queue W Q : clear implicits.
Arguments label Q D : clear implicits.

(** * Lemmas *)

Section lemmas.
Context {W Q T D : Type} `{QuantityOps Q} `{NameGenerator} `{ApiServer W Q} `{OwnerReferences Q}
  `{Toml T} `{Handler D} `{Predicates Q} `{OwnerHandler}.
Variable runs_with : PodReconciler D → GateState → Prop.
Variable settings : Flags.
Implicit Types (q : Queue W Q) (l : label Q D) (k : Request) (i : nat).

Abbreviation queue_step := (queue_step (W:=W) (T:=T) runs_with settings).
Abbreviation system_step := (system_step (W:=W) (Q:=Q) (T:=T) runs_with).

Lemma busy_true (a : gmap nat (Request * option Secret)) k :
  busy a k ↔ ∃ i x, a !! i = Some (k, x).
Proof.
  unfold busy. rewrite map_Exists_lookup. split.
  - intros (i & [k' x] & Hi & <-). eauto.
  - intros (i & x & Hi). by exists i, (k, x).
Qed.

#[export] Instance busy_dec (a : gmap nat (Request * option Secret)) k : Decision (busy a k).
Proof. unfold busy. apply _. Defined.

(** Forgetting the queue, a step is one of the system or no step at all. *)
Lemma queue_simulation l q q' :
  queue_step l q q' → rtc system_step (system_of q) (system_of q').
Proof.
  destruct 1 as [e st h t a|i k st h t a Hk Hb Hc Hi|R i k r g st h t a obj st' s Hr Hi Hl Hprep
    |R i k r g st h t a st' res Hr Hi Hno Hres|i k r g st h t a s st' res Hi Hc|st h t a h' w' Hs
    |st h t a t' Hshow]; unfold system_of; cbn.
  - apply rtc_refl.
  - rewrite omap_insert; cbn. rewrite delete_id; [apply rtc_refl|]. by rewrite lookup_omap, Hi.
  - apply rtc_once. rewrite omap_insert; cbn. eapply system_prepare; [done| |done..].
    by rewrite lookup_omap, Hi.
  - apply rtc_once. rewrite omap_delete, delete_id by (by rewrite lookup_omap, Hi).
    pose proof (system_return runs_with R r g k.1 k.2 st (omap snd a) h Hr Hno) as Hstep.
    by rewrite Hres in Hstep.
  - apply rtc_once. rewrite omap_delete.
    pose proof (system_create (T:=T) runs_with i st (omap snd a) h s) as Hstep.
    rewrite Hc in Hstep. apply Hstep. by rewrite lookup_omap, Hi.
  - by apply rtc_once, system_cluster.
  - apply rtc_once, system_restart. rewrite omap_empty. apply map_empty_subseteq.
Qed.

Lemma exclusive_step l q q' : queue_step l q q' → exclusive settings q → exclusive settings q'.
Proof.
  intros Hstep [Hcap Hex].
  destruct Hstep as [e st h t a|i k st h t a Hk Hb Hc Hi|R i k r g st h t a obj st' s Hr Hi Hl Hprep
    |R i k r g st h t a st' res Hr Hi Hno Hres|i k r g st h t a s st' res Hi Hc|st h t a h' w' Hs
    |st h t a t' Hshow]; unfold exclusive in *; cbn in *; try done.
  - split.
    + intros j x. rewrite lookup_insert. case_decide; intros ?; simplify_eq; eauto.
    + assert (∀ j x, a !! j = Some x → x.1 ≠ k) as Hfree.
      { intros j [k' x] Hj <-. apply Hb, busy_true; eauto. }
      intros j j' x y. rewrite !lookup_insert. repeat case_decide; intros; simplify_eq; try done; cbn in *;
        [exfalso; by eapply Hfree|exfalso; by eapply Hfree|by eapply Hex].
  - split.
    + intros j x. rewrite lookup_insert. case_decide; intros ?; simplify_eq; eauto.
    + intros j j' x y. rewrite !lookup_insert.
      repeat case_decide; intros; simplify_eq; try done; cbn in *; eauto.
  - split; intros *; rewrite ?lookup_delete_Some; naive_solver.
  - split; intros *; rewrite ?lookup_delete_Some; naive_solver.
Qed.
End lemmas.

(** ** Following one pod along an infinite run *)

Section run.
Context {W Q T D : Type} `{QuantityOps Q} `{NameGenerator} `{ApiServer W Q} `{OwnerReferencesLaws Q}
  `{Toml T} `{Handler D} `{PredicatesLaws Q} `{OwnerHandler}.
Variable runs_with : PodReconciler D → GateState → Prop.
Variable settings : Flags.
Variable σ : nat → Queue W Q.
Variable ℓ : nat → label Q D.
Variable obj : Pod Q.
Implicit Types (k : Request) (i n m : nat).

Abbreviation world_of n := (world (cluster (σ n))).
Abbreviation key := (request_for obj).
Abbreviation place_name := (label_of obj SidecarSecretNameLabel).

(** An infinite run, from a state without calls in progress. *)
Definition run : Prop :=
  active (σ 0) = ∅ ∧ ∀ n, queue_step (T:=T) runs_with settings (ℓ n) (σ n) (σ (S n)).

(** Fairness: what waits and is not worked on is taken at some time, and a worker
    with a request moves on at some time, if no restart comes first. *)
Record Fair : Prop := {
  fair_start : ∀ n k, k ∈ todo (σ n) → ¬ busy (active (σ n)) k →
    ∃ m, n ≤ m ∧ ((∃ i, ℓ m = Started i k) ∨ ℓ m = Restarted);
  fair_work : ∀ n i, is_Some (active (σ n) !! i) →
    ∃ m, n ≤ m ∧ ((∃ r g, ℓ m = Worked i r g) ∨ ℓ m = Restarted)
}.

(** The pod, or what an update of its user has made of it. *)
Definition version (p : Pod Q) : Prop :=
  pod_UID p = pod_UID obj ∧ pod_Namespace p = pod_Namespace obj ∧
  is_Some (map_entries (pod_Labels p) !! SidecarInjectedLabel) ∧
  label_of p SidecarSecretNameLabel = place_name.

(** From [n0] on the pod is there and its secret's name is kept for it: the caches
    show it and show stored secrets only; a secret under the name that is not the
    pod's is shown too, so that the operator waits for its end, and none appears. *)
Record Kept n0 : Prop := {
  kept_pod : ∀ n, n0 ≤ n → ∃ p, GetPod (world_of n) key.1 key.2 = Ok p ∧ version p;
  kept_cache : ∀ n s, n0 ≤ n → GetSecret (world_of n) key.1 place_name = Ok s →
    stored (world_of n) key.1 place_name = Some s;
  kept_shown : ∀ n s, n0 ≤ n → stored (world_of n) key.1 place_name = Some s →
    owned_by (pod_UID obj) s = true ∨ GetSecret (world_of n) key.1 place_name = Ok s;
  kept_name : ∀ n s, n0 ≤ n → stored (world_of (S n)) key.1 place_name = Some s →
    owned_by (pod_UID obj) s = true ∨ stored (world_of n) key.1 place_name = Some s
}.

(** Nothing hinders step [n] of the work on the pod: no restart; no secret of an
    earlier pod is in the way; if a worker looks the pod up, then the class and the
    annotations of the time give a secret that the pod may own; and if a worker
    creates the pod's secret, then the API accepts it or has its name already. *)
Definition unhindered n : Prop :=
  ℓ n ≠ Restarted ∧
  (GetSecret (world_of n) key.1 place_name = Err NotFound ∨
   ∃ s, GetSecret (world_of n) key.1 place_name = Ok s ∧ owned_by (pod_UID obj) s = true) ∧
  ∀ i r g x, ℓ n = Worked i r g → active (σ n) !! i = Some (key, x) →
    match x with
    | None => ∀ (R : MapRange) p, GetPod (world_of n) key.1 key.2 = Ok p →
        ∃ secret, prepared (T:=T) r g p secret
    | Some secret => (CreateSecret (world_of n) secret).2 ∈ [None; Some AlreadyExists]
    end.

(** What is stored under the name is the pod's. *)
Definition free n : Prop :=
  ∀ s, stored (world_of n) key.1 place_name = Some s → owned_by (pod_UID obj) s = true.

(** A secret prepared for the pod. *)
Definition pods_own (s : Secret) : Prop :=
  secret_Namespace s = key.1 ∧ secret_Name s = place_name ∧ owned_by (pod_UID obj) s = true.

(** The pod is not forgotten. *)
Definition tracked n : Prop :=
  key ∈ todo (σ n) ∨
  ∃ i x, active (σ n) !! i = Some (key, x) ∧
    match x with None => True | Some s => pods_own s ∧ free n end.

Definition served_at n : Prop := served (world_of n) key.1 obj.

Hypothesis Hrun : run.

Lemma run_exclusive n : exclusive settings (σ n).
Proof.
  destruct Hrun as [Hinit Hstep]. induction n as [|n IH].
  - split; intros *; rewrite Hinit, lookup_empty; done.
  - by eapply exclusive_step.
Qed.

(** Pods are not forgotten. *)
Lemma pods_kept n m p : n ≤ m → p ∈ pods (σ n) → p ∈ pods (σ m).
Proof.
  intros Hnm Hp. induction Hnm as [|m _ IH]; [done|].
  pose proof (proj2 Hrun m) as Hstep.
  destruct Hstep as [| | | | |st h t a h' w' Hs|]; cbn in *; try done.
  destruct Hs; (done || by right).
Qed.

(** The step of a worker. *)
Lemma worked n i r g k x :
  ℓ n = Worked i r g → active (σ n) !! i = Some (k, x) →
  match x with
  | Some s => σ (S n) = mkQueue (commit (cluster (σ n)) s).1 (pods (σ n))
      (requeue k (commit (cluster (σ n)) s).2 (todo (σ n))) (delete i (active (σ n)))
  | None =>
    (∃ (R : MapRange) p st' s, lookup_pod (world_of n) k.1 k.2 = Ok (inl p) ∧
       prepare (T:=T) r g (cluster (σ n)) p = (st', Ok s) ∧
       σ (S n) = mkQueue st' (pods (σ n)) (todo (σ n)) (<[i := (k, Some s)]> (active (σ n)))) ∨
    (∃ R : MapRange,
       (∀ p, lookup_pod (world_of n) k.1 k.2 = Ok (inl p) →
          is_ok (prepare (T:=T) r g (cluster (σ n)) p).2 = false) ∧
       σ (S n) = mkQueue (Reconcile (T:=T) r g (cluster (σ n)) k.1 k.2).1 (pods (σ n))
         (requeue k (Reconcile (T:=T) r g (cluster (σ n)) k.1 k.2).2 (todo (σ n)))
         (delete i (active (σ n))))
  end.
Proof.
  intros Hl Hi. pose proof (proj2 Hrun n) as Hstep. rewrite Hl in Hstep.
  inversion Hstep as [|
    |R i' k' r' g' st h t a p st' s Hr Hi' Hlook Hprep E0 E1 E2
    |R i' k' r' g' st h t a st' res Hr Hi' Hno Hres E0 E1 E2
    |i' k' r' g' st h t a s st' res Hi' Hc E0 E1 E2| |]; subst;
    rewrite <- E1 in *; cbn in *; rewrite Hi in Hi'; injection Hi' as <- ->.
  - left. by exists R, p, st', s.
  - right. exists R. split; [done|]. by rewrite Hres.
  - by rewrite Hc.
Qed.

(** A worker keeps its request until it moves on. *)
Lemma assigned_stays n i x :
  active (σ n) !! i = Some x → ℓ n ≠ Restarted → (∀ r g, ℓ n ≠ Worked i r g) →
  active (σ (S n)) !! i = Some x.
Proof.
  intros Hi Hnr Hnw. pose proof (proj2 Hrun n) as Hstep.
  destruct Hstep as [e st h t a|j k st h t a Hk Hb Hc Hj|R j k r g st h t a p st' s Hr Hj Hl Hprep
    |R j k r g st h t a st' res Hr Hj Hno Hres|j k r g st h t a s st' res Hj Hc|st h t a h' w' Hs
    |st h t a t' Hshow]; cbn in *; try done.
  all: assert (i ≠ j) by (intros ->; by (congruence || eapply Hnw)).
  all: by rewrite ?lookup_insert_ne, ?lookup_delete_ne.
Qed.

(** A request waits until a worker takes it. *)
Lemma waiting_stays n k :
  k ∈ todo (σ n) → ℓ n ≠ Restarted → (∀ i, ℓ n ≠ Started i k) → k ∈ todo (σ (S n)).
Proof.
  intros Hk Hnr Hns. pose proof (proj2 Hrun n) as Hstep.
  destruct Hstep as [e st h t a|j k' st h t a Hk' Hb Hc Hj|R j k' r g st h t a p st' s Hr Hj Hl Hprep
    |R j k' r g st h t a st' res Hr Hj Hno Hres|j k' r g st h t a s st' res Hj Hc|st h t a h' w' Hs
    |st h t a t' Hshow]; cbn in *; unfold requeue; try done.
  - set_solver.
  - assert (k ≠ k') by (intros ->; by eapply Hns). set_solver.
  - destruct (finished res); set_solver.
  - destruct (finished res); set_solver.
Qed.

Lemma worked_or_not i (l : label Q D) : (∃ r g, l = Worked i r g) ∨ (∀ r g, l ≠ Worked i r g).
Proof. destruct l as [|? ?|j r g| |]; try by right. destruct (decide (j = i)) as [->|]; naive_solver. Qed.

Lemma started_or_not k (l : label Q D) : (∃ i, l = Started i k) ∨ (∀ i, l ≠ Started i k).
Proof. destruct l as [|i k'| | |]; try by right. destruct (decide (k' = k)) as [->|]; naive_solver. Qed.

Variable n0 : nat.
Hypothesis Hkept : Kept n0.

Lemma free_stays n : n0 ≤ n → free n → free (S n).
Proof. intros Hn Hf s Hs. destruct (kept_name n0 Hkept n s Hn Hs); auto. Qed.

(** What the call of a worker on the pod comes to, from its lookup on. *)
Lemma worked_None n i r g :
  n0 ≤ n → ℓ n = Worked i r g → active (σ n) !! i = Some (key, None) →
  (∃ s, active (σ (S n)) !! i = Some (key, Some s) ∧ pods_own s ∧ free (S n)) ∨
  served_at (S n) ∨ (key ∈ todo (σ (S n)) ∧ ¬ unhindered n).
Proof.
  intros Hn Hl Hi. destruct (kept_pod n0 Hkept n Hn) as (p & Hp & Hu & Hns & Hinj & Hlab).
  destruct (worked n i r g key None Hl Hi) as [(R & p' & st' & s & Hlook & Hprep & Hσ)
    |(R & Hno & Hσ)].
  - apply lookup_pod_inl in Hlook as (Hp' & _ & Hsec). rewrite Hp in Hp'. injection Hp' as <-.
    rewrite Hlab in Hsec. left. exists s. rewrite Hσ; cbn. rewrite lookup_insert_eq.
    pose proof Hprep as Hprep'. apply prepare_Ok in Hprep' as (text & _ & Hos & _ & Hw & _); [|done].
    pose proof Hos as (_ & Hsn & Hsns & Hown & _).
    split_and!; [done| |].
    + split_and!; [by rewrite Hsns|by rewrite Hsn|by rewrite <- Hu].
    + intros s' Hs'. rewrite Hσ in Hs'; cbn in Hs'. rewrite Hw in Hs'.
      destruct (kept_shown n0 Hkept n s' Hn Hs') as [|Hok]; [done|]. by rewrite Hsec in Hok.
  - pose proof (finished_Reconcile R r g (cluster (σ n)) key.1 key.2 p Hp Hns Hinj) as Hfin.
    assert (∀ p', lookup_pod (world_of n) key.1 key.2 = Ok (inl p') →
      finished (Reconcile (T:=T) r g (cluster (σ n)) key.1 key.2).2 = false) as Hnot.
    { intros p' Hlook. specialize (Hno p' Hlook). unfold Reconcile. rewrite Hlook.
      unfold reconcile. by destruct (prepare r g _ p') as [? [| |]]. }
    right. destruct (finished (Reconcile (T:=T) r g (cluster (σ n)) key.1 key.2).2) eqn:Hf.
    + left. destruct Hfin as [(s & Hs & Hown & Hst)|(Hs & _)]; [done| |].
      * exists s. rewrite Hσ; cbn [cluster]. rewrite Hst. rewrite Hlab, Hu in *.
        split; [|done]. by apply (kept_cache n0 Hkept).
      * specialize (Hnot p). rewrite (proj2 (lookup_pod_inl R _ _ _ p)) in Hnot by done.
        by specialize (Hnot eq_refl).
    + right. split; [rewrite Hσ; cbn [todo]; unfold requeue; rewrite Hf; set_solver|].
      intros (_ & Hsec & Hw). destruct (Hw i r g None Hl Hi R p Hp) as (secret & Hprep).
      rewrite <- Hlab, <- Hu in Hsec. destruct Hsec as [Hsec|(s & Hsec & Hown)].
      * specialize (Hno p). rewrite (proj2 (lookup_pod_inl R _ _ _ p)) in Hno by done.
        specialize (Hno eq_refl).
        destruct (proj2 (prepare_prepared R r g (cluster (σ n)) p secret) Hprep) as (st' & Heq).
        by rewrite Heq in Hno.
      * clear Hno. unfold Reconcile, lookup_pod in Hf.
        by rewrite Hp, (proj2 (shouldAttempt_true R p) Hinj), Hsec, Hown in Hf.
Qed.

(** The creation of a secret prepared for the pod. *)
Lemma worked_Some n i r g s :
  n0 ≤ n → ℓ n = Worked i r g → active (σ n) !! i = Some (key, Some s) → pods_own s → free n →
  served_at (S n) ∨ (key ∈ todo (σ (S n)) ∧ ¬ unhindered n).
Proof.
  intros Hn Hl Hi (Hsns & Hsn & Hown) Hfree. pose proof (worked n i r g key (Some s) Hl Hi) as Hσ.
  pose proof (commit_spec (cluster (σ n)) s) as Hc.
  destruct (commit (cluster (σ n)) s) as [st' [res|e|]] eqn:Hcom; [left|right|done];
    unfold served_at; rewrite Hσ, Hcom; cbn.
  - destruct Hc as [_ [[[_ Ha] _]|([s' Hs'] & Hsame & _)]].
    + exists s. split; [|done]. by rewrite Ha, Hsns, Hsn, bool_decide_eq_true_2.
    + rewrite Hsns, Hsn in Hs'. exists s'. rewrite Hsame. auto.
  - split; [unfold requeue; cbn; set_solver|]. intros (_ & _ & Hw).
    pose proof (Hw i r g (Some s) Hl Hi) as Hok. cbn in Hok. unfold commit in Hcom.
    destruct (CreateSecret (world_of n) s) as [w err]; cbn in Hok.
    apply list_elem_of_In in Hok as [<-|[<-|[]]]; done.
Qed.

(** The pod is not forgotten before it is served. *)
Lemma tracked_step n : n0 ≤ n → tracked n → tracked (S n) ∨ served_at (S n).
Proof.
  intros Hn Htr. assert (ℓ n = Restarted ∨ ℓ n ≠ Restarted) as [Hr|Hnr]
    by (destruct (ℓ n); (by left) || by right).
  { left. left. pose proof (proj2 Hrun n) as Hstep. rewrite Hr in Hstep.
    destruct (kept_pod n0 Hkept n Hn) as (p & Hp & _ & _ & Hinj & _).
    inversion Hstep as [| | | | | |st h t a t' Hshow E0 E1 E2]; subst.
    rewrite <- E1 in Hp; cbn in *. apply (Hshow _ _ p); [done|].
    unfold startsReconcile. rewrite (proj2 (LabelExists_spec _ (Created p)) Hinj).
    by rewrite (proj1 (GenerationChanged_other p)). }
  destruct Htr as [Hk|(i & x & Hi & Hx)].
  - left. destruct (started_or_not key (ℓ n)) as [[i Hs]|Hs].
    + right. pose proof (proj2 Hrun n) as Hstep. rewrite Hs in Hstep.
      inversion Hstep as [|? ? st h t a Hk' Hb Hc Hi E0 E1 E2| | | | |]; subst.
      exists i, None. cbn. by rewrite lookup_insert_eq.
    + left. by apply waiting_stays.
  - destruct (worked_or_not i (ℓ n)) as [(r & g & Hl)|Hnw].
    + destruct x as [s|].
      * destruct Hx as [Hs Hf]. destruct (worked_Some n i r g s) as [|[? _]]; auto. by left; left.
      * destruct (worked_None n i r g) as [(s & ?)|[|[? _]]]; auto; left; [right|by left].
        by exists i, (Some s).
    + left. right. exists i, x. split; [by apply assigned_stays|].
      destruct x as [s|]; [|done]. destruct Hx. split; [done|]. by apply free_stays.
Qed.

(** ** Progress, once there are no more restarts *)

Variable N : nat.
Hypothesis Hlate : n0 ≤ N.
Hypothesis Hcalm : ∀ n, N ≤ n → unhindered n.
Hypothesis Hfair : Fair.

(** A worker moves on, and has its request until then. *)
Lemma next_work n i x :
  N ≤ n → active (σ n) !! i = Some x →
  ∃ m r g, n ≤ m ∧ ℓ m = Worked i r g ∧ ∀ j, n ≤ j ≤ m → active (σ j) !! i = Some x.
Proof.
  intros Hn Hi. destruct (fair_work Hfair n i) as (m & Hm & [(r & g & Hl)|Hr]); [by eexists| |].
  2: { destruct (Hcalm m) as [Hnr _]; [lia|done]. }
  remember (m - n) as d eqn:Hd. revert n Hn Hi Hm Hd.
  induction d as [|d IH]; intros n Hn Hi Hm Hd.
  { assert (m = n) as -> by lia. exists n, r, g. split_and!; [lia|done|].
    intros j Hj. by assert (j = n) as -> by lia. }
  destruct (worked_or_not i (ℓ n)) as [(r' & g' & Hl')|Hno].
  { exists n, r', g'. split_and!; [lia|done|]. intros j Hj. by assert (j = n) as -> by lia. }
  destruct (IH (S n)) as (m' & r' & g' & Hm' & Hl' & Hall); [lia| |lia|lia|].
  { apply assigned_stays; [done| |done]. by apply (Hcalm n Hn). }
  exists m', r', g'. split_and!; [lia|done|]. intros j Hj.
  destruct (decide (j = n)) as [->|]; [done|]. apply Hall. lia.
Qed.

(** While a worker has the pod, the pod keeps waiting if it does. *)
Lemma waits_while_busy n m i x :
  N ≤ n → n ≤ m → (∀ j, n ≤ j ≤ m → active (σ j) !! i = Some (key, x)) →
  key ∈ todo (σ n) → key ∈ todo (σ m).
Proof.
  intros Hn Hm Hall Hk. induction m as [|m IH]; [by assert (n = 0) as -> by lia|].
  destruct (decide (n = S m)) as [->|]; [done|]. apply waiting_stays.
  - apply IH; [lia|]. intros j Hj. apply Hall. lia.
  - apply Hcalm. lia.
  - intros j E. pose proof (proj2 Hrun m) as Hstep. rewrite E in Hstep.
    inversion Hstep as [|? ? st h t a Hk' Hb Hc Hi E0 E1 E2| | | | |]; subst.
    apply Hb, busy_true. exists i, x. specialize (Hall m ltac:(lia)). by rewrite <- E1 in Hall.
Qed.

Lemma free_until n m : n0 ≤ n → n ≤ m → free n → free m.
Proof. intros Hn. induction 1; [done|]. intros Hf. apply free_stays; [lia|auto]. Qed.

(** A worker with the pod's secret creates it. *)
Lemma creates n i s :
  N ≤ n → active (σ n) !! i = Some (key, Some s) → pods_own s → free n →
  ∃ m, n ≤ m ∧ served_at m.
Proof.
  intros Hn Hi Hs Hf. destruct (next_work n i _ Hn Hi) as (m & r & g & Hm & Hl & Hall).
  exists (S m). split; [lia|].
  destruct (worked_Some m i r g s) as [|[_ Hc]]; [lia|done|apply Hall; lia|done| |done|].
  - apply (free_until n); [lia|lia|done].
  - destruct Hc. apply Hcalm. lia.
Qed.

(** A worker with the pod prepares its secret. *)
Lemma prepares n i :
  N ≤ n → active (σ n) !! i = Some (key, None) → ∃ m, n ≤ m ∧ served_at m.
Proof.
  intros Hn Hi. destruct (next_work n i _ Hn Hi) as (m & r & g & Hm & Hl & Hall).
  destruct (worked_None m i r g) as [(s & Hs & Hown & Hf)|[Hs|[_ Hc]]];
    [lia|done|apply Hall; lia| | |].
  - destruct (creates (S m) i s) as (m' & ? & ?); [lia|done..|]. exists m'. split; [lia|done].
  - exists (S m). split; [lia|done].
  - destruct Hc. apply Hcalm. lia.
Qed.

(** A waiting pod that no worker has is taken. *)
Lemma starts n :
  N ≤ n → key ∈ todo (σ n) → ¬ busy (active (σ n)) key → ∃ m, n ≤ m ∧ served_at m.
Proof.
  intros Hn Hk Hb. destruct (fair_start Hfair n key Hk Hb) as (m & Hm & [[i Hl]|Hr]).
  2: { destruct (Hcalm m) as [Hnr _]; [lia|done]. }
  destruct (prepares (S m) i) as (m' & ? & ?); [lia| |exists m'; split; [lia|done]].
  pose proof (proj2 Hrun m) as Hstep. rewrite Hl in Hstep.
  inversion Hstep as [|? ? st h t a Hk' Hb' Hc Hi E0 E1 E2| | | | |]; subst. cbn.
  by rewrite lookup_insert_eq.
Qed.

(** Once its worker is done, no worker has a request. *)
Lemma not_busy_after n i x :
  active (σ n) !! i = Some (key, x) → active (σ (S n)) = delete i (active (σ n)) →
  ¬ busy (active (σ (S n))) key.
Proof.
  intros Hi Hdel (j & y & Hj)%busy_true. rewrite Hdel in Hj.
  apply lookup_delete_Some in Hj as [Hne Hj]. apply Hne.
  by apply (proj2 (run_exclusive n) i j (key, x) (key, y)).
Qed.

(** A waiting pod that a worker still has is taken after that. *)
Lemma releases n i s :
  N ≤ n → key ∈ todo (σ n) → active (σ n) !! i = Some (key, Some s) → ∃ m, n ≤ m ∧ served_at m.
Proof.
  intros Hn Hk Hi. destruct (next_work n i _ Hn Hi) as (m & r & g & Hm & Hl & Hall).
  pose proof (Hall m ltac:(lia)) as Him. pose proof (worked m i r g key (Some s) Hl Him) as Hσ.
  destruct (starts (S m)) as (m' & ? & ?); [lia| | |exists m'; split; [lia|done]].
  - rewrite Hσ; cbn [todo]. unfold requeue.
    assert (key ∈ todo (σ m)) by (eapply waits_while_busy; [|done..]; done).
    destruct (finished _); set_solver.
  - apply (not_busy_after m i _ Him). by rewrite Hσ.
Qed.

Lemma tracked_served n : N ≤ n → tracked n → ∃ m, n ≤ m ∧ served_at m.
Proof.
  intros Hn [Hk|(i & [s|] & Hi & Hx)]; [|destruct Hx; by eapply creates|by eapply prepares].
  destruct (decide (busy (active (σ n)) key)) as [(i & [s|] & Hi)%busy_true|Hb];
    [by eapply releases|by eapply prepares|by apply starts].
Qed.
End run.

(** ** From the announcement of a pod on *)

Section announced.
Context {W Q T D : Type} `{QuantityOps Q} `{NameGenerator} `{ApiServer W Q} `{OwnerReferencesLaws Q}
  `{Toml T} `{Handler D} `{PredicatesLaws Q} `{OwnerHandler}.
Variable runs_with : PodReconciler D → GateState → Prop.
Variable settings : Flags.
Variable σ : nat → Queue W Q.
Variable ℓ : nat → label Q D.
Variable obj : Pod Q.
Hypothesis Hrun : run (T:=T) runs_with settings σ ℓ.
Variable n0 : nat.
Hypothesis Hkept : Kept σ obj (S n0).
Hypothesis Hev : ℓ n0 = Watched (PodWatch (Created obj)).
Hypothesis Hinj : is_Some (map_entries (pod_Labels obj) !! SidecarInjectedLabel).

Lemma tracked_or_served m : n0 < m → tracked σ obj m ∨ ∃ j, n0 < j ≤ m ∧ served_at σ obj j.
Proof.
  assert (tracked σ obj (S n0)) as Hstart.
  { left. pose proof (proj2 Hrun n0) as Hstep. rewrite Hev in Hstep.
    inversion Hstep as [e st h t a E0 E1 E2| | | | | |]; subst.
    change (request_for obj ∈ (list_to_set (requests_of (PodWatch (Created obj))) ∪ t : gset Request)).
    rewrite created_queued by done. set_solver. }
  intros Hm. induction m as [|m IH]; [lia|].
  destruct (decide (n0 = m)) as [->|]; [by left|].
  destruct IH as [Htr|(j & ? & ?)]; [lia| |right; exists j; split; [lia|done]].
  destruct (tracked_step runs_with settings σ ℓ obj Hrun (S n0) Hkept m) as [|Hs];
    [lia|done|by left|right; exists (S m); split; [lia|done]].
Qed.

Lemma served_eventually :
  Fair σ ℓ → (∃ N, ∀ n, N ≤ n → unhindered (T:=T) σ ℓ obj n) → ∃ m, n0 < m ∧ served_at σ obj m.
Proof.
  intros Hfair [N HN]. set (n := S n0 + N).
  destruct (tracked_or_served n) as [Htr|(j & ? & ?)]; [lia| |exists j; split; [lia|done]].
  destruct (tracked_served runs_with settings σ ℓ obj Hrun (S n0) Hkept n) with (n := n)
    as (m & ? & ?); [lia| |done|lia|done|exists m; split; [lia|done]].
  intros m Hm. apply HN. lia.
Qed.
End announced.

(** * Theorems *)

Section theorems.
Context {W Q T D : Type} `{QuantityOps Q} `{NameGenerator} `{ApiServer W Q} `{OwnerReferencesLaws Q}
  `{Toml T} `{Handler D} `{PredicatesLaws Q} `{OwnerHandler}.
Variable runs_with : PodReconciler D → GateState → Prop.
Variable settings : Flags.

(** C5. Every injected pod is served in the end.  Once its creation is announced, and
    as long as it is there and its secret's name is kept for it, the pod is never
    forgotten, whatever fails and however often the operator restarts: it waits,
    or a worker has it, or its own secret has been stored under the name that its
    volume mounts.  And if the queue and the workers are fair and nothing hinders
    the work on this pod any longer from some time on, then its secret does get stored,
    however many calls failed before and whichever pods compete for the workers. *)
Theorem queue_serves (σ : nat → Queue W Q) (ℓ : nat → label Q D) obj n0 :
  run (T:=T) runs_with settings σ ℓ →
  ℓ n0 = Watched (PodWatch (Created obj)) →
  is_Some (map_entries (pod_Labels obj) !! SidecarInjectedLabel) →
  Kept σ obj (S n0) →
  (∀ m, n0 < m → request_for obj ∈ todo (σ m) ∨ busy (active (σ m)) (request_for obj) ∨
     ∃ j, n0 < j ≤ m ∧ served (world (cluster (σ j))) (pod_Namespace obj) obj) ∧
  (Fair σ ℓ → (∃ N, ∀ n, N ≤ n → unhindered (T:=T) σ ℓ obj n) →
   ∃ m, n0 < m ∧ served (world (cluster (σ m))) (pod_Namespace obj) obj).
Proof.
  intros Hrun Hev Hinj Hkept. split.
  - intros m Hm. destruct (tracked_or_served runs_with settings σ ℓ obj Hrun n0 Hkept Hev Hinj m Hm)
      as [[?|(i & x & Hi & _)]|Hs]; [by left|right; left|by right; right].
    apply busy_true. eauto.
  - intros Hfair Hcalm. by eapply served_eventually.
Qed.
End theorems.

Section owned.
Context {W Q T D : Type} `{QuantityOps Q} `{NameGenerator} `{ApiServer W Q} `{OwnerReferences Q}
  `{Toml T} `{Handler D} `{Predicates Q} `{OwnerHandlerLaws}.
Variable runs_with : PodReconciler D → GateState → Prop.
Variable settings : Flags.

(** What happens while no pod changes: secrets of the operator change and are
    deleted, pods are resynchronised or change in their status, other clients move,
    workers finish what they have; but the operator is not restarted. *)
Definition quiet (l : label Q D) : Prop :=
  match l with
  | Watched (PodWatch e) => startsReconcile e = false
  | Watched (SecretWatch e) =>
      ∀ s, s ∈ event_secrets e → ∃ (p : Pod Q) text, operator_secret s p text
  | Restarted => False
  | Started _ _ | Worked _ _ _ | Elsewhere => True
  end.

(** C37. [Owns] has no effect: the operator is the creator of its secrets but makes no
    pod their controller, so no change or deletion of them queues a pod.  With an
    idle queue, and as long as no pod changes and the operator is not restarted, no
    call starts and no secret of the operator appears: one that is deleted is not
    created again. *)
Theorem deleted_secrets_stay_deleted (q q' : Queue W Q) :
  todo q = ∅ → active q = ∅ →
  rtc (λ q q', ∃ l, quiet l ∧ queue_step (T:=T) runs_with settings l q q') q q' →
  todo q' = ∅ ∧ active q' = ∅ ∧
  ∀ ns name s, stored (world (cluster q')) ns name = Some s → managed_secret s →
    stored (world (cluster q)) ns name = Some s.
Proof.
  intros Ht Ha Hrun.
  induction Hrun as [q|q1 q2 q3 (l & Hl & Hstep) _ IH]; [done|].
  destruct Hstep as [e st h t a|i k st h t a Hk _ _ _|R i k r g st h t a obj st' s _ Hi _ _
    |R i k r g st h t a st' res _ Hi _ _|i k r g st h t a s st' res Hi _|st h t a h' w' Hs
    |st h t a t' Hshow]; cbn in Ht, Ha; subst t a;
    [|set_solver|by rewrite lookup_empty in Hi..| |done].
  - apply IH; [|done]. cbn [todo]. enough (requests_of e = []) as -> by set_solver.
    destruct e as [e|e]; cbn in Hl; [cbn; by rewrite Hl|by apply owns_nothing].
  - destruct (IH eq_refl eq_refl) as (? & ? & Hst). split_and!; [done..|].
    intros ns name s Hs' Hm. specialize (Hst ns name s Hs' Hm). cbn in *.
    inversion Hs as [| | |h0 w w0 Ho Hc]; subst; by auto.
Qed.
End owned.

(** ** Samples and witnesses

    The name of the pod's secret is still used by a secret of an earlier pod: the
    first call waits, another client deletes that secret, the second call creates
    the pod's own. *)
Import SampleQuantity.

Definition sample_settings : Flags := sample_flags "10m".

Abbreviation sample_queue_step := (@queue_step Cluster nat string (option DirectoryHandler)
  ops sample_generator cluster_client cluster_server sample_owner sample_toml directory_handler_ptr
  sample_predicates sample_owner_handler sample_runs sample_settings).

Abbreviation run_key := (request_for run_pod).

Definition left_secret : Secret :=
  mkSecret (secret_Name run_secret) "shop" {[SecretManagedByLabelKey := ControllerName]}
    [{| owner_Kind := "Pod"; owner_Name := "web-7d4b9-hj2xz"; owner_UID := "uid-0";
        owner_Controller := None |}] "Opaque" ∅.

Definition left_world : Cluster :=
  mkCluster (cl_pods run_world) {[("shop", secret_Name run_secret) := left_secret]}.

Definition idle_queue (st : State Cluster) : Queue Cluster nat := mkQueue st [run_pod] ∅ ∅.

Definition announced_queue : Queue Cluster nat :=
  @mkQueue Cluster nat (mkState left_world []) [run_pod]
    (list_to_set (@requests_of nat sample_predicates sample_owner_handler (PodWatch (Created run_pod)))
     ∪ ∅) ∅.

Definition requeued (w : Cluster) : Queue Cluster nat :=
  @mkQueue Cluster nat (mkState w []) [run_pod]
    (requeue run_key (Ok requeue_result) (todo announced_queue ∖ {[run_key]}))
    (delete 0 {[0 := (run_key, None)]}).

Definition started (q : Queue Cluster nat) : Queue Cluster nat :=
  mkQueue (cluster q) (pods q) (todo q ∖ {[run_key]}) (<[0 := (run_key, None)]> (active q)).

Definition prepared_queue : Queue Cluster nat :=
  mkQueue run_prepared.1 [run_pod] (todo (started (requeued run_world)))
    (<[0 := (run_key, Some run_secret)]> (active (started (requeued run_world)))).

Definition sample_commit := @commit Cluster nat cluster_client run_prepared.1 run_secret.

Definition served_queue : Queue Cluster nat :=
  mkQueue (mkState (world sample_commit.1) (events sample_commit.1)) [run_pod]
    (requeue run_key sample_commit.2 (todo prepared_queue)) (delete 0 (active prepared_queue)).

Definition sample_σ (n : nat) : Queue Cluster nat :=
  match n with
  | 0 => idle_queue (mkState left_world [])
  | 1 => announced_queue
  | 2 => started announced_queue
  | 3 => requeued left_world
  | 4 => requeued run_world
  | 5 => started (requeued run_world)
  | 6 => prepared_queue
  | _ => served_queue
  end.

Definition sample_ℓ (n : nat) : label nat (option DirectoryHandler) :=
  match n with
  | 0 => Watched (PodWatch (Created run_pod))
  | 1 | 4 => Started 0 run_key
  | 2 | 5 | 6 => Worked 0 (podReconciler running_operator) (sample_gates false)
  | _ => Elsewhere
  end.

Lemma sample_runs_with : sample_runs (podReconciler running_operator) (sample_gates false).
Proof. done. Qed.

Lemma run_pod_cached w : cl_pods w = cl_pods run_world →
  @cache_sound Cluster nat cluster_client [run_pod] w.
Proof.
  intros Hw ns name p. cbn. rewrite Hw. cbn [cl_pods run_world].
  destruct (_ !! (ns, name)) as [q|] eqn:E; [|done].
  apply lookup_singleton_Some in E as [_ <-]. intros [= <-]. by left.
Qed.

(** What the steps of the sample come to, without evaluating the pod. *)
Lemma run_name : label_of run_pod SidecarSecretNameLabel = secret_Name run_secret.
Proof. vm_compute. reflexivity. Qed.

Lemma run_place : run_key = ("shop", "web-7d4b9-hj2xz").
Proof. vm_compute. reflexivity. Qed.

Lemma run_secret_namespace : secret_Namespace run_secret = "shop".
Proof. vm_compute. reflexivity. Qed.

Lemma run_prepared_eq : run_prepared = (run_prepared.1, Ok run_secret).
Proof.
  assert (is_ok run_prepared.2 = true) as Hok by (vm_compute; reflexivity).
  unfold run_secret. by destruct run_prepared as [st [s|e|w]].
Qed.

Lemma run_prepared_world : world run_prepared.1 = run_world.
Proof. apply prepare_world. Qed.

Lemma sample_commit_world : world sample_commit.1 =
  mkCluster (cl_pods run_world) {[("shop", secret_Name run_secret) := run_secret]}.
Proof.
  unfold sample_commit, commit, CreateSecret, cluster_client.
  rewrite run_prepared_world, run_secret_namespace. cbn [cl_secrets run_world].
  by rewrite lookup_empty.
Qed.

Lemma sample_pods n : cl_pods (world (cluster (sample_σ n))) = cl_pods run_world.
Proof.
  destruct n as [|[|[|[|[|[|[|n]]]]]]]; [reflexivity..| |].
  - exact (f_equal cl_pods run_prepared_world).
  - exact (f_equal cl_pods sample_commit_world).
Qed.

Lemma sample_secrets n : cl_secrets (world (cluster (sample_σ n))) =
  match n with
  | 0 | 1 | 2 | 3 => {[("shop", secret_Name run_secret) := left_secret]}
  | 4 | 5 | 6 => ∅
  | _ => {[("shop", secret_Name run_secret) := run_secret]}
  end.
Proof.
  destruct n as [|[|[|[|[|[|[|n]]]]]]]; [reflexivity..| |].
  - exact (f_equal cl_secrets run_prepared_world).
  - exact (f_equal cl_secrets sample_commit_world).
Qed.

Lemma idle_not_busy a k : a = ∅ → ¬ busy a k.
Proof. intros -> (i & x & Hi)%busy_true. by rewrite lookup_empty in Hi. Qed.

Lemma sample_step_at n : sample_queue_step (sample_ℓ n) (sample_σ n) (sample_σ (S n)).
Proof.
  destruct n as [|[|[|[|[|[|[|n]]]]]]]; cbn [sample_σ sample_ℓ].
  - apply queue_watch.
  - apply queue_start; [|by apply idle_not_busy|vm_compute; lia|done].
    apply (bool_decide_unpack _). vm_compute. exact I.
  - eapply (queue_return _ _ range_forward 0 run_key); [done|reflexivity| |].
    + intros p Hp. vm_compute in Hp. discriminate.
    + vm_compute. reflexivity.
  - apply (queue_cluster _ _ (mkState left_world []) _ _ _ _ run_world), cluster_clients.
    + intros ns name s. cbn. by rewrite lookup_empty.
    + by apply run_pod_cached.
  - apply queue_start; [|by apply idle_not_busy|vm_compute; lia|done].
    apply (bool_decide_unpack _). vm_compute. exact I.
  - apply (queue_prepare _ _ range_forward 0 run_key _ _ _ _ _ _ run_pod);
      [done|reflexivity| |exact run_prepared_eq].
    vm_compute. reflexivity.
  - apply (queue_create _ _ 0 run_key _ _ _ _ _ _ run_secret); [reflexivity|].
    fold sample_commit. by destruct sample_commit as [[w evs] res].
  - apply (queue_cluster _ _ sample_commit.1 _ _ _ _ (world sample_commit.1)), cluster_clients.
    + by intros ns name s.
    + apply run_pod_cached, (sample_pods 7).
Qed.

Lemma sample_is_run : @run Cluster nat string (option DirectoryHandler) ops sample_generator
  cluster_client cluster_server sample_owner sample_toml directory_handler_ptr sample_predicates
  sample_owner_handler sample_runs sample_settings sample_σ sample_ℓ.
Proof. split; [done|]. exact sample_step_at. Qed.

Lemma sample_todo n :
  todo (sample_σ n) = match n with 1 | 3 | 4 => {[run_key]} | _ => ∅ end.
Proof. destruct n as [|[|[|[|[|[|[|n]]]]]]]; apply (bool_decide_unpack _); vm_compute; exact I. Qed.

Lemma sample_active n i x : active (sample_σ n) !! i = Some x → i = 0 ∧ (n = 2 ∨ n = 5 ∨ n = 6).
Proof.
  assert (∀ m, bool_decide (active (sample_σ m) = ∅) = true →
    active (sample_σ m) !! i = Some x → False) as He.
  { intros m ->%bool_decide_eq_true. by rewrite lookup_empty. }
  destruct n as [|[|[|[|[|[|[|n]]]]]]]; intros Hi.
  - by apply (He 0) in Hi.
  - by apply (He 1) in Hi.
  - cbn [sample_σ started active prepared_queue] in Hi.
    apply lookup_insert_Some in Hi as [[<- _]|[_ Hi]]; [auto|by apply (He 1) in Hi].
  - apply (He 3) in Hi; [done|]. vm_compute. reflexivity.
  - apply (He 4) in Hi; [done|]. vm_compute. reflexivity.
  - cbn [sample_σ started active prepared_queue] in Hi.
    apply lookup_insert_Some in Hi as [[<- _]|[_ Hi]]; [auto|].
    apply (He 4) in Hi; [done|]. vm_compute. reflexivity.
  - cbn [sample_σ started active prepared_queue] in Hi.
    apply lookup_insert_Some in Hi as [[<- _]|[Hne Hi]]; [auto|].
    apply lookup_insert_Some in Hi as [[<- _]|[_ Hi]]; [done|].
    apply (He 4) in Hi; [done|]. vm_compute. reflexivity.
  - apply (He 7) in Hi; [done|]. vm_compute. reflexivity.
Qed.

Lemma sample_fair : Fair sample_σ sample_ℓ.
Proof.
  split.
  - intros n k Hk _. rewrite sample_todo in Hk.
    destruct n as [|[|[|[|[|n]]]]]; try (by apply elem_of_empty in Hk);
      apply elem_of_singleton in Hk as ->;
      [exists 1|exists 4|exists 4]; (split; [lia|]); left; by exists 0.
  - intros n i [x Hi]. destruct (sample_active n i x Hi) as [-> Hn]. exists n. split; [lia|]. left.
    destruct Hn as [->|[->| ->]]; by eexists _, _.
Qed.

Lemma run_secret_owned : owned_by (pod_UID run_pod) run_secret = true.
Proof. vm_compute. reflexivity. Qed.

Lemma run_secret_managed : managed run_secret = true.
Proof. vm_compute. reflexivity. Qed.

(** What is stored under the pod's name, and what the cache shows of it. *)
Lemma sample_stored n :
  @stored Cluster nat cluster_client cluster_server (world (cluster (sample_σ n)))
    (request_for run_pod).1 (label_of run_pod SidecarSecretNameLabel) =
  match n with 0 | 1 | 2 | 3 => Some left_secret | 4 | 5 | 6 => None | _ => Some run_secret end.
Proof.
  unfold stored, cluster_server. rewrite run_place, run_name, sample_secrets.
  destruct n as [|[|[|[|[|[|[|n]]]]]]]; by rewrite ?lookup_singleton_eq, ?lookup_empty.
Qed.

Lemma sample_shown n s :
  @stored Cluster nat cluster_client cluster_server (world (cluster (sample_σ n)))
    (request_for run_pod).1 (label_of run_pod SidecarSecretNameLabel) = Some s →
  @GetSecret Cluster nat cluster_client (world (cluster (sample_σ n))) (request_for run_pod).1
    (label_of run_pod SidecarSecretNameLabel) = Ok s.
Proof.
  assert (map_Forall (λ _ x, managed x = true) (cl_secrets (world (cluster (sample_σ n))))) as Hall.
  { rewrite sample_secrets.
    destruct n as [|[|[|[|[|[|[|n]]]]]]]; try apply map_Forall_empty; apply map_Forall_singleton;
      try exact run_secret_managed; reflexivity. }
  unfold stored, cluster_server, GetSecret, cluster_client. intros Hs.
  by rewrite Hs, (Hall _ _ Hs).
Qed.

Lemma sample_kept : @Kept Cluster nat cluster_client cluster_server sample_σ run_pod 1.
Proof.
  split.
  - intros n _. exists run_pod. split; [|by split_and!].
    unfold GetPod, cluster_client. rewrite run_place, sample_pods. cbn [fst snd cl_pods run_world].
    by rewrite lookup_singleton_eq.
  - intros n s _. unfold GetSecret, stored, cluster_client, cluster_server.
    destruct (cl_secrets _ !! _) as [s'|]; [|done]. destruct (managed s'); congruence.
  - intros n s _ Hs. right. by apply sample_shown.
  - intros n s Hn. rewrite !sample_stored.
    destruct n as [|[|[|[|[|[|[|n]]]]]]]; intros Hs;
      [right; exact Hs..|discriminate Hs|discriminate Hs|discriminate Hs| |right; exact Hs].
    left. apply (inj Some) in Hs. rewrite <- Hs. exact run_secret_owned.
Qed.

Lemma run_secret_labels : labels_valid (secret_Labels run_secret).
Proof. apply (bool_decide_unpack _). vm_compute. exact I. Qed.

Lemma run_secret_prepared (R : MapRange) : @prepared nat string _ sample_owner sample_toml
  directory_handler_ptr R (podReconciler running_operator) (sample_gates false) run_pod run_secret.
Proof.
  pose proof sample_toml_laws. apply (prepared_order range_forward), (prepare_prepared range_forward _ _ (mkState run_world [])).
  exists run_prepared.1. exact run_prepared_eq.
Qed.

Lemma sample_shows_pod n p :
  @GetPod Cluster nat cluster_client (world (cluster (sample_σ n))) run_key.1 run_key.2 = Ok p →
  p = run_pod.
Proof.
  unfold GetPod, cluster_client. rewrite run_place, sample_pods. cbn [fst snd cl_pods run_world].
  rewrite lookup_singleton_eq. intros Hp.
  apply (f_equal (λ x, match x with Ok q => q | _ => p end)) in Hp. by symmetry.
Qed.

(** From the fourth state on nothing hinders the work on the pod. *)
Lemma sample_calm n : 4 ≤ n → @unhindered Cluster nat string _ cluster_client sample_owner
  sample_toml directory_handler_ptr sample_σ sample_ℓ run_pod n.
Proof.
  intros Hn. split_and!.
  - destruct n as [|[|[|[|[|[|[|n]]]]]]]; try lia; discriminate.
  - pose proof (sample_stored n) as Hst. pose proof (sample_shown n run_secret) as Hshown.
    unfold stored, cluster_server, GetSecret, cluster_client in Hst, Hshown |- *.
    destruct n as [|[|[|[|[|[|[|n]]]]]]]; try lia; [left; by rewrite Hst..|].
    right. exists run_secret. split; [by apply Hshown|exact run_secret_owned].
  - intros i r g x El Hi. destruct (sample_active n i _ Hi) as [-> [->|[->| ->]]]; [lia| |];
      cbn [sample_σ started prepared_queue active] in Hi; rewrite lookup_insert_eq in Hi;
      apply (f_equal (option_map snd)) in Hi; cbn in Hi; apply (inj Some) in Hi as <-.
    + intros R p ->%(sample_shows_pod 5). exists run_secret.
      cbn in El. injection El as <- <-. apply run_secret_prepared.
    + apply cluster_create_answers, run_secret_labels.
Qed.

Lemma queue_serves_witness :
  ∃ m, 0 < m ∧ @served Cluster nat cluster_client cluster_server
    (world (cluster (sample_σ m))) "shop" run_pod.
Proof.
  destruct (@queue_serves Cluster nat string _ ops sample_generator cluster_client cluster_server
    sample_owner sample_owner_laws sample_toml directory_handler_ptr sample_predicates
    sample_predicates_laws sample_owner_handler sample_runs sample_settings sample_σ sample_ℓ
    run_pod 0
    sample_is_run eq_refl) as [_ Hserved].
  - exists "true". vm_compute. reflexivity.
  - exact sample_kept.
  - apply Hserved; [exact sample_fair|]. exists 4. exact sample_calm.
Defined.

(** The pod is served, then somebody deletes its secret, and the watch reports it. *)
Definition deleted_queue : Queue Cluster nat :=
  mkQueue (mkState run_world (events (cluster (sample_σ 7)))) [run_pod] (todo (sample_σ 7))
    (active (sample_σ 7)).

Definition reported_queue : Queue Cluster nat :=
  mkQueue (cluster deleted_queue) [run_pod]
    (list_to_set (@requests_of nat sample_predicates sample_owner_handler
       (SecretWatch (SecretDeleted run_secret))) ∪ todo deleted_queue) (active deleted_queue).

Lemma run_secret_made : ∃ text, operator_secret run_secret run_pod text.
Proof.
  destruct (@prepare_Ok Cluster nat string _ sample_owner sample_owner_laws sample_toml
    directory_handler_ptr range_forward (podReconciler running_operator) (sample_gates false)
    (mkState run_world []) run_pod run_prepared.1 run_secret) as (text & _ & Hs & _).
  - exists "true". vm_compute. reflexivity.
  - exact run_prepared_eq.
  - by exists text.
Qed.

Lemma deleted_secrets_stay_deleted_witness :
  todo reported_queue = ∅ ∧ active reported_queue = ∅ ∧
  @stored Cluster nat cluster_client cluster_server (world (cluster (sample_σ 7))) "shop"
    (secret_Name run_secret) = Some run_secret.
Proof.
  destruct (@deleted_secrets_stay_deleted Cluster nat string _ ops sample_generator cluster_client
    cluster_server sample_owner sample_toml directory_handler_ptr sample_predicates
    sample_owner_handler sample_owner_handler_laws sample_runs sample_settings (sample_σ 7) reported_queue)
    as (Ht & Ha & _).
  - exact (sample_todo 7).
  - vm_compute. reflexivity.
  - eapply rtc_l with (y := deleted_queue).
    + exists Elsewhere. split; [exact I|].
      apply (queue_cluster _ _ (cluster (sample_σ 7)) _ _ _ _ run_world), cluster_clients.
      * intros ns name s. cbn. by rewrite lookup_empty.
      * by apply run_pod_cached.
    + apply rtc_once. exists (Watched (SecretWatch (SecretDeleted run_secret))). split; [|apply queue_watch].
      intros s Hs. apply list_elem_of_singleton in Hs. rewrite Hs. exists run_pod. exact run_secret_made.
  - split; [exact Ht|]. split; [exact Ha|].
    unfold stored, cluster_server. rewrite sample_secrets. apply lookup_singleton_eq.
Defined.
