(* ===== verification/Delivery.v ===== *)
(** What telegraf gets to read: from the secret that the operator stores to the
    file that the injected container opens.

    Between the two is the kubelet.  Documented: a secret's volume shows each key
    of the secret as a file of that name in the directory where a container mounts
    the volume. *)
From S2P Require Import Prelude Metadata FeatureGate ClassData K8s Sidecar Injector.
From S2P Require Import TelegrafConfig PodController Watches Retry Operator Protocol System Queue.

(** [path] is the directory [dir] or lies under it. *)
Definition inside (dir path : string) : Prop := path = dir ∨ ∃ rest, path = dir +:+ "/" +:+ rest.

(** A name without a slash, as keys of secrets are. *)
Fixpoint file_name (key : string) : bool :=
  match key with
  | "" => true
  | String c key => negb (Ascii.eqb c "/") && file_name key
  end.

(** The files of a pod's container, when it starts in a world. *)
Class Kubelet (W Q : Type) := {
  ContainerFile : W → Pod Q → Container Q → string → option string
}.

Class KubeletLaws (W Q : Type) `{ApiServer W Q} `{Kubelet W Q} : Prop := {
  ContainerFile_secret : ∀ w p c m secretName s key text,
    c ∈ all_containers p → m ∈ c_VolumeMounts c →
    (∀ m', m' ∈ c_VolumeMounts c → inside (MountPath m) (MountPath m') → m' = m) →
    {| vol_Name := mount_Name m; vol_Source := SecretVolume secretName |} ∈ pod_Volumes p →
    NoDup (vol_Name <$> pod_Volumes p) →
    stored w (pod_Namespace p) secretName = Some s → secret_StringData s !! key = Some text →
    file_name key = true →
    ContainerFile w p c (MountPath m +:+ "/" +:+ key) = Some text
}.

(** * Lemmas *)

Section delivery.
Context {W Q T D : Type} `{QuantityOps Q} `{NameGenerator} `{ApiServer W Q} `{!PodCache W Q}
  `{OwnerReferencesLaws Q} `{Toml T} `{Handler D} `{!Kubelet W Q} `{!KubeletLaws W Q}.
Variable runs_with : PodReconciler D → GateState → Prop.
Implicit Types (sys : System W Q).

(** What the telegraf container of a pod finds, once the pod's secret is stored. *)
Definition configured (w : W) (history : list (Pod Q)) (p : Pod Q) (c : Container Q)
    (file : string) : Prop :=
  ∃ p' text, p' ∈ history ∧ pod_UID p' = pod_UID p ∧
    configures (T:=T) runs_with (map_entries (pod_Annotations p')) text ∧
    ContainerFile w p c file = Some text.

(** Nothing but the webhook's mount is at or under its directory. *)
Definition unshadowed (c : Container Q) : Prop :=
  ∀ m, m ∈ c_VolumeMounts c → inside "/etc/telegraf" (MountPath m) → m = telegrafMount.

Lemma delivered sys0 sys p c s :
  system_init sys0 → rtc (system_step (T:=T) runs_with) sys0 sys →
  equipped p → NoDup (vol_Name <$> pod_Volumes p) →
  c ∈ all_containers p → runs_telegraf c → unshadowed c →
  stored (world (shared (workers sys))) (pod_Namespace p) (label_of p SidecarSecretNameLabel) = Some s →
  managed_secret s → owned_by (pod_UID p) s = true →
  configured (world (shared (workers sys))) (history sys) p c "/etc/telegraf/telegraf.conf".
Proof.
  intros Hinit Hrun [Hvol _] Hnd Hc (Hn & Hm & Hcmd) Hfree Hst Hman Hown.
  destruct (secret_origin runs_with sys0 sys _ _ s Hinit Hrun Hst Hman)
    as (p' & text & Hp' & Hi' & _ & Hpl & Hsole & Hd & Hconf).
  exists p', text. split_and!; [done|symmetry; by apply Hsole|done|].
  apply (ContainerFile_secret _ p c telegrafMount (label_of p SidecarSecretNameLabel) s
    "telegraf.conf"); [done..|by rewrite Hd, lookup_singleton_eq|done].
Qed.
End delivery.

(** * Theorems *)

Section theorems.
Context {W Q T D : Type} `{QuantityOps Q} `{NameGenerator} `{ApiServer W Q} `{!PodCache W Q}
  `{OwnerReferencesLaws Q} `{Toml T} `{Handler D} `{!Kubelet W Q} `{!KubeletLaws W Q}.
Variable runs_with : PodReconciler D → GateState → Prop.
Implicit Types (sys : System W Q).

(** After [n0] the pod is there, the caches show it and show stored secrets only, no
    other client uses the name of its secret, and the generator has not given the
    same name to another pod. *)
Record Undisturbed (σ : nat → Queue W Q) (obj : Pod Q) (n0 : nat) : Prop := {
  undisturbed_pod : ∀ n, n0 < n → ∃ p,
    GetPod (world (cluster (σ n))) (pod_Namespace obj) (pod_Name obj) = Ok p ∧ version obj p;
  undisturbed_cache : ∀ n s, n0 < n →
    GetSecret (world (cluster (σ n))) (pod_Namespace obj) (label_of obj SidecarSecretNameLabel) = Ok s →
    stored (world (cluster (σ n))) (pod_Namespace obj) (label_of obj SidecarSecretNameLabel) = Some s;
  undisturbed_name : ∀ n s, n0 < n →
    stored (world (cluster (σ n))) (pod_Namespace obj) (label_of obj SidecarSecretNameLabel) = Some s →
    managed_secret s;
  undisturbed_place : ∀ n p, p ∈ pods (σ n) → injected p → place_of p = place_of obj →
    pod_UID p = pod_UID obj
}.

(** C2. What the operator is for.  In every reachable state, each injected pod has a
    container named telegraf whose command starts telegraf on a configuration file;
    and once the pod's secret is stored, this file is there, and it holds a
    configuration for annotations that this very pod has had, under class data and
    gates that the operator ran with.  (The API server refuses two volumes of one
    name; a mount that an annotation or another webhook puts at or under
    /etc/telegraf would hide the file.) *)
Theorem telegraf_reads_its_configuration sys0 sys p :
  system_init sys0 → rtc (system_step (T:=T) runs_with) sys0 sys →
  p ∈ history sys → injected p → NoDup (vol_Name <$> pod_Volumes p) →
  ∃ c file, c ∈ all_containers p ∧ c_Name c = "telegraf" ∧
    ["telegraf"; "--config"; file] `prefix_of` c_Command c ∧
    ∀ s, stored (world (shared (workers sys))) (pod_Namespace p)
           (label_of p SidecarSecretNameLabel) = Some s →
      managed_secret s → owned_by (pod_UID p) s = true → unshadowed c →
      configured (T:=T) runs_with (world (shared (workers sys))) (history sys) p c file.
Proof.
  intros Hinit Hrun Hp Hi Hnd.
  pose proof (injected_equipped runs_with sys0 sys p Hinit Hrun Hp Hi) as Heq.
  destruct (proj2 Heq) as (c & Hc & Ht). pose proof Ht as (Hn & _ & Hcmd).
  exists c, "/etc/telegraf/telegraf.conf". split_and!; [done..|].
  intros s Hst Hman Hown Hfree. by eapply delivered.
Qed.

(** C1. The whole operator, in the end.  In a cluster that started without secrets of
    the operator, an injected pod whose creation is announced and which then stays
    undisturbed gets its secret after finitely many steps, if the queue and the
    workers are fair and nothing hinders the work on it any longer from some time
    on ([unhindered]: no restart, its own secret can be prepared and the API takes
    that one secret).
    Its telegraf container, when it starts then, reads a configuration for
    annotations that this pod has had. *)
Theorem pods_get_configured `{PredicatesLaws Q} `{OwnerHandler} settings
    (σ : nat → Queue W Q) (ℓ : nat → label Q D) obj n0 sys0 :
  system_init sys0 → rtc (system_step (T:=T) runs_with) sys0 (system_of (σ 0)) →
  run (T:=T) runs_with settings σ ℓ →
  ℓ n0 = Watched (PodWatch (Created obj)) → obj ∈ pods (σ n0) → injected obj →
  NoDup (vol_Name <$> pod_Volumes obj) → Undisturbed σ obj n0 →
  Fair σ ℓ → (∃ N, ∀ n, N ≤ n → unhindered (T:=T) σ ℓ obj n) →
  ∃ m c file, n0 < m ∧ c ∈ all_containers obj ∧ c_Name c = "telegraf" ∧
    ["telegraf"; "--config"; file] `prefix_of` c_Command c ∧
    (unshadowed c →
     configured (T:=T) runs_with (world (cluster (σ m))) (pods (σ m)) obj c file).
Proof.
  intros Hinit Hreach Hrun Hev Hobj Hinj Hnd [Hpod Hcache Hname Hplace] Hfair Hcalm.
  assert (∀ n, rtc (system_step (T:=T) runs_with) sys0 (system_of (σ n))) as Hreachn.
  { intros n. induction n as [|n IH]; [done|]. etrans; [done|].
    eapply queue_simulation, (proj2 Hrun). }
  assert (∀ n s, n0 < n → stored (world (cluster (σ n))) (pod_Namespace obj)
    (label_of obj SidecarSecretNameLabel) = Some s → owned_by (pod_UID obj) s = true) as Hown.
  { intros n s Hn Hst.
    destruct (secret_origin runs_with sys0 _ _ _ s Hinit (Hreachn n) Hst (Hname n s Hn Hst))
      as (p & text & Hp & Hi & _ & Hpl & Hsole & _).
    apply Hsole. symmetry. exact (Hplace n p Hp Hi Hpl). }
  assert (Kept σ obj (S n0)) as Hkept.
  { split; [exact Hpod|exact Hcache|..]; intros n s Hn Hst; left;
      (eapply Hown; [|exact Hst]; lia). }
  destruct (served_eventually runs_with settings σ ℓ obj Hrun n0 Hkept Hev Hinj Hfair Hcalm)
    as (m & Hm & s & Hst & _).
  assert (obj ∈ pods (σ m)) as Hobjm by (by eapply (pods_kept runs_with settings σ ℓ Hrun n0); [lia|]).
  pose proof (injected_equipped runs_with sys0 _ obj Hinit (Hreachn m) Hobjm Hinj) as Heq.
  destruct (proj2 Heq) as (c & Hc & Ht). pose proof Ht as (Hn & _ & Hcmd).
  exists m, c, "/etc/telegraf/telegraf.conf". split_and!; [done..|].
  intros Hfree. eapply (delivered runs_with sys0 (system_of (σ m))); try done; eauto.
Qed.
End theorems.

(** ** Samples and witnesses

    A kubelet that looks for the file in every secret that the container mounts. *)
Definition sample_files (w : Cluster) (p : Pod nat) (c : Container nat) (path : string)
    : list string :=
  m ← c_VolumeMounts c; v ← pod_Volumes p;
  match vol_Source v with
  | SecretVolume name =>
      match (if bool_decide (vol_Name v = mount_Name m) then cl_secrets w !! (pod_Namespace p, name)
             else None) with
      | Some s =>
          kv ← map_to_list (secret_StringData s);
          if bool_decide (file_name kv.1 = true ∧ MountPath m +:+ "/" +:+ kv.1 = path) then [kv.2] else []
      | None => []
      end
  | OtherVolume _ => []
  end.

Definition sample_kubelet : Kubelet Cluster nat := {|
  ContainerFile w p c path := head (sample_files w p c path)
|}.

Lemma slash_inj a b k l : file_name k = true → file_name l = true →
  a +:+ "/" +:+ k = b +:+ "/" +:+ l → a = b ∧ k = l.
Proof.
  intros Hk Hl. assert (∀ u x, file_name (u +:+ "/" +:+ x) = false) as Hno.
  { intros u x. induction u as [|c u IH]; [done|].
    change (negb (Ascii.eqb c "/") && file_name (u +:+ "/" +:+ x) = false). by rewrite IH, andb_false_r. }
  revert b. induction a as [|c a IH]; intros [|d b] E.
  - change (String "/" k = String "/" l) in E. split; congruence.
  - change (String "/" k = String d (b +:+ "/" +:+ l)) in E. injection E as _ E.
    by rewrite E, Hno in Hk.
  - change (String c (a +:+ "/" +:+ k) = String "/" l) in E. injection E as _ E.
    by rewrite <- E, Hno in Hl.
  - change (String c (a +:+ "/" +:+ k) = String d (b +:+ "/" +:+ l)) in E.
    injection E as -> E. destruct (IH b E) as [-> ->]. done.
Qed.

Lemma elem_of_sample_files w p c path x :
  x ∈ sample_files w p c path ↔
  ∃ m v name s key, m ∈ c_VolumeMounts c ∧ v ∈ pod_Volumes p ∧ vol_Source v = SecretVolume name ∧
    vol_Name v = mount_Name m ∧ cl_secrets w !! (pod_Namespace p, name) = Some s ∧
    secret_StringData s !! key = Some x ∧ file_name key = true ∧ MountPath m +:+ "/" +:+ key = path.
Proof.
  unfold sample_files. rewrite list_elem_of_bind. setoid_rewrite list_elem_of_bind. split.
  - intros (m & (v & Hx & Hv) & Hm). destruct (vol_Source v) as [name|] eqn:Hs;
      [|by apply elem_of_nil in Hx].
    case_bool_decide as Hn; [|by apply elem_of_nil in Hx].
    destruct (cl_secrets w !! _) as [s|] eqn:Hst; [|by apply elem_of_nil in Hx].
    apply list_elem_of_bind in Hx as ([key text] & Hx & Hkv). cbn in Hx.
    case_bool_decide as Hk; [|by apply elem_of_nil in Hx].
    apply list_elem_of_singleton in Hx as ->. destruct Hk as [Hf Hp].
    exists m, v, name, s, key. split_and!; try done. by apply elem_of_map_to_list.
  - intros (m & v & name & s & key & Hm & Hv & Hs & Hn & Hst & Hkv & Hf & Hp).
    exists m. split; [|done]. exists v. split; [|done].
    rewrite Hs, bool_decide_eq_true_2, Hst by done. apply list_elem_of_bind.
    exists (key, x). rewrite bool_decide_eq_true_2 by done.
    split; [by left|by apply elem_of_map_to_list].
Qed.

Lemma head_unique {A} (l : list A) x : x ∈ l → (∀ y, y ∈ l → y = x) → head l = Some x.
Proof. destruct l as [|y l]; [by intros ?%elem_of_nil|]. intros _ Hall. cbn. f_equal. apply Hall. by left. Qed.

Lemma sample_kubelet_laws :
  @KubeletLaws Cluster nat cluster_client cluster_server sample_kubelet.
Proof.
  split. intros w p c m secretName s key text Hc Hm Hfree Hv Hnd Hst Hkey Hf.
  apply head_unique; [|intros x].
  - apply elem_of_sample_files. by eexists m, _, secretName, s, key.
  - rewrite elem_of_sample_files.
    intros (m' & v' & name' & s' & key' & Hm' & Hv' & Hs' & Hn' & Hst' & Hx & Hf' & Hp').
    apply slash_inj in Hp' as [Hd ->]; [|done..].
    assert (m' = m) as -> by (apply Hfree; [done|by left]).
    assert (v' = {| vol_Name := mount_Name m; vol_Source := SecretVolume secretName |}) as ->.
    { apply list_elem_of_lookup in Hv as [i Hi]. apply list_elem_of_lookup in Hv' as [j Hj].
      assert (i = j) as <-; [|congruence].
      eapply NoDup_lookup; [done|..]; by rewrite list_lookup_fmap, ?Hi, ?Hj; cbn; rewrite ?Hn'. }
    cbn in Hs'. injection Hs' as <-. cbn in Hst. rewrite Hst in Hst'. injection Hst' as <-. congruence.
Qed.

Import SampleQuantity.

(** The run of [System] in which the pod is amended before its secret is created. *)
Lemma sample_mounts c m : c ∈ all_containers run_pod → m ∈ c_VolumeMounts c → m = telegrafMount.
Proof.
  intros Hc Hm. assert ((c_VolumeMounts <$> all_containers run_pod) = [[]; [telegrafMount]]) as E
    by (vm_compute; reflexivity).
  assert (c_VolumeMounts c ∈ [[]; [telegrafMount]]) as Hin
    by (rewrite <- E; by apply list_elem_of_fmap_2).
  clear Hc E. apply elem_of_cons in Hin as [Hin|Hin].
  { rewrite Hin in Hm. by apply elem_of_nil in Hm. }
  apply list_elem_of_singleton in Hin. rewrite Hin in Hm. by apply list_elem_of_singleton in Hm.
Qed.

Lemma telegraf_reads_its_configuration_witness :
  ∃ c file text, ["telegraf"; "--config"; file] `prefix_of` c_Command c ∧
    @ContainerFile Cluster nat sample_kubelet (world (shared (workers run_end))) run_pod c file =
      Some text.
Proof.
  destruct (@telegraf_reads_its_configuration Cluster nat string _ ops sample_generator cluster_client
    cluster_server cluster_pods sample_owner sample_owner_laws sample_toml directory_handler_ptr
    sample_kubelet sample_kubelet_laws sample_runs run_start run_end run_pod sample_run_init sample_run)
    as (c & file & Hc & _ & Hcmd & Hread).
  - right. by left.
  - exists "true". vm_compute. reflexivity.
  - apply (bool_decide_unpack _). vm_compute. exact I.
  - destruct (Hread run_secret) as (p' & text & _ & _ & _ & Hfile).
    + vm_compute. reflexivity.
    + vm_compute. reflexivity.
    + vm_compute. reflexivity.
    + intros m Hm _. exact (sample_mounts c m Hc Hm).
    + exists c, file, text. split; [exact Hcmd|exact Hfile].
Defined.

(** The sample of [Queue] from its fifth state on, in the run of [System] that
    starts without pods and secrets. *)
Definition live_σ (n : nat) : Queue Cluster nat :=
  match n with 0 => idle_queue (mkState run_world []) | S n => sample_σ (4 + n) end.

Definition live_ℓ (n : nat) : label nat (option DirectoryHandler) :=
  match n with 0 => Watched (PodWatch (Created run_pod)) | S n => sample_ℓ (4 + n) end.

Lemma announced_again : todo (requeued run_world) = todo announced_queue.
Proof. apply (bool_decide_unpack _). vm_compute. exact I. Qed.

Lemma live_is_run : @run Cluster nat string (option DirectoryHandler) ops sample_generator
  cluster_client cluster_server sample_owner sample_toml directory_handler_ptr sample_predicates
  sample_owner_handler sample_runs sample_settings live_σ live_ℓ.
Proof.
  split; [done|]. intros [|n]; [|exact (sample_step_at (4 + n))].
  assert (live_σ 1 = mkQueue (mkState run_world []) [run_pod] (todo announced_queue) ∅) as ->.
  { rewrite <- announced_again. reflexivity. }
  apply queue_watch.
Qed.

Lemma live_fair : Fair live_σ live_ℓ.
Proof.
  split.
  - intros [|n] k Hk Hb; [by apply elem_of_empty in Hk|].
    destruct (fair_start _ _ sample_fair (4 + n) k Hk Hb) as (m & Hm & Hl).
    exists (m - 3). split; [lia|]. destruct m as [|[|[|[|m]]]]; try lia.
    exact Hl.
  - intros [|n] i Hi; [by destruct (lookup_empty_is_Some i Hi)|].
    destruct (fair_work _ _ sample_fair (4 + n) i Hi) as (m & Hm & Hl).
    exists (m - 3). split; [lia|]. destruct m as [|[|[|[|m]]]]; try lia.
    exact Hl.
Qed.

Lemma live_undisturbed : @Undisturbed Cluster nat cluster_client cluster_server live_σ run_pod 0.
Proof.
  destruct sample_kept as [Hp Hc _ _]. split.
  - intros [|n] Hlt; [lia|]. apply (Hp (4 + n)). lia.
  - intros [|n] s Hlt; [lia|]. apply (Hc (4 + n)). lia.
  - intros [|n] s Hn; [lia|]. intros Hs.
    pose proof (eq_trans (eq_sym (sample_stored (4 + n))) Hs) as E.
    destruct n as [|[|[|n]]]; [discriminate E..|]. apply (inj Some) in E. rewrite <- E.
    exact (proj1 (bool_decide_eq_true _) run_secret_managed).
  - intros n p Hp' _ _. assert (pods (live_σ n) = [run_pod]) as E
      by (destruct n as [|[|[|[|n]]]]; reflexivity).
    rewrite E in Hp'. by apply list_elem_of_singleton in Hp' as ->.
Qed.

Lemma live_reachable : rtc sample_system_step run_start (system_of (live_σ 0)).
Proof.
  unfold system_of; cbn. rewrite omap_empty. exact sample_run_shown.
Qed.

Lemma pods_get_configured_witness :
  ∃ m c file, @configured Cluster nat string _ sample_toml directory_handler_ptr sample_kubelet sample_runs
    (world (cluster (live_σ m))) (pods (live_σ m)) run_pod c file.
Proof.
  destruct (@pods_get_configured Cluster nat string _ ops sample_generator cluster_client
    cluster_server cluster_pods sample_owner sample_owner_laws sample_toml directory_handler_ptr
    sample_kubelet sample_kubelet_laws sample_runs sample_predicates sample_predicates_laws
    sample_owner_handler sample_settings live_σ live_ℓ run_pod 0 run_start sample_run_init live_reachable
    live_is_run eq_refl) as (m & c & file & _ & Hc & _ & Hcmd & Hconf).
  - by left.
  - exists "true". vm_compute. reflexivity.
  - apply (bool_decide_unpack _). vm_compute. exact I.
  - exact live_undisturbed.
  - exact live_fair.
  - exists 1. intros [|n] Hn; [lia|]. apply (sample_calm (4 + n)). lia.
  - exists m, c, file. apply Hconf. intros mount Hm _. exact (sample_mounts c mount Hc Hm).
Defined.
