(* ===== verification/UnitTests.v ===== *)
(** The repository's own unit tests, run on the model: the tables of
    featuregate/gate_test.go, and the specs of injectorwebhook/injector_test.go
    with the settings of webhook_suite_test.go.

    A test is a boolean function of a row of its table, and a theorem says that
    every row passes.  What a test leaves open is quantified: the iteration order
    of Go's maps, or the suffix that the name generator draws. *)
From S2P Require Import Prelude GoStrings GoStrconv GoTime GoJson Metadata OptConfig FeatureGate.
From S2P Require Import ClassData K8s Sidecar Injector TelegrafConfig PodController.

(** Evaluates the goal in the two concrete orders in which a map can present its
    entries, [HR : R ∈ [range_forward; range_backward]]. *)
Ltac run_both_orders HR :=
  repeat (apply elem_of_cons in HR as [->|HR]; [vm_compute; reflexivity|]);
  by apply elem_of_nil in HR.

(** ** featuregate/gate_test.go *)

Module GateTests.

(** The registrations of a test, in the order given. *)
Fixpoint register_all (gates : list (string * bool)) (r : Registry) : result unit Registry :=
  match gates with
  | [] => Ok r
  | (name, b) :: gates => '(r, _) ← Register r name "Test gate" b; register_all gates r
  end.

Definition enabled_by_name (r : Registry) (name : string) : option bool :=
  IsEnabled r <$> Get r name.

(** A row of [TestGate_IsEnabled]: default, [setEnabled], expected. *)
Definition test_IsEnabled (row : bool * option bool * bool) : bool :=
  let '(b, set, expected) := row in
  match Register (E:=unit) NewRegistry "test.gate" "Test gate" b with
  | Ok (r, g) =>
      let r := match set with Some v => setEnabled r g v | None => r end in
      Bool.eqb (IsEnabled r g) expected
  | _ => false
  end.

Lemma TestGate_IsEnabled :
  forallb test_IsEnabled
    [(false, None, false); (true, None, true); (false, Some true, true); (true, Some false, false)]
  = true.
Proof. vm_compute. reflexivity. Qed.

(** [TestGate_Metadata] *)
Definition test_Metadata (row : string * string) : bool :=
  let '(name, description) := row in
  match Register (E:=unit) NewRegistry name description false with
  | Ok (r, g) => String.eqb (Name (deref r g)) name &&
                 String.eqb (Description (deref r g)) description
  | _ => false
  end.

Lemma TestGate_Metadata :
  forallb test_Metadata
    [("simple", "Simple test gate"); ("operator.feature.test", "Namespaced feature gate");
     ("test.empty", "")] = true.
Proof. vm_compute. reflexivity. Qed.

(** [TestRegistry_Register]: name, default, the gate that is there before, panic. *)
Definition test_Register (row : string * bool * list (string * bool) * bool) : bool :=
  let '(name, b, setup, shouldPanic) := row in
  match register_all setup NewRegistry with
  | Ok r =>
      match Register (E:=unit) r name "" b with
      | Ok (r, g) => negb shouldPanic && Bool.eqb (IsEnabled r g) b
      | Panic _ => shouldPanic
      | Err _ => false
      end
  | _ => false
  end.

Lemma TestRegistry_Register :
  forallb test_Register
    [("test.success", false, [], false); ("test.enabled", true, [], false);
     ("test.duplicate", false, [("test.duplicate", false)], true)] = true.
Proof. vm_compute. reflexivity. Qed.

(** [TestRegistry_Get]: the pointer that [Register] gave is the one [Get] gives. *)
Definition test_Get (row : string * list string) : bool :=
  let '(name, setup) := row in
  match setup with
  | [] => bool_decide (Get NewRegistry name = None)
  | s :: _ =>
      match Register (E:=unit) NewRegistry s "Test gate" false with
      | Ok (r, g) => bool_decide (Get r name = Some g)
      | _ => false
      end
  end.

Lemma TestRegistry_Get :
  forallb test_Get [("test.exists", ["test.exists"]); ("test.missing", [])] = true.
Proof. vm_compute. reflexivity. Qed.

Section order.
Context (R : MapRange).

(** [TestRegistry_Set]: name, value, gates before, whether an error is expected. *)
Definition test_Set (row : string * bool * list string * bool) : bool :=
  let '(name, b, setup, expectError) := row in
  match register_all ((λ s, (s, negb b)) <$> setup) NewRegistry with
  | Ok r =>
      match SetGate r name b with
      | (r, None) => negb expectError && bool_decide (enabled_by_name r name = Some b)
      | (_, Some (UnknownGate _ _)) => expectError
      end
  | _ => false
  end.

Lemma TestRegistry_Set :
  forallb test_Set
    [("test.settrue", true, ["test.settrue"], false);
     ("test.setfalse", false, ["test.setfalse"], false);
     ("test.missing", true, [], true)] = true.
Proof. vm_compute. reflexivity. Qed.

(** [TestFlagValue_Set]: the input, the gates before (a map: they are registered
    in any order), the gates after, whether an error is expected. *)
Definition flag_row : Type := string * list (string * bool) * list (string * bool) * bool.

Definition test_flagSet_order (input : string) (expected : list (string * bool))
    (expectError : bool) (setup : list (string * bool)) : bool :=
  match register_all setup NewRegistry with
  | Ok r =>
      match flagSet (E:=list GateError) r input with
      | (r, None) => negb expectError &&
          forallb (λ '(name, b), bool_decide (enabled_by_name r name = Some b)) expected
      | (_, Some errs) => expectError && bool_decide (errs ≠ [])
      end
  | _ => false
  end.

Definition test_flagSet (row : flag_row) : bool :=
  let '(input, setup, expected, expectError) := row in
  forallb (test_flagSet_order input expected expectError) (permutations setup).

Definition flagSet_table : list flag_row :=
  [("test.gate1", [("test.gate1", false)], [("test.gate1", true)], false);
   ("-test.gate1", [("test.gate1", true)], [("test.gate1", false)], false);
   ("+test.gate1", [("test.gate1", false)], [("test.gate1", true)], false);
   ("test.gate1,-test.gate2,+test.gate3",
    [("test.gate1", false); ("test.gate2", true); ("test.gate3", false)],
    [("test.gate1", true); ("test.gate2", false); ("test.gate3", true)], false);
   ("", [("test.gate1", false)], [("test.gate1", false)], false);
   (" test.gate1 , -test.gate2 ", [("test.gate1", false); ("test.gate2", true)],
    [("test.gate1", true); ("test.gate2", false)], false);
   ("test.gate1,,", [("test.gate1", false)], [("test.gate1", true)], false);
   ("unknown.gate", [], [], true)].

Lemma TestFlagValue_Set : forallb test_flagSet flagSet_table = true.
Proof. vm_compute. reflexivity. Qed.

Lemma TestFlagValue_Set_any_order input setup expected expectError setup' :
  (input, setup, expected, expectError) ∈ flagSet_table → setup' ≡ₚ setup →
  test_flagSet_order input expected expectError setup' = true.
Proof.
  intros Hin Hp. pose proof TestFlagValue_Set as Ht. rewrite forallb_forall in Ht.
  apply list_elem_of_In, Ht in Hin. unfold test_flagSet in Hin. rewrite forallb_forall in Hin.
  by apply Hin, list_elem_of_In, permutations_Permutation.
Qed.

(** [TestRegistry_VisitAll]: the gates come by name, in whatever order they were
    registered and the map presents them. *)
Definition test_VisitAll (row : list string * list string) : bool :=
  let '(names, expected) := row in
  match register_all ((λ s, (s, false)) <$> names) NewRegistry with
  | Ok r => bool_decide (gate_names r = expected)
  | _ => false
  end.

(** [TestFlagValue_String]: the gates, [None] for a nil registry, and the texts
    that the value contains and does not contain. *)
Definition test_flagString
    (row : option (list (string * bool)) * list string * list string) : bool :=
  let '(setup, contains, notContains) := row in
  let check reg := forallb (Contains (flagString reg)) contains &&
                   forallb (λ t, negb (Contains (flagString reg) t)) notContains in
  match setup with
  | None => check None
  | Some gates =>
      match register_all gates NewRegistry with Ok r => check (Some r) | _ => false end
  end.
End order.

Lemma register_all_inv gates r r' :
  registry_inv r → register_all gates r = Ok r' → registry_inv r'.
Proof.
  revert r. induction gates as [|[name b] gates IH]; intros r Hinv; cbn [register_all].
  { by intros [= <-]. }
  destruct (Register r name "Test gate" b) as [[r1 g]| |] eqn:E; [|done..].
  intros Hr. eapply IH; [|exact Hr]. by eapply registry_inv_register.
Qed.

Lemma test_VisitAll_order (R1 R2 : MapRange) row :
  @test_VisitAll R1 row = @test_VisitAll R2 row.
Proof.
  destruct row as [names expected]. unfold test_VisitAll.
  destruct (register_all _ _) as [r| |] eqn:E; [|done..].
  apply register_all_inv in E; [|apply registry_inv_new].
  unfold gate_names. by rewrite (VisitAll_order R1 R2).
Qed.

Lemma test_flagString_order (R1 R2 : MapRange) row :
  @test_flagString R1 row = @test_flagString R2 row.
Proof.
  destruct row as [[[gates|] contains] notContains]; [|done]. unfold test_flagString.
  destruct (register_all _ _) as [r| |] eqn:E; [|done..].
  apply register_all_inv in E; [|apply registry_inv_new].
  unfold flagString. by rewrite (VisitAll_order R1 R2).
Qed.

(** A table whose test does not depend on the order can be run under one order. *)
Lemma run_forward {A} (test : MapRange → A → bool) (R : MapRange) rows :
  (∀ R1 R2 row, test R1 row = test R2 row) →
  forallb (test range_forward) rows = true → forallb (test R) rows = true.
Proof.
  intros Horder. rewrite !forallb_forall. intros H row Hin.
  rewrite (Horder R range_forward). by apply H.
Qed.

Lemma TestRegistry_VisitAll (R : MapRange) :
  forallb (@test_VisitAll R)
    [(["test.single"], ["test.single"]);
     (["a.gate"; "b.gate"; "c.gate"], ["a.gate"; "b.gate"; "c.gate"]);
     (["c.gate"; "a.gate"; "b.gate"], ["a.gate"; "b.gate"; "c.gate"]); ([], [])] = true.
Proof. apply (run_forward (@test_VisitAll) R); [exact test_VisitAll_order|]. vm_compute. reflexivity. Qed.

Lemma TestFlagValue_String (R : MapRange) :
  forallb (@test_flagString R)
    [(Some [("test.enabled", true)], ["test.enabled"], ["-test.enabled"]);
     (Some [("test.disabled", false)], ["-test.disabled"], ["test.disabled,"; ",test.disabled"]);
     (Some [("test.enabled", true); ("test.disabled", false)],
      ["test.enabled"; "-test.disabled"], []);
     (None, [], [])] = true.
Proof. apply (run_forward (@test_flagString) R); [exact test_flagString_order|]. vm_compute. reflexivity. Qed.

(** [ExampleRegistry]: the lines of the listing after [feature.a] is enabled. *)
Definition example_listing `{MapRange} : list (string * bool * string) :=
  match Register (E:=unit) NewRegistry "feature.a" "Enable feature A" false with
  | Ok (r, featureA) =>
      match Register (E:=unit) r "feature.b" "Enable feature B" true with
      | Ok (r, featureB) =>
          let r' := (SetGate r "feature.a" true).1 in
          [("before", IsEnabled r featureA, ""); ("before", IsEnabled r featureB, "");
           ("after", IsEnabled r' featureA, "")] ++
          ((λ g, (Name (deref r' g), IsEnabled r' g, Description (deref r' g))) <$> VisitAll r')
      | _ => []
      end
  | _ => []
  end.

Lemma ExampleRegistry R : R ∈ [range_forward; range_backward] →
  @example_listing R =
  [("before", false, ""); ("before", true, ""); ("after", true, "");
   ("feature.a", true, "Enable feature A"); ("feature.b", true, "Enable feature B")].
Proof. intros HR. run_both_orders HR. Qed.
End GateTests.

(** ** injectorwebhook/injector_test.go *)

Module WebhookTests.

(** The quantities of these tests: whole numbers, with the suffix [m] for
    thousandths or [Mi] for 2{^20}; in thousandths. *)
Fixpoint scanQuantity (acc : Z) (s : string) : option Z :=
  match s with
  | "" => Some (1000 * acc)%Z
  | "m" => Some acc
  | "Mi" => Some (1000 * 2 ^ 20 * acc)%Z
  | String c s =>
      match SampleQuantity.digit c with
      | Some d => scanQuantity (10 * acc + Z.of_nat d) s
      | None => None
      end
  end.

#[local] Instance quantities : QuantityOps Z := {|
  ParseQuantity s := match s with "" => None | _ => scanQuantity 0 s end;
  IsZero q := Z.eqb q 0;
  zeroQuantity := 0%Z
|}.

(** The injector of webhook_suite_test.go. *)
Definition injector : SidecarInjector := {|
  SecretNamePrefix := "telegraf"; TelegrafImage := "telegraf:1.30-alpine"; WatchConfig := "";
  RequestsCPU := "200m"; RequestsMemory := "200Mi"; LimitsCPU := "300m"; LimitsMemory := "300Mi";
  SecurityRunAsUser := {| int64_value := None |}; SecurityRunAsGroup := {| int64_value := None |};
  SecurityRunAsNonRoot := {| bool_value := None |};
  SecurityReadOnlyRootFilesystem := {| bool_value := None |};
  SecurityAllowPrivilegeEscalation := {| bool_value := None |};
  SecurityCapabilitiesAdd := ""; SecurityCapabilitiesDrop := ""
|}.

Definition with_WatchConfig (v : string) : SidecarInjector :=
  let '(Build_SidecarInjector p i _ rc rm lc lm u g n f e a d) := injector in
  Build_SidecarInjector p i v rc rm lc lm u g n f e a d.

Definition with_LimitsCPU (v : string) : SidecarInjector :=
  let '(Build_SidecarInjector p i w rc rm _ lm u g n f e a d) := injector in
  Build_SidecarInjector p i w rc rm v lm u g n f e a d.

(** [runAsUser.Set("100")] and the others, on zero values. *)
Definition secured : SidecarInjector :=
  let int64 v := (OptInt64.Set_ {| int64_value := None |} v).1 in
  let bool v := (OptBool.Set_ {| bool_value := None |} v).1 in
  let '(Build_SidecarInjector p i w rc rm lc lm _ _ _ _ _ _ _) := injector in
  Build_SidecarInjector p i w rc rm lc lm (int64 "100") (int64 "101") (bool "true") (bool "true")
    (bool "false") "NET_RAW" "ALL".

Definition newTestContainer : Container Z :=
  {| c_Name := "test-container"; c_Image := "ubuntu:latest"; c_Command := [];
     c_Resources := {| Requests := ∅; Limits := ∅ |}; c_Env := []; c_EnvFrom := [];
     c_SecurityContext := None; c_VolumeMounts := []; c_RestartPolicy := None |}.

Definition newTestPod (name : string) (annotations : option (gmap string string)) : Pod Z :=
  mkPod name "" "default" "" None annotations [newTestContainer] [] [].

(** A spec: the injector, the gate, the annotations, and what is expected of the
    pod that the webhook lets in and of its container named telegraf. *)
Record Spec := {
  settings : SidecarInjector;
  native : bool;
  annotations : list (string * string);
  expect : Pod Z → Container Z → bool
}.

(** The gates of the program, the native one set through the registry. *)
Definition gates `{MapRange} (native : bool) : GateState :=
  let g := sample_gates false in
  {| registry := (SetGate (registry g) "operator.nativesidecars" native).1; variables := variables g |}.

Definition admit_pod `{MapRange} `{NameGenerator} (spec : Spec) : option (Pod Z) :=
  match Default (settings spec) (gates (native spec)) 0
      (ObjPod (newTestPod "pod" (Some (list_to_map (annotations spec))))) with
  | (ObjPod pod, Ok tt) => Some pod
  | _ => None
  end.

Definition passes `{MapRange} `{NameGenerator} (spec : Spec) : bool :=
  match admit_pod spec with
  | Some pod =>
      let containers := if native spec then pod_InitContainers pod else pod_Containers pod in
      match filter (λ c, c_Name c = containerName) containers with
      | [] => false
      | found => forallb (expect spec pod) found
      end
  | None => false
  end.

(** [container.Resources.Requests.Cpu().String()] against a text. *)
Definition parsed_as (q : option Z) (text : string) : bool := bool_decide (q = ParseQuantity text).

Definition resources (c : Container Z) (rc rm lc lm : string) : bool :=
  parsed_as (Requests (c_Resources c) !! ResourceCPU) rc &&
  parsed_as (Requests (c_Resources c) !! ResourceMemory) rm &&
  parsed_as (Limits (c_Resources c) !! ResourceCPU) lc &&
  parsed_as (Limits (c_Resources c) !! ResourceMemory) lm.

Definition counts (pod : Pod Z) (containers inits volumes : nat) : bool :=
  Nat.eqb (length (pod_Containers pod)) containers &&
  Nat.eqb (length (pod_InitContainers pod)) inits &&
  Nat.eqb (length (pod_Volumes pod)) volumes.

(** The variable of this name is there, and all of this name satisfy [p]. *)
Definition env_is (c : Container Z) (name : string) (p : EnvVar → bool) : bool :=
  match filter (λ e, env_Name e = name) (c_Env c) with
  | [] => false
  | found => forallb p found
  end.

Definition command_is (extra : list string) (c : Container Z) : bool :=
  bool_decide (c_Command c = ["telegraf"; "--config"; "/etc/telegraf/telegraf.conf"] ++ extra).

Definition default_class : string * string := (TelegrafConfigClassAnnotation, "default").

Definition key_ref_is (sel : EnvVarSource → option KeySelector) (name key : string) (e : EnvVar) : bool :=
  match env_ValueFrom e with
  | Some source =>
      match sel source with
      | Some k => String.eqb (sel_Name k) name && String.eqb (sel_Key k) key
      | None => false
      end
  | None => false
  end.

(** Default settings, without and with native sidecars. *)
Definition default_specs : list Spec := [
  {| settings := injector; native := false; annotations := [default_class];
     expect pod c := counts pod 2 0 1 && String.eqb (label_of pod SidecarInjectedLabel) "true" &&
       String.eqb (c_Image c) "telegraf:1.30-alpine" && resources c "200m" "200Mi" "300m" "300Mi" |};
  {| settings := injector; native := true; annotations := [default_class];
     expect pod c := counts pod 1 1 1 && String.eqb (label_of pod SidecarInjectedLabel) "true" &&
       String.eqb (c_Image c) "telegraf:1.30-alpine" && resources c "200m" "200Mi" "300m" "300Mi" &&
       bool_decide (c_RestartPolicy c = Some ContainerRestartPolicyAlways) |}
].

(** Invalid values of resources, and valid ones. *)
Definition resource_specs : list Spec := [
  {| settings := injector; native := false;
     annotations := [(SidecarRequestsCPUAnnotation, "1000x"); (SidecarLimitsCPUAnnotation, "1000x");
       (SidecarRequestsMemoryAnnotation, "1000x"); (SidecarLimitsMemoryAnnotation, "1000x")];
     expect pod c := counts pod 2 0 1 && resources c "200m" "200Mi" "300m" "300Mi" |};
  {| settings := injector; native := false;
     annotations := [(SidecarRequestsCPUAnnotation, "500m"); (SidecarLimitsCPUAnnotation, "800m");
       (SidecarRequestsMemoryAnnotation, "500Mi"); (SidecarLimitsMemoryAnnotation, "800Mi")];
     expect pod c := counts pod 2 0 1 && resources c "500m" "500Mi" "800m" "800Mi" |}
].

(** The CPU limit removed by 0 and by the empty text; disabled for the operator
    and enabled for the pod. *)
Definition cpu_limit_specs : list Spec := [
  {| settings := injector; native := false;
     annotations := [default_class; (SidecarLimitsCPUAnnotation, "0")];
     expect pod c := counts pod 2 0 1 &&
       bool_decide (Limits (c_Resources c) !! ResourceCPU = None) &&
       bool_decide (is_Some (Limits (c_Resources c) !! ResourceMemory)) &&
       parsed_as (Requests (c_Resources c) !! ResourceCPU) "200m" |};
  {| settings := injector; native := false;
     annotations := [default_class; (SidecarLimitsCPUAnnotation, "")];
     expect pod c := counts pod 2 0 1 &&
       bool_decide (Limits (c_Resources c) !! ResourceCPU = None) &&
       bool_decide (is_Some (Limits (c_Resources c) !! ResourceMemory)) &&
       parsed_as (Requests (c_Resources c) !! ResourceMemory) "200Mi" |};
  {| settings := with_LimitsCPU "0"; native := false;
     annotations := [default_class; (SidecarLimitsCPUAnnotation, "250m")];
     expect pod c := counts pod 2 0 1 && resources c "200m" "200Mi" "250m" "300Mi" |}
].

Definition env_specs : list Spec := [
  {| settings := injector; native := false; annotations := [(SidecarEnvSecretAnnotation, "secret-env")];
     expect pod c := counts pod 2 0 1 &&
       bool_decide (src_Name <$> (head (c_EnvFrom c) ≫= SecretRef) = Some "secret-env") |};
  {| settings := injector; native := false;
     annotations := [(SidecarEnvConfigMapAnnotation, "configmap-env")];
     expect pod c := counts pod 2 0 1 && Nat.eqb (length (c_EnvFrom c)) 1 &&
       bool_decide (src_Name <$> (head (c_EnvFrom c) ≫= ConfigMapRef) = Some "configmap-env") |};
  {| settings := injector; native := false;
     annotations := [(SidecarEnvLiteralPrefixAnnotation +:+ "LITERAL_VAR", "literal_value")];
     expect pod c := env_is c "LITERAL_VAR" (λ e, String.eqb (env_Value e) "literal_value") |};
  {| settings := injector; native := false;
     annotations := [(SidecarEnvFieldRefPrefixAnnoation +:+ "POD_IP", "status.podIP")];
     expect pod c := env_is c "POD_IP" (λ e,
       bool_decide (FieldPath <$> (env_ValueFrom e ≫= FieldRef) = Some "status.podIP")) |};
  {| settings := injector; native := false;
     annotations := [(SidecarEnvConfigMapKeyRefPrefixAnnotation +:+ "CONFIGMAP_VAR",
       "configmap-env-configmapkeyref.CONFIGMAP_VAR")];
     expect pod c := env_is c "CONFIGMAP_VAR"
       (key_ref_is ConfigMapKeyRef "configmap-env-configmapkeyref" "CONFIGMAP_VAR") |};
  {| settings := injector; native := false;
     annotations := [(SidecarEnvSecretKeyRefPrefixAnnotation +:+ "SECRET_VAR",
       "secret-env-secretkeyref.SECRET_VAR")];
     expect pod c := env_is c "SECRET_VAR"
       (key_ref_is SecretKeyRef "secret-env-secretkeyref" "SECRET_VAR") |};
  {| settings := injector; native := false;
     annotations := [(SidecarVolumeMountsAnnotation, dq "{ 'log-vol': '/var/log/app' }")];
     expect pod c :=
       bool_decide (MountPath <$> filter (λ m, mount_Name m = "log-vol") (c_VolumeMounts c) =
         ["/var/log/app"]) |}
].

Definition command_specs : list Spec := [
  {| settings := with_WatchConfig "inotify"; native := false; annotations := [default_class];
     expect pod := command_is ["--watch-config"; "inotify"] |};
  {| settings := with_WatchConfig "poll"; native := false; annotations := [default_class];
     expect pod := command_is ["--watch-config"; "poll"] |};
  {| settings := injector; native := false; annotations := [default_class];
     expect pod := command_is [] |};
  {| settings := injector; native := false;
     annotations := [default_class; (TelegrafConfigDebugLogAnnotation, "true")];
     expect pod := command_is ["--debug"] |};
  {| settings := injector; native := false;
     annotations := [default_class; (TelegrafConfigDebugLogAnnotation, "false")];
     expect pod := command_is [] |}
].

Definition security_specs : list Spec := [
  {| settings := secured; native := false; annotations := [default_class];
     expect pod c := match c_SecurityContext c with
       | Some sc =>
           bool_decide (RunAsUser sc = Some 100%Z) && bool_decide (RunAsGroup sc = Some 101%Z) &&
           bool_decide (RunAsNonRoot sc = Some true) &&
           bool_decide (ReadOnlyRootFilesystem sc = Some true) &&
           bool_decide (AllowPrivilegeEscalation sc = Some false) &&
           match sc_Capabilities sc with
           | Some caps => bool_decide ("NET_RAW" ∈ cap_Add caps) && bool_decide ("ALL" ∈ cap_Drop caps)
           | None => false
           end
       | None => false
       end |};
  {| settings := injector; native := false; annotations := [default_class];
     expect pod c := match c_SecurityContext c with None => true | Some _ => false end |}
].

(** Every spec passes, in both orders in which a map can present its entries. *)
Lemma webhook_specs_pass R :
  R ∈ [range_forward; range_backward] →
  forallb (@passes R sample_generator)
    (default_specs ++ resource_specs ++ cpu_limit_specs ++ env_specs ++ command_specs ++ security_specs) = true.
Proof. intros HR. run_both_orders HR. Qed.

(** A pod without annotations is let in as it is, whatever the orders of maps
    and the names generated. *)
Lemma no_annotation_not_injected `{MapRange} `{NameGenerator} draw name :
  Default injector (gates false) draw (ObjPod (newTestPod name None)) =
  (ObjPod (newTestPod name None), Ok ()).
Proof.
  unfold Default, shouldInjectContainer, hasTelegrafContainer, newTestPod.
  replace (native_sidecars (gates false)) with false by (vm_compute; reflexivity).
  pose proof (map_range_empty (V:=string) "shouldInjectContainer") as E.
  cbn. by rewrite E.
Qed.

(** The name of a secret has 63 characters for a pod whose name is too long, and
    starts with the prefix and the generate name, whatever is drawn. *)
Lemma long_name_truncated `{NameGeneratorLaws} draw :
  String.length (generateSecretName injector draw
    "long-pod-name-5yzuhd7fknyq24yfy9kquaj0aknw9vvu1fynqn08") = 63.
Proof.
  unfold generateSecretName.
  destruct (GenerateName_suffix draw (secretNameBase injector
    "long-pod-name-5yzuhd7fknyq24yfy9kquaj0aknw9vvu1fynqn08")) as (suffix & -> & Hlen & _).
  - vm_compute. lia.
  - rewrite string_length_app, Hlen. vm_compute. reflexivity.
Qed.

Lemma generate_name_kept `{NameGeneratorLaws} draw :
  HasPrefix (generateSecretName injector draw "pod-generate-name-") "telegraf-pod-generate-name-" = true.
Proof.
  unfold generateSecretName.
  destruct (GenerateName_suffix draw (secretNameBase injector "pod-generate-name-"))
    as (suffix & -> & _).
  - vm_compute. lia.
  - apply HasPrefix_app.
Qed.
End WebhookTests.
