(* ===== verification/ControllerTests.v ===== *)
(** controller/pod_controller_test.go, run on the model with the classes and the
    fixtures of config/testdata: each spec creates a pod, reconciles it, and
    compares the data of the secret with the text of a fixture.

    The TOML library is a parameter of the model.  Here it is instantiated with
    a table of the texts that the specs decode, and with a printer in the layout
    of the fixtures; the value of a key is its text, the body of a table its lines. *)
From S2P Require Import Prelude GoStrings GoStrconv GoTime GoJson Metadata FeatureGate ClassData.
From S2P Require Import K8s TelegrafConfig PodController UnitTests.

(** ** config/testdata/telegrafClasses *)

Definition testclass : string := dq "[agent]
  interval = '10s'
  round_interval = true
  metric_batch_size = 1000
  metric_buffer_limit = 10000
  collection_jitter = '0s'
  flush_interval = '10s'
  flush_jitter = '3s'
  debug = false
  quiet = false
  logfile = ''
  hostname = '$NODENAME'
[[outputs.file]]
  files = ['stdout']
[global_tags]
  pod_name = '$HOSTNAME'
  nodename = '$NODENAME'
  namespace = '$NAMESPACE'
  type = 'app'
".

Definition alternateclass : string := dq "[[outputs.file]]
  files = ['stdout']
".

Definition classes_directory : FileSystem := {|
  ReadDir _ := Ok ["alternateclass"; "testclass"];
  StatRegular _ _ := Ok true;
  ReadFile _ file :=
    if String.eqb file "testclass" then Ok testclass
    else if String.eqb file "alternateclass" then Ok alternateclass else Err "no such file"
|}.

(** ** The annotations of the specs *)

Definition raw_input : string := dq "
[[inputs.influxdb_listener]]
  service_address = ':8186'
  max_body_size = 0
  max_line_size = 0
  read_timeout = '8s'
  write_timeout = '8s'
[inputs.influxdb_listener.tags]
  collectiontype = 'application'
".

Definition raw_aggregators : string := dq "
								[[aggregators.basicstats]]
									period = '30s'
									stats = ['count', 'sum', 'mean']
							".

Definition raw_processors : string := dq "
								[[processors.regex]]
									[[processors.regex.tags]]
										key = 'service'
										pattern = '^([^-]*)-.*'
										replacement = '${1}'
							".

(** ** config/testdata/fixtures, in sections *)

Definition agent_section : string := dq "[agent]
  collection_jitter = '0s'
  debug = false
  flush_interval = '10s'
  flush_jitter = '3s'
  hostname = '$NODENAME'
  interval = '10s'
  logfile = ''
  metric_batch_size = 1000
  metric_buffer_limit = 10000
  quiet = false
  round_interval = true

".

Definition outputs_section : string := dq "[outputs]

  [[outputs.file]]
    files = ['stdout']

".

Definition tags_section : string := dq "[global_tags]
  namespace = '$NAMESPACE'
  nodename = '$NODENAME'
  pod_name = '$HOSTNAME'
  type = 'app'
".

Definition no_inputs : string := dq "[inputs]

".

Definition aggregators_section : string := dq "[aggregators]

  [[aggregators.basicstats]]
    period = '30s'
    stats = ['count', 'sum', 'mean']

".

Definition processors_section : string := dq "[processors]

  [[processors.regex]]

    [[processors.regex.tags]]
      key = 'service'
      pattern = '^([^-]*)-.*'
      replacement = '${1}'

".

(** A fixture with the usual agent, outputs and tags. *)
Definition fixture (inputs between : string) : string :=
  agent_section +:+ inputs +:+ outputs_section +:+ between +:+ tags_section.

Definition alternate_class_toml : string := dq "[inputs]

[outputs]

  [[outputs.file]]
    files = ['stdout']

[global_tags]
".

Definition global_tags_toml : string :=
  agent_section +:+ no_inputs +:+ outputs_section +:+ dq "[global_tags]
  my_tag = 'my-value'
  namespace = '$NAMESPACE'
  nodename = '$NODENAME'
  pod_name = '$HOSTNAME'
  type = 'app'
".

Definition single_port_inputs : string := dq "[inputs]

  [[inputs.prometheus]]
    interval = '10s'
    urls = ['http://localhost:8080/metrics']
    metric_version = 1

".

Definition multiple_ports_inputs : string := dq "[inputs]

  [[inputs.prometheus]]
    interval = '10s'
    urls = ['http://localhost:8080/metrics', 'http://localhost:9090/metrics', 'http://localhost:9091/metrics']
    metric_version = 1

".

Definition prometheus_overrides_inputs : string := dq "[inputs]

  [[inputs.prometheus]]
    interval = '30s'
    urls = ['https://localhost:8080/test-path']
    namepass = ['metric1']
    metric_version = 2

".

Definition raw_input_inputs : string := dq "[inputs]

  [[inputs.influxdb_listener]]
    max_body_size = 0
    max_line_size = 0
    read_timeout = '8s'
    service_address = ':8186'
    write_timeout = '8s'
    [inputs.influxdb_listener.tags]
      collectiontype = 'application'

".

Definition internal_plugin_inputs : string := dq "[inputs]

  [[inputs.internal]]

".

(** ** The TOML library *)

Definition testclass_agent : gmap string (AnyValue string) :=
  Decoded <$> ({[ "collection_jitter" := dq "'0s'";
    "debug" := dq "false";
    "flush_interval" := dq "'10s'";
    "flush_jitter" := dq "'3s'";
    "hostname" := dq "'$NODENAME'";
    "interval" := dq "'10s'";
    "logfile" := dq "''";
    "metric_batch_size" := dq "1000";
    "metric_buffer_limit" := dq "10000";
    "quiet" := dq "false";
    "round_interval" := dq "true" ]} : gmap string string).

Definition class_outputs : gmap string (AnyValue string) :=
  {["file" := Decoded (dq "    files = ['stdout']
")]}.

Definition testclass_tags : gmap string string :=
  {[ "namespace" := dq "$NAMESPACE";
    "nodename" := dq "$NODENAME";
    "pod_name" := dq "$HOSTNAME";
    "type" := dq "app" ]}.

(** The tables of the raw annotations, trimmed as the code trims them. *)
Definition raw_tables : list (string * string * gmap string string) :=
  [("inputs", TrimSpace raw_input, {["influxdb_listener" := dq "    max_body_size = 0
    max_line_size = 0
    read_timeout = '8s'
    service_address = ':8186'
    write_timeout = '8s'
    [inputs.influxdb_listener.tags]
      collectiontype = 'application'
"]});
   ("aggregators", TrimSpace raw_aggregators, {["basicstats" := dq "    period = '30s'
    stats = ['count', 'sum', 'mean']
"]});
   ("processors", TrimSpace raw_processors, {["regex" := dq "
    [[processors.regex.tags]]
      key = 'service'
      pattern = '^([^-]*)-.*'
      replacement = '${1}'
"]})].

Section printer.
Definition nl : string := String (ascii_of_nat 10) "".

Definition quoted (s : string) : string := dq "'" +:+ s +:+ dq "'".

(** The entries of a map by key. *)
Definition by_key {V} (m : gmap string V) : list (string * V) :=
  merge_sort (λ x y : string * V, String.le x.1 y.1) (map_to_list m).

Definition assignment (indent : string) (kv : string * string) : string :=
  indent +:+ kv.1 +:+ " = " +:+ kv.2 +:+ nl.

Definition array (l : list string) : string := "[" +:+ Join (quoted <$> l) ", " +:+ "]".

Definition prometheus_lines (p : prometheusInput) : string :=
  assignment "    " ("interval", quoted (Interval p)) +:+
  assignment "    " ("urls", array (Urls p)) +:+
  (if bool_decide (Namepass p = []) then "" else assignment "    " ("namepass", array (Namepass p))) +:+
  assignment "    " ("metric_version", FormatUint (MetricVersion p)).

Definition value_lines (v : AnyValue string) : string :=
  match v with
  | Decoded lines => lines
  | PrometheusInputs l => Join (prometheus_lines <$> l) nl
  | Tables _ => ""
  end.

(** A section of tables: each entry is an array of tables of one element. *)
Definition tables (section : string) (m : gmap string (AnyValue string)) : string :=
  "[" +:+ section +:+ "]" +:+ nl +:+
  Join ((λ '(k, v), nl +:+ "  [[" +:+ section +:+ "." +:+ k +:+ "]]" +:+ nl +:+ value_lines v)
    <$> by_key m) "".

Definition settings_of_agent (m : gmap string (AnyValue string)) : string :=
  "[agent]" +:+ nl +:+ Join ((λ '(k, v), assignment "  " (k, value_lines v)) <$> by_key m) "".

Definition tags_of (m : gmap string string) : string :=
  "[global_tags]" +:+ nl +:+ Join ((λ '(k, v), assignment "  " (k, quoted v)) <$> by_key m) "".

(** [None] for a nil or, with [omitempty], an empty map. *)
Definition print_config (cfg : telegrafConfig string) : string :=
  Join (option_list (settings_of_agent <$> Agent cfg) ++
        option_list (tables "inputs" <$> Inputs cfg) ++
        option_list (tables "outputs" <$> Outputs cfg) ++
        option_list (tables "aggregators" <$> Aggregators cfg) ++
        option_list (tables "processors" <$> Processors cfg) ++
        option_list (tags_of <$> GlobalTags cfg)) nl.
End printer.

Definition decode_class (text : string) (cfg : telegrafConfig string) : option (telegrafConfig string) :=
  let '(mkTelegraf agent inputs outputs aggregators processors tags) := cfg in
  if String.eqb text testclass then
    Some (mkTelegraf (Some testclass_agent) inputs (Some class_outputs) aggregators processors
      (Some (testclass_tags ∪ map_entries tags)))
  else if String.eqb text alternateclass then
    Some (mkTelegraf agent inputs (Some class_outputs) aggregators processors tags)
  else None.

Definition fixture_toml : Toml string := {|
  UnmarshalConfig := decode_class;
  UnmarshalTable key text :=
    (λ '(_, _, m), Some m) <$>
      find (λ '(k, t, _), String.eqb k key && String.eqb t text) raw_tables;
  MarshalConfig cfg := Some (print_config cfg)
|}.

Lemma fixture_toml_laws : @TomlLaws string fixture_toml.
Proof.
  assert (∀ text cfg cfg', decode_class text cfg = Some cfg' → Inputs cfg' = Inputs cfg ∧
    (GlobalTags cfg' = Some (testclass_tags ∪ map_entries (GlobalTags cfg)) ∨
     GlobalTags cfg' = GlobalTags cfg)) as H.
  { intros text [a i o ag p t] cfg' Hu. unfold decode_class in Hu.
    destruct (String.eqb text testclass), (String.eqb text alternateclass); [..|done];
      apply (inj Some) in Hu as <-; cbn [Inputs GlobalTags]; auto. }
  split; intros text cfg cfg' Hu Hs; apply H in Hu as [Hi Ht]; [by rewrite Hi|].
  destruct Ht as [->| ->]; [by eexists|done].
Qed.

(** ** The cluster and the operator of suite_test.go *)

(** The test's manager does not restrict its cache. *)
Definition test_client : ApiClient Cluster nat := {|
  GetPod w ns name := match cl_pods w !! (ns, name) with Some p => Ok p | None => Err NotFound end;
  GetSecret w ns name :=
    match cl_secrets w !! (ns, name) with Some s => Ok s | None => Err NotFound end;
  CreateSecret := @CreateSecret Cluster nat cluster_client
|}.

Definition newTestPod (name : string) (labels annotations : list (string * string)) : Pod nat :=
  mkPod name "" "default" "uid-test" (Some (list_to_map labels)) (Some (list_to_map annotations))
    [] [] [].

Definition test_reconciler `{MapRange} : result ClassError (PodReconciler DirectoryHandler) :=
  handler ← NewDirectoryHandler (λ _, true) classes_directory "../../config/testdata/telegrafClasses";
  Ok {| ClassDataHandler := handler; DefaultClass := "testclass"; EnableInternalPlugin := false |}.

(** The gates after the calls of [featuregate.Set] of a context. *)
Definition set_gates `{MapRange} (sets : list (string * bool)) : GateState :=
  let g := sample_gates false in
  {| registry := foldl (λ r '(name, b), (SetGate r name b).1) (registry g) sets;
     variables := variables g |}.

(** The world after the reconcile of the only pod of the cluster. *)
Definition reconciled `{MapRange} (sets : list (string * bool)) (pod : Pod nat)
    (secrets : gmap (string * string) Secret) : option (Cluster * result ReconcileError Result) :=
  match test_reconciler with
  | Ok r =>
      let '(st, res) := @Reconcile Cluster nat string DirectoryHandler test_client sample_owner
        fixture_toml directory_handler _ r (set_gates sets)
        (mkState (mkCluster {[("default", pod_Name pod) := pod]} secrets) []) "default" (pod_Name pod) in
      Some (world st, res)
  | _ => None
  end.

(** A spec: the gates set, the annotations, the class and the text expected. *)
Record Spec := {
  sets : list (string * bool);
  annotations : list (string * string);
  class : string;
  expected : string
}.

Definition passes `{MapRange} (spec : Spec) : bool :=
  let name := "telegraf-config-test" in
  let pod := newTestPod "test" [(SidecarInjectedLabel, "true"); (SidecarSecretNameLabel, name)]
    (annotations spec) in
  match reconciled (sets spec) pod ∅ with
  | Some (w, Ok _) =>
      match cl_secrets w !! ("default", name) with
      | Some s =>
          bool_decide (secret_Labels s !! TelegrafSecretClassNameLabel = Some (class spec)) &&
          bool_decide (secret_Labels s !! TelegrafSecretPodLabel = Some "test") &&
          bool_decide (secret_StringData s !! "telegraf.conf" = Some (expected spec))
      | None => false
      end
  | _ => false
  end.

Definition aggregators_on : list (string * bool) := [("telegraf.aggregators", true)].
Definition processors_on : list (string * bool) := [("telegraf.processors", true)].

Definition plain_specs : list Spec := [
  {| sets := []; annotations := []; class := "testclass"; expected := fixture no_inputs "" |};
  {| sets := []; annotations := [(TelegrafConfigClassAnnotation, "alternateclass")];
     class := "alternateclass"; expected := alternate_class_toml |};
  {| sets := []; annotations := [(TelegrafConfigMetricsPortsAnnotation, "8080")];
     class := "testclass"; expected := fixture single_port_inputs "" |};
  {| sets := []; annotations := [(TelegrafConfigMetricsPortsAnnotation, "8080, 9090, 9091")];
     class := "testclass"; expected := fixture multiple_ports_inputs "" |};
  {| sets := [];
     annotations := [(TelegrafConfigMetricsPortsAnnotation, "8080");
       (TelegrafConfigMetricsSchemeAnnotation, "https");
       (TelegrafConfigMetricsPathAnnotation, "/test-path");
       (TelegrafConfigIntervalAnnotation, "30s"); (TelegrafConfigMetricVersionAnnotation, "2");
       (TelegrafConfigMetricsNamepass, "['metric1']")];
     class := "testclass"; expected := fixture prometheus_overrides_inputs "" |};
  {| sets := []; annotations := [(TelegrafConfigRawInputAnnotation, raw_input)];
     class := "testclass"; expected := fixture raw_input_inputs "" |};
  {| sets := []; annotations := [(TelegrafConfigEnableInternalAnnotation, "yes")];
     class := "testclass"; expected := fixture internal_plugin_inputs "" |};
  {| sets := [];
     annotations := [(TelegrafConfigGlobalTagLiteralPrefixAnnotation +:+ "my_tag", "my-value")];
     class := "testclass"; expected := global_tags_toml |}
].

Definition gated_specs : list Spec := [
  {| sets := aggregators_on; annotations := [(TelegrafConfigRawAggregatorsAnnotation, raw_aggregators)];
     class := "testclass"; expected := fixture no_inputs aggregators_section |};
  {| sets := aggregators_on ++ [("telegraf.aggregators", false)];
     annotations := [(TelegrafConfigRawAggregatorsAnnotation, raw_aggregators)];
     class := "testclass"; expected := fixture no_inputs "" |};
  {| sets := processors_on; annotations := [(TelegrafConfigRawProcessorsAnnotation, raw_processors)];
     class := "testclass"; expected := fixture no_inputs processors_section |};
  {| sets := processors_on ++ [("telegraf.processors", false)];
     annotations := [(TelegrafConfigRawProcessorsAnnotation, raw_processors)];
     class := "testclass"; expected := fixture no_inputs "" |};
  {| sets := aggregators_on ++ processors_on;
     annotations := [(TelegrafConfigMetricsPortsAnnotation, "8080");
       (TelegrafConfigRawAggregatorsAnnotation, raw_aggregators);
       (TelegrafConfigRawProcessorsAnnotation, raw_processors)];
     class := "testclass";
     expected := fixture single_port_inputs (aggregators_section +:+ processors_section) |}
].

(** Every spec that expects a secret passes, in both orders of maps. *)
Lemma controller_specs_pass R :
  R ∈ [range_forward; range_backward] →
  forallb (@passes R) (plain_specs ++ gated_specs) = true.
Proof. intros HR. run_both_orders HR. Qed.

(** A pod without the label of the webhook: no secret, and no error. *)
Definition test_no_label `{MapRange} : bool :=
  match reconciled [] (newTestPod "no-label" [] []) ∅ with
  | Some (w, Ok res) => bool_decide (dom (cl_secrets w) = ∅) && Z.eqb (RequeueAfter res) 0
  | _ => false
  end.

(** A secret that is there without the labels of the operator is left alone, and
    looked at again. *)
Definition test_existing_secret `{MapRange} : bool :=
  let name := "telegraf-config-secret-already-exists" in
  match reconciled []
    (newTestPod "secret-already-exists"
      [(SidecarInjectedLabel, "true"); (SidecarSecretNameLabel, name)]
      [(TelegrafConfigMetricsPortsAnnotation, "8080")])
    {[("default", name) := mkSecret name "default" ∅ [] "Opaque" ∅]} with
  | Some (w, Ok res) =>
      bool_decide (dom (cl_secrets w) = {[("default", name)]}) &&
      match cl_secrets w !! ("default", name) with
      | Some s => bool_decide (secret_Labels s !! SecretManagedByLabelKey = None) &&
                  bool_decide (secret_StringData s = ∅)
      | None => false
      end && Z.eqb (RequeueAfter res) (5 * Second)
  | _ => false
  end.

(** A raw input that is not TOML: an error, and no secret. *)
Definition test_invalid_raw_input `{MapRange} : bool :=
  match reconciled []
    (newTestPod "invalid-raw-input"
      [(SidecarInjectedLabel, "true"); (SidecarSecretNameLabel, "telegraf-config-invalid-raw-input")]
      [(TelegrafConfigRawInputAnnotation, "[[inputs.exec]]invalid1")]) ∅ with
  | Some (w, Err (ErrBuildConfig ErrRawInput)) => bool_decide (dom (cl_secrets w) = ∅)
  | _ => false
  end.

(** The specs that expect no secret of the operator. *)
Lemma no_secret_specs_pass R :
  R ∈ [range_forward; range_backward] →
  @test_no_label R && @test_existing_secret R && @test_invalid_raw_input R = true.
Proof. intros HR. run_both_orders HR. Qed.
