(* ===== verification/E2eUtils.v ===== *)
(** [test/utils/utils.go] and the check of [test/e2e/e2e_test.go] that uses it:
    the helpers that drive a cluster from outside with external commands.

    The helpers are interaction trees: what they ask of the operating system is
    an event.  [host_handler] gives the events their meaning on a [Host], the
    state of the test process, where the external commands themselves are a
    parameter [execute] on the world outside. *)
From ITree Require Import ITree ITreeFacts Events.State Events.StateFacts.
From S2P Require Import Prelude GoStrings GoStrconv GoJson.

Declare Scope e2e_scope.
Notation "'let!' x ':=' t 'in' k" := (ITree.bind t (λ x, k))
  (at level 200, x name, t at level 100, k at level 200,
   format "'[v' 'let!'  x  ':='  t  'in' '/' k ']'") : e2e_scope.
Local Open Scope e2e_scope.

(** ** os and os/exec *)

(** The exported fields of [exec.Cmd] that the helpers set. *)
Record Cmd := mkCmd { Args : list string; Dir : string; Env : list string }.

(** [exec.Command(name, args...)] *)
Definition Command (name : string) (args : list string) : Cmd := mkCmd (name :: args) "" [].

(** An error is its text; [Fprintf] writes to [GinkgoWriter]. *)
Variant hostE : Type → Type :=
| Getwd : hostE (string * option string)
| Chdir (dir : string) : hostE (option string)
| Environ : hostE (list string)
| LookupEnv (key : string) : hostE (option string)
| Fprintf (text : string) : hostE unit
| CombinedOutput (cmd : Cmd) : hostE (string * option string).

(** [strings.ReplaceAll(s, old, "")] for a non-empty [old]; [skip] bytes of an
    occurrence are still to be dropped. *)
Fixpoint DeleteAll_go (skip : nat) (s old : string) : string :=
  match s, skip with
  | "", _ => ""
  | String _ s', S skip => DeleteAll_go skip s' old
  | String c s', 0 =>
      if HasPrefix s old then DeleteAll_go (String.length old - 1) s' old
      else String c (DeleteAll_go 0 s' old)
  end.

Definition DeleteAll (s old : string) : string := DeleteAll_go 0 s old.

Definition newline : ascii := ascii_of_nat 10.

(** ** The helpers *)

Definition prometheusOperatorVersion : string := "v0.72.0".
Definition prometheusOperatorURL (version : string) : string :=
  "https://github.com/prometheus-operator/prometheus-operator/" +:+
  "releases/download/" +:+ version +:+ "/bundle.yaml".
Definition certmanagerVersion : string := "v1.14.4".
Definition certmanagerURLTmpl (version : string) : string :=
  "https://github.com/jetstack/cert-manager/releases/download/" +:+ version +:+
  "/cert-manager.yaml".

Definition warnError (err : string) : itree hostE unit :=
  ITree.trigger (Fprintf ("warning: " +:+ err +:+ String newline "")).

Definition GetProjectDir : itree hostE (string * option string) :=
  let! wd := ITree.trigger Getwd in
  match wd with
  | (wd, Some err) => Ret (wd, Some err)
  | (wd, None) => Ret (DeleteAll wd "/test/e2e", None)
  end.

(** [if err := os.Chdir(cmd.Dir); err != nil { ... }] *)
Definition enter (dir : string) : itree hostE unit :=
  let! err := ITree.trigger (Chdir dir) in
  match err with
  | Some err => ITree.trigger (Fprintf ("chdir dir: " +:+ err +:+ String newline ""))
  | None => Ret ()
  end.

Definition runError (command err output : string) : string :=
  command +:+ " failed with error: (" +:+ err +:+ ") " +:+ output.

Definition Run (cmd : Cmd) : itree hostE (string * option string) :=
  let! dir := GetProjectDir in
  let! _ := enter dir.1 in
  let! environ := ITree.trigger Environ in
  let cmd := mkCmd (Args cmd) dir.1 (environ ++ ["GO111MODULE=on"]) in
  let command := Join (Args cmd) " " in
  let! _ := ITree.trigger (Fprintf ("running: " +:+ command +:+ String newline "")) in
  let! out := ITree.trigger (CombinedOutput cmd) in
  match out with
  | (output, Some err) => Ret (output, Some (runError command err output))
  | (output, None) => Ret (output, None)
  end.

Definition InstallPrometheusOperator : itree hostE (option string) :=
  let url := prometheusOperatorURL prometheusOperatorVersion in
  let! out := Run (Command "kubectl" ["create"; "-f"; url]) in
  Ret out.2.

(** [if _, err := Run(cmd); err != nil { warnError(err) }] *)
Definition RunOrWarn (cmd : Cmd) : itree hostE unit :=
  let! out := Run cmd in
  match out.2 with Some err => warnError err | None => Ret () end.

Definition UninstallPrometheusOperator : itree hostE unit :=
  RunOrWarn (Command "kubectl"
    ["delete"; "-f"; prometheusOperatorURL prometheusOperatorVersion]).

Definition UninstallCertManager : itree hostE unit :=
  RunOrWarn (Command "kubectl" ["delete"; "-f"; certmanagerURLTmpl certmanagerVersion]).

Definition certManagerApply : Cmd :=
  Command "kubectl" ["apply"; "-f"; certmanagerURLTmpl certmanagerVersion].

Definition certManagerWait : Cmd :=
  Command "kubectl" ["wait"; "deployment.apps/cert-manager-webhook";
    "--for"; "condition=Available"; "--namespace"; "cert-manager"; "--timeout"; "5m"].

Definition InstallCertManager : itree hostE (option string) :=
  let! out := Run certManagerApply in
  match out.2 with
  | Some err => Ret (Some err)
  | None => let! out := Run certManagerWait in Ret out.2
  end.

Definition LoadImageToKindClusterWithName (name : string) : itree hostE (option string) :=
  let! v := ITree.trigger (LookupEnv "KIND_CLUSTER") in
  let cluster := default "kind" v in
  let! out := Run (Command "kind" ["load"; "docker-image"; name; "--name"; cluster]) in
  Ret out.2.

Definition GetNonEmptyLines (output : string) : list string :=
  filter (λ element, element ≠ "") (Split output newline).

(** ** The check of the end-to-end test (e2e_test.go) *)

(** A failed [Expect] ends the test; an error makes [Eventually] try again. *)
Inductive Verdict := ControllerUp | TryAgain (err : string) | TestFailed.

Definition namespace : string := "telegraf-sidecar-operator".

Definition getPodNames : Cmd :=
  Command "kubectl" ["get"; "pods"; "-l"; "control-plane=controller-manager"; "-o";
    "go-template={{ range .items }}" +:+ "{{ if not .metadata.deletionTimestamp }}" +:+
    "{{ .metadata.name }}" +:+ dq "{{ '\n' }}{{ end }}{{ end }}"; "-n"; namespace].

Definition getPodPhase (controllerPodName : string) : Cmd :=
  Command "kubectl" ["get"; "pods"; controllerPodName; "-o"; "jsonpath={.status.phase}";
    "-n"; namespace].

(** The part after the names of the pods are known. *)
Definition verifyPodNames (podNames : list string) : itree hostE Verdict :=
  match podNames with
  | [controllerPodName] =>
      if negb (Contains controllerPodName "controller-manager") then Ret TestFailed
      else
        let! status := Run (getPodPhase controllerPodName) in
        match status with
        | (_, Some _) => Ret TestFailed
        | (status, None) =>
            if bool_decide (status = "Running") then Ret ControllerUp
            else Ret (TryAgain ("controller pod in " +:+ status +:+ " status"))
        end
  | _ =>
      Ret (TryAgain ("expect 1 controller pods running, but got " +:+
        FormatUint (Z.of_nat (length podNames))))
  end.

Definition verifyControllerUp : itree hostE Verdict :=
  let! podOutput := Run getPodNames in
  match podOutput with
  | (_, Some _) => Ret TestFailed
  | (podOutput, None) => verifyPodNames (GetNonEmptyLines podOutput)
  end.

(** ** The test process *)

(** The working directory or the error of [Getwd], the error of a change to a
    directory, the environment, what was written and which commands were run. *)
Record Host (W : Type) := mkHost {
  cwd : string * option string;
  chdir_error : string → option string;
  environment : list (string * string);
  written : string;
  ran : list Cmd;
  outside : W
}.
Arguments mkHost {W} _ _ _ _ _ _.
Arguments cwd {W} _.
Arguments chdir_error {W} _.
Arguments environment {W} _.
Arguments written {W} _.
Arguments ran {W} _.
Arguments outside {W} _.

Section host.
Context {W : Type} (execute : W → Cmd → W * (string * option string)).
Implicit Types (h : Host W) (cmd : Cmd).

Definition environ_of (env : list (string * string)) : list string :=
  (λ '(k, v), k +:+ "=" +:+ v) <$> env.

Definition lookup_env (env : list (string * string)) (key : string) : option string :=
  snd <$> find (λ '(k, _), bool_decide (k = key)) env.

Definition write (text : string) h : Host W :=
  let '(mkHost cd ce env out cmds w) := h in mkHost cd ce env (out +:+ text) cmds w.

(** The directories given to [Chdir] are absolute, or empty, which is an error. *)
Definition change_dir (dir : string) h : Host W * option string :=
  let '(mkHost cd ce env out cmds w) := h in
  if bool_decide (dir = "") then (h, Some "chdir : no such file or directory")
  else match ce dir with
    | Some err => (h, Some err)
    | None => (mkHost (dir, None) ce env out cmds w, None)
    end.

Definition run_command cmd h : Host W * (string * option string) :=
  let '(mkHost cd ce env out cmds w) := h in
  let '(w, answer) := execute w cmd in
  (mkHost cd ce env out (cmds ++ [cmd]) w, answer).

Definition host_step (T : Type) (e : hostE T) : Host W → Host W * T :=
  match e with
  | Getwd => λ h, (h, cwd h)
  | Chdir dir => change_dir dir
  | Environ => λ h, (h, environ_of (environment h))
  | LookupEnv key => λ h, (h, lookup_env (environment h) key)
  | Fprintf text => λ h, (write text h, ())
  | CombinedOutput cmd => run_command cmd
  end.

Definition host_handler : ∀ T, hostE T → Host W → itree void1 (Host W * T) :=
  λ T e h, Ret (host_step T e h).

(** Started on [h], the helper ends with the result [r] on another host. *)
Definition returns {A} (t : itree hostE A) h (r : Host W * A) : Prop :=
  eutt eq (interp_state host_handler t h) (Ret r).

(** ** What a helper does, without the tree *)

Definition project_dir h : string :=
  match cwd h with (wd, Some _) => wd | (wd, None) => DeleteAll wd "/test/e2e" end.

Definition entered (dir : string) h : Host W :=
  match change_dir dir h with
  | (h, Some err) => write ("chdir dir: " +:+ err +:+ String newline "") h
  | (h, None) => h
  end.

(** The command as [Run] hands it to the system. *)
Definition run_cmd cmd h : Cmd :=
  mkCmd (Args cmd) (project_dir h) (environ_of (environment h) ++ ["GO111MODULE=on"]).

Definition ready cmd h : Host W :=
  write ("running: " +:+ Join (Args cmd) " " +:+ String newline "") (entered (project_dir h) h).

Definition run_result cmd h : Host W * (string * option string) :=
  match run_command (run_cmd cmd h) (ready cmd h) with
  | (h, (output, Some err)) => (h, (output, Some (runError (Join (Args cmd) " ") err output)))
  | (h, (output, None)) => (h, (output, None))
  end.

(** * Lemmas *)

Lemma returns_ret {A} (a : A) h : returns (Ret a) h (h, a).
Proof. unfold returns. rewrite interp_state_ret. reflexivity. Qed.

Lemma returns_trigger {A} (e : hostE A) h : returns (ITree.trigger e) h (host_step A e h).
Proof. unfold returns. rewrite interp_state_trigger. reflexivity. Qed.

Lemma returns_bind {A B} (t : itree hostE A) (k : A → itree hostE B) h r r' :
  returns t h r → returns (k r.2) r.1 r' → returns (ITree.bind t k) h r'.
Proof.
  unfold returns. intros Ht Hk. rewrite interp_state_bind, Ht, bind_ret_l. exact Hk.
Qed.

Lemma returns_det {A} (t : itree hostE A) h r1 r2 : returns t h r1 → returns t h r2 → r1 = r2.
Proof. unfold returns. intros H1 H2. rewrite H1 in H2. by apply eutt_inv_Ret in H2. Qed.

Lemma returns_trigger_bind {A B} (e : hostE A) (k : A → itree hostE B) h r' :
  returns (k (host_step A e h).2) (host_step A e h).1 r' →
  returns (ITree.bind (ITree.trigger e) k) h r'.
Proof. apply returns_bind, returns_trigger. Qed.

Lemma GetProjectDir_returns h : ∃ err, returns GetProjectDir h (h, (project_dir h, err)).
Proof.
  unfold project_dir. destruct (cwd h) as [wd [e|]] eqn:E; eexists;
    apply returns_trigger_bind; cbn [host_step fst snd]; rewrite E; apply returns_ret.
Qed.

Lemma enter_returns dir h : returns (enter dir) h (entered dir h, ()).
Proof.
  apply returns_trigger_bind; cbn [host_step]. unfold entered.
  destruct (change_dir dir h) as [h' [e|]]; [apply returns_trigger|apply returns_ret].
Qed.

Lemma environment_entered dir h : environment (entered dir h) = environment h.
Proof. destruct h. unfold entered, change_dir. repeat case_match; simplify_eq; done. Qed.

(** [Run] ends on every host, and does what [run_result] says. *)
Lemma Run_returns cmd h : returns (Run cmd) h (run_result cmd h).
Proof.
  destruct (GetProjectDir_returns h) as [err Hd].
  eapply returns_bind; [exact Hd|]; cbn [fst snd].
  eapply returns_bind; [apply enter_returns|]; cbn [fst snd].
  apply returns_trigger_bind; cbn [host_step fst snd Args]. rewrite environment_entered.
  apply returns_trigger_bind; cbn [host_step fst snd].
  apply returns_trigger_bind; cbn [host_step]. unfold run_result, ready, run_cmd.
  destruct (run_command _ _) as [h' [output [e|]]]; apply returns_ret.
Qed.

Lemma ran_write text h : ran (write text h) = ran h.
Proof. by destruct h. Qed.

Lemma ran_entered dir h : ran (entered dir h) = ran h.
Proof. destruct h. unfold entered, change_dir. repeat case_match; simplify_eq; done. Qed.

Lemma run_result_ran cmd h : ran (run_result cmd h).1 = ran h ++ [run_cmd cmd h].
Proof.
  unfold run_result. assert (ran (ready cmd h) = ran h) as Hr
    by (unfold ready; by rewrite ran_write, ran_entered).
  destruct (ready cmd h) as [cd ce env out cmds w]. unfold run_command; cbn in Hr |- *; subst.
  destruct (execute w _) as [w' [output [e|]]]; done.
Qed.

(** The directory left by a run: the project's, if it can be entered. *)
Lemma run_result_cwd cmd h :
  project_dir h ≠ "" → chdir_error h (project_dir h) = None →
  cwd (run_result cmd h).1 = (project_dir h, None) ∧
  chdir_error (run_result cmd h).1 = chdir_error h ∧
  environment (run_result cmd h).1 = environment h.
Proof.
  intros Hne Hdir. unfold run_result, ready, entered. destruct h as [cd ce env out cmds w].
  unfold change_dir. rewrite bool_decide_eq_false_2 by done. cbn in Hdir. rewrite Hdir.
  unfold run_command; cbn. destruct (execute w _) as [w' [output [e|]]]; done.
Qed.

Lemma RunOrWarn_returns cmd h :
  returns (RunOrWarn cmd) h
    (match run_result cmd h with
     | (h, (_, Some err)) => write ("warning: " +:+ err +:+ String newline "") h
     | (h, (_, None)) => h
     end, ()).
Proof.
  eapply returns_bind; [apply Run_returns|].
  destruct (run_result cmd h) as [h' [output [e|]]]; cbn [fst snd];
    [apply returns_trigger|apply returns_ret].
Qed.

(** * Properties *)

(** [InstallCertManager] waits for the webhook's deployment exactly when the
    manifest could be applied, and returns the error of the command that failed:
    it succeeds exactly when both commands do. *)
Theorem InstallCertManager_spec h :
  let '(h1, (_, err1)) := run_result certManagerApply h in
  let '(h2, (_, err2)) := run_result certManagerWait h1 in
  match err1 with
  | Some err =>
      returns InstallCertManager h (h1, Some err) ∧
      ran h1 = ran h ++ [run_cmd certManagerApply h]
  | None =>
      returns InstallCertManager h (h2, err2) ∧
      ran h2 = ran h ++ [run_cmd certManagerApply h; run_cmd certManagerWait h1]
  end.
Proof.
  pose proof (run_result_ran certManagerApply h) as Hr1.
  pose proof (Run_returns certManagerApply h) as H1.
  destruct (run_result certManagerApply h) as [h1 [out1 err1]].
  pose proof (run_result_ran certManagerWait h1) as Hr2.
  pose proof (Run_returns certManagerWait h1) as H2.
  destruct (run_result certManagerWait h1) as [h2 [out2 err2]].
  destruct err1 as [err|]; (split; [eapply returns_bind; [exact H1|]; cbn [fst snd]|]).
  - apply returns_ret.
  - exact Hr1.
  - eapply returns_bind; [exact H2|]. apply returns_ret.
  - cbn in *. by rewrite Hr2, Hr1, <- app_assoc.
Qed.

(** The two uninstallations never fail: each runs one command, and a failure is
    only written as a warning. *)
Theorem uninstall_warns h t cmd :
  (t, cmd) ∈
    [(UninstallPrometheusOperator,
      Command "kubectl" ["delete"; "-f"; prometheusOperatorURL prometheusOperatorVersion]);
     (UninstallCertManager,
      Command "kubectl" ["delete"; "-f"; certmanagerURLTmpl certmanagerVersion])] →
  ∃ h', returns t h (h', ()) ∧ ran h' = ran h ++ [run_cmd cmd h] ∧
    written h' = written (run_result cmd h).1 +:+
      match (run_result cmd h).2.2 with
      | Some err => "warning: " +:+ err +:+ String newline ""
      | None => ""
      end.
Proof.
  intros Hin. assert (t = RunOrWarn cmd) as ->
    by (repeat (apply elem_of_cons in Hin as [[= -> ->]|Hin]; [done|]); by apply elem_of_nil in Hin).
  eexists. split; [apply RunOrWarn_returns|].
  pose proof (run_result_ran cmd h) as Hr.
  destruct (run_result cmd h) as [h' [output [e|]]]; cbn [fst snd] in *.
  - rewrite ran_write. split; [done|]. by destruct h'.
  - split; [done|]. by rewrite string_app_nil_r.
Qed.

(** The image goes to the cluster that the environment names, or to [kind]. *)
Theorem LoadImage_spec h name :
  let cmd := Command "kind" ["load"; "docker-image"; name; "--name";
    default "kind" (lookup_env (environment h) "KIND_CLUSTER")] in
  returns (LoadImageToKindClusterWithName name) h
    ((run_result cmd h).1, (run_result cmd h).2.2) ∧
  ran (run_result cmd h).1 = ran h ++ [run_cmd cmd h].
Proof.
  intros cmd. split; [|apply run_result_ran].
  apply returns_trigger_bind; cbn [host_step fst snd].
  eapply returns_bind; [apply Run_returns|]. apply returns_ret.
Qed.
End host.

(** ** The directory of the project *)

Lemma DeleteAll_free s old : Contains s old = false → DeleteAll s old = s.
Proof.
  unfold DeleteAll. induction s as [|c s IH]; [done|]. cbn [Contains DeleteAll_go].
  intros [Hp Hs]%orb_false_iff. rewrite Hp. by rewrite IH.
Qed.

(** No proper suffix of ["/test/e2e"] begins it. *)
Lemma suite_prefix_app c s :
  HasPrefix (String c s +:+ "/test/e2e") "/test/e2e" = true →
  HasPrefix (String c s) "/test/e2e" = true.
Proof.
  rewrite string_app_cons. cbn [HasPrefix]. case_bool_decide; [|done]. cbn [andb].
  do 8 (destruct s as [|? s]; [by rewrite string_app_nil_l|]; rewrite string_app_cons;
    cbn [HasPrefix]; case_bool_decide; [|done]; cbn [andb]).
  done.
Qed.

Lemma DeleteAll_suite root :
  Contains root "/test/e2e" = false → DeleteAll (root +:+ "/test/e2e") "/test/e2e" = root.
Proof.
  unfold DeleteAll. induction root as [|c root IH]; [reflexivity|].
  rewrite string_app_cons. cbn [Contains DeleteAll_go].
  intros [Hp Hs]%orb_false_iff. rewrite <- string_app_cons.
  destruct (HasPrefix (String c root +:+ "/test/e2e") "/test/e2e") eqn:E.
  - apply suite_prefix_app in E. congruence.
  - by rewrite IH.
Qed.

Section directory.
Context {W : Type} (execute : W → Cmd → W * (string * option string)).
Implicit Types (h : Host W) (cmds : list Cmd).

(** Several commands, one after the other, whatever they answer. *)
Definition RunAll cmds : itree hostE unit :=
  foldr (λ cmd t, let! _ := Run cmd in t) (Ret ()) cmds.

Lemma RunAll_in_project root env cmds h :
  root ≠ "" → chdir_error h root = None → Contains root "/test/e2e" = false →
  project_dir h = root → environment h = env →
  ∃ h', returns execute (RunAll cmds) h (h', ()) ∧
    ran h' = ran h ++
      ((λ cmd, mkCmd (Args cmd) root (environ_of env ++ ["GO111MODULE=on"])) <$> cmds).
Proof.
  intros Hne Hdir Hroot Hp Henv. revert h Hdir Hp Henv.
  induction cmds as [|cmd cmds IH]; intros h Hdir Hp Henv.
  { exists h. split; [apply returns_ret|]. by rewrite app_nil_r. }
  pose proof (run_result_ran execute cmd h) as Hran.
  destruct (run_result_cwd execute cmd h) as (Hcwd & Hce & He); [by rewrite Hp..|].
  destruct (IH (run_result execute cmd h).1) as (h' & Hret & Hran').
  - by rewrite Hce.
  - unfold project_dir at 1. rewrite Hcwd, Hp. by apply DeleteAll_free.
  - by rewrite He.
  - exists h'. split; [eapply returns_bind; [apply Run_returns|exact Hret]|].
    rewrite Hran', Hran. unfold run_cmd. rewrite Hp, Henv. by rewrite <- app_assoc.
Qed.

(** The suite is started in [test/e2e] of the project: every command then runs in
    the root of the project, the first as well as the ones after the process has
    changed its directory, provided that the path of the project does not itself
    contain [/test/e2e]. *)
Theorem commands_run_in_project root cmds h :
  root ≠ "" → Contains root "/test/e2e" = false →
  cwd h = (root +:+ "/test/e2e", None) → chdir_error h root = None →
  ∃ h', returns execute (RunAll cmds) h (h', ()) ∧
    Forall (λ cmd, Dir cmd = root) (drop (length (ran h)) (ran h')) ∧
    (Args <$> ran h') = (Args <$> ran h) ++ (Args <$> cmds).
Proof.
  intros Hne Hroot Hcwd Hdir.
  destruct (RunAll_in_project root (environment h) cmds h) as (h' & Hret & Hran); [done..| |done|].
  { unfold project_dir. rewrite Hcwd. by apply DeleteAll_suite. }
  exists h'. rewrite Hran, drop_app_length, fmap_app, <- list_fmap_compose. split_and!; [done| |done].
  by apply Forall_fmap, Forall_true.
Qed.
End directory.

(** ** Lines *)

(** The non-empty lines, in order. *)
Theorem GetNonEmptyLines_spec lines :
  lines ≠ [] → Forall (λ l, free_of newline l = true) lines →
  GetNonEmptyLines (Join lines (String newline "")) = filter (λ l, l ≠ "") lines.
Proof. intros Hne Hl. unfold GetNonEmptyLines. by rewrite Split_Join. Qed.

(** What a template prints, a name and a newline per item, is read back. *)
Lemma Split_lines names :
  Forall (λ l, free_of newline l = true) names →
  Split (foldr (λ l s, l +:+ String newline s) "" names) newline = names ++ [""].
Proof.
  induction 1 as [|l names Hl Hn IH]; [done|]. cbn [foldr].
  rewrite Split_free_app by done. by rewrite IH.
Qed.

Theorem GetNonEmptyLines_template names :
  Forall (λ l, l ≠ "" ∧ free_of newline l = true) names →
  GetNonEmptyLines (foldr (λ l s, l +:+ String newline s) "" names) = names.
Proof.
  intros Hn. unfold GetNonEmptyLines.
  rewrite Split_lines by (eapply Forall_impl; [exact Hn|by intros ? []]).
  rewrite filter_app, app_nil_r. clear -Hn.
  induction Hn as [|l names [Hl _] Hn IH]; [done|]. rewrite filter_cons_True by done. by rewrite IH.
Qed.

(** ** The controller is up *)

Section controller_up.
Context {W : Type} (execute : W → Cmd → W * (string * option string)).
Implicit Types (h : Host W).

Lemma verifyPodNames_returns h podNames :
  ∃ r, returns execute (verifyPodNames podNames) h r ∧
    (r.2 = ControllerUp ↔ ∃ name, podNames = [name] ∧
       Contains name "controller-manager" = true ∧
       (run_result execute (getPodPhase name) h).2 = ("Running", None)).
Proof.
  destruct podNames as [|name [|name' names]].
  1, 3: by eexists; split; [apply returns_ret|naive_solver].
  cbn [verifyPodNames]. destruct (Contains name "controller-manager") eqn:Ec; cbn [negb].
  2: by eexists; split; [apply returns_ret|naive_solver congruence].
  pose proof (Run_returns execute (getPodPhase name) h) as H1.
  destruct (run_result execute (getPodPhase name) h) as [h1 [status [err|]]] eqn:E.
  { eexists. split; [eapply returns_bind; [exact H1|apply returns_ret]|]. cbn [snd].
    split; [done|]. intros (n & [= <-] & _ & Hn). by rewrite E in Hn. }
  destruct (decide (status = "Running")) as [->|Hs].
  - eexists. split.
    + eapply returns_bind; [exact H1|]; cbn [fst snd]. apply returns_ret.
    + split; [|done]. intros _. exists name. by rewrite E.
  - eexists. split.
    + eapply returns_bind; [exact H1|]; cbn [fst snd].
      rewrite bool_decide_eq_false_2 by done. apply returns_ret.
    + split; [done|]. intros (n & [= <-] & _ & Hn). rewrite E in Hn. by simplify_eq/=.
Qed.

(** The check succeeds exactly when both commands do, the first prints a single
    non-empty line, the name of a controller manager, and the second answers that
    this pod is running; it always ends. *)
Theorem verifyControllerUp_spec h :
  let '(h1, (podOutput, err1)) := run_result execute getPodNames h in
  ∃ h' verdict, returns execute verifyControllerUp h (h', verdict) ∧
    (verdict = ControllerUp ↔
     err1 = None ∧ ∃ name, GetNonEmptyLines podOutput = [name] ∧
       Contains name "controller-manager" = true ∧
       (run_result execute (getPodPhase name) h1).2 = ("Running", None)).
Proof.
  pose proof (Run_returns execute getPodNames h) as H1.
  destruct (run_result execute getPodNames h) as [h1 [podOutput err1]].
  destruct err1 as [err|].
  { do 2 eexists. split; [eapply returns_bind; [exact H1|apply returns_ret]|naive_solver]. }
  destruct (verifyPodNames_returns h1 (GetNonEmptyLines podOutput)) as ([h' v] & Hr & Hv).
  exists h', v. split; [by eapply returns_bind|]. naive_solver.
Qed.
End controller_up.

(** ** Samples *)

(** A cluster with one controller manager, in a phase that is the world outside. *)
Definition sample_execute (phase : string) (cmd : Cmd) : string * (string * option string) :=
  (phase,
   if bool_decide (Args cmd = Args getPodNames) then
     ("controller-manager-7d4b9" +:+ String newline "", None)
   else if bool_decide (Args cmd = Args (getPodPhase "controller-manager-7d4b9")) then (phase, None)
   else ("unknown command", Some "exit status 1")).

Definition sample_host (phase : string) : Host string :=
  mkHost ("/home/me/operator/test/e2e", None) (λ _, None) [("PATH", "/bin")] "" [] phase.

Lemma sample_up :
  ∃ h', returns sample_execute verifyControllerUp (sample_host "Running") (h', ControllerUp).
Proof.
  pose proof (verifyControllerUp_spec sample_execute (sample_host "Running")) as Hs.
  destruct (run_result sample_execute getPodNames (sample_host "Running")) as [h1 [out err]] eqn:E.
  destruct Hs as (h' & v & Hr & Hv). exists h'.
  replace v with ControllerUp in Hr; [exact Hr|]. symmetry. apply Hv.
  vm_compute in E. simplify_eq. split; [done|].
  exists "controller-manager-7d4b9". vm_compute. done.
Qed.

Lemma commands_run_in_project_witness :
  ∃ h', returns sample_execute (RunAll [certManagerApply; certManagerWait])
      (sample_host "Pending") (h', ()) ∧
    Forall (λ cmd, Dir cmd = "/home/me/operator") (ran h').
Proof.
  destruct (commands_run_in_project sample_execute "/home/me/operator"
    [certManagerApply; certManagerWait] (sample_host "Pending")) as (h' & Hr & Hd & _).
  - done.
  - vm_compute. reflexivity.
  - vm_compute. reflexivity.
  - reflexivity.
  - exists h'. split; [exact Hr|exact Hd].
Defined.
